(* ===== verification/_CoqProject ===== *)
-Q . S2P
Prelude.v
RingBuffer.v
ByteBuffer.v
Brain.v
OpenDoor.v
Messaging.v
Atm.v
KcpWire.v
Kcp.v
KcpInv.v
Iqueue.v
IqueueRefine.v
KcpInput.v
KcpUser.v
KcpFlush.v
KcpApi.v
KcpNet.v
KcpRound.v
KcpLink.v
KcpApp.v
KcpEcho.v
KcpPeer.v
KcpTest.v
StrUtil.v
TimeUtil.v
IocpSocket.v
IocpPackets.v
LockFree.v
ThreadPool.v
Log.v
EpollServer.v
Convert.v
Parallel.v
Generators.v
Tasks.v
Event.v
Coroutine.v
