(* ===== verification/Prelude.v ===== *)
(** * ServerTech: a verification of its server components

    ServerTech is a collection of server techniques in C++: network buffers and a
    reliable protocol over UDP (io), a behaviour-tree library (behavior_tree), a message-passing example
    (conc-in-action/atm_example) and the shared utilities of a game server
    (DarkEden_Example).  This library models the parts that have state and logic of
    their own and proves them correct, or shows where they are not.

    ** The files

    - Prelude.v: machine integers, the outcomes of a C++ computation, memory blocks
      as lists with checked accesses, reachability of step relations, automation.
    - RingBuffer.v: the bip buffer of io/win/shared/CircularBuffer.cpp (Module
      CircularBuffer) and of io/SkyNet/src/shared/BipBuffer.cpp (Module BipBuffer).
      The record [regions] has the members both classes have, addresses included.
    - ByteBuffer.v: io/win/shared/ByteBuffer.hpp, the packet buffer: positions,
      storage, the typed stream operators, packed GUIDs, the hex dump.
    - Brain.v: behavior_tree/brain.h: [Context], the node classes, [reset] and
      [update] of a tree, with the leaves' own effects as parameters.
    - OpenDoor.v: the builder of brain.h as calls on an object heap (Module Builder)
      and the open-door example (Module CrossDoor and the two trees).
    - Messaging.v: the queue, sender, receiver and handler chains of
      conc-in-action/atm_example.
    - Atm.v: the four threads of that example (Modules bank_machine,
      interface_machine, atm, keyboard) and their system as a step relation.
    - KcpWire.v, Kcp.v: the protocol of io/kcp/include/ikcp.c: its wire format and its
      control block with every operation.  KcpInv.v has the well-formedness of a
      control block, KcpInput.v, KcpUser.v and KcpFlush.v what ikcp_input, ikcp_send
      and ikcp_recv, and ikcp_flush, ikcp_update and ikcp_check do, KcpApi.v the
      calls as an interface, KcpNet.v two control blocks and a network that loses,
      repeats and reorders datagrams, KcpRound.v what one lossless exchange achieves.
    - Iqueue.v: the queues of ikcp.h as linked nodes in memory, and the loops of ikcp.c
      over them; IqueueRefine.v shows that they implement the lists of Kcp.v.
    - KcpLink.v: the simulated network of io/kcp/test.h (Modules Random and
      LatencySimulator).
    - KcpApp.v, KcpEcho.v: the programs of io/kcp (Modules util, UdpSocket, Connection,
      Server, Client), and the client's automatic test against a connection that
      echoes, over a network that loses, repeats and reorders.
    - KcpPeer.v, KcpTest.v: one end of a connection in stream mode, and io/kcp/test.cpp:
      two control blocks joined by the simulated network.
    - StrUtil.v, TimeUtil.v: DarkEden_Example/src/Shared/Util.cpp, Util.h and
      Common.h: strings, safe_memcpy, URL and UTF-8 coding, paths; calendar, CIDR
      test, random choices, identifiers.
    - IocpSocket.v: the socket of io/win/shared/Socket.cpp with the
      completion handlers of SocketMgr.cpp, over two CircularBuffers;
      IocpPackets.v: the packets of io/win (Framing) and the client's and the
      server's socket, the classes derived from it.
    - LockFree.v: the stack of conc-in-action/7-conc-lock-free with its hazard pointers,
      a step of a thread at a time.
    - ThreadPool.v: the pool of io/linux/day14 (Module Pool), and those of io/SkyNet
      (SkyPool) and io/win (WinPool), as step relations.
    - Coroutine.v: the coroutine library of coroutine-sets/c-coroutine and its main
      program.
    - Log.v: the logger of DarkEden_Example/src/Shared/Log.cpp: messages, queues, the
      thread that writes them, as a step relation.
    - EpollServer.v: the echo server of io/linux/day9, a system call of a worker at a time.
    - Convert.v: the rest of Util.cpp and Common.h: numbers as text, the time of
      compilation, directory lists.
    - Parallel.v: the quicksorts of conc-in-action/4-sync (Module QuickSort) and the
      parallel_accumulate of 2-managing-threads (Module Accumulate).
    - Generators.v: generators as C++20 coroutines, coroutine-sets/cpp-coroutine:
      generator_example.cpp (Module Pipeline) and fib_gen.cpp (Module Fibonacci).
    - Tasks.v: tasks that await one another, in the same directory:
      understand_symmetric_transfer (Module Nested) as a machine with frames and a stack of
      calls, and the coroutine that understand_compiler_transform lowers by hand (Module
      Lowered).
    - Event.v: the event that coroutines await of understand_co_await, an atomic operation
      at a time.

    Definitions have the names of the functions and members they model.  Atm.v is
    built on the typeclass [Messaging.Typed], which is all that the handler chains
    know of a message; the Kcp files build on each other; IocpSocket.v on
    RingBuffer.v, with the virtual members of a derived class as the typeclass
    [IocpSocket.Derived], and IocpPackets.v on it and on ByteBuffer.v; Log.v and
    Convert.v use the text functions of StrUtil.v and TimeUtil.v.  The other components
    are independent of each other, as they are in the program, and share this file.

    ** How the code is modelled

    An integer is a [Z] in the range of its type; every conversion and every
    arithmetic operation that can leave it is written out ([u8] .. [u64], [i32],
    [i64]).  A call that can go wrong returns an [outcome]: a failed assertion, an
    undefined behaviour (an access outside a block, an over-wide shift, a signed
    overflow where the code can reach one), an exception.  Memory is a list of
    bytes, and [mread] and [mwrite] check every access, so a theorem that a call is
    [Ok] is also one that it stays in its memory.

    ** What the theorems show

    - RingBuffer: any sequence of operations is a bounded first-in first-out byte
      queue (a refinement); Write succeeds exactly when GetSpace says so; the two
      classes are the same queue; the zero-copy interface is sound.
    - ByteBuffer: what the stream operators write they read back, for every type
      they compose; a packed GUID comes back exactly below 2^31; put, string and
      hexlike behave as stated.
    - Brain: an update keeps to its own nodes' entries and always ends; remembered
      indices are valid; Running children are resumed; each composite and decorator
      does what its kind says.
    - OpenDoor: a chain of builder calls builds the tree it spells out; the example
      tree opens every reachable door.
    - Messaging and Atm: a handler chain takes the first message it is for; in every
      interleaving the bank does not overdraw, money is issued at most once per
      approval, and all the threads end; two executions show a wrong PIN accepted
      and a cancelled withdrawal lost.
    - Kcp: every call with valid arguments keeps the control block well formed and
      stays in its memory (an acknowledgement days old excepted, which overflows);
      a flush sends exactly what is due, framed in datagrams of at most an MTU; any
      bytes can be input; its linked queues implement lists, in any sequence of calls,
      and ikcp_release frees every segment; whatever the network does, the receiver gets a prefix of
      the bytes sent and, in message mode, whole messages in order; when nothing is
      lost, one exchange delivers all that is in flight.
    - KcpLink, KcpApp and KcpEcho: the simulated link is a lossy queue that loses an
      exact share; the client reads whole packets one by one; the automatic test with
      packets of one segment fails in no execution, and with longer ones it does over a perfect
      network.
    - KcpPeer and KcpTest: the test program moves the bytes both ways, unchanged and in
      order, in every mode, and no iteration of it hangs or is undefined while the clock
      stays within five and a half hours; packets longer than a segment make it report an
      error over a perfect network.
    - StrUtil and TimeUtil: split is characterised and its relatives agree with it;
      safe_memcpy is safe; codings and dates round-trip; IsLegal, _IsStringUTF8 and
      ParseCIDRBan are characterised; GetRandList draws distinct numbers.  Some
      lemmas exhibit defects: replace_all, GetRandList and ForceDirectory on certain
      inputs, the leap-year tests, IDCreator.
    - IocpSocket and IocpPackets: a burst is transmitted exactly, in order; every
      packet put into a stream arrives, however the stream is cut into reads; a
      server that answers locks a mutex its thread holds already; deletion, disconnection
      and end of file leave the socket as it was, and CloseAll is undefined.
    - LockFree: the stack is linearizable and uses no deleted node; a call that runs alone
      ends; nodes that another thread held are leaked.
    - ThreadPool: the pool of day14 runs every task it took and its destructor
      returns; the workers of SkyNet's outlive it; the shutdown of io/win's can wait
      for ever and drops what is queued.
    - Coroutine: coroutines that share one stack, copied in and out, behave as if each
      had its own; a new coroutine gets a free id; a resume changes no other one.
    - Log: messages reach the files whole, once and in order, in every interleaving; close
      can wait for ever, drops what is queued, and outToFile overwrites what others flush.
    - EpollServer: when events of a connection do not overlap its handling, the table, the
      objects and the epoll set agree and each connection writes what it reads; when they
      do, a deleted object is used.
    - Convert: integers are read back from their text; the time of compilation is read
      back; every file of a tree is listed.
    - Parallel: the four quicksorts end and agree, whatever std::partition does within its
      contract; parallel_accumulate gives the sequential result, for any number of threads
      and any order in which they end.
    - Generators: what a generator yields composes through the generators that read it, so
      the example returns its sum; the Fibonacci generator prints exactly the numbers that
      fit and ends by its exception when there would be more.
    - Tasks: waiting for a task always returns and destroys every frame, with as many calls
      on the stack as tasks were awaited; the resume function of the lowered coroutine is
      right, but its frame never gets its function pointers.
    - Event: no wake-up is lost and no coroutine is resumed that is not suspended, in any
      interleaving; a call of set that goes on wakes every awaiter.

    ** Fuel

    Loops whose recursion is not structural take fuel, and each has a theorem or
    lemma that the fuel given is enough: a string or buffer loop consumes a byte a
    round, so its length plus one; a tree update takes any fuel unless the tree has
    UntilSuccess or UntilFailure, which may really not end; ForceDirectory goes to a
    proper prefix of its path; the packet loop of io/win consumes a byte a round; ikcp_input consumes a header a round, and 33 doublings
    exhaust the uint32 that sizes the list of acknowledgements; the rounds of the logger
    thread are bounded by what is queued; a loop over a linked
    queue takes one more than there are segments in memory; the loops of test.cpp take one
    more than there are packets in the line, segments to receive, or steps of slap up to
    the time; a quicksort takes more than its input is long, a loop over a generator more
    than it has values; the machine of Tasks.v takes three steps an awaited task and five.  A coroutine may run for
    ever, so the number of its calls is an argument, and the theorem on it holds for
    every number.  replace_all and GetRandList keep the fuel as an
    argument, because on some inputs no fuel is enough, which is proved.

    ** Parameters

    The memory malloc returns and where, what a coroutine does between two calls, the leaves of a behaviour tree, what a message with
    members contains when received (see Messaging.v), what is in a buffer that is not
    initialised, the file system, localtime,
    mktime and rand (the environment's), the order in which std::partition leaves what it
    partitions, the number of threads of the hardware, clocks, random_device, what arrives on a socket and
    what system calls answer, what vsnprintf makes of its arguments, where a file opened
    for appending starts, FromHex, RSIZE_MAX and the f of understand_compiler_transform (not in the source).

    ** Not modelled

    The system calls under the sockets, crash dumps, conversions between code pages
    (system calls), KCP's logging and allocator hooks and the mains of its programs,
    and the many sample programs that show a feature of the language; of the samples,
    those with an algorithm or a protocol of their own are in Parallel.v, Generators.v,
    Tasks.v and Event.v.  The reactor of
    io/SkyNet does not compile (its Connection calls members its buffer has not), nor
    do the lock-based containers of conc-in-action; day14 of io/linux does not link. *)

From stdpp Require Import base tactics option list numbers.
From Stdlib Require Import ZArith Lia Bool.

#[local] Open Scope Z_scope.

Declare Scope cxx_scope.
Delimit Scope cxx_scope with cxx.

(** ** Machine integers

    A C++ unsigned integer of [w] bits is a [Z] in [0 .. 2^w); a signed one is
    a [Z] in [-2^(w-1) .. 2^(w-1)).  [wrap] and [swrap] are the conversions
    to these types (two's complement for the signed ones). *)

Definition wrap (w z : Z) : Z := z mod 2 ^ w.
Definition swrap (w z : Z) : Z := (z + 2 ^ (w - 1)) mod 2 ^ w - 2 ^ (w - 1).

Abbreviation u8 := (wrap 8).
Abbreviation u16 := (wrap 16).
Abbreviation u32 := (wrap 32).
Abbreviation u64 := (wrap 64).
Abbreviation i32 := (swrap 32).
Abbreviation i64 := (swrap 64).

Definition is_byte (b : Z) : Prop := 0 <= b < 256.

#[global] Instance is_byte_dec b : Decision (is_byte b).
Proof. unfold is_byte. apply _. Defined.

(** ** Outcomes of a C++ computation

    [Ok] is a normal return.  [Err] names how a call can go wrong: a failed
    [assert], a step whose behaviour the language leaves undefined (an access
    outside an object, an over-wide shift, a null dereference), a thrown
    exception, or a loop that has used the fuel of its model. *)

Inductive failure :=
| AssertionFailure
| UndefinedBehaviour
| Thrown
| OutOfFuel.

#[global] Instance failure_eq_dec : EqDecision failure.
Proof. solve_decision. Defined.

Inductive outcome (A : Type) : Type :=
| Ok (a : A)
| Err (f : failure).
Arguments Ok {A} a.
Arguments Err {A} f.

#[global] Instance outcome_ret : MRet outcome := fun A a => Ok a.
#[global] Instance outcome_bind : MBind outcome := fun A B k m =>
  match m with Ok a => k a | Err f => Err f end.

(** [assert( b )]. *)
Definition cxx_assert (b : bool) : outcome unit :=
  if b then Ok tt else Err AssertionFailure.

(** What an access must satisfy to be defined. *)
Definition guard_defined (b : bool) : outcome unit :=
  if b then Ok tt else Err UndefinedBehaviour.

Notation "'let*' x ':=' m 'in' k" := (mbind (M:=outcome) (fun x => k) m)
  (at level 10, x pattern, m at level 100, k at level 200) : cxx_scope.
Notation "m ';;*' k" := (mbind (M:=outcome) (fun _ => k) m)
  (at level 100, k at level 200, right associativity) : cxx_scope.
Open Scope cxx_scope.

Lemma outcome_bind_ok {A B} (a : A) (k : A -> outcome B) : mbind k (Ok a) = k a.
Proof. reflexivity. Qed.

Lemma outcome_bind_inv {A B} (m : outcome A) (k : A -> outcome B) b :
  mbind k m = Ok b -> exists a, m = Ok a /\ k a = Ok b.
Proof. destruct m as [a|f]; intros H; [by exists a | discriminate H]. Qed.

Lemma outcome_bind_assoc {A B C} (m : outcome A) (k : A -> outcome B) (h : B -> outcome C) :
  mbind h (mbind k m) = mbind (fun a => mbind h (k a)) m.
Proof. by destruct m. Qed.

Lemma cxx_assert_true b : b = true -> cxx_assert b = Ok tt.
Proof. by intros ->. Qed.

Lemma guard_defined_true b : b = true -> guard_defined b = Ok tt.
Proof. by intros ->. Qed.

(** ** Automation

    The hint database [cxx] rewrites binds of returned values and the sizes of
    the lists that model memory. *)

Create HintDb cxx.
Create Rewrite HintDb cxx.
#[export] Hint Rewrite @outcome_bind_ok @outcome_bind_assoc : cxx.
#[export] Hint Resolve cxx_assert_true guard_defined_true : cxx.

(** Splits the booleans of a hypothesis or goal into facts for [lia]. *)
Ltac to_prop :=
  repeat match goal with
  | H : _ && _ = true |- _ => apply andb_true_iff in H as [? ?]
  | H : _ && _ = false |- _ => apply andb_false_iff in H
  | H : _ || _ = true |- _ => apply orb_true_iff in H
  | H : _ || _ = false |- _ => apply orb_false_iff in H as [? ?]
  | H : negb _ = true |- _ => apply negb_true_iff in H
  | H : negb _ = false |- _ => apply negb_false_iff in H
  | H : (_ <=? _) = true |- _ => apply Z.leb_le in H
  | H : (_ <=? _) = false |- _ => apply Z.leb_gt in H
  | H : (_ <? _) = true |- _ => apply Z.ltb_lt in H
  | H : (_ <? _) = false |- _ => apply Z.ltb_ge in H
  | H : (_ =? _) = true |- _ => apply Z.eqb_eq in H
  | H : (_ =? _) = false |- _ => apply Z.eqb_neq in H
  | H : bool_decide _ = true |- _ => apply bool_decide_eq_true in H
  | H : bool_decide _ = false |- _ => apply bool_decide_eq_false in H
  end.

(** Case analysis on the comparisons and decisions of the goal. *)
Ltac split_ifs :=
  repeat match goal with
  | |- context [if ?b then _ else _] => let E := fresh "E" in destruct b eqn:E
  end; to_prop.

(** Runs one inversion step of a monadic equation [m >>= k = Ok r]. *)
Ltac invert_ok :=
  repeat match goal with
  | H : mbind _ _ = Ok _ |- _ =>
      apply outcome_bind_inv in H as (? & ? & H)
  | H : Ok _ = Ok _ |- _ => injection H as H; subst
  | H : Err _ = Ok _ |- _ => discriminate H
  end.

(** ** Arithmetic of conversions *)

Lemma wrap_small w z : 0 <= z < 2 ^ w -> wrap w z = z.
Proof. apply Z.mod_small. Qed.

Lemma wrap_range w z : 0 <= w -> 0 <= wrap w z < 2 ^ w.
Proof. intros Hw. apply Z.mod_pos_bound. lia. Qed.

Lemma wrap_wrap w z : 0 <= w -> wrap w (wrap w z) = wrap w z.
Proof. intros Hw. apply wrap_small, wrap_range, Hw. Qed.

Lemma swrap_small w z : 0 < w -> - 2 ^ (w - 1) <= z < 2 ^ (w - 1) -> swrap w z = z.
Proof.
  intros Hw Hz. unfold swrap.
  assert (2 ^ w = 2 * 2 ^ (w - 1)) as E.
  { replace w with (Z.succ (w - 1)) at 1 by lia. rewrite Z.pow_succ_r; lia. }
  rewrite Z.mod_small; lia.
Qed.

Lemma swrap_range w z : 0 < w -> - 2 ^ (w - 1) <= swrap w z < 2 ^ (w - 1).
Proof.
  intros Hw. unfold swrap.
  assert (2 ^ w = 2 * 2 ^ (w - 1)) as E.
  { replace w with (Z.succ (w - 1)) at 1 by lia. rewrite Z.pow_succ_r; lia. }
  pose proof (Z.mod_pos_bound (z + 2 ^ (w - 1)) (2 ^ w) ltac:(lia)). lia.
Qed.

(** Converting a value to a signed type and back to the unsigned type of the
    same width is the unsigned conversion. *)
Lemma wrap_swrap w z : 0 < w -> wrap w (swrap w z) = wrap w z.
Proof.
  intros Hw. unfold wrap, swrap.
  rewrite Zminus_mod, Z.mod_mod, <- Zminus_mod by lia. f_equal. lia.
Qed.

Lemma swrap_wrap w z : 0 < w -> swrap w (wrap w z) = swrap w z.
Proof.
  intros Hw. unfold wrap, swrap. rewrite Z.add_mod_idemp_l by lia. done.
Qed.

#[export] Hint Rewrite wrap_swrap swrap_wrap wrap_wrap using lia : cxx.

Lemma u32_small z : 0 <= z < 2 ^ 32 -> u32 z = z.
Proof. intros H. apply (wrap_small 32). lia. Qed.

Lemma i32_small z : - 2 ^ 31 <= z < 2 ^ 31 -> i32 z = z.
Proof. intros H. apply (swrap_small 32); lia. Qed.

Lemma u32_range z : 0 <= u32 z < 2 ^ 32.
Proof. apply (wrap_range 32). lia. Qed.

Lemma i32_range z : - 2 ^ 31 <= i32 z < 2 ^ 31.
Proof. apply (swrap_range 32). lia. Qed.

(** The result of an operation on ints: overflow is undefined. *)
Definition in_int (z : Z) : bool := (- 2 ^ 31 <=? z) && (z <? 2 ^ 31).
Definition int_of (z : Z) : outcome Z := guard_defined (in_int z) ;;* Ok z.
Definition int_mul (a b : Z) : outcome Z := int_of (a * b).

Lemma int_of_ok z : - 2 ^ 31 <= z < 2 ^ 31 -> int_of z = Ok z.
Proof. intros H. unfold int_of. rewrite guard_defined_true; [done|]. unfold in_int. lia. Qed.

Lemma int_of_inv z r : int_of z = Ok r -> r = z /\ - 2 ^ 31 <= z < 2 ^ 31.
Proof.
  unfold int_of, guard_defined. destruct (in_int z) eqn:E; [|done]. intros [= <-].
  unfold in_int in E. lia.
Qed.

Lemma int_mul_ok a b : - 2 ^ 31 <= a * b < 2 ^ 31 -> int_mul a b = Ok (a * b).
Proof. apply int_of_ok. Qed.

(** ** Bit operations *)

(** Or-ing a value into the bits above it is an addition. *)
Lemma lor_add k a b : 0 <= k -> 0 <= a < 2 ^ k -> Z.lor a (b * 2 ^ k) = a + b * 2 ^ k.
Proof.
  intros Hk Ha. rewrite Z.add_nocarry_lxor, Z.lxor_lor; [done | |];
    rewrite <- Z.shiftl_mul_pow2 by done; apply Z.bits_inj'; intros j Hj;
    rewrite Z.land_spec, Z.bits_0; (destruct (Z_lt_le_dec j k);
      [rewrite Z.shiftl_spec_low by lia; apply andb_false_r
      |rewrite <- (Z.mod_small a (2 ^ k)), Z.mod_pow2_bits_high by lia; done]).
Qed.

Lemma lor_bound k a b : 0 <= k -> 0 <= a < 2 ^ k -> 0 <= b < 2 ^ k -> 0 <= Z.lor a b < 2 ^ k.
Proof.
  intros Hk Ha Hb. split; [apply Z.lor_nonneg; lia|].
  destruct (Z.eq_dec (Z.lor a b) 0) as [->|Hn]; [lia|].
  assert (0 < 2 ^ k) by lia. assert (0 <= Z.lor a b) by (apply Z.lor_nonneg; lia).
  destruct (Z.eq_dec k 0) as [->|Hk0].
  { assert (a = 0) as -> by lia. assert (b = 0) as -> by lia. done. }
  apply Z.log2_lt_pow2; [lia|]. rewrite Z.log2_lor by lia.
  apply Z.max_lub_lt; (destruct (Z.eq_dec a 0) as [->|]; destruct (Z.eq_dec b 0) as [->|];
    rewrite ?Z.log2_nonpos by lia; try lia; apply Z.log2_lt_pow2; lia).
Qed.

Lemma land_pow2_eqb m i : 0 <= i -> (Z.land m (Z.shiftl 1 i) =? 0) = negb (Z.testbit m i).
Proof.
  intros Hi. apply eq_true_iff_eq. rewrite negb_true_iff, Z.eqb_eq. split.
  - intros H. assert (Z.testbit (Z.land m (Z.shiftl 1 i)) i = false) as Hb by by rewrite H, Z.bits_0.
    rewrite Z.land_spec, Z.shiftl_spec, Z.sub_diag in Hb by lia. by rewrite andb_true_r in Hb.
  - intros Hb. apply Z.bits_inj'. intros j Hj. rewrite Z.land_spec, Z.bits_0.
    rewrite Z.shiftl_1_l. destruct (Z.eq_dec j i) as [->|Hne]; [by rewrite Hb|].
    rewrite (Z.pow2_bits_false i j) by lia. apply andb_false_r.
Qed.

(** ** Lists as memory *)

Abbreviation zlen l := (Z.of_nat (length l)).

(** The [n] elements of [l] from index [o], and [l] with [bs] stored at [o].
    [mread] and [mwrite] are the checked accesses of a memory block: outside
    the block the behaviour is undefined. *)

Section Slices.
Context {A : Type}.
Implicit Types l bs : list A.

Definition slice l (o n : Z) : list A := take (Z.to_nat n) (drop (Z.to_nat o) l).

Definition splice l (o : Z) bs : list A :=
  take (Z.to_nat o) l ++ bs ++ drop (Z.to_nat o + length bs) l.

Definition in_block l (o n : Z) : bool := (0 <=? o) && (0 <=? n) && (o + n <=? zlen l).

Definition mread l (o n : Z) : outcome (list A) :=
  if in_block l o n then Ok (slice l o n) else Err UndefinedBehaviour.

Definition mwrite l (o : Z) bs : outcome (list A) :=
  if in_block l o (zlen bs) then Ok (splice l o bs) else Err UndefinedBehaviour.

Lemma length_slice l o n : 0 <= o -> 0 <= n -> o + n <= zlen l -> zlen (slice l o n) = n.
Proof. intros. unfold slice. rewrite length_take, length_drop. lia. Qed.

Lemma length_splice l o bs : 0 <= o -> o + zlen bs <= zlen l -> length (splice l o bs) = length l.
Proof. intros. unfold splice. rewrite !length_app, length_take, length_drop. lia. Qed.

Lemma slice_nil l o : slice l o 0 = [].
Proof. reflexivity. Qed.

Lemma slice_split l o n m :
  0 <= o -> 0 <= n <= m -> slice l o m = slice l o n ++ slice l (o + n) (m - n).
Proof.
  intros. unfold slice. replace (Z.to_nat (o + n)) with (Z.to_nat o + Z.to_nat n)%nat by lia.
  rewrite <- drop_drop, take_take_drop. f_equal. lia.
Qed.

Lemma slice_take l o n m : 0 <= n <= m -> take (Z.to_nat n) (slice l o m) = slice l o n.
Proof. intros. unfold slice. rewrite take_take. f_equal. lia. Qed.

Lemma slice_splice_same l o bs :
  0 <= o -> o + zlen bs <= zlen l -> slice (splice l o bs) o (zlen bs) = bs.
Proof.
  intros. unfold slice, splice. rewrite Nat2Z.id.
  rewrite drop_app_length' by (rewrite length_take; lia). by rewrite take_app_length.
Qed.

Lemma slice_splice_before l o bs o' n :
  0 <= o' -> 0 <= n -> o' + n <= o -> o <= zlen l -> slice (splice l o bs) o' n = slice l o' n.
Proof.
  intros. unfold slice, splice.
  rewrite drop_app_le by (rewrite length_take; lia).
  rewrite take_app_le by (rewrite length_drop, length_take; lia).
  rewrite skipn_firstn_comm, take_take. f_equal. lia.
Qed.

Lemma slice_splice_after l o bs o' n :
  0 <= o -> o + zlen bs <= o' -> o + zlen bs <= zlen l ->
  slice (splice l o bs) o' n = slice l o' n.
Proof.
  intros. unfold slice, splice. f_equal.
  rewrite drop_app_ge by (rewrite length_take; lia).
  rewrite drop_app_ge by (rewrite length_take; lia).
  rewrite drop_drop, length_take. f_equal. lia.
Qed.

Lemma slice_splice_extend l o n bs :
  0 <= o -> 0 <= n -> o + n + zlen bs <= zlen l ->
  slice (splice l (o + n) bs) o (n + zlen bs) = slice l o n ++ bs.
Proof.
  intros. rewrite (slice_split _ _ n) by lia.
  rewrite slice_splice_before by lia. f_equal.
  replace (n + zlen bs - n) with (zlen bs) by lia. by apply slice_splice_same; lia.
Qed.

(** Two stores, one after the other. *)
Lemma splice_splice l o bs1 bs2 :
  0 <= o -> o + zlen bs1 <= zlen l -> splice (splice l o bs1) (o + zlen bs1) bs2 = splice l o (bs1 ++ bs2).
Proof.
  intros Ho Hl. unfold splice. rewrite Z2Nat.inj_add, Nat2Z.id by lia.
  rewrite (app_assoc _ bs1). rewrite take_app_length' by (rewrite length_app, length_take; lia).
  rewrite <- (drop_drop _ (length bs2) (Z.to_nat o + length bs1)).
  rewrite drop_app_length' by (rewrite length_app, length_take; lia).
  rewrite drop_drop, length_app, <- !app_assoc. do 3 f_equal. f_equal. lia.
Qed.

Lemma in_block_true l o n : 0 <= o -> 0 <= n -> o + n <= zlen l -> in_block l o n = true.
Proof. intros. unfold in_block. lia. Qed.

Lemma mread_ok l o n : 0 <= o -> 0 <= n -> o + n <= zlen l -> mread l o n = Ok (slice l o n).
Proof. intros. unfold mread. by rewrite in_block_true. Qed.

Lemma mwrite_ok l o bs : 0 <= o -> o + zlen bs <= zlen l -> mwrite l o bs = Ok (splice l o bs).
Proof. intros. unfold mwrite. rewrite in_block_true by lia. done. Qed.

Lemma take_drop_add l (a b : Z) :
  0 <= a -> 0 <= b -> drop (Z.to_nat b) (drop (Z.to_nat a) l) = drop (Z.to_nat (a + b)) l.
Proof. intros. rewrite drop_drop. f_equal. lia. Qed.
End Slices.

#[export] Hint Rewrite @slice_nil : cxx.

(** ** Arrays *)

Section Arrays.
Context {A : Type}.
Implicit Types l : list A.

(** An array element; outside the array the behaviour is undefined. *)
Definition array_at l (i : Z) : outcome A :=
  match mread l i 1 with Ok [a] => Ok a | _ => Err UndefinedBehaviour end.

Definition array_set l (i : Z) (a : A) : outcome (list A) := mwrite l i [a].

Lemma array_at_lookup l i a : 0 <= i -> l !! Z.to_nat i = Some a -> array_at l i = Ok a.
Proof.
  intros Hi Hl. pose proof (lookup_lt_Some _ _ _ Hl). unfold array_at. rewrite mread_ok by lia.
  unfold slice. by rewrite (drop_S _ _ _ Hl).
Qed.

Lemma array_set_insert l i a : 0 <= i < zlen l -> array_set l i a = Ok (<[Z.to_nat i := a]> l).
Proof.
  intros Hi. unfold array_set. rewrite mwrite_ok by (simpl; lia). f_equal. unfold splice. simpl.
  rewrite insert_take_drop by lia. by rewrite Nat.add_1_r.
Qed.

(** Swapping the chosen element to the end of the first [S n] leaves the others in the
    first [n]. *)
Lemma take_swap_last l n i x b :
  (i <= n)%nat -> l !! i = Some x -> l !! n = Some b ->
  take (S n) l ≡ₚ x :: take n (<[n := x]> (<[i := b]> l)).
Proof.
  intros Hi Hx Hb. rewrite take_insert_ge, (take_S_r _ _ _ Hb) by lia.
  destruct (decide (i = n)) as [->|Hne].
  - rewrite take_insert_ge by lia. assert (b = x) as -> by congruence. by rewrite <- Permutation_cons_append.
  - rewrite take_insert_lt by lia.
    assert (take n l !! i = Some x) as Hq by (by rewrite lookup_take_lt by lia).
    rewrite insert_take_drop by (by eapply lookup_lt_Some).
    rewrite <- (take_drop_middle _ _ _ Hq) at 1. solve_Permutation.
Qed.
End Arrays.

(** ** Transition systems

    A component with concurrent parts is a step relation; what it promises is
    an invariant of every state it can reach. *)

Section Reachability.
  Context {S : Type} (step : S -> S -> Prop).

Inductive reaches : S -> S -> Prop :=
| reaches_refl s : reaches s s
| reaches_step s t u : reaches s t -> step t u -> reaches s u.

Definition preserved (I : S -> Prop) : Prop := forall s t, I s -> step s t -> I t.

Lemma reaches_invariant (I : S -> Prop) s t :
  preserved I -> I s -> reaches s t -> I t.
Proof. intros HI Hs Hr. induction Hr; eauto. Qed.

Lemma reaches_trans s t u : reaches s t -> reaches t u -> reaches s u.
Proof. intros H1 H2. induction H2; eauto using reaches. Qed.

Lemma reaches_one s t : step s t -> reaches s t.
Proof. eauto using reaches. Qed.

End Reachability.

#[export] Hint Constructors reaches : cxx.
