(* ===== verification/RingBuffer.v ===== *)
(** * The two-region ring buffers

    [CircularBuffer] models io/win/shared/CircularBuffer.{hpp,cpp} and
    [BipBuffer] models io/SkyNet/src/{include/BipBuffer.h,shared/BipBuffer.cpp},
    two copies of one structure that differ in their NULL checks.  A buffer
    owns one malloc'ed block; region A holds the older bytes, region B (always
    at the start of the block) the newer ones.  The record keeps the C++ fields
    as addresses ([0] is NULL) and, as [block], the bytes of the block that
    [m_buffer] points to.  Every copy is a checked access of that block, so a
    proof that an operation returns [Ok] is a proof of memory safety.

    The interface [Fifo] states what the code that uses a buffer relies on: a
    bounded first-in first-out byte queue.  Its client theorems are proved
    against the interface, and both classes implement it. *)

From stdpp Require Import base tactics option list numbers.
From Stdlib Require Import ZArith Lia Bool.
From S2P Require Import Prelude.

#[local] Open Scope Z_scope.

(** The fields of both classes. *)
Record regions := Regions {
  block : list Z;
  m_buffer : Z;
  m_bufferEnd : Z;
  m_regionAPointer : Z;
  m_regionASize : Z;
  m_regionBPointer : Z;
  m_regionBSize : Z
}.

Definition with_block (b : list Z) (q : regions) : regions :=
  Regions b (m_buffer q) (m_bufferEnd q) (m_regionAPointer q) (m_regionASize q)
    (m_regionBPointer q) (m_regionBSize q).

Definition with_A (p s : Z) (q : regions) : regions :=
  Regions (block q) (m_buffer q) (m_bufferEnd q) p s (m_regionBPointer q) (m_regionBSize q).

Definition with_B (p s : Z) (q : regions) : regions :=
  Regions (block q) (m_buffer q) (m_bufferEnd q) (m_regionAPointer q) (m_regionASize q) p s.

(** [memcpy] out of and into the block, at an address. *)
Definition copy_out (p n : Z) (q : regions) : outcome (list Z) :=
  mread (block q) (p - m_buffer q) n.

Definition copy_in (p : Z) (bs : list Z) (q : regions) : outcome regions :=
  let* b := mwrite (block q) (p - m_buffer q) bs in Ok (with_block b q).

(** ** io/win/shared/CircularBuffer *)

Module CircularBuffer.

Definition empty : regions := Regions [] 0 0 0 0 0 0.

Definition GetAFreeSpace (q : regions) : Z :=
  u64 (m_bufferEnd q - m_regionAPointer q - m_regionASize q).

Definition GetSpaceBeforeA (q : regions) : Z := u64 (m_regionAPointer q - m_buffer q).

Definition GetSpaceAfterA (q : regions) : Z :=
  u64 (m_bufferEnd q - m_regionAPointer q - m_regionASize q).

Definition GetBFreeSpace (q : regions) : Z :=
  if m_regionBPointer q =? 0 then 0
  else u64 (m_regionAPointer q - m_regionBPointer q - m_regionBSize q).

(** Read, the part that empties region A; returns what is left to read. *)
Definition read_A (cnt : Z) (q : regions) : outcome (list Z * Z * regions) :=
  if 0 <? m_regionASize q then
    let aRead := if m_regionASize q <? cnt then m_regionASize q else cnt in
    let* out := copy_out (m_regionAPointer q) aRead q in
    Ok (out, u64 (cnt - aRead), with_A (m_regionAPointer q + aRead) (u64 (m_regionASize q - aRead)) q)
  else Ok ([], cnt, q).

Definition read_B (cnt : Z) (q : regions) : outcome (list Z * regions) :=
  if (0 <? cnt) && (0 <? m_regionBSize q) then
    let bRead := if m_regionBSize q <? cnt then m_regionBSize q else cnt in
    let* out := copy_out (m_regionBPointer q) bRead q in
    Ok (out, with_B (m_regionBPointer q + bRead) (u64 (m_regionBSize q - bRead)) q)
  else Ok ([], q).

(** The end of Read and of Remove: an empty region A takes over region B. *)
Definition compact (q : regions) : outcome regions :=
  if m_regionASize q =? 0 then
    if 0 <? m_regionBSize q then
      let* q' :=
        (if negb (m_regionBPointer q =? m_buffer q) then
           let* bs := copy_out (m_regionBPointer q) (m_regionBSize q) q in
           copy_in (m_buffer q) bs q
         else Ok q) in
      Ok (with_B 0 0 (with_A (m_buffer q') (m_regionBSize q') q'))
    else Ok (with_A (m_buffer q) 0 (with_B 0 0 q))
  else Ok q.

(** [Read]: the bytes stored at [destination] are returned. *)
Definition Read (bytes : Z) (q : regions) : outcome (bool * list Z * regions) :=
  if m_buffer q =? 0 then Ok (false, [], q)
  else if u64 (m_regionASize q + m_regionBSize q) <? bytes then Ok (false, [], q)
  else
    let* (outA, cnt, q1) := read_A bytes q in
    let* (outB, q2) := read_B cnt q1 in
    let* q3 := compact q2 in
    Ok (true, outA ++ outB, q3).

Definition AllocateB (q : regions) : regions := with_B (m_buffer q) (m_regionBSize q) q.

Definition write_B (data : list Z) (q : regions) : outcome (bool * regions) :=
  if GetBFreeSpace q <? zlen data then Ok (false, q)
  else
    let* q' := copy_in (m_regionBPointer q + m_regionBSize q) data q in
    Ok (true, with_B (m_regionBPointer q') (u64 (m_regionBSize q' + zlen data)) q').

Definition write_A (data : list Z) (q : regions) : outcome (bool * regions) :=
  if GetAFreeSpace q <? zlen data then Ok (false, q)
  else
    let* q' := copy_in (m_regionAPointer q + m_regionASize q) data q in
    Ok (true, with_A (m_regionAPointer q') (u64 (m_regionASize q' + zlen data)) q').

(** [Write( data, bytes )] with [bytes] the length of [data]. *)
Definition Write (data : list Z) (q : regions) : outcome (bool * regions) :=
  if m_buffer q =? 0 then Ok (false, q)
  else if negb (m_regionBPointer q =? 0) then write_B data q
  else if GetAFreeSpace q <? GetSpaceBeforeA q then write_B data (AllocateB q)
  else write_A data q.

(** [GetSpace] may allocate region B: it returns the new state too. *)
Definition GetSpace (q : regions) : Z * regions :=
  if negb (m_regionBPointer q =? 0) then (GetBFreeSpace q, q)
  else if GetAFreeSpace q <? GetSpaceBeforeA q then
    let q' := AllocateB q in (GetBFreeSpace q', q')
  else (GetAFreeSpace q, q).

Definition GetSize (q : regions) : Z := u64 (m_regionASize q + m_regionBSize q).

Definition GetContiguiousBytes (q : regions) : Z :=
  if negb (m_regionASize q =? 0) then m_regionASize q else m_regionBSize q.

Definition remove_A (cnt : Z) (q : regions) : Z * regions :=
  if 0 <? m_regionASize q then
    let aRem := if m_regionASize q <? cnt then m_regionASize q else cnt in
    (u64 (cnt - aRem), with_A (m_regionAPointer q + aRem) (u64 (m_regionASize q - aRem)) q)
  else (cnt, q).

Definition remove_B (cnt : Z) (q : regions) : regions :=
  if (0 <? cnt) && (0 <? m_regionBSize q) then
    let bRem := if m_regionBSize q <? cnt then m_regionBSize q else cnt in
    with_B (m_regionBPointer q + bRem) (u64 (m_regionBSize q - bRem)) q
  else q.

Definition Remove (len : Z) (q : regions) : outcome regions :=
  let '(cnt, q1) := remove_A len q in
  compact (remove_B cnt q1).

Definition GetBuffer (q : regions) : Z :=
  if negb (m_regionBPointer q =? 0) then m_regionBPointer q + m_regionBSize q
  else m_regionAPointer q + m_regionASize q.

(** [Allocate( size )]: [p] is what malloc returned ([0] on failure) and
    [bytes] the block it points to.  Only [m_buffer], [m_bufferEnd] and the
    pointer of region A are assigned. *)
Definition Allocate (size p : Z) (bytes : list Z) (q : regions) : regions :=
  Regions bytes p (p + size) p (m_regionASize q) (m_regionBPointer q) (m_regionBSize q).

Definition IncrementWritten (len : Z) (q : regions) : regions :=
  if negb (m_regionBPointer q =? 0) then with_B (m_regionBPointer q) (u64 (m_regionBSize q + len)) q
  else with_A (m_regionAPointer q) (u64 (m_regionASize q + len)) q.

Definition GetBufferStart (q : regions) : Z :=
  if 0 <? m_regionASize q then m_regionAPointer q else m_regionBPointer q.

End CircularBuffer.

(** ** io/SkyNet BipBuffer *)

Module BipBuffer.

(** The default member initialisers. *)
Definition empty : regions := Regions [] 0 0 0 0 0 0.

Definition GetAFreeSpace (q : regions) : Z :=
  u64 (m_bufferEnd q - m_regionAPointer q - m_regionASize q).

Definition GetSpaceBeforeA (q : regions) : Z := u64 (m_regionAPointer q - m_buffer q).

Definition GetSpaceAfterA (q : regions) : Z :=
  u64 (m_bufferEnd q - m_regionAPointer q - m_regionASize q).

Definition GetBFreeSpace (q : regions) : Z :=
  if m_regionBPointer q =? 0 then 0
  else u64 (m_regionAPointer q - m_regionBPointer q - m_regionBSize q).

Definition AllocateB (q : regions) : regions := with_B (m_buffer q) (m_regionBSize q) q.

Definition GetSize (q : regions) : Z :=
  if m_buffer q =? 0 then 0 else u64 (m_regionASize q + m_regionBSize q).

(** The last block of Read. *)
Definition read_compact (q : regions) : outcome regions :=
  if m_regionASize q =? 0 then
    if 0 <? m_regionBSize q then
      let* q' :=
        (if negb (m_regionBPointer q =? m_buffer q) then
           let* bs := copy_out (m_regionBPointer q) (m_regionBSize q) q in
           copy_in (m_buffer q) bs q
         else Ok q) in
      Ok (with_B 0 0 (with_A (m_buffer q') (m_regionBSize q') q'))
    else Ok (with_A (m_buffer q) 0 (with_B 0 0 q))
  else Ok q.

Definition Read (bytes : Z) (q : regions) : outcome (bool * list Z * regions) :=
  if m_buffer q =? 0 then Ok (false, [], q)
  else if u64 (m_regionASize q + m_regionBSize q) <? bytes then Ok (false, [], q)
  else
    let* (outA, cnt, q1) :=
      (if 0 <? m_regionASize q then
         let aRead := if m_regionASize q <? bytes then m_regionASize q else bytes in
         let* out := copy_out (m_regionAPointer q) aRead q in
         Ok (out, u64 (bytes - aRead),
             with_A (m_regionAPointer q + aRead) (u64 (m_regionASize q - aRead)) q)
       else Ok ([], bytes, q)) in
    let* (outB, q2) :=
      (if (0 <? cnt) && (0 <? m_regionBSize q1) then
         let bRead := if m_regionBSize q1 <? cnt then m_regionBSize q1 else cnt in
         let* out := copy_out (m_regionBPointer q1) bRead q1 in
         Ok (out, with_B (m_regionBPointer q1 + bRead) (u64 (m_regionBSize q1 - bRead)) q1)
       else Ok ([], q1)) in
    let* q3 := read_compact q2 in
    Ok (true, outA ++ outB, q3).

Definition Write (data : list Z) (q : regions) : outcome (bool * regions) :=
  let to_B q :=
    if GetBFreeSpace q <? zlen data then Ok (false, q)
    else
      let* q' := copy_in (m_regionBPointer q + m_regionBSize q) data q in
      Ok (true, with_B (m_regionBPointer q') (u64 (m_regionBSize q' + zlen data)) q') in
  if m_buffer q =? 0 then Ok (false, q)
  else if negb (m_regionBPointer q =? 0) then to_B q
  else if GetAFreeSpace q <? GetSpaceBeforeA q then to_B (AllocateB q)
  else if GetAFreeSpace q <? zlen data then Ok (false, q)
  else
    let* q' := copy_in (m_regionAPointer q + m_regionASize q) data q in
    Ok (true, with_A (m_regionAPointer q') (u64 (m_regionASize q' + zlen data)) q').

Definition Allocate (size p : Z) (bytes : list Z) (q : regions) : regions :=
  Regions bytes p (p + size) p (m_regionASize q) (m_regionBPointer q) (m_regionBSize q).

Definition GetBufferStart (q : regions) : Z :=
  if 0 <? m_regionASize q then m_regionAPointer q else m_regionBPointer q.

Definition GetBuffer (q : regions) : Z :=
  if negb (m_regionBPointer q =? 0) then m_regionBPointer q + m_regionBSize q
  else m_regionAPointer q + m_regionASize q.

Definition IncrementWritten (len : Z) (q : regions) : regions :=
  if negb (m_regionBPointer q =? 0) then with_B (m_regionBPointer q) (u64 (m_regionBSize q + len)) q
  else with_A (m_regionAPointer q) (u64 (m_regionASize q + len)) q.

(** A const method that allocates region B through a mutable field. *)
Definition GetSpace (q : regions) : Z * regions :=
  if negb (m_regionBPointer q =? 0) then (GetBFreeSpace q, q)
  else if GetAFreeSpace q <? GetSpaceBeforeA q then
    let q' := AllocateB q in (GetBFreeSpace q', q')
  else (GetAFreeSpace q, q).

Definition GetContiguiousBytes (q : regions) : Z :=
  if m_buffer q =? 0 then 0
  else if negb (m_regionASize q =? 0) then m_regionASize q else m_regionBSize q.

(** The last block of Remove: its inner else clears the size of region B a
    second time where Read clears that of region A. *)
Definition remove_compact (q : regions) : outcome regions :=
  if m_regionASize q =? 0 then
    if 0 <? m_regionBSize q then
      let* q' :=
        (if negb (m_regionBPointer q =? m_buffer q) then
           let* bs := copy_out (m_regionBPointer q) (m_regionBSize q) q in
           copy_in (m_buffer q) bs q
         else Ok q) in
      Ok (with_B 0 0 (with_A (m_buffer q') (m_regionBSize q') q'))
    else Ok (with_B 0 0 (with_A (m_buffer q) (m_regionASize q) (with_B 0 0 q)))
  else Ok q.

Definition Remove (len : Z) (q : regions) : outcome regions :=
  if m_buffer q =? 0 then Ok q
  else
    let '(cnt, q1) :=
      if 0 <? m_regionASize q then
        let aRem := if m_regionASize q <? len then m_regionASize q else len in
        (u64 (len - aRem), with_A (m_regionAPointer q + aRem) (u64 (m_regionASize q - aRem)) q)
      else (len, q) in
    let q2 :=
      if (0 <? cnt) && (0 <? m_regionBSize q1) then
        let bRem := if m_regionBSize q1 <? cnt then m_regionBSize q1 else cnt in
        with_B (m_regionBPointer q1 + bRem) (u64 (m_regionBSize q1 - bRem)) q1
      else q1 in
    remove_compact q2.

End BipBuffer.

(** ** The invariant and the abstract content *)

(** The block lies in the address space; region A lies in the block; region B
    is absent or sits between the start of the block and region A; a buffer
    whose region A is empty is entirely reset. *)
Record ring_inv (q : regions) : Prop := {
  inv_base : 0 < m_buffer q;
  inv_end : m_bufferEnd q = m_buffer q + zlen (block q);
  inv_top : m_bufferEnd q < 2 ^ 64;
  inv_A_lo : m_buffer q <= m_regionAPointer q;
  inv_A_size : 0 <= m_regionASize q;
  inv_A_hi : m_regionAPointer q + m_regionASize q <= m_bufferEnd q;
  inv_B : (m_regionBPointer q = 0 /\ m_regionBSize q = 0)
          \/ (m_regionBPointer q = m_buffer q /\ 0 <= m_regionBSize q
              /\ m_regionBPointer q + m_regionBSize q <= m_regionAPointer q);
  inv_reset : m_regionASize q = 0 -> m_regionAPointer q = m_buffer q /\ m_regionBPointer q = 0
}.

Definition region_A (q : regions) : list Z :=
  slice (block q) (m_regionAPointer q - m_buffer q) (m_regionASize q).
Definition region_B (q : regions) : list Z :=
  slice (block q) (m_regionBPointer q - m_buffer q) (m_regionBSize q).

Definition content (q : regions) : list Z := region_A q ++ region_B q.

(** How many more bytes a write is accepted with, as [GetSpace] reports it. *)
Definition space (q : regions) : Z := (CircularBuffer.GetSpace q).1.

(** ** Lemmas on the invariant *)

(** What holds between the steps of Read and Remove: region A may be empty
    with region B still in place. *)
Record weak_inv (q : regions) : Prop := {
  weak_base : 0 < m_buffer q;
  weak_end : m_bufferEnd q = m_buffer q + zlen (block q);
  weak_top : m_bufferEnd q < 2 ^ 64;
  weak_A_lo : m_buffer q <= m_regionAPointer q;
  weak_A_size : 0 <= m_regionASize q;
  weak_A_hi : m_regionAPointer q + m_regionASize q <= m_bufferEnd q;
  weak_B : (m_regionBPointer q = 0 /\ m_regionBSize q = 0)
           \/ (m_buffer q <= m_regionBPointer q /\ 0 <= m_regionBSize q
               /\ m_regionBPointer q + m_regionBSize q <= m_regionAPointer q
               /\ (0 < m_regionASize q -> m_regionBPointer q = m_buffer q))
}.

Ltac open_inv H := destruct H as [?Hbase ?Hend ?Htop ?HAlo ?HAs ?HAhi ?HB].
Ltac open_ring H := destruct H as [?Hbase ?Hend ?Htop ?HAlo ?HAs ?HAhi ?HB ?Hreset].

Lemma ring_inv_weak q : ring_inv q -> weak_inv q.
Proof. intros H. open_ring H. split; lia. Qed.

Lemma length_region_A q : weak_inv q -> zlen (region_A q) = m_regionASize q.
Proof. intros H. open_inv H. unfold region_A. apply length_slice; lia. Qed.

Lemma length_region_B q : weak_inv q -> zlen (region_B q) = m_regionBSize q.
Proof.
  intros H. open_inv H. unfold region_B. destruct HB as [[-> ->]|HB]; [done|].
  apply length_slice; lia.
Qed.

Lemma length_content q : weak_inv q -> zlen (content q) = m_regionASize q + m_regionBSize q.
Proof.
  intros H. unfold content. rewrite length_app, Nat2Z.inj_add.
  by rewrite length_region_A, length_region_B.
Qed.

#[export] Hint Resolve ring_inv_weak length_region_A length_region_B length_content : cxx.

(** Dropping [n] bytes of a slice moves its start, in the three cases of the code. *)
Lemma slice_drop {A} (l : list A) o n k :
  0 <= o -> 0 <= k <= n -> drop (Z.to_nat k) (slice l o n) = slice l (o + k) (n - k).
Proof.
  intros. unfold slice. rewrite skipn_firstn_comm, take_drop_add by lia. f_equal; lia.
Qed.

Lemma remove_A_spec q cnt :
  weak_inv q -> 0 <= cnt < 2 ^ 64 ->
  let r := CircularBuffer.remove_A cnt q in
  weak_inv r.2 /\ region_A r.2 = drop (Z.to_nat cnt) (region_A q)
  /\ region_B r.2 = region_B q /\ r.1 = Z.max 0 (cnt - m_regionASize q)
  /\ (0 < r.1 -> m_regionASize r.2 = 0).
Proof.
  intros H Hc. pose proof (length_region_A q H) as HlA. open_inv H.
  unfold CircularBuffer.remove_A, region_A, region_B, with_A in *. split_ifs; simpl.
  - rewrite !wrap_small by lia.
    repeat split; simpl; try lia.
    rewrite drop_ge by lia. by rewrite Z.sub_diag.
  - rewrite !wrap_small by lia.
    repeat split; simpl; try lia.
    rewrite slice_drop by lia. f_equal; lia.
  - assert (m_regionASize q = 0) as E0 by lia. rewrite E0 in *.
    repeat split; simpl; try lia; try done; by rewrite ?slice_nil, ?drop_nil.
Qed.

Lemma remove_B_spec q cnt :
  weak_inv q -> 0 <= cnt < 2 ^ 64 -> (0 < cnt -> m_regionASize q = 0) ->
  let q' := CircularBuffer.remove_B cnt q in
  weak_inv q' /\ region_A q' = region_A q /\ region_B q' = drop (Z.to_nat cnt) (region_B q).
Proof.
  intros H Hc HA0. pose proof (length_region_B q H) as HlB. open_inv H.
  unfold CircularBuffer.remove_B, region_A, region_B, with_B in *.
  destruct ((0 <? cnt) && (0 <? m_regionBSize q)) eqn:E; to_prop; simpl.
  - split_ifs; simpl; rewrite !wrap_small by lia; (split; [split; simpl; lia | split; [done|]]).
    + rewrite drop_ge by lia. by rewrite Z.sub_diag.
    + rewrite slice_drop by lia. f_equal; lia.
  - split; [split; simpl; lia | split; [done|]].
    assert (cnt = 0 \/ m_regionBSize q = 0) as [->|E0] by (destruct E; to_prop; lia); [done|].
    by rewrite E0, slice_nil, drop_nil.
Qed.

Lemma compact_spec q :
  weak_inv q ->
  exists q', CircularBuffer.compact q = Ok q' /\ ring_inv q' /\ content q' = content q
    /\ m_buffer q' = m_buffer q /\ length (block q') = length (block q).
Proof.
  intros H. open_inv H. unfold CircularBuffer.compact.
  destruct (m_regionASize q =? 0) eqn:EA; to_prop.
  - unfold content, region_A. rewrite EA, slice_nil, app_nil_l.
    destruct (0 <? m_regionBSize q) eqn:EB; to_prop.
    + destruct (m_regionBPointer q =? m_buffer q) eqn:EP; to_prop; simpl.
      * eexists; split; [done|]. unfold with_A, with_B; simpl.
        split; [split; simpl; lia|]. unfold region_B; simpl.
        by rewrite slice_nil, app_nil_r, EP.
      * unfold copy_out, copy_in. rewrite mread_ok by lia. simpl.
        assert (zlen (slice (block q) (m_regionBPointer q - m_buffer q) (m_regionBSize q))
                = m_regionBSize q) as Hl by (apply length_slice; lia).
        rewrite mwrite_ok by lia. simpl. eexists; split; [done|].
        unfold with_A, with_B, with_block; simpl.
        assert (forall bs, 0 <= m_buffer q - m_buffer q -> zlen bs <= zlen (block q) ->
          length (splice (block q) (m_buffer q - m_buffer q) bs) = length (block q)) as Hsp
          by (intros; apply length_splice; lia).
        split; [split; simpl; rewrite ?Hsp by lia; lia|].
        unfold region_B; simpl. split; [|split; [done | apply Hsp; lia]].
        rewrite slice_nil, app_nil_r. rewrite <- Hl at 2. apply slice_splice_same; lia.
    + eexists; split; [done|]. unfold with_A, with_B; simpl.
      split; [split; simpl; lia|]. unfold region_B; simpl.
      assert (m_regionBSize q = 0) as -> by lia. by rewrite !slice_nil.
  - exists q. split; [done|]. split; [split; lia|]. done.
Qed.

Lemma drop_content q (n : Z) :
  weak_inv q -> 0 <= n ->
  drop (Z.to_nat n) (content q)
  = drop (Z.to_nat n) (region_A q)
    ++ drop (Z.to_nat (Z.max 0 (n - m_regionASize q))) (region_B q).
Proof.
  intros H Hn. pose proof (length_region_A q H) as HlA.
  unfold content. rewrite drop_app. do 2 f_equal. lia.
Qed.

Lemma remove_spec q len :
  ring_inv q -> 0 <= len < 2 ^ 64 ->
  exists q', CircularBuffer.Remove len q = Ok q' /\ ring_inv q'
    /\ content q' = drop (Z.to_nat len) (content q).
Proof.
  intros H Hl. apply ring_inv_weak in H.
  pose proof (remove_A_spec q len H Hl) as (HwA & HrA & HrB & Hcnt & Hz).
  unfold CircularBuffer.Remove. destruct (CircularBuffer.remove_A len q) as [cnt q1]; simpl in *.
  pose proof (weak_A_size q H) as HsA.
  pose proof (remove_B_spec q1 cnt HwA ltac:(lia) Hz) as (HwB & HrA' & HrB').
  destruct (compact_spec _ HwB) as (q' & Hc & Hr & Hcont & _).
  exists q'. split; [done|]. split; [done|].
  rewrite Hcont, drop_content by (done || lia). unfold content.
  by rewrite HrA', HrA, HrB', HrB, Hcnt.
Qed.

(** Reading a region is removing it and returning what was removed. *)
Lemma read_A_spec q cnt :
  weak_inv q -> 0 <= cnt < 2 ^ 64 ->
  CircularBuffer.read_A cnt q
  = Ok (take (Z.to_nat cnt) (region_A q), (CircularBuffer.remove_A cnt q).1,
        (CircularBuffer.remove_A cnt q).2).
Proof.
  intros H Hc. pose proof (length_region_A q H) as HlA. open_inv H.
  unfold CircularBuffer.read_A, CircularBuffer.remove_A, copy_out, region_A in *. split_ifs; simpl.
  - rewrite mread_ok by lia. simpl. by rewrite take_ge by lia.
  - rewrite mread_ok by lia. simpl. by rewrite slice_take by lia.
  - assert (m_regionASize q = 0) as -> by lia. by rewrite slice_nil, take_nil.
Qed.

Lemma read_B_spec q cnt :
  weak_inv q -> 0 <= cnt < 2 ^ 64 ->
  CircularBuffer.read_B cnt q
  = Ok (take (Z.to_nat cnt) (region_B q), CircularBuffer.remove_B cnt q).
Proof.
  intros H Hc. pose proof (length_region_B q H) as HlB. open_inv H.
  unfold CircularBuffer.read_B, CircularBuffer.remove_B, copy_out, region_B in *.
  destruct ((0 <? cnt) && (0 <? m_regionBSize q)) eqn:E; to_prop; simpl.
  - split_ifs; simpl; rewrite mread_ok by lia; simpl;
      rewrite ?(take_ge (slice _ _ _)) by lia; by rewrite ?slice_take by lia.
  - assert (cnt = 0 \/ m_regionBSize q = 0) as [->|E0] by (destruct E; to_prop; lia); [done|].
    by rewrite E0, slice_nil, take_nil.
Qed.

Lemma read_spec q n :
  ring_inv q -> 0 <= n <= zlen (content q) ->
  exists q', CircularBuffer.Read n q = Ok (true, take (Z.to_nat n) (content q), q')
    /\ ring_inv q' /\ content q' = drop (Z.to_nat n) (content q).
Proof.
  intros H Hn. pose proof (ring_inv_weak _ H) as Hw.
  pose proof (length_content q Hw) as Hlen. pose proof (length_region_A q Hw) as HlA.
  assert (0 <= m_regionASize q /\ 0 <= m_regionBSize q /\ 0 < m_buffer q
          /\ m_regionASize q + m_regionBSize q < 2 ^ 64) as (? & ? & ? & ?)
    by (clear Hlen HlA; open_inv Hw; lia).
  destruct (remove_spec q n H ltac:(lia)) as (q' & HR & Hi & Hc).
  exists q'. split; [|done].
  unfold CircularBuffer.Read. rewrite (wrap_small 64 (_ + _)) by lia.
  replace (m_buffer q =? 0) with false by lia.
  replace (m_regionASize q + m_regionBSize q <? n) with false by lia.
  rewrite read_A_spec by (done || lia). cbn [mbind outcome_bind].
  pose proof (remove_A_spec q n Hw ltac:(lia)) as (HwA & HrA & HrB & Hcnt & Hz).
  rewrite read_B_spec by (done || lia). cbn [mbind outcome_bind].
  unfold CircularBuffer.Remove in HR.
  destruct (CircularBuffer.remove_A n q) as [cnt q1]; simpl in *.
  rewrite HR. simpl. do 3 f_equal.
  rewrite HrB, Hcnt. unfold content. rewrite take_app. do 2 f_equal. lia.
Qed.

Lemma read_short q n :
  ring_inv q -> zlen (content q) < n -> CircularBuffer.Read n q = Ok (false, [], q).
Proof.
  intros H Hn. apply ring_inv_weak in H. pose proof (length_content q H) as Hlen.
  open_inv H. unfold CircularBuffer.Read. rewrite wrap_small by lia.
  replace (m_buffer q =? 0) with false by lia.
  by replace (m_regionASize q + m_regionBSize q <? n) with true by lia.
Qed.

Lemma free_space_A q :
  ring_inv q ->
  CircularBuffer.GetAFreeSpace q = m_bufferEnd q - m_regionAPointer q - m_regionASize q
  /\ CircularBuffer.GetSpaceBeforeA q = m_regionAPointer q - m_buffer q.
Proof.
  intros H. open_ring H.
  unfold CircularBuffer.GetAFreeSpace, CircularBuffer.GetSpaceBeforeA.
  rewrite !wrap_small by lia. done.
Qed.

Lemma free_space_B q :
  ring_inv q -> m_regionBPointer q <> 0 ->
  CircularBuffer.GetBFreeSpace q = m_regionAPointer q - m_buffer q - m_regionBSize q
  /\ m_regionBPointer q = m_buffer q.
Proof.
  intros H HB0. open_ring H. unfold CircularBuffer.GetBFreeSpace.
  replace (m_regionBPointer q =? 0) with false by lia.
  rewrite !wrap_small by lia. lia.
Qed.

Lemma allocate_B_inv q :
  ring_inv q -> m_regionBPointer q = 0 -> m_buffer q < m_regionAPointer q ->
  ring_inv (CircularBuffer.AllocateB q) /\ content (CircularBuffer.AllocateB q) = content q.
Proof.
  intros H H0 Hlt. open_ring H. assert (m_regionBSize q = 0) as HS by lia.
  split.
  - split; unfold CircularBuffer.AllocateB, with_B; simpl; lia.
  - unfold content, region_A, region_B; simpl. by rewrite HS, !slice_nil.
Qed.

Lemma GetSpace_spec q :
  ring_inv q ->
  ring_inv (CircularBuffer.GetSpace q).2
  /\ content (CircularBuffer.GetSpace q).2 = content q
  /\ 0 <= space q /\ space q + zlen (content q) <= zlen (block q).
Proof.
  intros H. pose proof (length_content q (ring_inv_weak q H)) as Hlen.
  pose proof (free_space_A q H) as [HfA Hbef]. unfold space, CircularBuffer.GetSpace.
  destruct (m_regionBPointer q =? 0) eqn:EB; to_prop; simpl.
  - rewrite HfA, Hbef. split_ifs; simpl.
    + destruct (allocate_B_inv q H EB ltac:(open_ring H; lia)) as [Hi Hc].
      split; [done|]. split; [done|].
      destruct (free_space_B _ Hi) as [-> _]; simpl; [open_ring H; lia|].
      open_ring H. lia.
    + open_ring H. split; [split; lia|]. split; [done|]. lia.
  - destruct (free_space_B q H EB) as [-> Hb]. open_ring H.
    split; [split; lia|]. split; [done|]. lia.
Qed.

(** Appending [d] behind a region that ends at [e], as both branches of Write do. *)
Lemma write_B_spec q d :
  ring_inv q -> m_regionBPointer q <> 0 ->
  exists q', CircularBuffer.write_B d q
      = Ok (bool_decide (zlen d <= CircularBuffer.GetBFreeSpace q), q')
    /\ ring_inv q'
    /\ content q' = content q ++ (if bool_decide (zlen d <= CircularBuffer.GetBFreeSpace q) then d else []).
Proof.
  intros H HB0. destruct (free_space_B q H HB0) as [Hf Hb].
  unfold CircularBuffer.write_B. rewrite Hf. destruct (_ <? zlen d) eqn:E; to_prop.
  - exists q. rewrite bool_decide_false by lia. by rewrite app_nil_r.
  - rewrite bool_decide_true by lia. open_ring H. unfold copy_in.
    replace (m_regionBPointer q + m_regionBSize q - m_buffer q) with (m_regionBSize q) by lia.
    rewrite mwrite_ok by lia. simpl. rewrite wrap_small by lia.
    eexists; split; [done|].
    pose proof (length_splice (block q) (m_regionBSize q) d ltac:(lia) ltac:(lia)) as Hsp.
    split; [split; simpl; lia|].
    unfold content, region_A, region_B; simpl.
    rewrite slice_splice_after by lia. rewrite Hb, Z.sub_diag, <- app_assoc. f_equal.
    exact (slice_splice_extend (block q) 0 (m_regionBSize q) d ltac:(lia) ltac:(lia) ltac:(lia)).
Qed.

Lemma write_A_spec q d :
  ring_inv q -> m_regionBPointer q = 0 ->
  exists q', CircularBuffer.write_A d q
      = Ok (bool_decide (zlen d <= CircularBuffer.GetAFreeSpace q), q')
    /\ ring_inv q'
    /\ content q' = content q ++ (if bool_decide (zlen d <= CircularBuffer.GetAFreeSpace q) then d else []).
Proof.
  intros H HB0. destruct (free_space_A q H) as [Hf _].
  unfold CircularBuffer.write_A. rewrite Hf. destruct (_ <? zlen d) eqn:E; to_prop.
  - exists q. rewrite bool_decide_false by lia. by rewrite app_nil_r.
  - rewrite bool_decide_true by lia. open_ring H. unfold copy_in.
    replace (m_regionAPointer q + m_regionASize q - m_buffer q)
      with ((m_regionAPointer q - m_buffer q) + m_regionASize q) by lia.
    rewrite mwrite_ok by lia. simpl. rewrite wrap_small by lia.
    eexists; split; [done|].
    pose proof (length_splice (block q) (m_regionAPointer q - m_buffer q + m_regionASize q) d
      ltac:(lia) ltac:(lia)) as Hsp.
    split; [split; simpl; lia|].
    unfold content, region_A, region_B; simpl.
    assert (m_regionBSize q = 0) as -> by lia. rewrite !slice_nil, !app_nil_r.
    apply slice_splice_extend; lia.
Qed.

Lemma write_spec q d :
  ring_inv q ->
  exists q', CircularBuffer.Write d q = Ok (bool_decide (zlen d <= space q), q')
    /\ ring_inv q'
    /\ content q' = content q ++ (if bool_decide (zlen d <= space q) then d else []).
Proof.
  intros H. unfold CircularBuffer.Write, space, CircularBuffer.GetSpace.
  assert ((m_buffer q =? 0) = false) as -> by (open_ring H; lia).
  destruct (m_regionBPointer q =? 0) eqn:EB; to_prop; simpl.
  - destruct (free_space_A q H) as [HfA Hbef]. rewrite HfA, Hbef.
    destruct (_ <? m_regionAPointer q - m_buffer q) eqn:E; to_prop; simpl.
    + destruct (allocate_B_inv q H EB ltac:(open_ring H; lia)) as [Hi Hc].
      rewrite <- Hc. apply write_B_spec; [done|]. simpl. open_ring H; lia.
    + rewrite <- HfA. by apply write_A_spec.
  - by apply write_B_spec.
Qed.

Lemma allocate_inv size p bytes :
  0 < p -> zlen bytes = size -> p + size < 2 ^ 64 ->
  ring_inv (CircularBuffer.Allocate size p bytes CircularBuffer.empty)
  /\ content (CircularBuffer.Allocate size p bytes CircularBuffer.empty) = [].
Proof. intros. split; [|done]. split; simpl; lia. Qed.

(** ** The interface: a bounded byte queue *)

Class FifoOps (Q : Type) := {
  fifo_inv : Q -> Prop;
  fifo_content : Q -> list Z;
  fifo_space : Q -> Z;
  fifo_write : list Z -> Q -> outcome (bool * Q);
  fifo_read : Z -> Q -> outcome (bool * list Z * Q);
  fifo_remove : Z -> Q -> outcome Q
}.

(** What every operation does to the queued bytes, for states that satisfy the
    implementation's invariant.  Writes and reads are all or nothing. *)
Class Fifo (Q : Type) `{FifoOps Q} : Prop := {
  fifo_write_law q d : fifo_inv q ->
    exists q', fifo_write d q = Ok (bool_decide (zlen d <= fifo_space q), q')
      /\ fifo_inv q'
      /\ fifo_content q' = fifo_content q ++ (if bool_decide (zlen d <= fifo_space q) then d else []);
  fifo_read_law q n : fifo_inv q -> 0 <= n < 2 ^ 64 ->
    let k := if bool_decide (n <= zlen (fifo_content q)) then Z.to_nat n else 0%nat in
    exists q', fifo_read n q
        = Ok (bool_decide (n <= zlen (fifo_content q)), take k (fifo_content q), q')
      /\ fifo_inv q' /\ fifo_content q' = drop k (fifo_content q);
  fifo_remove_law q n : fifo_inv q -> 0 <= n < 2 ^ 64 ->
    exists q', fifo_remove n q = Ok q' /\ fifo_inv q'
      /\ fifo_content q' = drop (Z.to_nat n) (fifo_content q)
}.

(** A program that uses a queue, and the bytes that enter and leave it. *)
Inductive queue_op := Put (d : list Z) | Get (n : Z) | Skip (n : Z).

Section FifoClient.
Context {Q : Type} `{Fifo Q}.

Definition valid_op (o : queue_op) : Prop :=
  match o with Put _ => True | Get n | Skip n => 0 <= n < 2 ^ 64 end.

Definition run_op (o : queue_op) (q : Q) : outcome (list Z * list Z * Q) :=
  match o with
  | Put d => let* (ok, q') := fifo_write d q in Ok (if ok : bool then d else [], [], q')
  | Get n => let* (ok, out, q') := fifo_read n q in Ok ([], out, q')
  | Skip n => let* q' := fifo_remove n q in Ok ([], take (Z.to_nat n) (fifo_content q), q')
  end.

Fixpoint run_ops (os : list queue_op) (q : Q) : outcome (list Z * list Z * Q) :=
  match os with
  | [] => Ok ([], [], q)
  | o :: os' =>
      let* (i1, o1, q1) := run_op o q in
      let* (i2, o2, q2) := run_ops os' q1 in
      Ok (i1 ++ i2, o1 ++ o2, q2)
  end.

Lemma run_op_fifo o q :
  fifo_inv q -> valid_op o ->
  exists i out q', run_op o q = Ok (i, out, q') /\ fifo_inv q'
    /\ fifo_content q ++ i = out ++ fifo_content q'.
Proof.
  intros Hi Hv. destruct o as [d|n|n]; simpl in *.
  - destruct (fifo_write_law q d Hi) as (q' & -> & Hi' & Hc). simpl.
    eauto 6.
  - destruct (fifo_read_law q n Hi Hv) as (q' & -> & Hi' & Hc). simpl.
    eexists _, _, _. split; [done|]. split; [done|]. by rewrite Hc, take_drop, app_nil_r.
  - destruct (fifo_remove_law q n Hi Hv) as (q' & -> & Hi' & Hc). simpl.
    eexists _, _, _. split; [done|]. split; [done|]. by rewrite Hc, take_drop, app_nil_r.
Qed.

(** Whatever the sequence of operations, nothing goes wrong, and the bytes that
    came out followed by the bytes still queued are the bytes that went in. *)
Lemma run_ops_fifo os q :
  fifo_inv q -> Forall valid_op os ->
  exists i out q', run_ops os q = Ok (i, out, q') /\ fifo_inv q'
    /\ fifo_content q ++ i = out ++ fifo_content q'.
Proof.
  intros Hi Hv. revert q Hi. induction Hv as [|o os Ho Hv IH]; intros q Hi; simpl.
  - exists [], [], q. by rewrite app_nil_r.
  - destruct (run_op_fifo o q Hi Ho) as (i1 & o1 & q1 & -> & Hi1 & E1). simpl.
    destruct (IH q1 Hi1) as (i2 & o2 & q2 & -> & Hi2 & E2). simpl.
    eexists _, _, _. split; [done|]. split; [done|].
    by rewrite app_assoc, E1, <- app_assoc, E2, app_assoc.
Qed.
End FifoClient.

(** ** Both classes implement it *)

Record circular := Circular { circ_state : regions }.
Record bip := Bip { bip_state : regions }.

Definition lift_write {Q} (mk : regions -> Q) (r : outcome (bool * regions)) : outcome (bool * Q) :=
  let* (b, q) := r in Ok (b, mk q).
Definition lift_read {Q} (mk : regions -> Q) (r : outcome (bool * list Z * regions)) :
  outcome (bool * list Z * Q) :=
  let* (b, out, q) := r in Ok (b, out, mk q).
Definition lift_remove {Q} (mk : regions -> Q) (r : outcome regions) : outcome Q :=
  let* q := r in Ok (mk q).

#[export] Instance circular_ops : FifoOps circular := {
  fifo_inv c := ring_inv (circ_state c);
  fifo_content c := content (circ_state c);
  fifo_space c := (CircularBuffer.GetSpace (circ_state c)).1;
  fifo_write d c := lift_write Circular (CircularBuffer.Write d (circ_state c));
  fifo_read n c := lift_read Circular (CircularBuffer.Read n (circ_state c));
  fifo_remove n c := lift_remove Circular (CircularBuffer.Remove n (circ_state c))
}.

#[export] Instance bip_ops : FifoOps bip := {
  fifo_inv c := ring_inv (bip_state c);
  fifo_content c := content (bip_state c);
  fifo_space c := (BipBuffer.GetSpace (bip_state c)).1;
  fifo_write d c := lift_write Bip (BipBuffer.Write d (bip_state c));
  fifo_read n c := lift_read Bip (BipBuffer.Read n (bip_state c));
  fifo_remove n c := lift_remove Bip (BipBuffer.Remove n (bip_state c))
}.

#[export] Instance circular_fifo : Fifo circular.
Proof.
  split; intros [q]; simpl.
  - intros d Hi. destruct (write_spec q d Hi) as (q' & -> & Hi' & Hc).
    exists (Circular q'). done.
  - intros n Hi Hn. case_bool_decide.
    + destruct (read_spec q n Hi ltac:(lia)) as (q' & -> & Hi' & Hc).
      exists (Circular q'). done.
    + rewrite (read_short q n Hi) by lia. by exists (Circular q).
  - intros n Hi Hn. destruct (remove_spec q n Hi Hn) as (q' & -> & Hi' & Hc).
    exists (Circular q'). done.
Qed.

(** ** The two classes agree on an allocated buffer *)

Lemma bip_write_eq d q : BipBuffer.Write d q = CircularBuffer.Write d q.
Proof. reflexivity. Qed.

Lemma bip_read_eq n q : BipBuffer.Read n q = CircularBuffer.Read n q.
Proof. reflexivity. Qed.

Lemma bip_remove_compact_eq q : BipBuffer.remove_compact q = CircularBuffer.compact q.
Proof.
  unfold BipBuffer.remove_compact, CircularBuffer.compact.
  destruct (m_regionASize q =? 0) eqn:EA; to_prop; [|done].
  destruct (0 <? m_regionBSize q); [done|]. destruct q; simpl in *. by rewrite EA.
Qed.

Lemma bip_remove_eq n q :
  BipBuffer.Remove n q = if m_buffer q =? 0 then Ok q else CircularBuffer.Remove n q.
Proof.
  unfold BipBuffer.Remove. destruct (m_buffer q =? 0); [done|].
  unfold CircularBuffer.Remove, CircularBuffer.remove_A, CircularBuffer.remove_B.
  destruct (0 <? m_regionASize q); by rewrite bip_remove_compact_eq.
Qed.

#[export] Instance bip_fifo : Fifo bip.
Proof.
  split; intros [q]; simpl.
  - intros d Hi. destruct (write_spec q d Hi) as (q' & E & Hi' & Hc).
    rewrite bip_write_eq, E. exists (Bip q'). done.
  - intros n Hi Hn. rewrite bip_read_eq. case_bool_decide.
    + destruct (read_spec q n Hi ltac:(lia)) as (q' & -> & Hi' & Hc). by exists (Bip q').
    + rewrite (read_short q n Hi) by lia. by exists (Bip q).
  - intros n Hi Hn. destruct (remove_spec q n Hi Hn) as (q' & E & Hi' & Hc).
    rewrite bip_remove_eq. assert ((m_buffer q =? 0) = false) as -> by (open_ring Hi; lia).
    rewrite E. by exists (Bip q').
Qed.

(** ** Zero-copy access *)

(** How the socket code fills a buffer: it asks for the space, lets the system
    store [bs] at [GetBuffer()], and commits with [IncrementWritten]. *)
Definition direct_fill (bs : list Z) (q : regions) : outcome regions :=
  let q1 := (CircularBuffer.GetSpace q).2 in
  let* q2 := copy_in (CircularBuffer.GetBuffer q1) bs q1 in
  Ok (CircularBuffer.IncrementWritten (zlen bs) q2).

Lemma direct_fill_eq bs q :
  ring_inv q -> zlen bs <= space q ->
  exists q', direct_fill bs q = Ok q' /\ CircularBuffer.Write bs q = Ok (true, q').
Proof.
  intros H Hs. destruct (write_spec q bs H) as (q' & Hw & _).
  rewrite bool_decide_true in Hw by done. exists q'. split; [|done].
  assert ((m_buffer q =? 0) = false) as Hb by (open_ring H; lia).
  assert (m_buffer q <> 0) as Hb' by lia. revert Hw Hs.
  unfold direct_fill, CircularBuffer.Write, CircularBuffer.GetBuffer, space,
    CircularBuffer.IncrementWritten, CircularBuffer.GetSpace. rewrite Hb.
  destruct (m_regionBPointer q =? 0) eqn:EB; simpl.
  - destruct (_ <? CircularBuffer.GetSpaceBeforeA q) eqn:E; simpl; rewrite ?Hb, ?EB; simpl; intros Hw Hs.
    + unfold CircularBuffer.write_B in Hw.
      replace (_ <? zlen bs) with false in Hw by lia. simpl in Hw.
      unfold copy_in in *; simpl in *.
      destruct (mwrite _ _ _); simpl in *; [|done]. rewrite Hb. simpl. by injection Hw as <-.
    + unfold CircularBuffer.write_A in Hw.
      replace (_ <? zlen bs) with false in Hw by lia. simpl in Hw.
      unfold copy_in in *; simpl in *.
      destruct (mwrite _ _ _); simpl in *; [|done]. rewrite EB. simpl. by injection Hw as <-.
  - intros Hw Hs. unfold CircularBuffer.write_B in Hw.
    replace (_ <? zlen bs) with false in Hw by lia. simpl in Hw. rewrite EB. simpl.
    unfold copy_in in *; simpl in *.
    destruct (mwrite _ _ _); simpl in *; [|done]. rewrite EB. simpl. by injection Hw as <-.
Qed.

(** How it drains one: [GetContiguiousBytes] bytes at [GetBufferStart()]. *)
Lemma contiguous_read q :
  ring_inv q -> content q <> [] ->
  let n := CircularBuffer.GetContiguiousBytes q in
  copy_out (CircularBuffer.GetBufferStart q) n q = Ok (take (Z.to_nat n) (content q))
  /\ 0 < n <= zlen (content q).
Proof.
  intros H Hne. pose proof (ring_inv_weak _ H) as Hw.
  pose proof (length_content q Hw) as Hlen. pose proof (length_region_A q Hw) as HlA.
  assert (m_regionASize q <> 0) as HA.
  { intros EA. apply Hne, length_zero_iff_nil. open_ring H. lia. }
  open_ring H. unfold CircularBuffer.GetContiguiousBytes, CircularBuffer.GetBufferStart, copy_out.
  replace (m_regionASize q =? 0) with false by lia. simpl.
  replace (0 <? m_regionASize q) with true by lia.
  rewrite mread_ok by lia. split; [|lia].
  unfold content. rewrite take_app_le by lia. rewrite take_ge by lia. done.
Qed.

(** ** Properties *)

(** C5.  A CircularBuffer that [Allocate] has set up is a lossless queue: for
    every sequence of Write, Read and Remove calls no access leaves the malloc'ed
    block, every call returns, the bytes delivered (or cut) are exactly the
    accepted bytes in order, up to those still stored, and GetSize counts the
    stored ones. *)
Theorem circular_stream_fifo (size p : Z) (bytes : list Z) (os : list queue_op) :
  0 < p -> zlen bytes = size -> p + size < 2 ^ 64 -> Forall valid_op os ->
  exists ins outs c,
    run_ops os (Circular (CircularBuffer.Allocate size p bytes CircularBuffer.empty)) = Ok (ins, outs, c)
    /\ ins = outs ++ content (circ_state c)
    /\ CircularBuffer.GetSize (circ_state c) = zlen (content (circ_state c))
    /\ ring_inv (circ_state c).
Proof.
  intros Hp Hb Ht Hv. destruct (allocate_inv size p bytes Hp Hb Ht) as [Hi Hc].
  pose proof (run_ops_fifo (Q:=circular) os
    (Circular (CircularBuffer.Allocate size p bytes CircularBuffer.empty))) as Hrun.
  destruct (Hrun Hi Hv) as (i & o & c & Hr & Hi' & E).
  cbn [fifo_inv fifo_content circular_ops circ_state] in *. rewrite Hc in E.
  exists i, o, c. split; [done|]. split; [done|]. split; [|done].
  pose proof (length_content _ (ring_inv_weak _ Hi')) as Hl. unfold CircularBuffer.GetSize.
  open_ring Hi'. rewrite wrap_small; lia.
Qed.

Lemma circular_stream_fifo_witness :
  exists ins outs c,
    run_ops [Put [1;2;3]; Get 2; Put [4;5]; Skip 1; Put [6;7]; Get 3]
      (Circular (CircularBuffer.Allocate 4 4096 [0;0;0;0] CircularBuffer.empty)) = Ok (ins, outs, c)
    /\ ins = outs ++ content (circ_state c)
    /\ CircularBuffer.GetSize (circ_state c) = zlen (content (circ_state c))
    /\ ring_inv (circ_state c).
Proof.
  apply (circular_stream_fifo 4 4096 [0;0;0;0]); try done.
  repeat (apply List.Forall_cons || apply List.Forall_nil); simpl; lia.
Defined.

(** C19.  A write is accepted exactly when it fits in the space [GetSpace]
    reports, whichever of the two regions the bytes go to; an accepted write
    appends, a refused one leaves the stored bytes alone; and the reported
    space together with the stored bytes never exceeds the block. *)
Theorem circular_write_iff_space (q : regions) (d : list Z) :
  ring_inv q ->
  exists q', CircularBuffer.Write d q = Ok (bool_decide (zlen d <= space q), q')
    /\ ring_inv q'
    /\ content q' = content q ++ (if bool_decide (zlen d <= space q) then d else [])
    /\ 0 <= space q <= zlen (block q) - zlen (content q).
Proof.
  intros H. destruct (write_spec q d H) as (q' & Hw & Hi & Hc).
  pose proof (GetSpace_spec q H) as (_ & _ & ? & ?).
  exists q'. do 3 (split; [done|]). lia.
Qed.

(** C18.  BipBuffer is CircularBuffer: on every state Write and Read are the same
    functions, and on an allocated one so is Remove; on an unallocated one
    Remove does nothing and the size is 0. *)
Theorem bip_equals_circular (q : regions) (d : list Z) (n : Z) :
  BipBuffer.Write d q = CircularBuffer.Write d q
  /\ BipBuffer.Read n q = CircularBuffer.Read n q
  /\ BipBuffer.GetSpace q = CircularBuffer.GetSpace q
  /\ BipBuffer.Remove n q = (if m_buffer q =? 0 then Ok q else CircularBuffer.Remove n q)
  /\ BipBuffer.GetSize q = (if m_buffer q =? 0 then 0 else CircularBuffer.GetSize q)
  /\ BipBuffer.GetContiguiousBytes q
      = (if m_buffer q =? 0 then 0 else CircularBuffer.GetContiguiousBytes q).
Proof. repeat split. apply bip_remove_eq. Qed.

(** C21.  The zero-copy paths of the socket code are sound.  Storing at
    [GetBuffer()] no more than [GetSpace()] bytes and committing them with
    IncrementWritten stays inside the block and is the same as Write; and the
    [GetContiguiousBytes()] bytes at [GetBufferStart()] are the oldest stored
    bytes, at least one when there is any, so cutting what the system sent
    leaves exactly the unsent bytes. *)
Theorem zero_copy_sound (q : regions) (bs : list Z) (sent : Z) :
  ring_inv q -> zlen bs <= space q -> content q <> [] ->
  0 <= sent <= CircularBuffer.GetContiguiousBytes q ->
  (exists q', direct_fill bs q = Ok q' /\ ring_inv q' /\ content q' = content q ++ bs)
  /\ (exists out q', copy_out (CircularBuffer.GetBufferStart q) (CircularBuffer.GetContiguiousBytes q) q = Ok out
        /\ 0 < zlen out /\ CircularBuffer.Remove sent q = Ok q'
        /\ ring_inv q' /\ content q = take (Z.to_nat sent) out ++ content q').
Proof.
  intros H Hs Hne Hsent. split.
  - destruct (direct_fill_eq bs q H Hs) as (q' & Hf & Hw).
    destruct (write_spec q bs H) as (q2 & Hw2 & Hi & Hc).
    rewrite bool_decide_true in Hw2, Hc by done. rewrite Hw in Hw2. injection Hw2 as <-. eauto.
  - destruct (contiguous_read q H Hne) as (Hr & Hn).
    pose proof (length_content q (ring_inv_weak _ H)) as Hl.
    destruct (remove_spec q sent H) as (q' & Hrm & Hi & Hc).
    { open_ring H. lia. }
    eexists _, q'. split; [exact Hr|]. rewrite length_take, take_take. split; [lia|].
    do 2 (split; [done|]). rewrite Hc, Nat.min_l by lia. by rewrite take_drop.
Qed.

(** A buffer of 4 bytes that holds [1;2;3]. *)
Definition sample_ring : regions := Regions [1;2;3;0] 4096 4100 4096 3 0 0.

Lemma sample_ring_inv : ring_inv sample_ring.
Proof. split; simpl; lia. Defined.

Lemma circular_write_iff_space_witness :
  exists q', CircularBuffer.Write [9] sample_ring = Ok (bool_decide (zlen [9] <= space sample_ring), q')
    /\ ring_inv q'
    /\ content q' = content sample_ring ++ (if bool_decide (zlen [9] <= space sample_ring) then [9] else [])
    /\ 0 <= space sample_ring <= zlen (block sample_ring) - zlen (content sample_ring).
Proof. apply (circular_write_iff_space sample_ring [9]). exact sample_ring_inv. Defined.

Lemma zero_copy_sound_witness :
  (exists q', direct_fill [9] sample_ring = Ok q' /\ ring_inv q' /\ content q' = content sample_ring ++ [9])
  /\ (exists out q', copy_out (CircularBuffer.GetBufferStart sample_ring)
          (CircularBuffer.GetContiguiousBytes sample_ring) sample_ring = Ok out
        /\ 0 < zlen out /\ CircularBuffer.Remove 2 sample_ring = Ok q'
        /\ ring_inv q' /\ content sample_ring = take (Z.to_nat 2) out ++ content q').
Proof.
  apply (zero_copy_sound sample_ring [9] 2); [exact sample_ring_inv | | |]; vm_compute; intuition discriminate.
Defined.
