(* ===== verification/ByteBuffer.v ===== *)
(** * The packet byte buffer

    Models io/win/shared/ByteBuffer.hpp: a growable byte vector with a read and
    a write position, on which the packets of the servers are serialised.

    [Scalar] holds the fixed-size types a packet is made of and their
    little-endian object representation (the platforms the code targets);
    [ByteBuffer] the class; [Serial] the interface between the buffer and the
    types streamed through it: an encoding, and the laws that [<<] appends it and
    [>>] reads it back.  The instances are the overloads of the header, the
    container templates included. *)

From stdpp Require Import base tactics option list numbers.
From Stdlib Require Import ZArith Lia Bool.
From S2P Require Import Prelude.

#[local] Open Scope Z_scope.

(** ** Scalar types

    [float] and [double] values are carried as their bit patterns: the buffer
    only copies their object representation. *)

Inductive scalar :=
| T_char | T_uint8 | T_uint16 | T_uint32 | T_uint64
| T_int8 | T_int16 | T_int32 | T_int64 | T_float | T_double.

#[global] Instance scalar_eq_dec : EqDecision scalar.
Proof. solve_decision. Defined.

Definition sizeof (T : scalar) : nat :=
  match T with
  | T_char | T_uint8 | T_int8 => 1
  | T_uint16 | T_int16 => 2
  | T_uint32 | T_int32 | T_float => 4
  | T_uint64 | T_int64 | T_double => 8
  end%nat.

Definition is_signed (T : scalar) : bool :=
  match T with
  | T_char | T_int8 | T_int16 | T_int32 | T_int64 => true
  | _ => false
  end.

Definition scalar_bits (T : scalar) : Z := 8 * Z.of_nat (sizeof T).

(** Conversion of an integer to [T]. *)
Definition cast (T : scalar) (z : Z) : Z :=
  if is_signed T then swrap (scalar_bits T) z else wrap (scalar_bits T) z.

Definition in_range (T : scalar) (v : Z) : Prop :=
  if is_signed T then - 2 ^ (scalar_bits T - 1) <= v < 2 ^ (scalar_bits T - 1)
  else 0 <= v < 2 ^ scalar_bits T.

(** The [n] low bytes of [z], least significant first, and back. *)
Fixpoint to_bytes (n : nat) (z : Z) : list Z :=
  match n with
  | O => []
  | S n' => z mod 256 :: to_bytes n' (z / 256)
  end.

Fixpoint of_bytes (bs : list Z) : Z :=
  match bs with
  | [] => 0
  | b :: bs' => b + 256 * of_bytes bs'
  end.

Lemma length_to_bytes n z : length (to_bytes n z) = n.
Proof. revert z. induction n; intros; simpl; auto. Qed.

Lemma to_bytes_is_byte n z : Forall is_byte (to_bytes n z).
Proof.
  revert z. induction n; intros; simpl; constructor; auto.
  unfold is_byte. pose proof (Z.mod_pos_bound z 256). lia.
Qed.

Lemma of_to_bytes n z : of_bytes (to_bytes n z) = z mod 2 ^ (8 * Z.of_nat n).
Proof.
  revert z. induction n as [|n IH]; intros z; cbn [to_bytes of_bytes].
  - by rewrite Z.mul_0_r, Z.pow_0_r, Z.mod_1_r.
  - rewrite IH. replace (8 * Z.of_nat (S n)) with (8 + 8 * Z.of_nat n) by lia.
    rewrite Z.pow_add_r by lia. change (2 ^ 8) with 256.
    rewrite Z.rem_mul_r; lia.
Qed.

Lemma cast_of_to_bytes T v : in_range T v -> cast T (of_bytes (to_bytes (sizeof T) v)) = v.
Proof.
  intros Hr. rewrite of_to_bytes. change (_ mod _) with (wrap (scalar_bits T) v).
  unfold cast, in_range in *.
  assert (0 < scalar_bits T) by (destruct T; unfold scalar_bits; simpl; lia).
  destruct (is_signed T).
  - rewrite swrap_wrap by lia. by apply swrap_small.
  - rewrite wrap_wrap by lia. by apply wrap_small.
Qed.

Arguments to_bytes : simpl never.
#[export] Hint Resolve to_bytes_is_byte : cxx.
#[export] Hint Rewrite length_to_bytes : cxx.

(** ** The class *)

Module ByteBuffer.

Record t := Mk { _rpos : Z; _wpos : Z; _storage : list Z }.

Definition with_rpos (p : Z) (b : t) : t := Mk p (_wpos b) (_storage b).
Definition with_wpos (p : Z) (b : t) : t := Mk (_rpos b) p (_storage b).
Definition with_storage (s : list Z) (b : t) : t := Mk (_rpos b) (_wpos b) s.

(** The constructors: [reserve] does not change the contents. *)
Definition empty : t := Mk 0 0 [].
Definition copy (b : t) : t := Mk (_rpos b) (_wpos b) (_storage b).

Definition clear (b : t) : t := Mk 0 0 [].

Definition rpos (b : t) : Z := _rpos b.
Definition set_rpos (p : Z) (b : t) : t := with_rpos p b.
Definition wpos (b : t) : Z := _wpos b.
Definition set_wpos (p : Z) (b : t) : t := with_wpos p b.
Definition size (b : t) : Z := zlen (_storage b).
Definition contents (b : t) : list Z := _storage b.

(** [std::vector::resize]. *)
Definition vector_resize (n : Z) (s : list Z) : list Z :=
  take (Z.to_nat n) s ++ replicate (Z.to_nat n - length s) 0.

Definition resize (newsize : Z) (b : t) : t :=
  let s := vector_resize newsize (_storage b) in Mk 0 (zlen s) s.

(** [append( const uint8 * src, size_t cnt )], [src] being the [cnt] bytes. *)
Definition append_bytes (src : list Z) (b : t) : outcome t :=
  if zlen src =? 0 then Ok b
  else
    cxx_assert (size b <? 10000000) ;;*
    let s :=
      if size b <? u64 (_wpos b + zlen src)
      then vector_resize (u64 (_wpos b + zlen src)) (_storage b)
      else _storage b in
    let* s' := mwrite s (_wpos b) src in
    Ok (Mk (_rpos b) (u64 (_wpos b + zlen src)) s').

Definition append (T : scalar) (value : Z) (b : t) : outcome t :=
  append_bytes (to_bytes (sizeof T) value) b.

(** [append( const std::string & )] also stores the terminator. *)
Definition append_string (str : list Z) (b : t) : outcome t := append_bytes (str ++ [0]) b.

Definition append_buffer (buffer b : t) : outcome t :=
  if 0 <? size buffer then append_bytes (contents buffer) b else Ok b.

Definition put_bytes (pos : Z) (src : list Z) (b : t) : outcome t :=
  cxx_assert (u64 (pos + zlen src) <=? size b) ;;*
  let* s := mwrite (_storage b) pos src in Ok (with_storage s b).

Definition put (T : scalar) (pos value : Z) (b : t) : outcome t :=
  put_bytes pos (to_bytes (sizeof T) value) b.

(** [read<T>( pos )]: 0 past the end. *)
Definition read_at (T : scalar) (pos : Z) (b : t) : outcome Z :=
  if size b <? u64 (pos + Z.of_nat (sizeof T)) then Ok 0
  else
    let* bs := mread (_storage b) pos (Z.of_nat (sizeof T)) in
    Ok (cast T (of_bytes bs)).

Definition read (T : scalar) (b : t) : outcome (Z * t) :=
  let* r := read_at T (_rpos b) b in
  Ok (r, with_rpos (u64 (_rpos b + Z.of_nat (sizeof T))) b).

(** [read( uint8 * dest, size_t len )]: the bytes stored at [dest]. *)
Definition read_bytes (len : Z) (b : t) : outcome (list Z * t) :=
  let* out :=
    (if u64 (_rpos b + len) <=? size b then mread (_storage b) (_rpos b) len
     else Ok (replicate (Z.to_nat len) 0)) in
  Ok (out, with_rpos (u64 (_rpos b + len)) b).

Definition index (pos : Z) (b : t) : outcome Z := read_at T_uint8 pos b.

(** [operator<<] and [operator>>] on bool go through char. *)
Definition write_bool (value : bool) (b : t) : outcome t := append T_char (Z.b2z value) b.
Definition read_bool (b : t) : outcome (bool * t) :=
  let* (c, b') := read T_char b in Ok (0 <? c, b').

(** [operator<<( const std::string & )] and its inverse, which stops at NUL. *)
Definition write_string (value : list Z) (b : t) : outcome t :=
  let* b1 := append_bytes value b in append T_uint8 0 b1.

(** [operator<<( const char * )]: the bytes before the terminator. *)
Fixpoint c_string (s : list Z) : list Z :=
  match s with
  | [] => []
  | c :: s' => if c =? 0 then [] else c :: c_string s'
  end.

Definition write_cstr (str : list Z) (b : t) : outcome t :=
  let* b1 := append_bytes (c_string str) b in append T_uint8 0 b1.

Fixpoint read_string_loop (fuel : nat) (value : list Z) (b : t) : outcome (list Z * t) :=
  match fuel with
  | O => Err OutOfFuel
  | S fuel' =>
      let* (c, b') := read T_char b in
      if c =? 0 then Ok (value, b') else read_string_loop fuel' (value ++ [wrap 8 c]) b'
  end.

(** Each round moves the read position by one, and past the end it reads 0. *)
Definition read_string (b : t) : outcome (list Z * t) :=
  read_string_loop (S (length (_storage b))) [] b.

(** A shift of an [int]: over-wide shifts are undefined. *)
Definition shl_int (x k : Z) : outcome Z :=
  if (0 <=? k) && (k <? 32) then Ok (i32 (Z.shiftl x k)) else Err UndefinedBehaviour.

Fixpoint pack_loop (n : nat) (i mask_position guid : Z) (b : t) : outcome t :=
  match n with
  | O => Ok b
  | S n' =>
      let* b' :=
        (if negb (Z.land guid 255 =? 0) then
           let* m := mread (_storage b) mask_position 1 in
           let* s := mwrite (_storage b) mask_position
                       [u8 (Z.lor (nth 0 m 0) (Z.shiftl 1 i))] in
           append T_uint8 (Z.land guid 255) (with_storage s b)
         else Ok b) in
      pack_loop n' (i + 1) mask_position (Z.shiftr guid 8) b'
  end.

Definition appendPackGUID (guid : Z) (b : t) : outcome t :=
  let mask_position := wpos b in
  let* b' := append T_uint8 0 b in
  pack_loop 8 0 mask_position guid b'.

(** [guid |= uint64( temp << uint64( i << 3 ) )]: the shift is done on an int. *)
Fixpoint unpack_loop (n : nat) (i mask guid : Z) (b : t) : outcome (Z * t) :=
  match n with
  | O => Ok (guid, b)
  | S n' =>
      if negb (Z.land mask (Z.shiftl 1 i) =? 0) then
        let* (temp, b') := read T_uint8 b in
        let* v := shl_int temp (Z.shiftl i 3) in
        unpack_loop n' (i + 1) mask (Z.lor guid (u64 v)) b'
      else unpack_loop n' (i + 1) mask guid b
  end.

Definition unpackGUID (b : t) : outcome (Z * t) :=
  let* (mask, b') := read T_uint8 b in
  unpack_loop 8 0 mask 0 b'.

Definition reverse (b : t) : t := with_storage (rev (_storage b)) b.

(** What hexlike prints: separators, bytes in hex (with or without a leading
    zero) and bytes as characters. *)
Inductive token := Tok_bar | Tok_split | Tok_newline | Tok_hex0 (v : Z) | Tok_hex (v : Z) | Tok_chr (v : Z).

Definition hex_token (v : Z) : token := if v <=? 15 then Tok_hex0 v else Tok_hex v.

Fixpoint print_chars (n : nat) (from : Z) (b : t) : outcome (list token) :=
  match n with
  | O => Ok []
  | S n' =>
      let* v := read_at T_uint8 (u32 from) b in
      let* ts := print_chars n' (from + 1) b in
      Ok (Tok_chr v :: ts)
  end.

(** The counters are uint32: below 2^31 bytes they do not wrap. *)
Fixpoint hex_loop (n : nat) (i j k : Z) (b : t) : outcome (list token * t) :=
  match n with
  | O => Ok ([], b)
  | S n' =>
      let* v := read_at T_uint8 i b in
      if (i =? j * 8) && negb (i =? k * 16) then
        let* (ts, b') := hex_loop n' (i + 1) (j + 1) k b in
        Ok (Tok_bar :: hex_token v :: ts, b')
      else if i =? k * 16 then
        let b1 := set_rpos (u64 (rpos b - 16)) b in
        let* cs := print_chars 16 (i - 16) b1 in
        let* (ts, b') := hex_loop n' (i + 1) (j + 1) (k + 1) b1 in
        Ok (Tok_split :: cs ++ Tok_newline :: hex_token v :: ts, b')
      else
        let* (ts, b') := hex_loop n' (i + 1) j k b in
        Ok (hex_token v :: ts, b')
  end.

Definition hexlike (b : t) : outcome (list token * t) :=
  hex_loop (length (_storage b)) 0 1 1 b.

End ByteBuffer.

Import ByteBuffer.

(** ** Lemmas on the primitives *)

(** A buffer that is only written through its stream operators keeps its write
    position at the end of the storage. *)
Definition writable (n : Z) (b : t) : Prop :=
  _wpos b = zlen (_storage b) /\ zlen (_storage b) + n < 10000000.

(** [b] after [bs] has been streamed into it. *)
Definition appended (bs : list Z) (b : t) : t :=
  Mk (_rpos b) (zlen (_storage b ++ bs)) (_storage b ++ bs).

(** [b] with the read position [n] bytes further. *)
Definition advanced (n : Z) (b : t) : t := with_rpos (_rpos b + n) b.

(** The unread bytes of [b] start with [bs]. *)
Definition upcoming (bs : list Z) (b : t) : Prop :=
  exists pre rest, _storage b = pre ++ bs ++ rest /\ _rpos b = zlen pre /\ zlen (_storage b) < 2 ^ 63.

Lemma appended_nil b n : writable n b -> appended [] b = b.
Proof. intros [H _]. destruct b; unfold appended; simpl in *. by rewrite app_nil_r, <- H. Qed.

Lemma appended_app bs cs b : appended cs (appended bs b) = appended (bs ++ cs) b.
Proof. unfold appended; simpl. by rewrite app_assoc. Qed.

Lemma writable_appended n bs b : writable (zlen bs + n) b -> writable n (appended bs b).
Proof. intros [H1 H2]. unfold writable, appended; simpl. rewrite length_app. lia. Qed.

Lemma writable_le n m b : m <= n -> writable n b -> writable m b.
Proof. unfold writable. lia. Qed.

Lemma advanced_add n m b : advanced m (advanced n b) = advanced (n + m) b.
Proof. unfold advanced, with_rpos; simpl. by rewrite Z.add_assoc. Qed.

Lemma advanced_0 b : advanced 0 b = b.
Proof. destruct b; unfold advanced, with_rpos; simpl. by rewrite Z.add_0_r. Qed.

Lemma upcoming_app_l bs cs b : upcoming (bs ++ cs) b -> upcoming bs b.
Proof.
  intros (pre & rest & E & Hr & Hl). exists pre, (cs ++ rest).
  split; [by rewrite E, <- !app_assoc | done].
Qed.

Lemma upcoming_app_r bs cs b : upcoming (bs ++ cs) b -> upcoming cs (advanced (zlen bs) b).
Proof.
  intros (pre & rest & E & Hr & Hl). exists (pre ++ bs), rest.
  unfold advanced; simpl.
  split; [by rewrite E, <- !app_assoc | split; [rewrite length_app; lia | done]].
Qed.

#[export] Hint Resolve appended_nil upcoming_app_l upcoming_app_r : cxx.
#[export] Hint Rewrite @appended_app advanced_add advanced_0 : cxx.

Lemma append_bytes_ok bs b :
  writable (zlen bs) b -> append_bytes bs b = Ok (appended bs b).
Proof.
  intros [Hw Hs]. unfold append_bytes. destruct (zlen bs =? 0) eqn:E0; to_prop.
  - assert (bs = []) as -> by (apply length_zero_iff_nil; lia).
    by rewrite (appended_nil b 0) by done.
  - unfold size. rewrite cxx_assert_true by lia. cbn [mbind outcome_bind].
    rewrite Hw, wrap_small by lia. replace (zlen (_storage b) <? _) with true by lia.
    unfold vector_resize. rewrite take_ge by lia.
    rewrite mwrite_ok by (rewrite ?length_app, ?length_replicate; lia). simpl.
    unfold appended. do 2 f_equal; [rewrite length_app; lia|].
    unfold splice. rewrite Nat2Z.id, take_app_length. f_equal.
    rewrite drop_ge by (rewrite length_app, length_replicate; lia). apply app_nil_r.
Qed.

Lemma append_ok T v b :
  writable (Z.of_nat (sizeof T)) b -> append T v b = Ok (appended (to_bytes (sizeof T) v) b).
Proof. intros H. apply append_bytes_ok. by rewrite length_to_bytes. Qed.

Lemma slice_middle {A} (pre bs rest : list A) : slice (pre ++ bs ++ rest) (zlen pre) (zlen bs) = bs.
Proof. unfold slice. by rewrite !Nat2Z.id, drop_app_length, take_app_length. Qed.

Lemma read_ok T bs b :
  length bs = sizeof T -> upcoming bs b ->
  read T b = Ok (cast T (of_bytes bs), advanced (zlen bs) b).
Proof.
  intros Hl (pre & rest & E & Hr & Hs).
  assert (Z.of_nat (length pre) + zlen bs <= zlen (_storage b)) as Hle
    by (rewrite E, !length_app; lia).
  unfold read, read_at, size. rewrite <- Hl, Hr, wrap_small by lia.
  replace (zlen (_storage b) <? _) with false by lia.
  rewrite mread_ok by lia. rewrite E, slice_middle. simpl. unfold advanced. by rewrite Hr.
Qed.

(** Past the end of the storage a read gives 0 and still advances. *)
Lemma read_past_end T b :
  zlen (_storage b) < _rpos b + Z.of_nat (sizeof T) < 2 ^ 64 -> 0 <= _rpos b ->
  read T b = Ok (0, advanced (Z.of_nat (sizeof T)) b).
Proof.
  intros H H0. unfold read, read_at, size. rewrite wrap_small by lia.
  by replace (zlen (_storage b) <? _) with true by lia.
Qed.

(** ** The interface of the stream operators *)

Class SerialOps (A : Type) := {
  write_to : A -> t -> outcome t;
  read_from : t -> outcome (A * t);
  enc : A -> list Z;
  encodable : A -> Prop
}.

(** [<<] appends the encoding; [>>] on a buffer whose unread bytes start with
    the encoding of [v] gives [v] back and consumes just these bytes. *)
Class Serial (A : Type) `{SerialOps A} : Prop := {
  write_law v b : encodable v -> writable (zlen (enc v)) b -> write_to v b = Ok (appended (enc v) b);
  read_law v b : encodable v -> upcoming (enc v) b -> read_from b = Ok (v, advanced (zlen (enc v)) b)
}.
#[global] Hint Mode Serial ! - : typeclass_instances.

(** *** Scalars, bool, strings *)

Record val (T : scalar) := Val { raw : Z }.
Arguments Val {T} raw.
Arguments raw {T} v.

Definition write_scalar (T : scalar) (v : val T) (b : t) : outcome t := append T (raw v) b.
Definition read_scalar (T : scalar) (b : t) : outcome (val T * t) :=
  let* (z, b') := read T b in Ok (Val z, b').

#[export] Instance scalar_ops T : SerialOps (val T) := {
  write_to := write_scalar T;
  read_from := read_scalar T;
  enc v := to_bytes (sizeof T) (raw v);
  encodable v := in_range T (raw v)
}.

#[export] Instance scalar_serial T : Serial (val T).
Proof.
  split; intros [z] b; simpl; intros Hv Hb.
  - apply append_ok. by rewrite length_to_bytes in Hb.
  - unfold read_scalar. rewrite (read_ok T (to_bytes (sizeof T) z)) by (apply length_to_bytes || done).
    simpl. by rewrite cast_of_to_bytes.
Qed.

#[export] Instance bool_ops : SerialOps bool := {
  write_to := write_bool;
  read_from := read_bool;
  enc v := [Z.b2z v];
  encodable _ := True
}.

#[export] Instance bool_serial : Serial bool.
Proof.
  split; intros v b _ Hb.
  - unfold write_to, bool_ops, write_bool. rewrite append_ok by done.
    by destruct v.
  - unfold read_from, bool_ops, read_bool. rewrite (read_ok T_char [Z.b2z v]) by done.
    by destruct v.
Qed.

Record str := Str { chars : list Z }.

(** The bytes a C string can hold. *)
Definition c_chars (s : list Z) : Prop := Forall (fun c => 0 < c < 256) s.

#[export] Instance str_ops : SerialOps str := {
  write_to s := write_string (chars s);
  read_from b := let* (s, b') := read_string b in Ok (Str s, b');
  enc s := chars s ++ [0];
  encodable s := c_chars (chars s)
}.

Lemma write_string_ok s b :
  writable (zlen (s ++ [0])) b -> write_string s b = Ok (appended (s ++ [0]) b).
Proof.
  intros Hb. rewrite length_app in Hb; simpl in Hb. unfold write_string.
  rewrite append_bytes_ok by (eapply writable_le; [|done]; lia). simpl.
  rewrite append_ok by (apply writable_appended; eapply writable_le; [|done]; simpl; lia).
  by rewrite appended_app.
Qed.

(** A char read from a byte and stored in a string is that byte again. *)
Lemma char_byte c : is_byte c -> wrap 8 (cast T_char (of_bytes [c])) = c.
Proof.
  intros Hc. unfold cast. simpl. change (scalar_bits T_char) with 8.
  rewrite wrap_swrap by lia. unfold is_byte in Hc. rewrite wrap_small; lia.
Qed.

Lemma cast_char_zero c : is_byte c -> (cast T_char (of_bytes [c]) =? 0) = (c =? 0).
Proof.
  unfold is_byte. intros Hc.
  replace (cast T_char (of_bytes [c])) with ((c + 128) mod 256 - 128)
    by (unfold cast, swrap; simpl; rewrite Z.add_0_r; done).
  destruct (Z.eqb_spec c 0) as [->|Hn]; [done|]. apply Z.eqb_neq.
  destruct (Z_lt_le_dec c 128); [rewrite Z.mod_small; lia|].
  replace (c + 128) with (c - 128 + 1 * 256) by lia.
  rewrite Z.mod_add, Z.mod_small; lia.
Qed.

Lemma read_string_loop_ok fuel acc s b :
  Forall is_byte s -> (length (c_string s) < fuel)%nat -> upcoming (c_string s ++ [0]) b ->
  read_string_loop fuel acc b = Ok (acc ++ c_string s, advanced (zlen (c_string s) + 1) b).
Proof.
  intros Hs. revert fuel acc b.
  induction Hs as [|c s Hc Hs IH]; intros fuel acc b Hf Hu; (destruct fuel as [|fuel]; [lia|]);
    cbn [read_string_loop c_string] in *.
  - rewrite (read_ok T_char [0]) by done. simpl. by rewrite app_nil_r.
  - destruct (c =? 0) eqn:E0; to_prop; subst; cbn [length] in *.
    + rewrite (read_ok T_char [0]) by done. simpl. by rewrite app_nil_r.
    + rewrite (read_ok T_char [c]) by (done || by apply (upcoming_app_l [c] (c_string s ++ [0]))).
      cbn [mbind outcome_bind]. rewrite cast_char_zero by done.
      replace (c =? 0) with false by lia. rewrite char_byte by done.
      rewrite (IH fuel) by (lia || exact (upcoming_app_r [c] (c_string s ++ [0]) b Hu)).
      rewrite advanced_add, <- app_assoc. do 3 f_equal. simpl. lia.
Qed.

Lemma read_string_ok s b :
  Forall is_byte s -> upcoming (c_string s ++ [0]) b ->
  read_string b = Ok (c_string s, advanced (zlen (c_string s) + 1) b).
Proof.
  intros Hs Hu. unfold read_string. rewrite (read_string_loop_ok _ [] s); try done.
  destruct Hu as (pre & rest & E & _). rewrite E, !length_app. simpl. lia.
Qed.

Lemma c_string_id s : c_chars s -> c_string s = s.
Proof.
  induction 1 as [|c s Hc Hs IH]; simpl; [done|].
  replace (c =? 0) with false by lia. by rewrite IH.
Qed.

Lemma c_chars_bytes s : c_chars s -> Forall is_byte s.
Proof. apply Forall_impl. unfold is_byte. lia. Qed.

#[export] Instance str_serial : Serial str.
Proof.
  split; intros [s] b; simpl; intros Hv Hb.
  - by apply write_string_ok.
  - rewrite <- (c_string_id s) in Hb at 1 by done.
    rewrite (read_string_ok s) by (done || by apply c_chars_bytes). simpl.
    rewrite c_string_id by done. do 3 f_equal. rewrite length_app. simpl. lia.
Qed.

(** *** Containers

    The templates write the element count as a uint32 and then the elements. *)

Section Containers.
Context {A : Type} `{Serial A}.

Definition enc_all (v : list A) : list Z := concat (map enc v).

Lemma enc_all_cons x v : enc_all (x :: v) = enc x ++ enc_all v.
Proof. reflexivity. Qed.

Fixpoint write_all (v : list A) (b : t) : outcome t :=
  match v with
  | [] => Ok b
  | x :: v' => let* b' := write_to x b in write_all v' b'
  end.

(** [while ( vsize-- )]: one element a round. *)
Fixpoint read_n (vsize : nat) (v : list A) (b : t) : outcome (list A * t) :=
  match vsize with
  | O => Ok (v, b)
  | S n => let* (x, b') := read_from b in read_n n (v ++ [x]) b'
  end.

Definition write_count (n : Z) (b : t) : outcome t := append T_uint32 (u32 n) b.

Definition write_vector (v : list A) (b : t) : outcome t :=
  let* b' := write_count (zlen v) b in write_all v b'.

Definition read_vector (b : t) : outcome (list A * t) :=
  let* (vsize, b') := read T_uint32 b in read_n (Z.to_nat vsize) [] b'.

Definition write_list (v : list A) (b : t) : outcome t :=
  let* b' := write_count (zlen v) b in write_all v b'.

Definition read_list (b : t) : outcome (list A * t) :=
  let* (vsize, b') := read T_uint32 b in read_n (Z.to_nat vsize) [] b'.

Definition enc_seq (v : list A) : list Z := to_bytes 4 (zlen v) ++ enc_all v.
Definition encodable_seq (v : list A) : Prop := Forall encodable v /\ zlen v < 2 ^ 32.

Lemma write_all_ok v b :
  Forall encodable v -> writable (zlen (enc_all v)) b -> write_all v b = Ok (appended (enc_all v) b).
Proof.
  intros Hv. revert b. induction Hv as [|x v Hx Hv IH]; intros b Hb; simpl.
  - by rewrite <- (appended_nil b _ Hb) at 1.
  - rewrite enc_all_cons in *. rewrite length_app in Hb.
    rewrite (write_law x b Hx) by (eapply writable_le; [|done]; lia). simpl.
    rewrite IH by (apply writable_appended; eapply writable_le; [|done]; lia).
    by rewrite appended_app.
Qed.

Lemma write_count_ok n b :
  0 <= n < 2 ^ 32 -> writable 4 b -> write_count n b = Ok (appended (to_bytes 4 n) b).
Proof. intros Hn Hb. unfold write_count. rewrite wrap_small by done. by apply append_ok. Qed.

Lemma write_seq_ok v b :
  encodable_seq v -> writable (zlen (enc_seq v)) b ->
  mbind (write_all v) (write_count (zlen v) b) = Ok (appended (enc_seq v) b).
Proof.
  intros [Hv Hn] Hb. unfold enc_seq in *. rewrite length_app, length_to_bytes in Hb.
  rewrite write_count_ok by (lia || (eapply writable_le; [|done]; lia)). simpl mbind.
  rewrite write_all_ok; [by rewrite appended_app | done |].
  apply writable_appended. rewrite length_to_bytes. eapply writable_le; [|done]; lia.
Qed.

Lemma read_n_ok v acc b :
  Forall encodable v -> upcoming (enc_all v) b ->
  read_n (length v) acc b = Ok (acc ++ v, advanced (zlen (enc_all v)) b).
Proof.
  intros Hv. revert acc b. induction Hv as [|x v Hx Hv IH]; intros acc b Hu; simpl.
  - by rewrite app_nil_r, advanced_0.
  - rewrite enc_all_cons in *. rewrite (read_law x) by eauto with cxx. cbn [mbind outcome_bind].
    rewrite IH by exact (upcoming_app_r _ _ _ Hu).
    rewrite <- app_assoc, advanced_add. do 3 f_equal. rewrite length_app. lia.
Qed.

Lemma read_seq_ok v b :
  encodable_seq v -> upcoming (enc_seq v) b ->
  read_list b = Ok (v, advanced (zlen (enc_seq v)) b).
Proof.
  intros [Hv Hn] Hu. unfold read_list, enc_seq in *.
  rewrite (read_ok T_uint32 (to_bytes 4 (zlen v))) by (done || by eapply upcoming_app_l).
  cbn [mbind outcome_bind].
  rewrite cast_of_to_bytes by (unfold in_range; simpl; change (scalar_bits T_uint32) with 32; lia).
  rewrite Nat2Z.id, read_n_ok by (done || by eapply upcoming_app_r).
  rewrite advanced_add. do 3 f_equal. rewrite length_app. lia.
Qed.
End Containers.

#[export] Instance vector_ops {A} `{SerialOps A} : SerialOps (list A) := {
  write_to := write_vector; read_from := read_vector; enc := enc_seq; encodable := encodable_seq
}.

#[export] Instance vector_serial {A} `{Serial A} : Serial (list A).
Proof. split; intros; [by apply write_seq_ok | by apply read_seq_ok]. Qed.

(** [std::list]. *)
Record cxx_list (A : Type) := CxxList { elems : list A }.
Arguments CxxList {A} elems.
Arguments elems {A} c.

#[export] Instance list_ops {A} `{SerialOps A} : SerialOps (cxx_list A) := {
  write_to l := write_list (elems l);
  read_from b := let* (l, b') := read_list b in Ok (CxxList l, b');
  enc l := enc_seq (elems l);
  encodable l := encodable_seq (elems l)
}.

#[export] Instance list_serial {A} `{Serial A} : Serial (cxx_list A).
Proof.
  split; intros [l] b Hv Hb; [by apply write_seq_ok|].
  unfold read_from, list_ops. by rewrite (read_seq_ok l).
Qed.

(** Two values one after the other, as a packet's fields or a map's entries. *)
#[export] Instance pair_ops {A B} `{SerialOps A} `{SerialOps B} : SerialOps (A * B) := {
  write_to p b := let* b' := write_to p.1 b in write_to p.2 b';
  read_from b := let* (x, b1) := read_from b in let* (y, b2) := read_from b1 in Ok ((x, y), b2);
  enc p := enc p.1 ++ enc p.2;
  encodable p := encodable p.1 /\ encodable p.2
}.

#[export] Instance pair_serial {A B} `{Serial A} `{Serial B} : Serial (A * B).
Proof.
  split; intros [x y] b [Hx Hy] Hb; unfold write_to, read_from, enc, pair_ops in *; simpl in *.
  - rewrite length_app in Hb.
    rewrite (write_law x b Hx) by (eapply writable_le; [|done]; lia). simpl.
    rewrite (write_law y _ Hy); [by rewrite appended_app |].
    apply writable_appended. eapply writable_le; [|done]; lia.
  - rewrite (read_law x) by eauto with cxx. cbn [mbind outcome_bind].
    rewrite (read_law y) by eauto with cxx. cbn [mbind outcome_bind].
    rewrite advanced_add, length_app, Nat2Z.inj_add. done.
Qed.

(** *** [std::map]

    A map is the list of its entries in the order of its keys, which is the
    order its iterators visit. *)

Class KeyOrder (K : Type) := key_lt : K -> K -> bool.

Class KeyOrderLaws (K : Type) `{KeyOrder K} : Prop := {
  key_lt_trans x y z : key_lt x y = true -> key_lt y z = true -> key_lt x z = true;
  key_lt_asym x y : key_lt x y = true -> key_lt y x = false
}.

Record cxx_map (K V : Type) := CxxMap { entries : list (K * V) }.
Arguments CxxMap {K V} entries.
Arguments entries {K V} c.

Section Maps.
Context {K V : Type} `{KeyOrderLaws K} `{Serial K} `{Serial V}.

(** [std::map::insert] keeps the entry of a key that is already there. *)
Fixpoint map_insert (e : K * V) (m : list (K * V)) : list (K * V) :=
  match m with
  | [] => [e]
  | e' :: m' =>
      if key_lt e.1 e'.1 then e :: m
      else if key_lt e'.1 e.1 then e' :: map_insert e m'
      else m
  end.

Definition write_map (m : cxx_map K V) (b : t) : outcome t :=
  let* b' := write_count (zlen (entries m)) b in write_all (entries m) b'.

Fixpoint read_map_loop (msize : nat) (m : list (K * V)) (b : t) : outcome (list (K * V) * t) :=
  match msize with
  | O => Ok (m, b)
  | S n =>
      let* (k, b1) := read_from b in
      let* (v, b2) := read_from b1 in
      read_map_loop n (map_insert (k, v) m) b2
  end.

Definition read_map (b : t) : outcome (cxx_map K V * t) :=
  let* (msize, b') := read T_uint32 b in
  let* (m, b2) := read_map_loop (Z.to_nat msize) [] b' in
  Ok (CxxMap m, b2).

(** Entries in strictly increasing order of their keys. *)
Fixpoint sorted_from (l : list (K * V)) : Prop :=
  match l with
  | [] => True
  | e :: l' => Forall (fun e' => key_lt e.1 e'.1 = true) l' /\ sorted_from l'
  end.

Lemma map_insert_last e m :
  Forall (fun e' => key_lt e'.1 e.1 = true) m -> map_insert e m = m ++ [e].
Proof.
  induction 1 as [|e' m He Hm IH]; simpl; [done|].
  rewrite (key_lt_asym _ _ He), He, IH. done.
Qed.

Lemma read_map_loop_ok v acc b :
  Forall encodable v -> sorted_from v ->
  Forall (fun e => Forall (fun e' => key_lt e'.1 e.1 = true) acc) v ->
  upcoming (enc_all v) b ->
  read_map_loop (length v) acc b = Ok (acc ++ v, advanced (zlen (enc_all v)) b).
Proof.
  intros Hv. revert acc b. induction Hv as [|[x y] v [Hx Hy] Hv IH]; intros acc b Hs Hacc Hu; simpl.
  - by rewrite app_nil_r, advanced_0.
  - destruct Hs as [Hs1 Hs2]. apply Forall_cons_1 in Hacc as [Ha1 Ha2].
    rewrite enc_all_cons in *. cbn [enc pair_ops fst snd] in Hu |- *.
    rewrite <- app_assoc in Hu.
    rewrite (read_law x) by eauto with cxx. cbn [mbind outcome_bind].
    rewrite (read_law y) by eauto with cxx. cbn [mbind outcome_bind].
    rewrite map_insert_last by done. rewrite (IH (acc ++ [(x, y)])); try done.
    + rewrite <- !app_assoc, !advanced_add. do 3 f_equal. rewrite !length_app. lia.
    + rewrite Forall_forall in Ha2, Hs1 |- *. intros e He. apply Forall_app. split; [by apply Ha2|].
      constructor; [by apply Hs1 | constructor].
    + eauto with cxx.
Qed.

#[export] Instance map_ops : SerialOps (cxx_map K V) := {
  write_to := write_map;
  read_from := read_map;
  enc m := enc_seq (entries m);
  encodable m := encodable_seq (entries m) /\ sorted_from (entries m)
}.

#[export] Instance map_serial : Serial (cxx_map K V).
Proof.
  split; intros [m] b [Hm Hs] Hb; simpl in *.
  - by apply (write_seq_ok m).
  - destruct Hm as [Hm Hn]. unfold read_map. unfold enc_seq in *.
    rewrite (read_ok T_uint32 (to_bytes 4 (zlen m))) by (done || by eapply upcoming_app_l).
    cbn [mbind outcome_bind].
    rewrite cast_of_to_bytes by (unfold in_range; simpl; change (scalar_bits T_uint32) with 32; lia).
    rewrite Nat2Z.id, read_map_loop_ok; try done;
      [|by rewrite Forall_forall; intros; constructor | by eapply upcoming_app_r].
    rewrite advanced_add. cbn [mbind outcome_bind app]. rewrite length_to_bytes. do 3 f_equal. lia.
Qed.
End Maps.

(** Integer keys. *)
#[export] Instance val_key_order T : KeyOrder (val T) := fun x y => raw x <? raw y.

#[export] Instance val_key_laws T : KeyOrderLaws (val T).
Proof. split; unfold key_lt, val_key_order; intros; to_prop; lia. Qed.

(** ** Packets: every type the operators compose *)

Definition is_integer (T : scalar) : bool :=
  match T with T_float | T_double => false | _ => true end.

Inductive ty :=
| TyScalar (T : scalar)
| TyBool
| TyString
| TyVector (τ : ty)
| TyList (τ : ty)
| TyMap (K : scalar) (HK : is_integer K = true) (τ : ty)
| TyPair (τ1 τ2 : ty).

Fixpoint denote (τ : ty) : Type :=
  match τ with
  | TyScalar T => val T
  | TyBool => bool
  | TyString => str
  | TyVector τ => list (denote τ)
  | TyList τ => cxx_list (denote τ)
  | TyMap K _ τ => cxx_map (val K) (denote τ)
  | TyPair τ1 τ2 => denote τ1 * denote τ2
  end.

Fixpoint denote_ops (τ : ty) : SerialOps (denote τ) :=
  match τ with
  | TyScalar T => scalar_ops T
  | TyBool => bool_ops
  | TyString => str_ops
  | TyVector τ => @vector_ops _ (denote_ops τ)
  | TyList τ => @list_ops _ (denote_ops τ)
  | TyMap K _ τ => @map_ops _ _ (val_key_order K) (scalar_ops K) (denote_ops τ)
  | TyPair τ1 τ2 => @pair_ops _ _ (denote_ops τ1) (denote_ops τ2)
  end.
#[export] Existing Instance denote_ops.

#[export] Instance denote_serial τ : Serial (denote τ).
Proof. induction τ; simpl; apply _. Qed.

(** ** Packed GUIDs

    [appendPackGUID] writes a mask byte and then the bytes of the GUID that are
    not 0.  [nz_bytes n g] are these bytes among the [n] lowest of [g], and
    [nz_mask n i g] the mask bits of them, from bit [i]. *)

Fixpoint nz_bytes (n : nat) (g : Z) : list Z :=
  match n with
  | O => []
  | S n' => (if g mod 256 =? 0 then [] else [g mod 256]) ++ nz_bytes n' (g / 256)
  end.

Fixpoint nz_mask (n : nat) (i g : Z) : Z :=
  match n with
  | O => 0
  | S n' => (if g mod 256 =? 0 then 0 else 2 ^ i) + nz_mask n' (i + 1) (g / 256)
  end.

Lemma low_byte g : Z.land g 255 = g mod 256.
Proof. change 255 with (Z.ones 8). by rewrite Z.land_ones by lia. Qed.

Lemma next_bytes g : Z.shiftr g 8 = g / 256.
Proof. by rewrite Z.shiftr_div_pow2 by lia. Qed.

Lemma length_nz_bytes n g : (length (nz_bytes n g) <= n)%nat.
Proof.
  revert g. induction n as [|n IH]; intros g; simpl; [done|].
  rewrite length_app. specialize (IH (g / 256)). destruct (_ =? 0); simpl; lia.
Qed.

Lemma nz_mask_multiple n i g : 0 <= i -> exists k, nz_mask n i g = 2 ^ i * k.
Proof.
  revert i g. induction n as [|n IH]; intros i g Hi; simpl; [by exists 0; lia|].
  destruct (IH (i + 1) (g / 256) ltac:(lia)) as [k ->].
  rewrite Z.pow_add_r by lia. destruct (_ =? 0); eexists; [|erewrite Z.mul_add_distr_l; f_equal].
  - rewrite Z.add_0_l, <- Z.mul_assoc. done.
  - by rewrite Z.mul_1_r.
  - by rewrite <- Z.mul_assoc.
Qed.

Lemma nz_mask_bound n i g : 0 <= i -> 0 <= nz_mask n i g <= 2 ^ (i + Z.of_nat n) - 2 ^ i.
Proof.
  revert i g. induction n as [|n IH]; intros i g Hi; cbn [nz_mask].
  - rewrite Z.add_0_r. lia.
  - specialize (IH (i + 1) (g / 256) ltac:(lia)).
    replace (i + 1 + Z.of_nat n) with (i + Z.of_nat (S n)) in IH by lia.
    rewrite (Z.pow_add_r 2 i 1) in IH by lia. destruct (_ =? 0); lia.
Qed.

(** The mask says which byte is present. *)
Lemma nz_mask_testbit n i g m :
  0 <= i -> 0 <= m < 2 ^ i ->
  Z.testbit (m + nz_mask (S n) i g) i = negb (g mod 256 =? 0).
Proof.
  intros Hi Hm. cbn [nz_mask]. destruct (nz_mask_multiple n (i + 1) (g / 256) ltac:(lia)) as [k ->].
  apply Z.b2z_inj. rewrite Z.testbit_spec' by done.
  replace (m + _) with (m + (Z.b2z (negb (g mod 256 =? 0)) + k * 2) * 2 ^ i)
    by (rewrite Z.pow_add_r by lia; destruct (_ =? 0); simpl; lia).
  rewrite Z.div_add, (Z.div_small m), Z.add_0_l, Z.mod_add by lia.
  by destruct (_ =? 0).
Qed.

(** One round of packing: the mask bit or-ed in at [pre], the byte appended. *)
Lemma pack_loop_ok n i g m pre tl b :
  0 <= i -> i + Z.of_nat n <= 8 -> 0 <= m < 2 ^ i ->
  _storage b = pre ++ m :: tl -> writable (Z.of_nat n) b ->
  pack_loop n i (zlen pre) g b =
    Ok (Mk (_rpos b) (_wpos b + zlen (nz_bytes n g))
           (pre ++ (m + nz_mask n i g) :: tl ++ nz_bytes n g)).
Proof.
  revert i g m tl b. induction n as [|n IH]; intros i g m tl b Hi Hn Hm Es Hw; cbn [pack_loop].
  - simpl. rewrite Z.add_0_r, app_nil_r, Z.add_0_r, <- Es. by destruct b.
  - cbn [nz_bytes nz_mask]. rewrite low_byte, next_bytes.
    assert (2 ^ (i + 1) = 2 * 2 ^ i) as Ep by (rewrite Z.pow_add_r; lia).
    destruct (g mod 256 =? 0) eqn:E0; cbn [negb mbind outcome_bind app].
    + rewrite (IH (i + 1) _ m tl); try done; [lia | lia | lia |].
      eapply writable_le; [|done]; lia.
    + assert (2 ^ (i + 1) <= 256) by (change 256 with (2 ^ 8); apply Z.pow_le_mono_r; lia).
      rewrite Es, mread_ok by (rewrite ?length_app; simpl; lia).
      change (m :: tl) with ([m] ++ tl). rewrite (slice_middle pre [m] tl : slice _ _ 1 = _).
      cbn [mbind outcome_bind nth].
      rewrite Z.shiftl_1_l, <- (Z.mul_1_l (2 ^ i)), lor_add, Z.mul_1_l, wrap_small by lia.
      rewrite mwrite_ok by (rewrite ?length_app; simpl; lia). cbn [mbind outcome_bind].
      replace (splice _ _ _) with (pre ++ [m + 2 ^ i] ++ tl)
        by (unfold splice; rewrite Nat2Z.id, take_app_length, drop_app_ge by lia;
            replace (_ - _)%nat with 1%nat by (simpl; lia); done).
      destruct Hw as [Hw1 Hw2]. rewrite Es, length_app in Hw1, Hw2. simpl in Hw1, Hw2.
      rewrite append_ok
        by (split; simpl; rewrite ?length_app; simpl; lia).
      cbn [mbind outcome_bind].
      rewrite (IH (i + 1) _ (m + 2 ^ i) (tl ++ [g mod 256])); try lia.
      * unfold appended. simpl. do 2 f_equal.
        -- rewrite !length_app. simpl. lia.
        -- rewrite <- app_assoc. f_equal. f_equal. lia.
      * simpl. rewrite <- app_assoc. simpl. do 3 f_equal.
        unfold to_bytes. rewrite Z.mod_mod by lia. done.
      * split; simpl; rewrite ?length_app; simpl; [done|]. rewrite ?length_app. simpl.  lia.
Qed.

(** One round of unpacking. *)
Lemma unpack_step n i g m acc b :
  0 <= i -> 0 <= m < 2 ^ i -> upcoming (nz_bytes (S n) g) b ->
  unpack_loop (S n) i (m + nz_mask (S n) i g) acc b =
    (if g mod 256 =? 0 then unpack_loop n (i + 1) (m + nz_mask (S n) i g) acc b
     else
       let* v := shl_int (g mod 256) (8 * i) in
       unpack_loop n (i + 1) (m + nz_mask (S n) i g) (Z.lor acc (u64 v)) (advanced 1 b)).
Proof.
  intros Hi Hm Hu. cbn [unpack_loop]. rewrite land_pow2_eqb, negb_involutive, nz_mask_testbit by done.
  destruct (g mod 256 =? 0) eqn:E0; cbn [negb]; [done|].
  cbn [nz_bytes] in Hu. rewrite E0 in Hu. apply upcoming_app_l in Hu.
  rewrite (read_ok T_uint8 [g mod 256]) by done. cbn [mbind outcome_bind].
  replace (cast T_uint8 (of_bytes [g mod 256])) with (g mod 256)
    by (cbn [of_bytes]; rewrite Z.mul_0_r, Z.add_0_r; symmetry; apply Z.mod_mod; lia).
  rewrite Z.shiftl_mul_pow2 by lia. by replace (i * 2 ^ 3) with (8 * i) by lia.
Qed.

(** What is left after a round. *)
Lemma unpack_rest n i g m b :
  0 <= i -> 0 <= m < 2 ^ i -> upcoming (nz_bytes (S n) g) b ->
  exists m', 0 <= m' < 2 ^ (i + 1) /\
    m + nz_mask (S n) i g = m' + nz_mask n (i + 1) (g / 256) /\
    upcoming (nz_bytes n (g / 256)) (advanced (zlen (nz_bytes 1 g)) b).
Proof.
  intros Hi Hm Hu. exists (m + if g mod 256 =? 0 then 0 else 2 ^ i).
  rewrite Z.pow_add_r by lia. cbn [nz_mask nz_bytes] in *. rewrite app_nil_r.
  split; [|split]; [destruct (_ =? 0); lia | lia | by apply upcoming_app_r].
Qed.

(** The first three bytes land where they belong. *)
Lemma unpack_low n i g m acc b :
  0 <= i < 3 -> 0 <= m < 2 ^ i -> 0 <= acc < 2 ^ (8 * i) -> upcoming (nz_bytes (S n) g) b ->
  unpack_loop (S n) i (m + nz_mask (S n) i g) acc b =
    unpack_loop n (i + 1) (m + nz_mask (S n) i g) (acc + (g mod 256) * 2 ^ (8 * i))
      (advanced (zlen (nz_bytes 1 g)) b).
Proof.
  intros Hi Hm Ha Hu. rewrite unpack_step by (lia || done). cbn [nz_bytes].
  pose proof (Z.mod_pos_bound g 256 ltac:(lia)).
  destruct (g mod 256 =? 0) eqn:E0; to_prop; cbn [app length].
  - rewrite E0, Z.mul_0_l, Z.add_0_r. by rewrite advanced_0.
  - assert (0 <= 2 ^ (8 * i) <= 2 ^ 16) by (split; [lia | apply Z.pow_le_mono_r; lia]).
    unfold shl_int. replace ((0 <=? 8 * i) && _) with true by lia.
    cbn [mbind outcome_bind]. rewrite Z.shiftl_mul_pow2 by lia.
    rewrite swrap_small by (simpl; nia). rewrite wrap_small by nia.
    by rewrite lor_add by lia.
Qed.

(** The fourth is shifted into the sign bit. *)
Lemma unpack_fourth n g m acc b :
  0 <= m < 2 ^ 3 -> 0 <= acc < 2 ^ 24 -> upcoming (nz_bytes (S n) g) b ->
  unpack_loop (S n) 3 (m + nz_mask (S n) 3 g) acc b =
    unpack_loop n 4 (m + nz_mask (S n) 3 g)
      (acc + (g mod 256) * 2 ^ 24 + (if g mod 256 <? 128 then 0 else 2 ^ 64 - 2 ^ 32))
      (advanced (zlen (nz_bytes 1 g)) b).
Proof.
  intros Hm Ha Hu. rewrite unpack_step by (lia || done). cbn [nz_bytes].
  pose proof (Z.mod_pos_bound g 256 ltac:(lia)).
  destruct (g mod 256 =? 0) eqn:E0; to_prop; cbn [app length].
  - rewrite E0. simpl. by rewrite !Z.add_0_r, advanced_0.
  - unfold shl_int. change ((0 <=? 8 * 3) && (8 * 3 <? 32)) with true. cbn [mbind outcome_bind].
    rewrite Z.shiftl_mul_pow2 by lia. change (8 * 3) with 24. f_equal.
    destruct (g mod 256 <? 128) eqn:E1; to_prop.
    + rewrite swrap_small by (simpl; lia). rewrite wrap_small, lor_add by lia. lia.
    + assert (i32 (g mod 256 * 2 ^ 24) = (g mod 256 - 256) * 2 ^ 24) as ->.
      { rewrite <- swrap_wrap by lia.
        replace (wrap 32 (g mod 256 * 2 ^ 24)) with (g mod 256 * 2 ^ 24)
          by (symmetry; apply wrap_small; lia).
        unfold swrap. replace (_ + 2 ^ (32 - 1))
          with ((g mod 256 - 128) * 2 ^ 24 + 1 * 2 ^ 32) by (simpl; lia).
        rewrite Z.mod_add, Z.mod_small by lia. simpl. lia. }
      replace (u64 _) with ((g mod 256 + (2 ^ 40 - 2 ^ 8)) * 2 ^ 24)
        by (unfold wrap; apply (Z.mod_unique _ _ (-1)); lia).
      rewrite lor_add by lia. lia.
Qed.

(** Any later byte is shifted out of an [int]. *)
Lemma unpack_high n i g m acc b :
  4 <= i -> 0 <= m < 2 ^ i -> 0 <= g < 256 ^ Z.of_nat n -> upcoming (nz_bytes n g) b ->
  unpack_loop n i (m + nz_mask n i g) acc b =
    if g =? 0 then Ok (acc, b) else Err UndefinedBehaviour.
Proof.
  revert i g m b. induction n as [|n IH]; intros i g m b Hi Hm Hg Hu.
  - simpl in Hg |- *. by replace g with 0 by lia.
  - rewrite unpack_step by (lia || done). rewrite Nat2Z.inj_succ, Z.pow_succ_r in Hg by lia.
    pose proof (Z.div_mod g 256 ltac:(lia)).
    destruct (unpack_rest n i g m b) as (m' & Hm' & Emask & Hu'); [lia | done | done |].
    destruct (g mod 256 =? 0) eqn:E0; to_prop.
    + cbn [nz_bytes] in Hu'. rewrite E0 in Hu'. simpl in Hu'. rewrite advanced_0 in Hu'.
      rewrite Emask, IH by (done || lia || (split; [apply Z.div_pos; lia | apply Z.div_lt_upper_bound; lia])).
      destruct (Z.eqb_spec g 0) as [->|Hn]; [done|].
      by destruct (Z.eqb_spec (g / 256) 0); [lia|].
    + pose proof (Z.mod_pos_bound g 256 ltac:(lia)).
      unfold shl_int. replace ((0 <=? 8 * i) && _) with false by lia.
      by replace (g =? 0) with false by (destruct (Z.eqb_spec g 0) as [->|]; [done | lia]).
Qed.

(** Splits the lowest byte off [g], whose bytes are next, and names what is left. *)
Ltac next_byte g Hm Hu :=
  let m' := fresh "m" in let E := fresh "E" in
  pose proof (Z.div_mod g 256 ltac:(lia)); pose proof (Z.mod_pos_bound g 256 ltac:(lia));
  match type of Hu with
  | upcoming (nz_bytes (S ?n) _) ?b =>
      match type of Hm with
      | 0 <= ?m < 2 ^ ?i =>
          destruct (unpack_rest n i g m b ltac:(lia) Hm Hu) as (m' & Hm' & E & Hu');
          rewrite E; clear E Hm Hu; rename Hm' into Hm; rename Hu' into Hu
      end
  end.

Lemma unpack_loop_ok g b :
  0 <= g < 2 ^ 64 -> upcoming (nz_bytes 8 g) b ->
  unpack_loop 8 0 (nz_mask 8 0 g) 0 b =
    if g <? 2 ^ 31 then Ok (g, advanced (zlen (nz_bytes 8 g)) b)
    else if g <? 2 ^ 32 then Ok (g + (2 ^ 64 - 2 ^ 32), advanced (zlen (nz_bytes 8 g)) b)
    else Err UndefinedBehaviour.
Proof.
  intros Hg Hu. assert (0 <= 0 < 2 ^ 0) as Hm by lia.
  rewrite <- (Z.add_0_l (nz_mask 8 0 g)).
  rewrite (unpack_low 7) by (done || lia). next_byte g Hm Hu. set (g1 := g / 256) in *.
  rewrite (unpack_low 6) by (done || lia). next_byte g1 Hm Hu. set (g2 := g1 / 256) in *.
  rewrite (unpack_low 5) by (done || lia). next_byte g2 Hm Hu. set (g3 := g2 / 256) in *.
  change (0 + 1 + 1 + 1) with 3 in *.
  rewrite (unpack_fourth 4) by (done || lia). next_byte g3 Hm Hu. set (g4 := g3 / 256) in *.
  assert (g = g mod 256 + 2 ^ 8 * (g1 mod 256) + 2 ^ 16 * (g2 mod 256) + 2 ^ 24 * (g3 mod 256) + 2 ^ 32 * g4)
    as Eg by lia.
  rewrite (unpack_high 4) by (done || lia). rewrite !advanced_add.
  assert (zlen (nz_bytes 8 g) = zlen (nz_bytes 1 g) + zlen (nz_bytes 1 g1) +
    zlen (nz_bytes 1 g2) + zlen (nz_bytes 1 g3) + zlen (nz_bytes 4 g4)) as ->.
  { change (nz_bytes 8 g) with ((if g mod 256 =? 0 then [] else [g mod 256]) ++
      (if g1 mod 256 =? 0 then [] else [g1 mod 256]) ++
      (if g2 mod 256 =? 0 then [] else [g2 mod 256]) ++
      (if g3 mod 256 =? 0 then [] else [g3 mod 256]) ++ nz_bytes 4 g4).
    cbn [nz_bytes]. rewrite !app_nil_r, !length_app. lia. }
  destruct (g4 =? 0) eqn:E4; to_prop; cycle 1.
  { by replace (g <? 2 ^ 31) with false by lia; replace (g <? 2 ^ 32) with false by lia. }
  rewrite E4. change (zlen (nz_bytes 4 0)) with 0.
  destruct (g3 mod 256 <? 128) eqn:E3; to_prop.
  - replace (g <? 2 ^ 31) with true by lia. do 2 f_equal; [lia | f_equal; lia].
  - replace (g <? 2 ^ 31) with false by lia. replace (g <? 2 ^ 32) with true by lia.
    do 2 f_equal; [lia | f_equal; lia].
Qed.

(** ** Totality of the reads *)

Lemma read_at_total T pos b :
  0 <= pos -> pos + Z.of_nat (sizeof T) < 2 ^ 64 -> exists v, read_at T pos b = Ok v.
Proof.
  intros H0 H1. unfold read_at. rewrite wrap_small by lia.
  destruct (size b <? _) eqn:E; to_prop; [by eexists|].
  unfold size in E. rewrite mread_ok by lia. by eexists.
Qed.

Lemma print_chars_total n from b : exists ts, print_chars n from b = Ok ts.
Proof.
  revert from. induction n as [|n IH]; intros from; [by eexists|]. cbn [print_chars].
  pose proof (wrap_range 32 from ltac:(lia)).
  destruct (read_at_total T_uint8 (u32 from) b) as [v ->]; [lia | simpl; lia |].
  destruct (IH (from + 1)) as [ts Ets]. cbn [mbind outcome_bind]. rewrite Ets. by eexists.
Qed.

(** The column counters of hexlike when it is about to print byte [i]. *)
Definition hex_j (i : Z) : Z := Z.max 1 ((i + 7) / 8).
Definition hex_k (i : Z) : Z := Z.max 1 ((i + 15) / 16).

Lemma hex_counters i :
  0 <= i ->
  (if i =? hex_k i * 16 then hex_j (i + 1) = hex_j i + 1 /\ hex_k (i + 1) = hex_k i + 1
   else hex_k (i + 1) = hex_k i /\ hex_j (i + 1) = if i =? hex_j i * 8 then hex_j i + 1 else hex_j i).
Proof.
  intros Hi. unfold hex_j, hex_k. Z.div_mod_to_equations.
  destruct (_ =? _) eqn:E; to_prop; [lia|]. split; [lia|]. destruct (_ =? _) eqn:E'; to_prop; lia.
Qed.

Lemma hex_loop_ok n i b :
  0 <= i -> i + Z.of_nat n < 2 ^ 63 -> 0 <= _rpos b < 2 ^ 64 ->
  exists ts, hex_loop n i (hex_j i) (hex_k i) b =
    Ok (ts, with_rpos (u64 (_rpos b - 16 * (hex_k (i + Z.of_nat n) - hex_k i))) b).
Proof.
  revert i b. induction n as [|n IH]; intros i b Hi Hn Hr; cbn [hex_loop].
  - rewrite Z.add_0_r, Z.sub_diag, Z.sub_0_r, wrap_small by done. exists []. by destruct b.
  - replace (i + Z.of_nat (S n)) with (i + 1 + Z.of_nat n) in * by lia.
    destruct (read_at_total T_uint8 i b) as [v ->]; [lia | simpl; lia |]. cbn [mbind outcome_bind].
    pose proof (hex_counters i Hi) as Hc.
    destruct (i =? hex_k i * 16) eqn:Ek; destruct (i =? hex_j i * 8) eqn:Ej; simpl negb; cbn [andb];
      destruct Hc as [H1 H2].
    1,2: destruct (print_chars_total 16 (i - 16) (set_rpos (u64 (rpos b - 16)) b)) as [cs ->];
      cbn [mbind outcome_bind]; first [rewrite <- H1 | rewrite Ej in H1];
      destruct (IH (i + 1) (set_rpos (u64 (rpos b - 16)) b)) as [ts Ets];
      [lia | lia | apply wrap_range; lia |]; rewrite <- H2, Ets; eexists; cbn [mbind outcome_bind];
      do 2 f_equal; unfold set_rpos, rpos, with_rpos; simpl; f_equal;
      unfold wrap; rewrite Zminus_mod_idemp_l; f_equal; lia.
    all: destruct (IH (i + 1) b) as [ts Ets]; [lia | lia | done |];
      rewrite H1, H2 in Ets; rewrite Ets; by eexists.
Qed.

(** ** Properties *)

(** C16.
    A packet body, of any type the stream operators compose (scalars, bool,
    strings, vectors, lists, maps, pairs), written at the end of a buffer with
    [<<] and read back with [>>] from where it starts gives the same value, and
    leaves the read position just after it; what was in the buffer before is
    unchanged. *)
Theorem packet_roundtrip (τ : ty) (v : denote τ) (b : t) :
  encodable v -> writable (zlen (enc v)) b ->
  exists b', write_to v b = Ok b' /\
    contents b' = contents b ++ enc v /\
    read_from (set_rpos (size b) b') = Ok (v, set_rpos (size b') b').
Proof.
  intros Hv Hb. exists (appended (enc v) b). split; [by apply write_law|]. split; [done|].
  rewrite (read_law v); [|done|].
  - unfold advanced, set_rpos, with_rpos, appended, size; simpl. do 3 f_equal.
    rewrite length_app. lia.
  - exists (_storage b), []. destruct Hb as [_ Hb]. unfold appended, size; simpl.
    split; [by rewrite app_nil_r|]. split; [done|]. rewrite length_app. lia.
Qed.

(** [>>] on a string stops at the first NUL: whatever bytes [<<] wrote, what
    comes back is the part before the first zero byte. *)
Theorem string_truncates (s : list Z) (b : t) :
  Forall is_byte s -> writable (zlen s + 1) b ->
  exists b', write_string s b = Ok b' /\ contents b' = contents b ++ s ++ [0] /\
    read_string (set_rpos (size b) b') =
      Ok (c_string s, set_rpos (size b + zlen (c_string s) + 1) b').
Proof.
  intros Hs Hb. exists (appended (s ++ [0]) b).
  split; [apply write_string_ok; eapply writable_le; [|done]; rewrite length_app; simpl; lia|].
  split; [done|].
  assert (exists rest, s ++ [0] = (c_string s ++ [0]) ++ rest) as [rest Er].
  { clear. induction s as [|c s [rest IH]]; [by exists []|]. simpl.
    destruct (c =? 0) eqn:E; to_prop; [subst; by exists (s ++ [0])|].
    exists rest. simpl. by rewrite IH. }
  rewrite (read_string_ok s) by
    (done || (exists (_storage b), rest; unfold appended, size; simpl; rewrite <- Er;
              destruct Hb as [_ Hb]; rewrite !length_app; simpl; repeat split; lia)).
  unfold advanced, set_rpos, with_rpos, size; simpl. do 3 f_equal. lia.
Qed.

(** A packed GUID comes back only if it is below 2^31: from there to 2^32 the
    upper half of the result is set to ones, and a larger GUID makes unpackGUID
    shift an [int] by its width or more, which is undefined. *)
Theorem guid_roundtrip_iff (guid : Z) (b : t) :
  0 <= guid < 2 ^ 64 -> writable 9 b ->
  exists b', appendPackGUID guid b = Ok b' /\
    contents b' = contents b ++ nz_mask 8 0 guid :: nz_bytes 8 guid /\
    unpackGUID (set_rpos (size b) b') =
      if guid <? 2 ^ 31 then Ok (guid, set_rpos (size b') b')
      else if guid <? 2 ^ 32 then Ok (guid + (2 ^ 64 - 2 ^ 32), set_rpos (size b') b')
      else Err UndefinedBehaviour.
Proof.
  intros Hg Hb. unfold appendPackGUID, wpos. destruct (Hb) as [Hw1 Hw2].
  rewrite append_ok by (eapply writable_le; [|done]; simpl; lia). cbn [mbind outcome_bind].
  rewrite Hw1, (pack_loop_ok 8 0 guid 0 (_storage b) []);
    [|lia | lia | lia | done | by apply writable_appended].
  eexists. split; [done|]. cbn [_storage contents app]. rewrite Z.add_0_l. split; [done|].
  set (mask := nz_mask 8 0 guid). set (body := nz_bytes 8 guid).
  set (b' := Mk _ _ (_ ++ mask :: body)).
  pose proof (length_nz_bytes 8 guid) as Hlen. fold body in Hlen.
  assert (zlen (_storage b') = zlen (_storage b) + 1 + zlen body) as Hsz
    by (unfold b'; cbn [_storage]; rewrite length_app; simpl; lia).
  assert (upcoming ([mask] ++ body) (set_rpos (size b) b')) as Hu.
  { exists (_storage b), []. split; [by rewrite app_nil_r | split; [done|]].
    change (_storage (set_rpos _ b')) with (_storage b'). lia. }
  unfold unpackGUID. rewrite (read_ok T_uint8 [mask]) by (done || by eapply upcoming_app_l).
  apply upcoming_app_r in Hu. cbn [mbind outcome_bind].
  pose proof (nz_mask_bound 8 0 guid ltac:(lia)) as Hmb. fold mask in Hmb.
  replace (cast T_uint8 (of_bytes [mask])) with mask
    by (cbn [of_bytes]; rewrite Z.mul_0_r, Z.add_0_r; symmetry; apply Z.mod_small; change (0 <= mask < 256); change (2 ^ (0 + Z.of_nat 8)) with 256 in Hmb; lia).
  unfold mask. rewrite (unpack_loop_ok guid) by done. fold body. rewrite advanced_add.
  replace (advanced _ _) with (set_rpos (size b') b'); [done|].
  unfold advanced, set_rpos, with_rpos. f_equal. unfold size at 1. rewrite Hsz. simpl. unfold size. lia.
Qed.

(** Hexlike, a method that only prints, moves the read position of the buffer:
    back by 16 for every line after the first. *)
Theorem hexlike_moves_rpos (b : t) :
  0 < size b < 2 ^ 31 -> 0 <= rpos b < 2 ^ 64 ->
  exists ts, hexlike b = Ok (ts, set_rpos (u64 (rpos b - 16 * ((size b - 1) / 16))) b).
Proof.
  unfold size, rpos. intros Hs Hr.
  destruct (hex_loop_ok (length (_storage b)) 0 b) as [ts E]; [lia | lia | lia |].
  exists ts. unfold hexlike. change (hex_loop _ 0 1 1 b) with (hex_loop (length (_storage b)) 0 (hex_j 0) (hex_k 0) b).
  rewrite E. unfold set_rpos. do 4 f_equal. unfold hex_k. Z.div_mod_to_equations. lia.
Qed.

(** [put] overwrites a value in place or fails its assertion, and nothing else:
    it succeeds exactly when the value lies inside the storage; then the value
    reads back, every read of other bytes is unchanged, and the size is kept. *)
Theorem put_in_place (T : scalar) (pos v : Z) (b : t) :
  in_range T v -> 0 <= pos -> pos + Z.of_nat (sizeof T) < 2 ^ 64 -> size b < 2 ^ 64 ->
  match put T pos v b with
  | Ok b' =>
      pos + Z.of_nat (sizeof T) <= size b /\ size b' = size b /\ read_at T pos b' = Ok v /\
      forall T' p, 0 <= p -> p + Z.of_nat (sizeof T') < 2 ^ 64 ->
        p + Z.of_nat (sizeof T') <= pos \/ pos + Z.of_nat (sizeof T) <= p ->
        read_at T' p b' = read_at T' p b
  | Err f => f = AssertionFailure /\ size b < pos + Z.of_nat (sizeof T)
  end.
Proof.
  intros Hv Hp Hw Hs. unfold put, put_bytes. rewrite length_to_bytes, wrap_small by lia.
  destruct (_ <=? size b) eqn:E; to_prop; [|done].
  pose proof (length_splice (_storage b) pos (to_bytes (sizeof T) v) Hp) as Hlen.
  unfold size in *. rewrite length_to_bytes in Hlen.
  rewrite (cxx_assert_true true) by done. cbn [mbind outcome_bind].
  rewrite mwrite_ok by (rewrite ?length_to_bytes; lia). cbn [mbind outcome_bind with_storage _storage].
  split; [lia|]. split; [rewrite Hlen; lia|]. unfold read_at, size. unfold with_storage; cbn [_storage].
  rewrite Hlen by lia. split.
  - rewrite wrap_small by lia. replace (_ <? _) with false by lia.
    rewrite mread_ok by (rewrite ?Hlen; lia). cbn [mbind outcome_bind].
    pose proof (slice_splice_same (_storage b) pos (to_bytes (sizeof T) v)) as Hsl.
    rewrite length_to_bytes in Hsl. rewrite Hsl by lia. by rewrite cast_of_to_bytes.
  - intros T' p Hp0 Hp1 Hd. rewrite wrap_small by lia. destruct (_ <? _) eqn:E'; to_prop; [done|].
    rewrite !mread_ok by (rewrite ?Hlen; lia). cbn [mbind outcome_bind]. do 3 f_equal.
    destruct Hd; [apply slice_splice_before | apply slice_splice_after];
      rewrite ?length_to_bytes; lia.
Qed.

(** ** The properties at concrete inputs *)

Definition sample_buffer : t := Mk 0 3 [7; 8; 9].

Definition sample_packet : denote (TyPair (TyScalar T_uint16) (TyMap T_int32 eq_refl (TyVector TyString))) :=
  (Val 513, CxxMap [(Val (-1), [Str [65; 66]]); (Val 4, [Str []; Str [67]])]).

Lemma packet_roundtrip_witness :
  exists b', write_to sample_packet sample_buffer = Ok b' /\
    contents b' = contents sample_buffer ++ enc sample_packet /\
    read_from (set_rpos (size sample_buffer) b') = Ok (sample_packet, set_rpos (size b') b').
Proof.
  apply (packet_roundtrip (TyPair (TyScalar T_uint16) (TyMap T_int32 eq_refl (TyVector TyString)))
           sample_packet sample_buffer).
  - unfold sample_packet. simpl. unfold encodable_seq, in_range, c_chars. simpl.
    repeat (split || apply Forall_cons || apply Forall_nil); simpl; lia || (vm_compute; discriminate).
  - split; vm_compute; reflexivity.
Defined.

Lemma string_truncates_witness :
  exists b', write_string [65; 0; 66] sample_buffer = Ok b' /\
    contents b' = contents sample_buffer ++ [65; 0; 66] ++ [0] /\
    read_string (set_rpos (size sample_buffer) b') =
      Ok (c_string [65; 0; 66], set_rpos (size sample_buffer + zlen (c_string [65; 0; 66]) + 1) b').
Proof.
  apply (string_truncates [65; 0; 66] sample_buffer).
  - repeat constructor; unfold is_byte; lia.
  - split; vm_compute; reflexivity.
Defined.

Lemma guid_roundtrip_iff_witness :
  exists b', appendPackGUID 4294967297 sample_buffer = Ok b' /\
    contents b' = contents sample_buffer ++ nz_mask 8 0 4294967297 :: nz_bytes 8 4294967297 /\
    unpackGUID (set_rpos (size sample_buffer) b') = Err UndefinedBehaviour.
Proof. apply (guid_roundtrip_iff 4294967297 sample_buffer); [lia | split; vm_compute; reflexivity]. Defined.

Lemma hexlike_moves_rpos_witness :
  exists ts, hexlike (Mk 20 40 (replicate 40 1)) = Ok (ts, Mk (u64 (20 - 16 * 2)) 40 (replicate 40 1)).
Proof. apply (hexlike_moves_rpos (Mk 20 40 (replicate 40 1))); split; vm_compute; congruence. Defined.

Lemma put_in_place_witness :
  match put T_int16 1 (-2) sample_buffer with
  | Ok b' =>
      1 + Z.of_nat (sizeof T_int16) <= size sample_buffer /\ size b' = size sample_buffer /\
      read_at T_int16 1 b' = Ok (-2) /\
      forall T' p, 0 <= p -> p + Z.of_nat (sizeof T') < 2 ^ 64 ->
        p + Z.of_nat (sizeof T') <= 1 \/ 1 + Z.of_nat (sizeof T_int16) <= p ->
        read_at T' p b' = read_at T' p sample_buffer
  | Err f => f = AssertionFailure /\ size sample_buffer < 1 + Z.of_nat (sizeof T_int16)
  end.
Proof. apply (put_in_place T_int16 1 (-2) sample_buffer); vm_compute; try split; congruence. Defined.
