(* ===== verification/Brain.v ===== *)
(** * Behaviour trees

    Models behavior_tree/brain.h: the context that remembers an index per node,
    the node classes with their virtual [reset] and [execute], and [update].

    A node is its address [id] (the key the context uses) with its class; the
    leaves of a program are a type [L] with the [execute] of each, over the
    world [W] they act on.  Only UntilSuccess and UntilFailure loop without a
    bound, so only they consume fuel. *)

From stdpp Require Import base tactics option list numbers gmap.
From Stdlib Require Import ZArith Lia Bool.
From S2P Require Import Prelude.

#[local] Open Scope Z_scope.
#[local] Set Warnings "-register-all".

Inductive Status := Invalid | Success | Failure | Running.

#[global] Instance Status_eq_dec : EqDecision Status.
Proof. solve_decision. Defined.

Inductive FAILURE_POLICY := FAILED_ON_ONE | FAILED_ON_ALL.
Inductive SUCCESS_POLICY := SUCCEED_ON_ONE | SUCCEED_ON_ALL.

(** The composite and decorator classes with their data members. *)
Inductive composite_class :=
| Selector (m_WithStateful : bool)
| Sequence (m_WithStateful : bool)
| IfElse
| Priority
| ParallelCounts (m_FailCount m_SuccCount : Z)
| ParallelPolicies (m_FailPolicy : FAILURE_POLICY) (m_SuccPolicy : SUCCESS_POLICY).

Inductive decorator_class :=
| Runner
| Failer
| Succeeder
| Inverter
| Repeater (m_Limit : Z)
| RetryUntilSuccessful (m_attemps : Z)
| Duration (m_Duration : Z)
| UntilSuccess
| UntilFailure.

(** ** The context *)

Module Context.

Abbreviation t := (gmap N Z).

Definition clear (c : t) : t := ∅.

Definition get (node : N) (c : t) : Z :=
  match c !! node with Some i => i | None => 0 end.

(** [set( node, index )]: -1 erases the entry; the map stores a size_t. *)
Definition set (node : N) (index : Z) (c : t) : t :=
  match c !! node with
  | Some _ => if negb (index =? -1) then <[node := u64 index]> c else delete node c
  | None => if negb (index =? -1) then <[node := u64 index]> c else c
  end.

End Context.

Section Nodes.
Context {L : Type}.

(** [Leaf id (Some l)] is a leaf of the program, [Leaf id None] a [Noop].  The
    child of a decorator is NULL until it is set. *)
Inductive node :=
| Leaf (id : N) (leaf : option L)
| Composite (id : N) (class : composite_class) (m_Child : list node)
| Decorator (id : N) (class : decorator_class) (m_Child : option node).

Definition node_id (n : node) : N :=
  match n with Leaf id _ | Composite id _ _ | Decorator id _ _ => id end.

(** The virtual [reset]: a stateful Selector (Sequence) keeps its own and its
    children's state unless it failed (succeeded). *)
Fixpoint reset (status : Status) (n : node) (c : Context.t) {struct n} : Context.t :=
  match n with
  | Leaf id _ => Context.set id (-1) c
  | Composite id class m_Child =>
      let Composite_reset :=
        fold_left (fun c' child => reset status child c') m_Child (Context.set id (-1) c) in
      match class with
      | Selector m_WithStateful =>
          if negb m_WithStateful || bool_decide (status = Failure) then Composite_reset else c
      | Sequence m_WithStateful =>
          if negb m_WithStateful || bool_decide (status = Success) then Composite_reset else c
      | _ => Composite_reset
      end
  | Decorator id _ m_Child =>
      let c' := Context.set id (-1) c in
      match m_Child with Some child => reset status child c' | None => c' end
  end.
End Nodes.
Arguments node L : clear implicits.

(** ** Ticking *)

(** What the leaves of a program need: their [execute], and the clock
    [utils::now] reads (reading it may move it). *)
Class Leaves (L W : Type) := {
  leaf_execute : L -> W -> Status * W;
  utils_now : W -> Z * W
}.

Record state (W : Type) := St { ctx : Context.t; world : W }.
Arguments St {W} ctx world.
Arguments ctx {W} s.
Arguments world {W} s.

Definition with_ctx {W} (f : Context.t -> Context.t) (st : state W) : state W :=
  St (f (ctx st)) (world st).

Section Execute.
Context {L W : Type} `{Leaves L W}.
Context (update : node L -> state W -> outcome (Status * state W)).

(** The loop of Selector ([go_on] is Failure) and Sequence ([go_on] is Success)
    from child [i] on; the children before [start] are not ticked. *)
Fixpoint resume_loop (go_on : Status) (this : N) (start : Z) (i : nat) (m_Child : list (node L))
    (st : state W) : outcome (Status * state W) :=
  match m_Child with
  | [] => Ok (go_on, st)
  | child :: rest =>
      if Z.of_nat i <? start then resume_loop go_on this start (S i) rest st
      else
        let* (s, st1) := update child st in
        if bool_decide (s = go_on) then resume_loop go_on this start (S i) rest st1
        else Ok (s, with_ctx (Context.set this (i64 (Z.of_nat i))) st1)
  end.

Fixpoint priority_loop (rs : Status) (i : nat) (m_Child : list (node L)) (st : state W)
    : outcome (Status * state W) :=
  match m_Child with
  | [] => Ok (rs, st)
  | child :: rest =>
      let* (s, st1) := update child st in
      match i with
      | O => if bool_decide (s = Success) then Ok (s, st1) else priority_loop s 1 rest st1
      | S _ => priority_loop rs (S i) rest st1
      end
  end.

(** The counts of failed and successful children. *)
Fixpoint parallel_loop (failed succeed : Z) (m_Child : list (node L)) (st : state W)
    : outcome (Z * Z * state W) :=
  match m_Child with
  | [] => Ok (failed, succeed, st)
  | child :: rest =>
      let* (s, st1) := update child st in
      match s with
      | Failure => parallel_loop (i32 (failed + 1)) succeed rest st1
      | Success => parallel_loop failed (i32 (succeed + 1)) rest st1
      | _ => parallel_loop failed succeed rest st1
      end
  end.

Definition parallel_execute (failed_min succeed_min : Z) (m_Child : list (node L)) (st : state W)
    : outcome (Status * state W) :=
  let* (failed, succeed, st1) := parallel_loop 0 0 m_Child st in
  Ok (if failed_min <=? failed then Failure
      else if succeed_min <=? succeed then Success else Running, st1).

Definition has (m_Child : list (node L)) : bool :=
  match m_Child with [] => false | _ => true end.

Definition composite_execute (this : N) (class : composite_class) (m_Child : list (node L))
    (st : state W) : outcome (Status * state W) :=
  match class with
  | Selector _ =>
      cxx_assert (has m_Child) ;;*
      resume_loop Failure this (Context.get this (ctx st)) 0 m_Child st
  | Sequence _ =>
      cxx_assert (has m_Child) ;;*
      resume_loop Success this (Context.get this (ctx st)) 0 m_Child st
  | IfElse =>
      match m_Child with
      | [cond; yes; no] =>
          let* (s, st1) := update cond st in
          if bool_decide (s = Success) then update yes st1 else update no st1
      | _ => Err AssertionFailure
      end
  | Priority => cxx_assert (has m_Child) ;;* priority_loop Failure 0 m_Child st
  | ParallelCounts m_FailCount m_SuccCount =>
      cxx_assert (has m_Child) ;;* parallel_execute m_FailCount m_SuccCount m_Child st
  | ParallelPolicies m_FailPolicy m_SuccPolicy =>
      cxx_assert (has m_Child) ;;*
      let all := i32 (zlen m_Child) in
      parallel_execute
        (match m_FailPolicy with FAILED_ON_ONE => 1 | FAILED_ON_ALL => all end)
        (match m_SuccPolicy with SUCCEED_ON_ONE => 1 | SUCCEED_ON_ALL => all end)
        m_Child st
  end.

(** The [do .. while ( --num )] of RetryUntilSuccessful, for a positive [num];
    [tick] is the child's [update]. *)
Fixpoint retry_loop (num : nat) (tick : state W -> outcome (Status * state W)) (st : state W)
    : outcome (Status * state W) :=
  match num with
  | O => Err UndefinedBehaviour
  | S n =>
      let* (ret, st1) := tick st in
      if bool_decide (ret = Success) then Ok (ret, st1)
      else match n with O => Ok (ret, st1) | S _ => retry_loop n tick st1 end
  end.

(** [for ( ;; )] until the child returns [stop]; then Success. *)
Fixpoint until_loop (fuel : nat) (stop : Status) (tick : state W -> outcome (Status * state W))
    (st : state W) : outcome (Status * state W) :=
  match fuel with
  | O => Err OutOfFuel
  | S fuel' =>
      let* (s, st1) := tick st in
      if bool_decide (s = stop) then Ok (Success, st1) else until_loop fuel' stop tick st1
  end.

(** A decorator dereferences its child whether or not it was set. *)
Definition decorator_execute (fuel : nat) (this : N) (class : decorator_class)
    (m_Child : option (node L)) (st : state W) : outcome (Status * state W) :=
  match m_Child with
  | None => Err UndefinedBehaviour
  | Some child =>
      match class with
      | Runner => let* (_, st1) := update child st in Ok (Running, st1)
      | Failer => let* (_, st1) := update child st in Ok (Failure, st1)
      | Succeeder => let* (_, st1) := update child st in Ok (Success, st1)
      | Inverter =>
          let* (s, st1) := update child st in
          Ok (match s with Success => Failure | Failure => Success | _ => s end, st1)
      | Repeater m_Limit =>
          let count := i32 (Context.get this (ctx st)) in
          let* (_, st1) := update child st in
          let count' := if 0 <? m_Limit then i32 (count + 1) else count in
          if (0 <? m_Limit) && (count' =? m_Limit) then Ok (Success, st1)
          else Ok (Running, with_ctx (Context.set this count') st1)
      | RetryUntilSuccessful m_attemps => retry_loop (Z.to_nat m_attemps) (update child) st
      | Duration m_Duration =>
          let expiretime := i64 (Context.get this (ctx st)) in
          let (now, w) := utils_now (L:=L) (world st) in
          let* (s, st1) := update child (St (ctx st) w) in
          match s with
          | Failure => Ok (Success, st1)
          | _ =>
              if expiretime =? 0 then
                Ok (Running, with_ctx (Context.set this (i64 (now + m_Duration))) st1)
              else if expiretime <? now then Ok (Success, st1)
              else Ok (Running, st1)
          end
      | UntilSuccess => until_loop fuel Success (update child) st
      | UntilFailure => until_loop fuel Failure (update child) st
      end
  end.
End Execute.

Section Update.
Context {L W : Type} `{Leaves L W}.

(** [Node::update]: execute, and reset unless the node is still running. *)
Fixpoint update (fuel : nat) (n : node L) (st : state W) : outcome (Status * state W) :=
  let* (s, st1) :=
    match n with
    | Leaf _ None => Ok (Success, st)
    | Leaf _ (Some l) => let (s, w) := leaf_execute l (world st) in Ok (s, St (ctx st) w)
    | Composite id class m_Child => composite_execute (update fuel) id class m_Child st
    | Decorator id class m_Child => decorator_execute (update fuel) fuel id class m_Child st
    end in
  Ok (s, if bool_decide (s = Running) then st1 else with_ctx (reset s n) st1).

(** What a node's [execute] does, for a node that is a member of [update]. *)
Definition execute (fuel : nat) (n : node L) (st : state W) : outcome (Status * state W) :=
  match n with
  | Leaf _ None => Ok (Success, st)
  | Leaf _ (Some l) => let (s, w) := leaf_execute l (world st) in Ok (s, St (ctx st) w)
  | Composite id class m_Child => composite_execute (update fuel) id class m_Child st
  | Decorator id class m_Child => decorator_execute (update fuel) fuel id class m_Child st
  end.

Lemma update_unfold fuel n st :
  update fuel n st =
    let* (s, st1) := execute fuel n st in
    Ok (s, if bool_decide (s = Running) then st1 else with_ctx (reset s n) st1).
Proof. by destruct n. Qed.

(** A node is reset unless it is still running. *)
Definition finish (s : Status) (n : node L) (st : state W) : state W :=
  if bool_decide (s = Running) then st else with_ctx (reset s n) st.

Lemma update_inv fuel n st s st' :
  update fuel n st = Ok (s, st') <-> exists st1, execute fuel n st = Ok (s, st1) /\ st' = finish s n st1.
Proof.
  rewrite update_unfold. unfold finish. split.
  - intros E. apply outcome_bind_inv in E as ([s1 st1] & E1 & E). exists st1.
    assert (s1 = s) as -> by congruence. split; [done | congruence].
  - intros (st1 & -> & ->). done.
Qed.

(** *** Induction on trees *)

Section Induction.
Context (P : node L -> Prop).
Context (HLeaf : forall id l, P (Leaf id l)).
Context (HComposite : forall id c ch, Forall P ch -> P (Composite id c ch)).
Context (HDecorator : forall id c ch, (forall n, ch = Some n -> P n) -> P (Decorator id c ch)).

Fixpoint node_tree_ind (n : node L) : P n.
Proof.
  destruct n as [id l | id c ch | id c ch].
  - apply HLeaf.
  - apply HComposite. revert ch. fix IH 1. intros [|n ch]; constructor; [apply node_tree_ind | apply IH].
  - apply HDecorator. destruct ch as [n|]; [|discriminate].
    intros n' E. injection E as <-. apply node_tree_ind.
Defined.
End Induction.

(** The ids of a subtree. *)
Fixpoint ids (n : node L) : list N :=
  match n with
  | Leaf id _ => [id]
  | Composite id _ ch => id :: concat (map ids ch)
  | Decorator id _ ch => id :: match ch with Some n => ids n | None => [] end
  end.

(** [resets s n]: no node on the way is stateful in a way that makes [reset s]
    stop there. *)
Fixpoint stateless (n : node L) : Prop :=
  match n with
  | Leaf _ _ => True
  | Composite _ c ch =>
      match c with Selector b | Sequence b => b = false | _ => True end /\
      fold_right (fun n P => stateless n /\ P) True ch
  | Decorator _ _ ch => match ch with Some n => stateless n | None => True end
  end.

(** Nodes that [execute] can run: composites have the children they assert,
    decorators a child, and a positive number of attempts. *)
Fixpoint well_formed (n : node L) : Prop :=
  match n with
  | Leaf _ _ => True
  | Composite _ c ch =>
      match c with IfElse => length ch = 3%nat | _ => ch <> [] end /\
      fold_right (fun n P => well_formed n /\ P) True ch
  | Decorator _ c ch =>
      match c with RetryUntilSuccessful k => 0 < k | _ => True end /\
      match ch with Some n => well_formed n | None => False end
  end.

(** No UntilSuccess and no UntilFailure. *)
Fixpoint bounded (n : node L) : Prop :=
  match n with
  | Leaf _ _ => True
  | Composite _ _ ch => fold_right (fun n P => bounded n /\ P) True ch
  | Decorator _ c ch =>
      match c with UntilSuccess | UntilFailure => False | _ => True end /\
      match ch with Some n => bounded n | None => True end
  end.
End Update.

(** ** The context operations *)

Lemma lookup_set_ne (n i : N) idx (c : Context.t) : n <> i -> Context.set n idx c !! i = c !! i.
Proof.
  intros Hn. unfold Context.set. destruct (c !! n), (idx =? -1); simpl;
    by rewrite ?lookup_insert_ne, ?lookup_delete_ne.
Qed.

Lemma lookup_set_erase n (c : Context.t) : Context.set n (-1) c !! n = None.
Proof. unfold Context.set. destruct (c !! n) eqn:E; simpl; [by apply lookup_delete_eq | done]. Qed.

Lemma lookup_set n idx (c : Context.t) : idx <> -1 -> Context.set n idx c !! n = Some (u64 idx).
Proof.
  intros Hi. unfold Context.set. replace (idx =? -1) with false by lia.
  destruct (c !! n); simpl; apply lookup_insert_eq.
Qed.

Lemma get_set n idx (c : Context.t) : idx <> -1 -> Context.get n (Context.set n idx c) = u64 idx.
Proof. intros. unfold Context.get. by rewrite lookup_set. Qed.

Lemma get_erase n (c : Context.t) : Context.get n (Context.set n (-1) c) = 0.
Proof. unfold Context.get. by rewrite lookup_set_erase. Qed.

#[export] Hint Rewrite lookup_set_erase get_erase : cxx.

(** A context where some entries of [c] are erased. *)
Definition erased_from (c c' : Context.t) : Prop := forall i, c' !! i = None \/ c' !! i = c !! i.

Lemma erased_refl c : erased_from c c.
Proof. by right. Qed.

Lemma erased_set n c c' : erased_from c c' -> erased_from c (Context.set n (-1) c').
Proof.
  intros H i. destruct (decide (n = i)) as [->|Hn]; [left; apply lookup_set_erase|].
  rewrite lookup_set_ne by done. apply H.
Qed.

Section Facts.
Context {L W : Type} `{Leaves L W}.
Implicit Types (n : node L) (ch : list (node L)) (st : state W).

Lemma in_ids_child id class ch n i : n ∈ ch -> i ∈ ids n -> i ∈ ids (Composite id class ch).
Proof.
  intros Hn Hi. simpl. apply list_elem_of_further, list_elem_of_In, in_concat.
  exists (ids n). split; [apply in_map | ]; by apply list_elem_of_In.
Qed.

Lemma fold_right_Forall {A} (P : A -> Prop) (l : list A) :
  fold_right (fun x Q => P x /\ Q) True l <-> Forall P l.
Proof.
  induction l as [|x l IH]; simpl; [split; constructor|].
  split; [intros [? ?]; constructor; tauto | intros Hl; inversion_clear Hl; tauto].
Qed.

(** [reset] only erases, and only the subtree's entries. *)
Lemma reset_erases s n c : erased_from c (reset s n c).
Proof.
  revert c. induction n as [id l | id class ch IH | id class ch IH] using node_tree_ind; intros c; simpl.
  - apply erased_set, erased_refl.
  - assert (forall c', erased_from c c' -> erased_from c (fold_left (fun c' child => reset s child c') ch c'))
      as Hf.
    { induction IH as [|n ch Hn Hch IHch]; intros c' Hc; simpl; [done|]. apply IHch.
      intros i. destruct (Hn c' i) as [->| ->]; [by left | apply Hc]. }
    specialize (Hf _ (erased_set id _ _ (erased_refl c))).
    destruct class; try done; destruct (_ || _); done || apply erased_refl.
  - destruct ch as [n|]; [|apply erased_set, erased_refl].
    intros i. destruct (IH n eq_refl (Context.set id (-1) c) i) as [->| ->]; [by left|].
    apply erased_set, erased_refl.
Qed.

Lemma reset_frame s n c i : i ∉ ids n -> reset s n c !! i = c !! i.
Proof.
  revert c. induction n as [id l | id class ch IH | id class ch IH] using node_tree_ind;
    intros c Hi; simpl in *.
  - apply lookup_set_ne. set_solver.
  - apply not_elem_of_cons in Hi as [Hi Hch].
    assert (forall c', fold_left (fun c' child => reset s child c') ch c' !! i = c' !! i) as Hf.
    { induction IH as [|n ch Hn Hch' IHch]; intros c'; simpl in *; [done|].
      rewrite not_elem_of_app in Hch. rewrite IHch by tauto. apply Hn. tauto. }
    specialize (Hf (Context.set id (-1) c)). rewrite lookup_set_ne in Hf by done.
    destruct class; try done; by destruct (_ || _).
  - apply not_elem_of_cons in Hi as [Hi Hch]. destruct ch as [n|]; [|by apply lookup_set_ne].
    rewrite (IH n) by done. by apply lookup_set_ne.
Qed.

(** A reset that reaches everything leaves no entry of the subtree. *)
Lemma reset_clears s n c i : stateless n -> i ∈ ids n -> reset s n c !! i = None.
Proof.
  revert c. induction n as [id l | id class ch IH | id class ch IH] using node_tree_ind;
    intros c Hs Hi; simpl in *.
  - apply list_elem_of_singleton in Hi as ->. apply lookup_set_erase.
  - destruct Hs as [Hc Hs]. rewrite fold_right_Forall in Hs.
    assert (forall c', c' !! i = None \/ i ∈ concat (map ids ch) ->
      fold_left (fun c' child => reset s child c') ch c' !! i = None) as Hf.
    { clear Hi. induction IH as [|n ch Hn Hch IHch]; intros c' Hx; simpl in *.
      { destruct Hx as [Hx|Hx]; [done|by apply not_elem_of_nil in Hx]. }
      apply Forall_cons_1 in Hs as [Hs1 Hs2]. apply IHch; [done|].
      rewrite elem_of_app in Hx.
      destruct (decide (i ∈ ids n)) as [Hin|Hin]; [left; by apply Hn|].
      destruct Hx as [Hx|[Hx|Hx]]; [|done|by right]. left. by rewrite reset_frame. }
    assert (fold_left (fun c' child => reset s child c') ch (Context.set id (-1) c) !! i = None) as Hr.
    { apply Hf. apply elem_of_cons in Hi as [->|Hi]; [left; apply lookup_set_erase | by right]. }
    destruct class; try done; by subst.
  - apply elem_of_cons in Hi as [->|Hi]; (destruct ch as [n|]; [|try set_solver; apply lookup_set_erase]).
    + destruct (decide (id ∈ ids n)); [by apply IH|].
      rewrite reset_frame by done. apply lookup_set_erase.
    + by apply IH.
Qed.

(** *** What every tick of a node preserves

    A preorder on states that the ticks of the children, the reading of the
    clock and the node's own index respect is respected by its [execute]. *)

Section Preserve.
Context (R : state W -> state W -> Prop) `{!PreOrder R}.
Context (upd : node L -> state W -> outcome (Status * state W)) (this : N).
Context (Hset : forall st idx, R st (with_ctx (Context.set this idx) st)).

Definition respects (tick : state W -> outcome (Status * state W)) : Prop :=
  forall st s st', tick st = Ok (s, st') -> R st st'.

Lemma resume_loop_rel go_on start i ch :
  Forall (fun n => respects (upd n)) ch -> respects (resume_loop upd go_on this start i ch).
Proof.
  intros Hch. revert i. induction Hch as [|n ch Hn Hch IH]; intros i st s st' E; simpl in E.
  - invert_ok. reflexivity.
  - destruct (_ <? _); [by eapply IH|].
    apply outcome_bind_inv in E as ([s1 st1] & E1 & E). apply Hn in E1.
    destruct (bool_decide _); [etrans; [done | by eapply IH]|].
    injection E as <- <-. etrans; [done | apply Hset].
Qed.

Lemma priority_loop_rel rs i ch :
  Forall (fun n => respects (upd n)) ch -> respects (priority_loop upd rs i ch).
Proof.
  intros Hch. revert rs i. induction Hch as [|n ch Hn Hch IH]; intros rs i st s st' E; simpl in E.
  - invert_ok. reflexivity.
  - apply outcome_bind_inv in E as ([s1 st1] & E1 & E). apply Hn in E1.
    destruct i; [destruct (bool_decide _)|]; try (etrans; [done | by eapply IH]).
    by injection E as <- <-.
Qed.

Lemma parallel_execute_rel f s0 ch :
  Forall (fun n => respects (upd n)) ch -> respects (parallel_execute upd f s0 ch).
Proof.
  intros Hch st s st' E. unfold parallel_execute in E.
  apply outcome_bind_inv in E as ([[nf ns] st1] & E1 & E). injection E as _ <-.
  revert E1. generalize 0 at 2 as b. generalize 0 as a. revert st.
  induction Hch as [|n ch Hn Hch IH]; intros st a b E; simpl in E.
  - injection E as _ _ <-. reflexivity.
  - apply outcome_bind_inv in E as ([s1 st2] & E1 & E). apply Hn in E1.
    etrans; [done|]. destruct s1; by eapply IH.
Qed.

Lemma composite_execute_rel class ch :
  Forall (fun n => respects (upd n)) ch -> respects (composite_execute upd this class ch).
Proof.
  intros Hch st s st' E. unfold composite_execute in E.
  destruct class; try (apply outcome_bind_inv in E as (? & _ & E);
    solve [by eapply resume_loop_rel | by eapply priority_loop_rel | by eapply parallel_execute_rel]).
  destruct ch as [|c [|y [|n [|? ?]]]]; try discriminate E.
  apply outcome_bind_inv in E as ([s1 st1] & E1 & E).
  rewrite !Forall_cons in Hch. destruct Hch as (Hc & Hy & Hn & _). apply Hc in E1.
  etrans; [done|]. destruct (bool_decide _); [by eapply Hy | by eapply Hn].
Qed.

Lemma retry_loop_rel num tick : respects tick -> respects (retry_loop num tick).
Proof.
  intros Ht. induction num as [|num IH]; intros st s st' E; simpl in E; [discriminate|].
  apply outcome_bind_inv in E as ([s1 st1] & E1 & E). apply Ht in E1. etrans; [done|].
  destruct (bool_decide _); [injection E as <- <-; reflexivity|].
  destruct num; [injection E as <- <-; reflexivity | by eapply IH].
Qed.

Lemma until_loop_rel fuel stop tick : respects tick -> respects (until_loop fuel stop tick).
Proof.
  intros Ht. induction fuel as [|fuel IH]; intros st s st' E; simpl in E; [discriminate|].
  apply outcome_bind_inv in E as ([s1 st1] & E1 & E). apply Ht in E1. etrans; [done|].
  destruct (bool_decide _); [injection E as <- <-; reflexivity | by eapply IH].
Qed.

Context (Hclock : forall st, R st (St (ctx st) (utils_now (L:=L) (world st)).2)).

Lemma decorator_execute_rel fuel class (ch : option (node L)) :
  (forall n, ch = Some n -> respects (upd n)) -> respects (decorator_execute upd fuel this class ch).
Proof.
  intros Hch st s st' E. unfold decorator_execute in E.
  destruct ch as [n|]; [|discriminate]. specialize (Hch n eq_refl).
  destruct class.
  all: try solve [by eapply retry_loop_rel | by eapply until_loop_rel].
  all: try solve [apply outcome_bind_inv in E as ([s1 st1] & E1 & E); injection E as _ <-; by eapply Hch].
  - apply outcome_bind_inv in E as ([s1 st1] & E1 & E). apply Hch in E1. etrans; [done|].
    destruct (_ && _); injection E as _ <-; [reflexivity | apply Hset].
  - destruct (utils_now (world st)) as [now w] eqn:Ew.
    apply outcome_bind_inv in E as ([s1 st1] & E1 & E). apply Hch in E1.
    specialize (Hclock st). rewrite Ew in Hclock. etrans; [done|]. etrans; [done|].
    destruct s1; try destruct (_ =? 0); try destruct (_ <? _); injection E as _ <-; done || reflexivity || apply Hset.
Qed.
End Preserve.

(** *** Frame and cleanup *)

Lemma finish_frame s n st i : i ∉ ids n -> ctx (finish s n st) !! i = ctx st !! i.
Proof. intros Hi. unfold finish. destruct (bool_decide _); [done | by apply reset_frame]. Qed.

Definition same_outside (l : list N) (st st' : state W) : Prop :=
  forall i, i ∉ l -> ctx st' !! i = ctx st !! i.

#[local] Instance same_outside_preorder l : PreOrder (same_outside l).
Proof. split; [by intros st i | intros a b c H1 H2 i Hi; by rewrite H2, H1]. Qed.

Lemma update_same_outside fuel n : respects (same_outside (ids n)) (update fuel n).
Proof.
  induction n as [id l | id class ch IH | id class ch IH] using node_tree_ind;
    intros st s st' E; apply update_inv in E as (st1 & E1 & ->); intros i Hi;
    rewrite finish_frame by done; revert i Hi.
  - simpl in E1. destruct l as [l|]; [destruct (leaf_execute l (world st))|]; by injection E1 as <- <-.
  - change (same_outside (ids (Composite id class ch)) st st1).
    eapply composite_execute_rel; [apply _ | | | exact E1].
    + intros ? ? i Hi. simpl in Hi |- *. apply lookup_set_ne. set_solver.
    + apply Forall_forall. intros n Hn a s2 a' Ea i Hi. rewrite Forall_forall in IH.
      apply (IH n Hn a s2 a' Ea). intros Hin. by apply Hi, (in_ids_child _ _ _ n).
  - change (same_outside (ids (Decorator id class ch)) st st1).
    eapply decorator_execute_rel; [apply _ | | | | exact E1].
    + intros ? ? i Hi. simpl in Hi |- *. apply lookup_set_ne. set_solver.
    + by intros ? i Hi.
    + intros n -> a s2 a' Ea i Hi. apply (IH n eq_refl a s2 a' Ea). simpl in Hi. set_solver.
Qed.

(** *** Termination *)

Section Total.
Context (upd : node L -> state W -> outcome (Status * state W)) (this : N).

Definition returns {A} (tick : state W -> outcome A) : Prop := forall st, exists r, tick st = Ok r.

Lemma resume_loop_total go_on start i ch :
  Forall (fun n => returns (upd n)) ch -> returns (resume_loop upd go_on this start i ch).
Proof.
  intros Hch. revert i. induction Hch as [|n ch Hn Hch IH]; intros i st; simpl; [by eexists|].
  destruct (_ <? _); [apply IH|]. destruct (Hn st) as [[s st1] ->]. cbn [mbind outcome_bind].
  destruct (bool_decide _); [apply IH | by eexists].
Qed.

Lemma priority_loop_total rs i ch :
  Forall (fun n => returns (upd n)) ch -> returns (priority_loop upd rs i ch).
Proof.
  intros Hch. revert rs i. induction Hch as [|n ch Hn Hch IH]; intros rs i st; simpl; [by eexists|].
  destruct (Hn st) as [[s st1] ->]. cbn [mbind outcome_bind].
  destruct i; [destruct (bool_decide _); [by eexists|]|]; apply IH.
Qed.

Lemma parallel_execute_total f s0 ch :
  Forall (fun n => returns (upd n)) ch -> returns (parallel_execute upd f s0 ch).
Proof.
  intros Hch st. unfold parallel_execute.
  assert (forall a b st, exists r, parallel_loop upd a b ch st = Ok r) as Hp.
  { induction Hch as [|n ch Hn Hch IH]; intros a b st'; simpl; [by eexists|].
    destruct (Hn st') as [[s st1] ->]. cbn [mbind outcome_bind]. destruct s; apply IH. }
  destruct (Hp 0 0 st) as [[[nf ns] st1] ->]. by eexists.
Qed.

Lemma composite_execute_total class ch :
  match class with IfElse => length ch = 3%nat | _ => ch <> [] end ->
  Forall (fun n => returns (upd n)) ch -> returns (composite_execute upd this class ch).
Proof.
  intros Hne Hch st. unfold composite_execute.
  assert (class <> IfElse -> cxx_assert (has ch) = Ok tt) as Ha.
  { intros Hc. apply cxx_assert_true. destruct class, ch; done. }
  destruct class; try (rewrite Ha by done; cbn [mbind outcome_bind];
    solve [by apply resume_loop_total | by apply priority_loop_total | by apply parallel_execute_total]).
  destruct ch as [|c [|y [|n [|? ?]]]]; try discriminate Hne.
  rewrite !Forall_cons in Hch. destruct Hch as (Hc & Hy & Hn & _).
  destruct (Hc st) as [[s st1] ->]. cbn [mbind outcome_bind]. destruct (bool_decide _); [apply Hy | apply Hn].
Qed.

Lemma retry_loop_total num tick : (0 < num)%nat -> returns tick -> returns (retry_loop num tick).
Proof.
  intros Hn Ht. induction num as [|num IH]; [lia|]. intros st. simpl.
  destruct (Ht st) as [[s st1] ->]. cbn [mbind outcome_bind].
  destruct (bool_decide _); [by eexists|]. destruct num; [by eexists | apply IH; lia].
Qed.

Lemma decorator_execute_total fuel class n :
  match class with RetryUntilSuccessful k => 0 < k | UntilSuccess | UntilFailure => False | _ => True end ->
  returns (upd n) -> returns (decorator_execute upd fuel this class (Some n)).
Proof.
  intros Hc Hn st. unfold decorator_execute. destruct class; try done;
    try (apply retry_loop_total; [lia | done]); try destruct (utils_now (world st)) as [now w];
    (match goal with |- context [upd n ?a] => destruct (Hn a) as [[s st1] ->] end);
    cbn [mbind outcome_bind]; try by eexists.
  - destruct (_ && _); by eexists.
  - destruct s; repeat destruct (_ =? _); repeat destruct (_ <? _); by eexists.
Qed.
End Total.

(** The ticks of the children determine [execute]. *)

Section Congruence.
Context (upd upd' : node L -> state W -> outcome (Status * state W)) (this : N).

Lemma composite_execute_ext class ch st :
  Forall (fun n => forall st, upd n st = upd' n st) ch ->
  composite_execute upd this class ch st = composite_execute upd' this class ch st.
Proof.
  intros Hch.
  assert (forall go_on start i st,
    resume_loop upd go_on this start i ch st = resume_loop upd' go_on this start i ch st) as H1.
  { induction Hch as [|n ch Hn Hch IH]; intros; simpl; [done|]. rewrite !IH, Hn.
    destruct (_ <? _); [done|]. destruct (upd' n st0) as [[s st1]|]; simpl; [by rewrite IH | done]. }
  assert (forall rs i st, priority_loop upd rs i ch st = priority_loop upd' rs i ch st) as H2.
  { clear H1. induction Hch as [|n ch Hn Hch IH]; intros; simpl; [done|]. rewrite Hn.
    destruct (upd' n st0) as [[s st1]|]; simpl; [by destruct i; rewrite IH | done]. }
  assert (forall a b st, parallel_loop upd a b ch st = parallel_loop upd' a b ch st) as H3.
  { clear H1 H2. induction Hch as [|n ch Hn Hch IH]; intros; simpl; [done|]. rewrite Hn.
    destruct (upd' n st0) as [[s st1]|]; simpl; [by destruct s; rewrite IH | done]. }
  unfold composite_execute, parallel_execute. destruct class; rewrite ?H1, ?H2, ?H3; try done.
  destruct ch as [|c [|y [|n [|? ?]]]]; try done.
  rewrite !Forall_cons in Hch. destruct Hch as (Hc & Hy & Hn & _). rewrite Hc.
  destruct (upd' c st) as [[s st1]|]; [cbn [mbind outcome_bind]; by rewrite Hy, Hn | done].
Qed.

Lemma retry_loop_ext num tick tick' st :
  (forall st, tick st = tick' st) -> retry_loop num tick st = retry_loop num tick' st.
Proof.
  intros Ht. revert st. induction num as [|num IH]; intros st; simpl; [done|]. rewrite Ht.
  destruct (tick' st) as [[s st1]|]; simpl; [by rewrite IH | done].
Qed.

Lemma decorator_execute_ext fuel fuel' class n st :
  match class with UntilSuccess | UntilFailure => False | _ => True end ->
  (forall st, upd n st = upd' n st) ->
  decorator_execute upd fuel this class (Some n) st = decorator_execute upd' fuel' this class (Some n) st.
Proof.
  intros Hc Hn. unfold decorator_execute. destruct class; try done; try (by rewrite Hn).
  - by apply retry_loop_ext.
  - destruct (utils_now (world st)) as [now w]. by rewrite Hn.
Qed.
End Congruence.

Lemma update_returns n :
  well_formed n -> bounded n ->
  forall st, (exists r, update 0 n st = Ok r) /\ forall fuel, update fuel n st = update 0 n st.
Proof.
  induction n as [id l | id class ch IH | id class ch IH] using node_tree_ind; intros Hw Hb st;
    (split; [|intros fuel]; rewrite !update_unfold).
  - destruct l as [l|]; simpl; [destruct (leaf_execute l (world st))|]; by eexists.
  - done.
  - destruct Hw as [Hne Hw]. simpl in Hb. rewrite fold_right_Forall in Hw, Hb.
    destruct (composite_execute_total (update 0) id class ch Hne) with (st := st) as [[s st1] E].
    + rewrite Forall_forall in *. intros n Hn st1. by apply IH; [|apply Hw|apply Hb].
    + unfold execute. rewrite E. by eexists.
  - destruct Hw as [Hne Hw]. simpl in Hb. rewrite fold_right_Forall in Hw, Hb. simpl.
    rewrite (composite_execute_ext (update fuel) (update 0)); [done|].
    rewrite Forall_forall in *. intros n Hn st1. by apply IH; [|apply Hw|apply Hb].
  - destruct Hw as [Hc Hw], Hb as [Hu Hb], ch as [n|]; [|done].
    destruct (decorator_execute_total (update 0) id 0 class n) with (st := st) as [[s st1] E].
    + by destruct class.
    + intros st1. by apply (IH n).
    + unfold execute. rewrite E. by eexists.
  - destruct Hw as [Hc Hw], Hb as [Hu Hb], ch as [n|]; [|done]. unfold execute.
    rewrite (decorator_execute_ext (update fuel) (update 0) id fuel 0); [done | by destruct class |].
    intros st1. by apply (IH n).
Qed.

(** *** Indices stay inside the child lists *)

(** The remembered index of every Selector and Sequence is that of a child. *)
Fixpoint indices_ok (n : node L) (c : Context.t) : Prop :=
  match n with
  | Leaf _ _ => True
  | Composite id class ch =>
      match class with
      | Selector _ | Sequence _ => ch <> [] -> 0 <= Context.get id c < zlen ch
      | _ => True
      end /\ fold_right (fun n P => indices_ok n c /\ P) True ch
  | Decorator _ _ ch => match ch with Some n => indices_ok n c | None => True end
  end.

Lemma indices_ok_composite id class ch c :
  indices_ok (Composite id class ch) c <->
  match class with
  | Selector _ | Sequence _ => ch <> [] -> 0 <= Context.get id c < zlen ch
  | _ => True
  end /\ Forall (fun n => indices_ok n c) ch.
Proof.
  simpl. rewrite <- (fold_right_Forall (fun n => indices_ok n c)). done.
Qed.

(** They only depend on the entries of the subtree, and erasing keeps them. *)
Lemma indices_ok_erased n c c' :
  (forall i, i ∈ ids n -> c' !! i = None \/ c' !! i = c !! i) -> indices_ok n c -> indices_ok n c'.
Proof.
  induction n as [id l | id class ch IH | id class ch IH] using node_tree_ind; intros He Hi.
  - done.
  - rewrite indices_ok_composite in *. destruct Hi as [Ho Hi]. split.
    + assert (Context.get id c' = 0 \/ Context.get id c' = Context.get id c) as Hg.
      { unfold Context.get. destruct (He id) as [->| ->]; [left|by left|by right]. }
      destruct class; try done; intros Hn; specialize (Ho Hn);
        destruct ch; try done; destruct Hg as [->| ->]; simpl in *; lia.
    + rewrite Forall_forall in *. intros n Hn. apply IH; [done | | by apply Hi].
      intros i Hin. apply He. by apply (in_ids_child _ _ _ n).
  - destruct ch as [n|]; [|done]. simpl in *. apply (IH n eq_refl); [|done].
    intros i Hin. apply He. by right.
Qed.

Lemma indices_ok_frame n c c' :
  (forall i, i ∈ ids n -> c' !! i = c !! i) -> indices_ok n c -> indices_ok n c'.
Proof. intros He. apply indices_ok_erased. intros i Hi. right. by apply He. Qed.

Lemma resume_loop_own upd go_on this start i ch st s st' :
  Forall (fun n => respects (same_outside (ids n)) (upd n) /\ this ∉ ids n) ch ->
  Z.of_nat i + zlen ch < 2 ^ 63 ->
  resume_loop upd go_on this start i ch st = Ok (s, st') ->
  Context.get this (ctx st') = Context.get this (ctx st) \/
  Z.of_nat i <= Context.get this (ctx st') < Z.of_nat i + zlen ch.
Proof.
  intros Hch. revert i st. induction Hch as [|n ch [Hn Ht] Hch IH]; intros i st Hl E; simpl in E, Hl.
  - invert_ok. by left.
  - destruct (_ <? _).
    { destruct (IH (S i) st ltac:(lia) E) as [H1|H1]; [by left | right; simpl; lia]. }
    apply outcome_bind_inv in E as ([s1 st1] & E1 & E). apply Hn in E1.
    assert (Context.get this (ctx st1) = Context.get this (ctx st)) as Hs.
    { unfold Context.get. by rewrite E1. }
    destruct (bool_decide _).
    + destruct (IH (S i) st1 ltac:(lia) E) as [H1|H1]; [left; congruence | right; simpl; lia].
    + injection E as _ <-. right. simpl.
      assert (i64 (Z.of_nat i) = Z.of_nat i) as -> by (apply swrap_small; lia).
      rewrite get_set, wrap_small by lia. lia.
Qed.

Lemma NoDup_child id class ch n :
  NoDup (ids (Composite id class ch)) -> n ∈ ch -> NoDup (ids n) /\ id ∉ ids n.
Proof.
  intros Hd Hn. simpl in Hd. apply NoDup_cons in Hd as [Hd1 Hd2].
  apply list_elem_of_In, in_split in Hn as (l1 & l2 & ->).
  rewrite map_app, concat_app in Hd1, Hd2. simpl in Hd1, Hd2.
  rewrite !NoDup_app in Hd2. rewrite !elem_of_app in Hd1. tauto.
Qed.

Lemma ids_child_size id class ch n : n ∈ ch -> zlen (ids n) < zlen (ids (Composite id class ch)).
Proof.
  intros Hn. apply list_elem_of_In, in_split in Hn as (l1 & l2 & ->).
  simpl. rewrite map_app, concat_app. simpl. rewrite !length_app. lia.
Qed.

Lemma children_le_ids id class ch : zlen ch < zlen (ids (Composite id class ch)).
Proof.
  simpl. assert (length ch <= length (concat (map ids ch)))%nat; [|lia].
  induction ch as [|n ch IH]; simpl; [lia|]. rewrite length_app.
  destruct n; simpl; lia.
Qed.

(** Siblings have different ids. *)
Lemma siblings_disjoint id class ch n n' i :
  NoDup (ids (Composite id class ch)) -> n ∈ ch -> n' ∈ ch -> i ∈ ids n -> i ∈ ids n' -> n = n'.
Proof.
  intros Hd. simpl in Hd. apply NoDup_cons in Hd as [_ Hd].
  induction ch as [|x ch IH]; simpl in *; [set_solver|].
  apply NoDup_app in Hd as (Hd1 & Hd2 & Hd3).
  assert (forall m, m ∈ ch -> i ∈ ids m -> i ∈ concat (map ids ch)) as Hin.
  { intros m Hm Hi. apply list_elem_of_In, in_concat. exists (ids m).
    split; [apply in_map|]; by apply list_elem_of_In. }
  rewrite !elem_of_cons. intros [->|Hn] [->|Hn'] Hi Hi'; [done | | | by apply IH].
  - exfalso. eapply Hd2; [exact Hi | by eapply Hin].
  - exfalso. eapply Hd2; [exact Hi' | by eapply Hin].
Qed.

Lemma finish_indices_ok s n m st :
  indices_ok m (ctx st) -> indices_ok m (ctx (finish s n st)).
Proof.
  apply indices_ok_erased. intros i _. unfold finish.
  destruct (bool_decide _); [by right | apply reset_erases].
Qed.

Lemma update_indices_ok fuel n :
  NoDup (ids n) -> zlen (ids n) < 2 ^ 63 ->
  forall st s st', update fuel n st = Ok (s, st') -> indices_ok n (ctx st) -> indices_ok n (ctx st').
Proof.
  induction n as [id l | id class ch IH | id class ch IH] using node_tree_ind;
    intros Hd Hl st s st' E Hi; apply update_inv in E as (st1 & E & ->); apply finish_indices_ok.
  - done.
  - rewrite indices_ok_composite in *. destruct Hi as [Ho Hi]. split.
    + pose proof (children_le_ids id class ch) as Hch.
      assert (forall go_on start, resume_loop (update fuel) go_on id start 0 ch st = Ok (s, st1) ->
        (ch <> [] -> 0 <= Context.get id (ctx st) < zlen ch) ->
        ch <> [] -> 0 <= Context.get id (ctx st1) < zlen ch) as Hloop.
      { intros go_on start El Hown Hne.
        destruct (resume_loop_own (update fuel) go_on id start 0 ch st s st1) as [->|Hr]; [| lia | done | by apply Hown | lia].
        rewrite Forall_forall. intros n Hn. split; [apply update_same_outside | by apply (NoDup_child id class ch n)]. }
      destruct class; try done; apply outcome_bind_inv in E as (? & _ & E); by eapply Hloop.
    + revert Hi. change ((fun a b => Forall (fun n => indices_ok n (ctx a)) ch ->
        Forall (fun n => indices_ok n (ctx b)) ch) st st1).
      eapply composite_execute_rel; [split; [by intros ? | intros ??? H1 H2 ?; by apply H2, H1] | | | exact E].
      * intros a idx Ha. rewrite Forall_forall in *. intros n Hn.
        apply (indices_ok_frame _ (ctx a)); [|by apply Ha]. intros i Hin. apply lookup_set_ne.
        intros ->. by apply (NoDup_child i class ch n).
      * rewrite Forall_forall in *. intros n Hn a s2 b Ea Ha. rewrite Forall_forall in *. intros m Hm.
        destruct (decide (Exists (fun i => i ∈ ids n) (ids m))) as [Hex|Hex].
        -- apply Exists_exists in Hex as (i & Him & Hin).
           assert (m = n) as -> by by eapply (siblings_disjoint id class ch).
           eapply (IH n Hn); [by apply (NoDup_child id class ch) | | exact Ea | by apply Ha].
           pose proof (ids_child_size id class ch n Hn). lia.
        -- apply (indices_ok_frame _ (ctx a)); [|by apply Ha]. intros i Him.
           apply (update_same_outside fuel n _ _ _ Ea). intros Hin. apply Hex, Exists_exists. eauto.
  - destruct ch as [n|]; [|done]. simpl in Hi, Hd, Hl |- *. apply NoDup_cons in Hd as [Hd1 Hd2].
    revert Hi. change ((fun a b => indices_ok n (ctx a) -> indices_ok n (ctx b)) st st1).
    eapply decorator_execute_rel; [split; [by intros ? | intros ??? H1 H2 ?; by apply H2, H1] | | | | exact E].
    + intros a idx. apply indices_ok_frame. intros i Hin. apply lookup_set_ne. by intros ->.
    + done.
    + intros m [= <-] a s2 b Ea. eapply (IH n eq_refl); [done | lia | exact Ea].
Qed.

(** ** Sequences of ticks *)

(** [ticks upd l st ss st']: ticking the nodes of [l] one after the other from
    [st] returns the statuses [ss] and ends in [st']. *)
Inductive ticks (upd : node L -> state W -> outcome (Status * state W)) :
    list (node L) -> state W -> list Status -> state W -> Prop :=
| ticks_nil st : ticks upd [] st [] st
| ticks_cons n l st s st1 ss st' :
    upd n st = Ok (s, st1) -> ticks upd l st1 ss st' -> ticks upd (n :: l) st (s :: ss) st'.

Lemma ticks_inv upd n l st ss st' :
  ticks upd (n :: l) st ss st' ->
  exists s st1 ss', upd n st = Ok (s, st1) /\ ticks upd l st1 ss' st' /\ ss = s :: ss'.
Proof. inversion 1; subst. eauto 6. Qed.

(** The statuses with which a composite stops at a child: the first one that is
    not [go_on], or all of them. *)
Definition stops_at (go_on : Status) (ss : list Status) (s : Status) (total : nat) : Prop :=
  (length ss = total /\ s = go_on /\ Forall (eq go_on) ss) \/
  (exists pre, ss = pre ++ [s] /\ s <> go_on /\ Forall (eq go_on) pre).

Lemma resume_loop_spec upd go_on this i ch st s st' :
  resume_loop upd go_on this 0 i ch st = Ok (s, st') <->
  exists ss st1, ticks upd (take (length ss) ch) st ss st1 /\ (length ss <= length ch)%nat /\
    stops_at go_on ss s (length ch) /\
    st' = if bool_decide (s = go_on) then st1
          else with_ctx (Context.set this (i64 (Z.of_nat (i + length ss - 1)))) st1.
Proof.
  revert i st. induction ch as [|n ch IH]; intros i st; cbn [resume_loop].
  - split.
    + intros [= <- <-]. exists [], st. rewrite bool_decide_true by done.
      split; [constructor|]. split; [done|]. split; [left; by repeat split|done].
    + intros (ss & st1 & Ht & Hl & [(Hl2 & -> & _)|(pre & -> & _)] & ->).
      * destruct ss; [|done]. inversion Ht; subst. by rewrite bool_decide_true.
      * rewrite length_app in Hl. simpl in Hl. lia.
  - replace (Z.of_nat i <? 0) with false by (symmetry; apply Z.ltb_ge; lia). split.
    + intros E. apply outcome_bind_inv in E as ([s1 st2] & E1 & E). cbv beta iota in E.
      destruct (bool_decide (s1 = go_on)) eqn:Es; to_prop.
      * apply IH in E as (ss & st1 & Ht & Hl & Hs & ->). exists (s1 :: ss), st1.
        split; [by econstructor|]. split; [simpl; lia|]. split.
        -- destruct Hs as [(Hl2 & -> & Hs)|(pre & -> & Hs & Hp)];
             [left; split; [simpl; lia | by split; [|constructor]] |].
           right. exists (s1 :: pre). split; [done|]. by split; [|constructor].
        -- by replace (i + length (s1 :: ss) - 1)%nat with (S i + length ss - 1)%nat by (simpl; lia).
      * injection E as <- <-. exists [s1], st2. split; [econstructor; [done|constructor]|].
        split; [simpl; lia|]. split; [right; exists []; by split|].
        rewrite bool_decide_false by done. by replace (i + length [s1] - 1)%nat with i by (simpl; lia).
    + intros (ss & st1 & Ht & Hl & Hs & ->). destruct ss as [|s1 ss].
      { destruct Hs as [(Hl2 & _)|(pre & Hp & _)]; [done | by destruct pre]. }
      simpl take in Ht. apply ticks_inv in Ht as (? & st2 & ss' & E1 & Ht & [= <- <-]).
      rewrite E1. cbn [mbind outcome_bind].
      destruct (bool_decide (s1 = go_on)) eqn:Es; to_prop.
      * apply IH. exists ss, st1. split; [done|]. split; [simpl in Hl; lia|]. split.
        -- destruct Hs as [(Hl2 & -> & Hs)|(pre & Hp & Hs & Hg)].
           ++ left. inversion Hs; subst. split; [simpl in Hl2; lia | done].
           ++ destruct pre as [|? pre]; injection Hp as -> Hp; [congruence|].
              right. exists pre. inversion Hg; subst. by split.
        -- by replace (i + length (s1 :: ss) - 1)%nat with (S i + length ss - 1)%nat by (simpl; lia).
      * destruct Hs as [(_ & _ & Hg)|(pre & Hp & Hs & Hg)]; [inversion Hg; congruence|].
        destruct pre as [|? pre]; injection Hp as -> Hp; [|inversion Hg; congruence].
        subst ss. simpl in Ht. inversion Ht; subst. rewrite bool_decide_false by done.
        by replace (i + length [s] - 1)%nat with i by (simpl; lia).
Qed.

(** Starting at an index is starting at that child. *)
Lemma resume_loop_start upd go_on this k i ch st :
  (i <= k)%nat ->
  resume_loop upd go_on this (Z.of_nat k) i ch st =
    resume_loop upd go_on this 0 k (drop (k - i) ch) st.
Proof.
  revert i st. induction ch as [|n ch IH]; intros i st Hk.
  - by rewrite drop_nil.
  - destruct (decide (i = k)) as [->|Hne].
    + rewrite Nat.sub_diag, drop_0. clear IH Hk. generalize (n :: ch) as l. clear n ch.
      assert (forall l j st, (k <= j)%nat -> resume_loop upd go_on this (Z.of_nat k) j l st =
        resume_loop upd go_on this 0 j l st) as Hj.
      { induction l as [|n l IH]; intros j st0 Hj; [done|]. cbn [resume_loop].
        replace (Z.of_nat j <? Z.of_nat k) with false by (symmetry; apply Z.ltb_ge; lia).
        replace (Z.of_nat j <? 0) with false by (symmetry; apply Z.ltb_ge; lia).
        destruct (upd n st0) as [[s1 st1]|]; [|done]. cbn [mbind outcome_bind]. by rewrite IH by lia. }
      intros l. by apply Hj.
    + cbn [resume_loop]. replace (Z.of_nat i <? Z.of_nat k) with true by (symmetry; apply Z.ltb_lt; lia).
      rewrite IH by lia. by replace (k - i)%nat with (S (k - S i)) by lia.
Qed.

(** The status on which a Selector or a Sequence goes on to the next child. *)
Definition goes_on (class : composite_class) : option Status :=
  match class with
  | Selector _ => Some Failure
  | Sequence _ => Some Success
  | _ => None
  end.

Lemma selector_sequence_execute upd this class go_on ch st k :
  goes_on class = Some go_on -> ch <> [] -> Context.get this (ctx st) = Z.of_nat k ->
  composite_execute upd this class ch st = resume_loop upd go_on this 0 k (drop k ch) st.
Proof.
  intros Hg Hne Hk. unfold composite_execute.
  assert (cxx_assert (has ch) = Ok tt) as -> by by destruct ch.
  destruct class; try discriminate; injection Hg as <-; cbn [mbind outcome_bind];
    rewrite Hk, resume_loop_start, Nat.sub_0_r by lia; done.
Qed.

(** One tick of a Selector or Sequence whose remembered child is [k]. *)
Lemma selector_sequence_tick fuel id class go_on ch st k s st' :
  goes_on class = Some go_on -> (k < length ch)%nat -> Context.get id (ctx st) = Z.of_nat k ->
  execute fuel (Composite id class ch) st = Ok (s, st') <->
  exists ss st1, ticks (update fuel) (take (length ss) (drop k ch)) st ss st1 /\
    (length ss <= length ch - k)%nat /\ stops_at go_on ss s (length ch - k) /\
    st' = if bool_decide (s = go_on) then st1
          else with_ctx (Context.set id (i64 (Z.of_nat (k + length ss - 1)))) st1.
Proof.
  intros Hg Hk Hi. unfold execute.
  rewrite (selector_sequence_execute _ _ _ _ _ _ k Hg) by (done || by intros ->; simpl in Hk; lia).
  rewrite resume_loop_spec. by rewrite length_drop.
Qed.

Lemma stops_at_nonempty go_on ss s m : stops_at go_on ss s m -> s <> go_on -> (0 < length ss)%nat.
Proof. intros [(_ & -> & _)|(pre & -> & _)]; [done|]. rewrite length_app. simpl. lia. Qed.

(** *** The loops of the other classes *)

(** A Parallel ticks every child once, in order, and counts. *)
Definition count_status (s : Status) (ss : list Status) : Z :=
  zlen (filter (fun x => x = s) ss).

Lemma count_status_cons s x ss :
  count_status s (x :: ss) = (if decide (x = s) then 1 else 0) + count_status s ss.
Proof. unfold count_status. rewrite filter_cons. destruct (decide (x = s)); simpl length; lia. Qed.

Lemma count_status_bound s ss : 0 <= count_status s ss <= zlen ss.
Proof.
  induction ss as [|x ss IH]; [done|]. rewrite count_status_cons.
  destruct (decide _); simpl length; lia.
Qed.

Lemma parallel_loop_spec upd f0 s0 ch st f s st' :
  0 <= f0 -> 0 <= s0 -> f0 + zlen ch < 2 ^ 31 -> s0 + zlen ch < 2 ^ 31 ->
  parallel_loop upd f0 s0 ch st = Ok (f, s, st') <->
  exists ss, ticks upd ch st ss st' /\ f = f0 + count_status Failure ss /\ s = s0 + count_status Success ss.
Proof.
  revert f0 s0 st. induction ch as [|n ch IH]; intros f0 s0 st H1 H2 H3 H4; cbn [parallel_loop].
  - split.
    + intros [= <- <- <-]. exists []. split; [constructor|]. unfold count_status; simpl. lia.
    + intros (ss & Ht & -> & ->). inversion Ht; subst. unfold count_status; simpl. by rewrite !Z.add_0_r.
  - assert (forall x, 0 <= x -> x + zlen (n :: ch) < 2 ^ 31 -> i32 (x + 1) = x + 1) as Hi.
    { intros x Hx Hx2. apply swrap_small; simpl in *; lia. }
    rewrite !Hi by done. simpl length in *.
    split.
    + intros E. apply outcome_bind_inv in E as ([s1 st1] & E1 & E). cbv beta iota in E.
      assert (exists ss, ticks upd ch st1 ss st' /\
        f = f0 + count_status Failure (s1 :: ss) /\ s = s0 + count_status Success (s1 :: ss)) as (ss & Ht & Hf & Hs).
      { destruct s1; apply IH in E as (ss & Ht & -> & ->); try lia; exists ss; (split; [done|]);
          rewrite !count_status_cons; simpl; lia. }
      exists (s1 :: ss). split; [by econstructor | done].
    + intros (ss & Ht & Hf & Hs). apply ticks_inv in Ht as (s1 & st1 & ss' & E1 & Ht & ->).
      rewrite E1. cbn [mbind outcome_bind]. rewrite !count_status_cons in *.
      destruct s1; apply IH; try lia; exists ss'; (split; [done|]); simpl in Hf, Hs; lia.
Qed.

(** The retry loop ticks its child until the first Success, at most [num] times. *)
Lemma retry_loop_spec num upd child st s st' :
  (0 < num)%nat ->
  retry_loop num (upd child) st = Ok (s, st') <->
  exists ss pre, ticks upd (replicate (length ss) child) st ss st' /\ ss = pre ++ [s] /\
    (length ss <= num)%nat /\ Forall (fun x => x <> Success) pre /\
    (s <> Success -> length ss = num).
Proof.
  revert st. induction num as [|num IH]; intros st Hn; [lia|]. clear Hn. cbn [retry_loop]. split.
  - intros E. apply outcome_bind_inv in E as ([s1 st1] & E1 & E). cbv beta iota in E.
    destruct (bool_decide (s1 = Success)) eqn:Es; to_prop;
      [|destruct num as [|num]].
    1,2: injection E as <- <-; exists [s1], []; (split; [econstructor; [done|constructor]|]);
      split; [done|]; split; [simpl; lia|]; split; [constructor|]; done.
    apply IH in E as (ss & pre & Ht & -> & Hl & Hp & Hs); [|lia].
    exists (s1 :: pre ++ [s]), (s1 :: pre). split; [by econstructor|]. split; [done|].
    split; [simpl; lia|]. split; [by constructor|]. intros Hne. simpl. by rewrite Hs.
  - intros (ss & pre & Ht & -> & Hl & Hp & Hs).
    destruct pre as [|s1 pre].
    + simpl in Ht. apply ticks_inv in Ht as (s1 & st1 & ss' & E1 & Ht & [= <- <-]). inversion Ht; subst.
      rewrite E1. cbn [mbind outcome_bind].
      destruct (bool_decide (s = Success)) eqn:Es; to_prop; [done|].
      specialize (Hs Es). simpl in Hs. by replace num with 0%nat by lia.
    + simpl in Ht. apply ticks_inv in Ht as (? & st1 & ss' & E1 & Ht & [= <- <-]).
      rewrite E1. cbn [mbind outcome_bind]. inversion Hp; subst.
      rewrite bool_decide_false by done. destruct num as [|num].
      { rewrite length_app in Hl. simpl in Hl. lia. }
      apply IH; [lia|]. exists (pre ++ [s]), pre. repeat (split; [done || (simpl in Hl; lia)|]).
      intros Hne. specialize (Hs Hne). simpl in Hs. lia.
Qed.

(** The unbounded loops tick their child until it first returns [stop]. *)
Lemma until_loop_spec fuel stop upd child st s st' :
  until_loop fuel stop (upd child) st = Ok (s, st') <->
  s = Success /\
  exists ss pre, ticks upd (replicate (length ss) child) st ss st' /\ ss = pre ++ [stop] /\
    (length ss <= fuel)%nat /\ Forall (fun x => x <> stop) pre.
Proof.
  revert st. induction fuel as [|fuel IH]; intros st; cbn [until_loop].
  { split; [discriminate|]. intros (_ & ss & pre & _ & -> & Hl & _). rewrite length_app in Hl. simpl in Hl. lia. }
  split.
  - intros E. apply outcome_bind_inv in E as ([s1 st1] & E1 & E). cbv beta iota in E.
    destruct (bool_decide (s1 = stop)) eqn:Es; to_prop.
    + injection E as <- <-. subst. split; [done|]. exists [stop], [].
      split; [econstructor; [done|constructor]|]. split; [done|]. split; [simpl; lia | constructor].
    + apply IH in E as (-> & ss & pre & Ht & -> & Hl & Hp). split; [done|].
      exists (s1 :: pre ++ [stop]), (s1 :: pre). split; [by econstructor|]. split; [done|].
      split; [simpl; lia | by constructor].
  - intros (-> & ss & pre & Ht & -> & Hl & Hp). destruct pre as [|s1 pre].
    + simpl in Ht. apply ticks_inv in Ht as (s1 & st1 & ss' & E1 & Ht & [= <- <-]). inversion Ht; subst.
      rewrite E1. cbn [mbind outcome_bind]. by rewrite bool_decide_true.
    + simpl in Ht. apply ticks_inv in Ht as (? & st1 & ss' & E1 & Ht & [= <- <-]).
      rewrite E1. cbn [mbind outcome_bind]. inversion Hp; subst.
      rewrite bool_decide_false by done. apply IH. split; [done|].
      exists (pre ++ [stop]), pre. repeat (split; [done || (simpl in Hl; lia)|]). done.
Qed.

(** A tick of a Repeater that has counted [c] ticks. *)
Lemma repeater_tick fuel id m child st s st' :
  0 < m < 2 ^ 31 -> id ∉ ids child -> 0 <= Context.get id (ctx st) < m ->
  update fuel (Decorator id (Repeater m) (Some child)) st = Ok (s, st') ->
  (Context.get id (ctx st) + 1 < m /\ s = Running /\
     Context.get id (ctx st') = Context.get id (ctx st) + 1) \/
  (Context.get id (ctx st) + 1 = m /\ s = Success /\ Context.get id (ctx st') = 0).
Proof.
  intros Hm Hid Hc E. apply update_inv in E as (st1 & E & ->). unfold execute, decorator_execute in E.
  apply outcome_bind_inv in E as ([s1 st2] & E1 & E). apply update_same_outside in E1.
  assert (Context.get id (ctx st2) = Context.get id (ctx st)) as Hg by (unfold Context.get; by rewrite E1).
  assert (i32 (Context.get id (ctx st)) = Context.get id (ctx st)) as Hi by (apply swrap_small; simpl; lia).
  rewrite Hi in E. replace (0 <? m) with true in E by (symmetry; apply Z.ltb_lt; lia).
  assert (i32 (Context.get id (ctx st) + 1) = Context.get id (ctx st) + 1) as Hi1 by (apply swrap_small; simpl; lia).
  rewrite Hi1 in E. cbn [andb] in E. destruct (_ =? m) eqn:Em; to_prop; injection E as <- <-.
  - right. split; [done|]. split; [done|]. unfold finish. rewrite bool_decide_false by done.
    cbn [with_ctx ctx]. unfold Context.get. cbn [reset].
    rewrite (reset_frame _ child) by done. by rewrite lookup_set_erase.
  - left. split; [lia|]. split; [done|]. unfold finish. rewrite bool_decide_true by done. cbn [with_ctx ctx].
    rewrite get_set, wrap_small by lia. done.
Qed.

Lemma repeater_ticks fuel id m child k st ss st' :
  0 < m < 2 ^ 31 -> id ∉ ids child -> Context.get id (ctx st) = m - 1 - Z.of_nat k ->
  0 <= m - 1 - Z.of_nat k ->
  ticks (update fuel) (replicate (S k) (Decorator id (Repeater m) (Some child))) st ss st' ->
  ss = replicate k Running ++ [Success] /\ Context.get id (ctx st') = 0.
Proof.
  intros Hm Hid. revert st ss. induction k as [|k IH]; intros st ss Hg H0 Ht;
    apply ticks_inv in Ht as (s & st1 & ss' & E & Ht & ->);
    apply repeater_tick in E; try done; try lia.
  - inversion Ht; subst. destruct E as [(? & _)|(_ & -> & Hz)]; [lia|]. done.
  - destruct E as [(_ & -> & Hz)|(? & _)]; [|lia].
    apply IH in Ht as [-> Hz']; [done | lia | lia].
Qed.

(** ** Properties *)

(** C20.
    Updating a tree reads and writes only its own nodes in the context: an entry
    of any other node is unchanged.  When no Selector or Sequence of the tree is
    stateful, an update that does not end Running leaves no entry of the tree
    behind, so the next update starts afresh. *)
Theorem update_frame_and_cleanup fuel n st s st' :
  update fuel n st = Ok (s, st') ->
  (forall i, i ∉ ids n -> ctx st' !! i = ctx st !! i) /\
  (stateless n -> s <> Running -> forall i, i ∈ ids n -> ctx st' !! i = None).
Proof.
  intros E. split; [by eapply update_same_outside|]. intros Hs Hr i Hi.
  apply update_inv in E as (st1 & _ & ->). unfold finish. rewrite bool_decide_false by done.
  by apply reset_clears.
Qed.

(** C38.
    Every update of a well-formed tree without UntilSuccess and UntilFailure
    returns: no assertion fails, no NULL child is dereferenced, every loop ends,
    and the result does not depend on the fuel of the model. *)
Theorem update_total n st :
  well_formed n -> bounded n -> exists r, forall fuel, update fuel n st = Ok r.
Proof.
  intros Hw Hb. destruct (update_returns n Hw Hb st) as [[r Hr] Hf].
  exists r. intros fuel. by rewrite Hf.
Qed.

(** The index remembered for every Selector and Sequence of a tree is the index of
    one of its children, before and after every update. *)
Theorem update_indices_inv fuel n st s st' :
  NoDup (ids n) -> zlen (ids n) < 2 ^ 63 ->
  update fuel n st = Ok (s, st') -> indices_ok n (ctx st) -> indices_ok n (ctx st').
Proof. intros Hd Hl. by apply update_indices_ok. Qed.

(** A Selector (Sequence) that is Running after an update remembers the child it
    stopped at, and its next tick starts with that child: the children before it
    are not ticked again, whether or not the node is stateful. *)
Theorem running_child_resumes fuel id class go_on ch st st' k :
  goes_on class = Some go_on -> (k < length ch)%nat -> zlen ch < 2 ^ 63 ->
  Context.get id (ctx st) = Z.of_nat k ->
  update fuel (Composite id class ch) st = Ok (Running, st') ->
  exists j, (k <= j < length ch)%nat /\ Context.get id (ctx st') = Z.of_nat j /\
    forall fuel' s st2,
      execute fuel' (Composite id class ch) st' = Ok (s, st2) <->
      exists ss st3, ticks (update fuel') (take (length ss) (drop j ch)) st' ss st3 /\
        (length ss <= length ch - j)%nat /\ stops_at go_on ss s (length ch - j) /\
        st2 = if bool_decide (s = go_on) then st3
              else with_ctx (Context.set id (i64 (Z.of_nat (j + length ss - 1)))) st3.
Proof.
  intros Hg Hk Hl Hi E. apply update_inv in E as (st1 & E & ->).
  unfold finish. rewrite bool_decide_true by done.
  eapply selector_sequence_tick in E as (ss & st2 & _ & Hlen & Hs & ->); [|done..].
  assert (Running <> go_on) as Hne by (destruct class; try discriminate; by injection Hg as <-).
  pose proof (stops_at_nonempty _ _ _ _ Hs Hne) as Hpos. rewrite bool_decide_false by done.
  exists (k + length ss - 1)%nat. split; [lia|].
  assert (i64 (Z.of_nat (k + length ss - 1)) = Z.of_nat (k + length ss - 1)) as Hi64
    by (apply swrap_small; lia).
  assert (Context.get id (ctx (with_ctx (Context.set id (i64 (Z.of_nat (k + length ss - 1)))) st2)) =
    Z.of_nat (k + length ss - 1)) as Hget.
  { cbn [with_ctx ctx]. rewrite Hi64, get_set, wrap_small; lia. }
  split; [done|]. intros fuel' s st3.
  apply (selector_sequence_tick fuel' id class go_on ch _ (k + length ss - 1) s st3 Hg); [lia | done].
Qed.

(** From a fresh start a Selector (Sequence) ticks its children in order up to the
    first that does not return Failure (Success) and returns what that child
    returned, or returns Failure (Success) after all of them did. *)
Theorem fresh_selector_sequence fuel id class go_on ch st s st' :
  goes_on class = Some go_on -> ch <> [] -> ctx st !! id = None ->
  execute fuel (Composite id class ch) st = Ok (s, st') <->
  exists ss st1, ticks (update fuel) (take (length ss) ch) st ss st1 /\
    (length ss <= length ch)%nat /\ stops_at go_on ss s (length ch) /\
    st' = if bool_decide (s = go_on) then st1
          else with_ctx (Context.set id (i64 (Z.of_nat (length ss - 1)))) st1.
Proof.
  intros Hg Hne Hi.
  rewrite (selector_sequence_tick fuel id class go_on ch st 0);
    [| done | destruct ch; [done | simpl; lia] | unfold Context.get; by rewrite Hi].
  by rewrite drop_0, Nat.sub_0_r.
Qed.

(** The counts a Parallel of [n] children needs. *)
Definition parallel_mins (class : composite_class) (n : nat) : option (Z * Z) :=
  match class with
  | ParallelCounts f s => Some (f, s)
  | ParallelPolicies f s =>
      Some (match f with FAILED_ON_ONE => 1 | FAILED_ON_ALL => Z.of_nat n end,
            match s with SUCCEED_ON_ONE => 1 | SUCCEED_ON_ALL => Z.of_nat n end)
  | _ => None
  end.

(** A Parallel ticks every child exactly once, in order, whatever they return; it
    fails when enough of them failed, else succeeds when enough succeeded, else
    is Running. *)
Theorem parallel_counts fuel id class ch st f s r st' :
  parallel_mins class (length ch) = Some (f, s) -> ch <> [] -> zlen ch < 2 ^ 31 ->
  execute fuel (Composite id class ch) st = Ok (r, st') <->
  exists ss, ticks (update fuel) ch st ss st' /\
    r = if f <=? count_status Failure ss then Failure
        else if s <=? count_status Success ss then Success else Running.
Proof.
  intros Hm Hne Hl. unfold execute, composite_execute.
  assert (cxx_assert (has ch) = Ok tt) as -> by by destruct ch.
  assert (i32 (zlen ch) = zlen ch) as Hi by (apply swrap_small; lia).
  assert (parallel_execute (update fuel) f s ch st = Ok (r, st') <->
    exists ss, ticks (update fuel) ch st ss st' /\
      r = if f <=? count_status Failure ss then Failure
          else if s <=? count_status Success ss then Success else Running) as Hp.
  { unfold parallel_execute. split.
    - intros E. apply outcome_bind_inv in E as ([[nf ns] st1] & E1 & [= <- <-]).
      apply parallel_loop_spec in E1 as (ss & Ht & -> & ->); [|lia..]. by exists ss.
    - intros (ss & Ht & ->).
      assert (parallel_loop (update fuel) 0 0 ch st =
        Ok (count_status Failure ss, count_status Success ss, st')) as ->; [|done].
      apply parallel_loop_spec; try lia. by exists ss. }
  destruct class; try discriminate; cbn [mbind outcome_bind]; rewrite ?Hi;
    injection Hm as <- <-; exact Hp.
Qed.

(** RetryUntilSuccessful ticks its child until the first Success, at most
    [m_attemps] times and at least once; it succeeds exactly when a tick did. *)
Theorem retry_attempts fuel id k child st s st' :
  0 < k ->
  execute fuel (Decorator id (RetryUntilSuccessful k) (Some child)) st = Ok (s, st') <->
  exists ss pre, ticks (update fuel) (replicate (length ss) child) st ss st' /\ ss = pre ++ [s] /\
    zlen ss <= k /\ Forall (fun x => x <> Success) pre /\ (s <> Success -> zlen ss = k).
Proof.
  intros Hk. unfold execute, decorator_execute. rewrite retry_loop_spec by lia.
  split; intros (ss & pre & Ht & E & Hl & Hp & Hs); exists ss, pre;
    repeat (split; [done || lia|]); intros Hne; specialize (Hs Hne); lia.
Qed.

(** A Repeater with a limit, ticked from a fresh start, is Running for the first
    [m_Limit - 1] ticks and succeeds with the last one, whatever its child returns;
    then it is fresh again. *)
Theorem repeater_limit fuel id m child st ss st' :
  0 < m < 2 ^ 31 -> id ∉ ids child -> ctx st !! id = None ->
  ticks (update fuel) (replicate (Z.to_nat m) (Decorator id (Repeater m) (Some child))) st ss st' ->
  ss = replicate (Z.to_nat (m - 1)) Running ++ [Success] /\ Context.get id (ctx st') = 0.
Proof.
  intros Hm Hid Hf Ht. replace (Z.to_nat m) with (S (Z.to_nat (m - 1))) in Ht by lia.
  eapply repeater_ticks; [exact Hm | exact Hid | | | exact Ht]; [|lia].
  unfold Context.get. rewrite Hf. lia.
Qed.

End Facts.

(** ** The properties at concrete inputs

    A world that is a script of what the leaves will return, and a still clock. *)

Module Sample.

#[export] Instance script_leaves : Leaves unit (list Status) := {
  leaf_execute _ w := match w with s :: w' => (s, w') | [] => (Success, []) end;
  utils_now w := (0, w)
}.

Definition act (id : N) : node unit := Leaf id (Some tt).
Definition start (script : list Status) : state (list Status) := St ∅ script.

Definition walk : node unit := Composite 3 (Sequence false) [act 4; act 5; act 6].
Definition patrol : node unit :=
  Composite 0 (Selector false) [Decorator 1 (RetryUntilSuccessful 2) (Some (act 2)); walk].

End Sample.
Import Sample.

Lemma update_frame_and_cleanup_witness :
  update 0 patrol (start [Failure; Failure; Success; Success; Success]) = Ok (Success, start []) /\
    (forall i, i ∉ ids patrol -> ctx (start []) !! i = ctx (start [Failure; Failure; Success; Success; Success]) !! i) /\
    (stateless patrol -> Success <> Running -> forall i, i ∈ ids patrol -> ctx (start []) !! i = None).
Proof.
  split; [reflexivity|].
  apply (update_frame_and_cleanup 0 patrol (start [Failure; Failure; Success; Success; Success])). reflexivity.
Defined.

Lemma update_total_witness :
  exists r, forall fuel, update fuel patrol (start [Failure; Running]) = Ok r.
Proof. apply (update_total patrol (start [Failure; Running])); simpl; repeat split; try done; lia. Defined.

Definition waiting : state (list Status) := St {[3%N := 1; 0%N := 1]} [].

Lemma update_indices_inv_witness : indices_ok patrol (ctx waiting).
Proof.
  apply (update_indices_inv 0 patrol (start [Failure; Failure; Success; Running]) Running waiting).
  - apply (bool_decide_eq_true_1 _). vm_compute. reflexivity.
  - vm_compute. reflexivity.
  - vm_compute. reflexivity.
  - simpl. repeat split; try done; lia.
Defined.

Definition mid : state (list Status) := St {[3%N := 1]} [].

Lemma running_child_resumes_witness :
  exists j, (1 <= j < 3)%nat /\ Context.get 3 (ctx mid) = Z.of_nat j /\
    forall fuel' s st2,
      execute fuel' walk mid = Ok (s, st2) <->
      exists ss st3,
        ticks (update fuel') (take (length ss) (drop j [act 4; act 5; act 6])) mid ss st3 /\
    (length ss <= 3 - j)%nat /\ stops_at Success ss s (3 - j) /\
    st2 = if bool_decide (s = Success) then st3
              else with_ctx (Context.set 3 (i64 (Z.of_nat (j + length ss - 1)))) st3.
Proof.
  apply (running_child_resumes 0 3 (Sequence false) Success [act 4; act 5; act 6]
           (St {[3%N := 1]} [Running]) mid 1); simpl; done || lia || reflexivity.
Defined.

Lemma fresh_selector_sequence_witness :
  execute 0 walk (start [Success; Failure]) = Ok (Failure, mid) <->
  exists ss st1, ticks (update 0) (take (length ss) [act 4; act 5; act 6]) (start [Success; Failure]) ss st1 /\
    (length ss <= 3)%nat /\ stops_at Success ss Failure 3 /\
    mid = with_ctx (Context.set 3 (i64 (Z.of_nat (length ss - 1)))) st1.
Proof.
  apply (fresh_selector_sequence 0 3 (Sequence false) Success [act 4; act 5; act 6]
           (start [Success; Failure]) Failure mid); done.
Defined.

Lemma parallel_counts_witness :
  execute 0 (Composite 0 (ParallelPolicies FAILED_ON_ALL SUCCEED_ON_ONE) [act 1; act 2]) (start [Failure; Success])
    = Ok (Success, start []) <->
  exists ss, ticks (update 0) [act 1; act 2] (start [Failure; Success]) ss (start []) /\
    Success = if 2 <=? count_status Failure ss then Failure
              else if 1 <=? count_status Success ss then Success else Running.
Proof.
  apply (parallel_counts 0 0 (ParallelPolicies FAILED_ON_ALL SUCCEED_ON_ONE) [act 1; act 2]
           (start [Failure; Success]) 2 1 Success (start [])); done.
Defined.

Lemma retry_attempts_witness :
  execute 0 (Decorator 0 (RetryUntilSuccessful 3) (Some (act 1))) (start [Failure; Success]) = Ok (Success, start []) <->
  exists ss pre, ticks (update 0) (replicate (length ss) (act 1)) (start [Failure; Success]) ss (start []) /\
    ss = pre ++ [Success] /\ zlen ss <= 3 /\ Forall (fun x => x <> Success) pre /\
    (Success <> Success -> zlen ss = 3).
Proof. apply (retry_attempts 0 0 3 (act 1) (start [Failure; Success]) Success (start [])). lia. Defined.

Lemma repeater_limit_witness :
  [Running; Success] = replicate (Z.to_nat (2 - 1)) Running ++ [Success] /\
    Context.get 0 (ctx (start [])) = 0.
Proof.
  apply (repeater_limit 0 0 2 (act 1) (start [Failure; Success])); [lia | | reflexivity |].
  - simpl. by intros ?%list_elem_of_singleton.
  - change (Z.to_nat 2) with 2%nat. econstructor; [reflexivity|]. econstructor; [reflexivity|]. constructor.
Defined.
