(* ===== verification/OpenDoor.v ===== *)
(** * The open-door example

    [Builder] models the builder templates of behavior_tree/brain.h, which make
    a tree by a chain of calls; [CrossDoor] models behavior_tree/CrossDoor.{h,cpp},
    AIContext.{h,cpp} and the leaves and trees of opendoor.cpp. *)

From stdpp Require Import base tactics option list numbers gmap.
From Stdlib Require Import ZArith Lia Bool.
From S2P Require Import Prelude Brain.

#[local] Open Scope Z_scope.

(** ** The builder

    The nodes are objects on a heap, named by their address in order of
    allocation.  A builder object is a cursor: [Top] is [Builder], the others are
    [CompositeBuilder<Parent>] and [DecoratorBuilder<Parent>] with the node they
    fill and the builder their [end] returns.  The blackboard, an empty class,
    is left out. *)

Module Builder.

Section Builder.
Context {L : Type}.

Inductive object :=
| O_leaf (l : option L)
| O_composite (class : composite_class) (m_Child : list N)
| O_decorator (class : decorator_class) (m_Child : option N).

Record store := Store { heap : gmap N object; next : N; root : option N }.

Inductive cursor :=
| Top
| In_composite (parent : cursor) (node : N)
| In_decorator (parent : cursor) (node : N).

Definition initial : store := Store ∅ 0 None.

(** The constructor of RetryUntilSuccessful asserts. *)
Definition construct_decorator (class : decorator_class) : outcome object :=
  match class with
  | RetryUntilSuccessful attemps => cxx_assert (0 <? attemps) ;;* Ok (O_decorator class None)
  | _ => Ok (O_decorator class None)
  end.

Definition new_object (o : object) (b : store) : N * store :=
  (next b, Store (<[next b := o]> (heap b)) (next b + 1)%N (root b)).

(** [Composite::add], [Decorator::set]. *)
Definition add (node child : N) (b : store) : store :=
  match heap b !! node with
  | Some (O_composite class ch) =>
      Store (<[node := O_composite class (ch ++ [child])]> (heap b)) (next b) (root b)
  | _ => b
  end.

Definition set (node child : N) (b : store) : store :=
  match heap b !! node with
  | Some (O_decorator class _) =>
      Store (<[node := O_decorator class (Some child)]> (heap b)) (next b) (root b)
  | _ => b
  end.

(** What a builder does with a new node: Builder makes it the root. *)
Definition attach (c : cursor) (child : N) (b : store) : store :=
  match c with
  | Top => Store (heap b) (next b) (Some child)
  | In_composite _ node => add node child b
  | In_decorator _ node => set node child b
  end.

Definition leaf (l : option L) (c : cursor) (b : store) : cursor * store :=
  let (child, b1) := new_object (O_leaf l) b in (c, attach c child b1).

Definition composite (class : composite_class) (c : cursor) (b : store) : cursor * store :=
  let (child, b1) := new_object (O_composite class []) b in (In_composite c child, attach c child b1).

Definition decorator (class : decorator_class) (c : cursor) (b : store) : outcome (cursor * store) :=
  let* o := construct_decorator class in
  let (child, b1) := new_object o b in Ok (In_decorator c child, attach c child b1).

Definition end_ (c : cursor) : cursor :=
  match c with Top => Top | In_composite parent _ | In_decorator parent _ => parent end.

(** A chain of calls. *)
Inductive call :=
| call_leaf (l : option L)
| call_composite (class : composite_class)
| call_decorator (class : decorator_class)
| call_end.

Definition do_call (k : call) (c : cursor) (b : store) : outcome (cursor * store) :=
  match k with
  | call_leaf l => Ok (leaf l c b)
  | call_composite class => Ok (composite class c b)
  | call_decorator class => decorator class c b
  | call_end => Ok (end_ c, b)
  end.

Fixpoint chain (ks : list call) (c : cursor) (b : store) : outcome (cursor * store) :=
  match ks with
  | [] => Ok (c, b)
  | k :: ks' => let* (c', b') := do_call k c b in chain ks' c' b'
  end.

(** The object graph as a tree. *)
Fixpoint to_node (fuel : nat) (h : gmap N object) (p : N) : option (node L) :=
  match fuel with
  | O => None
  | S fuel' =>
      match h !! p with
      | None => None
      | Some (O_leaf l) => Some (Leaf p l)
      | Some (O_composite class ch) =>
          ch' ← mapM (to_node fuel' h) ch; Some (Composite p class ch')
      | Some (O_decorator class None) => Some (Decorator p class None)
      | Some (O_decorator class (Some c)) =>
          c' ← to_node fuel' h c; Some (Decorator p class (Some c'))
      end
  end.

(** [build]: the new Tree's root. *)
Definition build (b : store) : outcome (node L) :=
  match root b with
  | None => Err AssertionFailure
  | Some p =>
      match to_node (N.to_nat (next b)) (heap b) p with
      | Some n => Ok n
      | None => Err UndefinedBehaviour
      end
  end.

Definition build_chain (ks : list call) : outcome (node L) :=
  let* (_, b) := chain ks Top initial in build b.

(** ** The chain that makes a given tree *)

Fixpoint calls_of (n : node L) : list call :=
  match n with
  | Leaf _ l => [call_leaf l]
  | Composite _ class ch => call_composite class :: concat (map calls_of ch) ++ [call_end]
  | Decorator _ class ch =>
      call_decorator class :: match ch with Some c => calls_of c | None => [] end ++ [call_end]
  end.

Fixpoint size (n : node L) : N :=
  match n with
  | Leaf _ _ => 1
  | Composite _ _ ch => 1 + fold_right (fun c s => size c + s) 0 ch
  | Decorator _ _ ch => 1 + match ch with Some c => size c | None => 0 end
  end%N.

(** Ids in order of allocation. *)
Definition number_list (number : node L -> N -> node L) : list (node L) -> N -> list (node L) :=
  fix go ch m := match ch with [] => [] | c :: ch' => number c m :: go ch' (m + size c)%N end.

Fixpoint number (n : node L) (m : N) : node L :=
  match n with
  | Leaf _ l => Leaf m l
  | Composite _ class ch => Composite m class (number_list number ch (m + 1)%N)
  | Decorator _ class ch =>
      Decorator m class (match ch with Some c => Some (number c (m + 1)%N) | None => None end)
  end.

(** Trees whose nodes can be constructed. *)
Fixpoint constructible (n : node L) : Prop :=
  match n with
  | Leaf _ _ => True
  | Composite _ _ ch => fold_right (fun c P => constructible c /\ P) True ch
  | Decorator _ class ch =>
      match class with RetryUntilSuccessful k => 0 < k | _ => True end /\
      match ch with Some c => constructible c | None => True end
  end.

(** The heap holds the objects of a tree. *)
Fixpoint stored (h : gmap N object) (n : node L) : Prop :=
  match n with
  | Leaf p l => h !! p = Some (O_leaf l)
  | Composite p class ch =>
      h !! p = Some (O_composite class (map node_id ch)) /\
      fold_right (fun c P => stored h c /\ P) True ch
  | Decorator p class ch =>
      h !! p = Some (O_decorator class (option_map node_id ch)) /\
      match ch with Some c => stored h c | None => True end
  end.

(** *** Lemmas *)

Lemma node_id_number n m : node_id (number n m) = m.
Proof. by destruct n. Qed.

Lemma size_pos n : (0 < size n)%N.
Proof. destruct n; simpl; lia. Qed.

Lemma number_ids n m i : i ∈ ids (number n m) -> (m <= i < m + size n)%N.
Proof.
  revert m. induction n as [id l | id class ch IH | id class ch IH] using node_tree_ind; intros m; simpl.
  - intros ->%list_elem_of_singleton. lia.
  - assert (forall k, i ∈ concat (map ids (number_list number ch k)) ->
      (k <= i < k + fold_right (fun c s => size c + s) 0 ch)%N) as Hl.
    { induction IH as [|c ch Hc Hch IHch]; intros k; simpl; [by intros ?%not_elem_of_nil|].
      intros [Hi|Hi]%elem_of_app; [apply Hc in Hi | apply IHch in Hi]; lia. }
    intros [->|Hi]%elem_of_cons; [lia|]. apply Hl in Hi. lia.
  - intros [->|Hi]%elem_of_cons; [lia|].
    destruct ch as [c|]; [apply (IH c eq_refl) in Hi; lia | by apply not_elem_of_nil in Hi].
Qed.

Lemma stored_frame h h' n : (forall i, i ∈ ids n -> h' !! i = h !! i) -> stored h n -> stored h' n.
Proof.
  induction n as [id l | id class ch IH | id class ch IH] using node_tree_ind; intros Hf Hs.
  - simpl in *. by rewrite Hf by set_solver.
  - cbn [stored] in *. destruct Hs as [Hs Hc]. rewrite fold_right_Forall in Hc |- *.
    split; [by rewrite Hf by set_solver|]. rewrite Forall_forall in *. intros c Hin.
    apply IH; [done | | by apply Hc]. intros i Hi. apply Hf. by apply (in_ids_child _ _ _ c).
  - cbn [stored] in *. destruct Hs as [Hs Hc]. split; [by rewrite Hf by set_solver|].
    destruct ch as [c|]; [|done]. apply (IH c eq_refl); [|done]. intros i Hi. apply Hf. by right.
Qed.

Lemma to_node_stored n h fuel :
  stored h n -> (N.to_nat (size n) <= fuel)%nat -> to_node fuel h (node_id n) = Some n.
Proof.
  revert fuel. induction n as [id l | id class ch IH | id class ch IH] using node_tree_ind;
    intros [|fuel] Hs Hf; try (simpl in Hf; lia); cbn [to_node node_id stored] in *.
  - by rewrite Hs.
  - destruct Hs as [-> Hs]. rewrite fold_right_Forall in Hs.
    enough (mapM (to_node fuel h) (map node_id ch) = Some ch) as -> by done.
    cbn [size] in Hf. assert (Forall (fun c => N.to_nat (size c) <= fuel)%nat ch) as Hsz.
    { clear -Hf. induction ch as [|c ch IHch]; constructor; simpl in Hf; [lia|apply IHch; lia]. }
    clear Hf. induction IH as [|c ch Hc Hch IHch]; [done|]. simpl.
    apply Forall_cons_1 in Hs as [Hs1 Hs2]. apply Forall_cons_1 in Hsz as [Hz1 Hz2].
    rewrite Hc by done. simpl. by rewrite IHch.
  - destruct Hs as [-> Hs], ch as [c|]; simpl in *; [|done].
    rewrite (IH c eq_refl) by (done || lia). done.
Qed.

Lemma size_number n m : size (number n m) = size n.
Proof.
  revert m. induction n as [id l | id class ch IH | id class ch IH] using node_tree_ind; intros m; simpl;
    [done | f_equal | f_equal; destruct ch as [c|]; [by apply (IH c)|done]].
  generalize (m + 1)%N as k. induction IH as [|c ch Hc Hch IHch]; intros k; simpl; [done|].
  by rewrite Hc, IHch.
Qed.

(** A builder that can receive a child, and a store where nothing is allocated
    from [next] on. *)
Definition cursor_ok (c : cursor) (b : store) : Prop :=
  match c with
  | Top => True
  | In_composite _ p => (p < next b)%N /\ exists class ch, heap b !! p = Some (O_composite class ch)
  | In_decorator _ p => (p < next b)%N /\ exists class ch, heap b !! p = Some (O_decorator class ch)
  end.

Definition fresh (b : store) : Prop := forall i, (next b <= i)%N -> heap b !! i = None.

(** What a chain of calls that adds one subtree of [k] nodes at [c] does. *)
Definition grows (c : cursor) (b b' : store) (n : node L) : Prop :=
  next b' = (next b + size n)%N /\ fresh b' /\ stored (heap b') (number n (next b)) /\
  root b' = root (attach c (next b) b) /\
  forall i, (i < next b)%N -> heap b' !! i = heap (attach c (next b) b) !! i.

Lemma attach_next c p b : next (attach c p b) = next b.
Proof.
  destruct c as [|? n|? n]; simpl; [done| |]; unfold add, set;
    destruct (heap b !! n) as [[]|]; done.
Qed.

Lemma attach_ge c p b i : cursor_ok c b -> (next b <= i)%N -> heap (attach c p b) !! i = heap b !! i.
Proof.
  intros Hc Hi. destruct c as [|? n|? n]; simpl in *; [done| |]; unfold add, set;
    destruct Hc as (Hn & class & ch & ->); simpl; apply lookup_insert_ne; lia.
Qed.

(** Allocating first and attaching then is the same below [next]. *)
Lemma attach_new o c b i :
  cursor_ok c b -> (i < next b)%N ->
  heap (attach c (next b) (new_object o b).2) !! i = heap (attach c (next b) b) !! i.
Proof.
  intros Hc Hi. destruct c as [|? n|? n]; simpl in *; [by rewrite lookup_insert_ne by lia| |];
    destruct Hc as (Hn & class & ch & Hl); unfold add, set; simpl;
    rewrite lookup_insert_ne, Hl by lia; simpl; destruct (decide (n = i)) as [->|];
    by rewrite ?lookup_insert_eq, ?lookup_insert_ne by lia.
Qed.

Lemma attach_new_root o c b : root (attach c (next b) (new_object o b).2) = root (attach c (next b) b).
Proof.
  destruct c as [|? n|? n]; simpl; [done| |]; unfold add, set; simpl;
    destruct (decide (next b = n)) as [->|]; rewrite ?lookup_insert_eq, ?lookup_insert_ne by done;
    repeat case_match; done.
Qed.

Lemma cursor_ok_new o c b : cursor_ok c b -> cursor_ok c (new_object o b).2.
Proof.
  destruct c as [|? n|? n]; simpl; [done| |]; intros (Hn & class & ch & Hl);
    (split; [lia|]); exists class, ch; by rewrite lookup_insert_ne by lia.
Qed.

Lemma new_lookup o c b : cursor_ok c b -> heap (attach c (next b) (new_object o b).2) !! next b = Some o.
Proof.
  intros Hc. destruct c as [|? n|? n]; simpl in *; [by rewrite lookup_insert_eq| |];
    destruct Hc as (Hn & class & ch & Hl); unfold add, set; simpl;
    rewrite lookup_insert_ne, Hl by lia; simpl; by rewrite lookup_insert_ne, lookup_insert_eq by lia.
Qed.

Lemma new_fresh o c b : cursor_ok c b -> fresh b -> fresh (attach c (next b) (new_object o b).2).
Proof.
  intros Hc Hf i. rewrite attach_next. simpl. intros Hi.
  rewrite attach_ge; [simpl; rewrite lookup_insert_ne by lia; apply Hf; lia | by apply cursor_ok_new | done].
Qed.

Definition builds (n : node L) : Prop :=
  forall c b rest, constructible n -> cursor_ok c b -> fresh b ->
  exists b', chain (calls_of n ++ rest) c b = chain rest c b' /\ grows c b b' n.

(** The children of a composite, one after the other. *)
Lemma builds_children par p class ch :
  Forall builds ch -> Forall constructible ch ->
  forall before b rest,
  heap b !! p = Some (O_composite class before) -> (p < next b)%N -> fresh b ->
  exists b', chain (concat (map calls_of ch) ++ rest) (In_composite par p) b =
               chain rest (In_composite par p) b' /\
    next b' = (next b + fold_right (fun c s => size c + s) 0 ch)%N /\ fresh b' /\
    Forall (stored (heap b')) (number_list number ch (next b)) /\
    heap b' !! p = Some (O_composite class (before ++ map node_id (number_list number ch (next b)))) /\
    root b' = root b /\ forall i, (i < next b)%N -> i <> p -> heap b' !! i = heap b !! i.
Proof.
  intros Hb Hc. induction Hb as [|c ch Hb Hbs IH]; intros before b rest Hp Hlt Hf.
  - exists b. simpl. rewrite N.add_0_r, app_nil_r. by repeat split.
  - apply Forall_cons_1 in Hc as [Hc Hcs]. simpl. rewrite <- app_assoc.
    destruct (Hb (In_composite par p) b (concat (map calls_of ch) ++ rest)) as (b1 & -> & Hn & Hf1 & Hst & Hr & Hh);
      [done | by split; eauto | done |].
    assert (attach (In_composite par p) (next b) b =
      Store (<[p := O_composite class (before ++ [next b])]> (heap b)) (next b) (root b)) as Ea
      by (simpl; unfold add; by rewrite Hp).
    rewrite Ea in Hr, Hh. simpl in Hr, Hh. pose proof (size_pos c).
    destruct (IH Hcs (before ++ [next b]) b1 rest) as (b2 & -> & Hn2 & Hf2 & Hst2 & Hp2 & Hr2 & Hh2);
      [by rewrite Hh, lookup_insert_eq by done | lia | done |].
    exists b2. rewrite <- Hn. split; [done|]. split; [lia|]. split; [done|]. split.
    + constructor; [|done]. eapply stored_frame; [|done]. intros i Hi%number_ids. apply Hh2; lia.
    + split; [by rewrite Hp2, <- app_assoc, node_id_number|]. split; [by rewrite Hr2|].
      intros i Hi Hne. rewrite Hh2, Hh, lookup_insert_ne by (done || lia). done.
Qed.

Lemma construct_decorator_ok class :
  match class with RetryUntilSuccessful k => 0 < k | _ => True end ->
  construct_decorator class = Ok (O_decorator class None).
Proof.
  destruct class as [| | | | |k| | |]; try done. intros Hk. simpl.
  by rewrite (cxx_assert_true (0 <? k)) by lia.
Qed.

Lemma builds_all n : builds n.
Proof.
  induction n as [id l | id class ch IH | id class ch IH] using node_tree_ind;
    intros c b rest Hc Hcur Hf.
  - exists (attach c (next b) (new_object (O_leaf l) b).2). split; [done|].
    split; [by rewrite attach_next|]. split; [by apply new_fresh|]. split; [by apply new_lookup|].
    split; [by apply attach_new_root | by intros; apply attach_new].
  - simpl in Hc. rewrite fold_right_Forall in Hc.
    set (b1 := attach c (next b) (new_object (O_composite class []) b).2).
    assert (next b1 = (next b + 1)%N) as Hn1 by by unfold b1; rewrite attach_next.
    destruct (builds_children c (next b) class ch IH Hc [] b1 (call_end :: rest))
      as (b2 & E & Hn2 & Hf2 & Hst & Hp & Hr & Hh); [by apply new_lookup | lia | by apply new_fresh |].
    exists b2. split.
    { cbn [calls_of chain do_call composite new_object app]. rewrite <- app_assoc. exact E. }
    split; [rewrite Hn2, Hn1; simpl; lia|]. split; [done|]. split.
    { cbn [number stored]. rewrite fold_right_Forall. by rewrite Hn1 in *. }
    split; [rewrite Hr; apply attach_new_root|]. intros i Hi. rewrite Hh by lia. by apply attach_new.
  - destruct Hc as [Hk Hc]. set (b1 := attach c (next b) (new_object (O_decorator class None) b).2).
    assert (next b1 = (next b + 1)%N) as Hn1 by by unfold b1; rewrite attach_next.
    assert (heap b1 !! next b = Some (O_decorator class None)) as Hp1 by by apply new_lookup.
    assert (forall rest', chain (call_decorator class :: rest') c b = chain rest' (In_decorator c (next b)) b1) as Hd.
    { intros rest'. cbn [chain do_call decorator]. unfold decorator. by rewrite construct_decorator_ok. }
    cbn [calls_of app]. rewrite Hd. destruct ch as [n|].
    + destruct (IH n eq_refl (In_decorator c (next b)) b1 (call_end :: rest))
        as (b2 & E & Hn2 & Hf2 & Hst & Hr & Hh);
        [done | split; [lia | by eauto] | by apply new_fresh |].
      assert (attach (In_decorator c (next b)) (next b1) b1 =
        Store (<[next b := O_decorator class (Some (next b1))]> (heap b1)) (next b1) (root b1)) as Ea
        by (simpl; unfold set; by rewrite Hp1).
      rewrite Ea in Hr, Hh. simpl in Hr, Hh.
      exists b2. rewrite <- app_assoc. split; [exact E|].
      split; [rewrite Hn2, Hn1; simpl; lia|]. split; [done|]. split.
      { cbn [number stored option_map]. rewrite node_id_number, <- Hn1. split; [|done].
        rewrite Hh, lookup_insert_eq by lia. done. }
      split; [rewrite Hr; apply attach_new_root|].
      intros i Hi. rewrite Hh, lookup_insert_ne by lia. by apply attach_new.
    + exists b1. split; [done|]. split; [rewrite Hn1; simpl; lia|]. split; [by apply new_fresh|].
      split; [by split|]. split; [apply attach_new_root | by intros; apply attach_new].
Qed.

Lemma build_calls n : constructible n -> build_chain (calls_of n) = Ok (number n 0).
Proof.
  intros Hc. unfold build_chain.
  destruct (builds_all n Top initial [] Hc I) as (b & E & Hn & Hf & Hs & Hr & _); [by intros i _|].
  rewrite app_nil_r in E. rewrite E. cbn [chain mbind outcome_bind]. unfold build. rewrite Hr.
  change (root (attach Top (next initial) initial)) with (Some 0%N). cbv iota beta.
  rewrite <- (node_id_number n 0) at 1.
  rewrite (to_node_stored (number n 0)); [done | done |]. rewrite size_number, Hn. done.
Qed.

(** C39.
    The builder is right: for every tree whose nodes can be constructed, the chain
    of calls that spells it out builds exactly that tree, each node linked where
    the chain put it, the nodes numbered in the order of their construction. *)
Theorem build_chain_calls_of n :
  constructible n -> build_chain (calls_of n) = Ok (number n 0).
Proof. apply build_calls. Qed.
End Builder.
End Builder.
Import Builder.

(** ** The door *)

Module CrossDoor.

Record t := Mk { _door_open : bool; _door_locked : bool; _pick_attemps : Z }.

Definition initial : t := Mk false true 0.

Definition attemp_limit : Z := 10.

Definition isDoorClosed (d : t) : bool * t := (negb (_door_open d), d).

Definition passThroughDoor (d : t) : bool * t := (_door_open d, d).

Definition pickLock (d : t) : bool * t :=
  let attemps := i32 (_pick_attemps d + 1) in
  if attemp_limit <? attemps then (true, Mk true false attemps)
  else (false, Mk (_door_open d) (_door_locked d) attemps).

Definition openDoor (d : t) : bool * t := (negb (_door_locked d), d).

Definition smashDoor (d : t) : bool * t := (true, Mk true false (_pick_attemps d)).

End CrossDoor.

(** The methods of AIContext turn the answers of the door into statuses. *)
Definition status_of (r : bool * CrossDoor.t) : Status * CrossDoor.t :=
  (if r.1 then Success else Failure, r.2).

Definition AI_isDoorClosed (d : CrossDoor.t) := status_of (CrossDoor.isDoorClosed d).
Definition AI_passThroughDoor (d : CrossDoor.t) := status_of (CrossDoor.passThroughDoor d).
Definition AI_pickLock (d : CrossDoor.t) := status_of (CrossDoor.pickLock d).
Definition AI_openDoor (d : CrossDoor.t) := status_of (CrossDoor.openDoor d).
Definition AI_smashDoor (d : CrossDoor.t) := status_of (CrossDoor.smashDoor d).

(** The leaves of opendoor.cpp. *)
Inductive door_leaf := IsDoorClosed | PassThroughDoor | OpenDoor | PickLock | SmashDoor.

Definition door_execute (l : door_leaf) : CrossDoor.t -> Status * CrossDoor.t :=
  match l with
  | IsDoorClosed => AI_isDoorClosed
  | PassThroughDoor => AI_passThroughDoor
  | OpenDoor => AI_openDoor
  | PickLock => AI_pickLock
  | SmashDoor => AI_smashDoor
  end.

(** The trees of the example have no Duration: the clock is not read. *)
#[export] Instance door_leaves : Leaves door_leaf CrossDoor.t := {
  leaf_execute := door_execute;
  utils_now w := (0, w)
}.

Definition make_brain (num_attemps : Z) : outcome (node door_leaf) :=
  build_chain [
    call_composite (Sequence false);
      call_composite (Selector false);
        call_decorator Inverter;
          call_leaf (Some IsDoorClosed);
        call_end;
        call_composite (Selector false);
          call_leaf (Some OpenDoor);
          call_decorator (RetryUntilSuccessful num_attemps);
            call_leaf (Some PickLock);
          call_end;
          call_leaf (Some SmashDoor);
        call_end;
      call_end;
      call_leaf (Some PassThroughDoor);
    call_end ].

Definition make_brain2 (num : Z) : outcome (node door_leaf) :=
  build_chain [
    call_composite (Selector false);
      call_leaf (Some OpenDoor);
      call_decorator (RetryUntilSuccessful num);
        call_leaf (Some PickLock);
      call_end;
      call_leaf (Some SmashDoor);
    call_end ].

(** [test_bt1] and [test_bt2]: one update on a new door. *)
Definition run_once (bt : outcome (node door_leaf)) (d : CrossDoor.t) : outcome (Status * state CrossDoor.t) :=
  let* n := bt in update 0 n (St ∅ d).

Definition test_bt1 : outcome (Status * state CrossDoor.t) := run_once (make_brain 7) CrossDoor.initial.
Definition test_bt2 : outcome (Status * state CrossDoor.t) := run_once (make_brain2 5) CrossDoor.initial.

(** ** The trees at work *)

(** Every method keeps the door locked exactly when it is closed. *)
Definition door_ok (d : CrossDoor.t) : Prop :=
  CrossDoor._door_locked d = negb (CrossDoor._door_open d).

Lemma door_execute_ok l d : door_ok d -> door_ok (door_execute l d).2.
Proof.
  intros Hd. destruct l; try done.
  simpl. unfold AI_pickLock, CrossDoor.pickLock. destruct (_ <? _); done.
Qed.

(** The trees the two chains build. *)
Definition picker (p q : N) (num : Z) : node door_leaf :=
  Decorator p (RetryUntilSuccessful num) (Some (Leaf q (Some PickLock))).

Definition opener (p : N) (num : Z) : node door_leaf :=
  Composite p (Selector false)
    [Leaf (p + 1) (Some OpenDoor); picker (p + 2) (p + 3) num; Leaf (p + 4) (Some SmashDoor)].

Definition brain_tree (num : Z) : node door_leaf :=
  Composite 0 (Sequence false)
    [Composite 1 (Selector false) [Decorator 2 Inverter (Some (Leaf 3 (Some IsDoorClosed))); opener 4 num];
     Leaf 9 (Some PassThroughDoor)].

Lemma make_brain_eq num : 0 < num -> make_brain num = Ok (brain_tree num).
Proof.
  intros Hn. change (make_brain num) with (build_chain (calls_of (brain_tree num))).
  rewrite build_calls; [done|]. simpl. tauto.
Qed.

Lemma make_brain2_eq num : 0 < num -> make_brain2 num = Ok (number (opener 0 num) 0).
Proof.
  intros Hn. change (make_brain2 num) with (build_chain (calls_of (opener 0 num))).
  rewrite build_calls; [done|]. simpl. tauto.
Qed.

(** Picking at most [k] times: the lock opens with the attempt after the tenth. *)
Definition picks (k a : Z) : Z := Z.min k (Z.max 1 (11 - a)).

Definition picked (k : Z) (d : CrossDoor.t) : CrossDoor.t :=
  let a := CrossDoor._pick_attemps d in
  if 10 <? a + k then CrossDoor.Mk true false (a + picks k a)
  else CrossDoor.Mk (CrossDoor._door_open d) (CrossDoor._door_locked d) (a + picks k a).

Lemma update_pick fuel q o l a :
  0 <= a -> a + 1 < 2 ^ 31 ->
  update fuel (Leaf q (Some PickLock)) (St ∅ (CrossDoor.Mk o l a)) =
    if 10 <? a + 1 then Ok (Success, St ∅ (CrossDoor.Mk true false (a + 1)))
    else Ok (Failure, St ∅ (CrossDoor.Mk o l (a + 1))).
Proof.
  intros Ha Hl. rewrite update_unfold. cbn [execute leaf_execute door_leaves door_execute world ctx].
  unfold AI_pickLock, status_of, CrossDoor.pickLock, CrossDoor.attemp_limit.
  cbn [CrossDoor._pick_attemps CrossDoor._door_open CrossDoor._door_locked].
  rewrite (swrap_small 32 (a + 1)) by (simpl; lia). by destruct (10 <? a + 1).
Qed.

Lemma retry_loop_S k (tick : state CrossDoor.t -> outcome (Status * state CrossDoor.t)) st :
  retry_loop (S (S k)) tick st =
    let* (ret, st1) := tick st in
    if bool_decide (ret = Success) then Ok (ret, st1) else retry_loop (S k) tick st1.
Proof. reflexivity. Qed.

Lemma retry_loop_1 (tick : state CrossDoor.t -> outcome (Status * state CrossDoor.t)) st :
  retry_loop 1 tick st =
    let* (ret, st1) := tick st in if bool_decide (ret = Success) then Ok (ret, st1) else Ok (ret, st1).
Proof. reflexivity. Qed.

Lemma pick_loop fuel q k d :
  0 <= CrossDoor._pick_attemps d -> CrossDoor._pick_attemps d + Z.of_nat (S k) < 2 ^ 31 ->
  retry_loop (S k) (update fuel (Leaf q (Some PickLock))) (St ∅ d) =
    Ok (if 10 <? CrossDoor._pick_attemps d + Z.of_nat (S k) then Success else Failure,
        St ∅ (picked (Z.of_nat (S k)) d)).
Proof.
  revert d. induction k as [|k IH]; intros [o l a] Ha Hk; simpl CrossDoor._pick_attemps in *;
    rewrite ?retry_loop_1, ?retry_loop_S, update_pick by lia;
    unfold picked, picks; simpl CrossDoor._pick_attemps; destruct (10 <? a + 1) eqn:E; to_prop;
    cbn [mbind outcome_bind]; rewrite ?bool_decide_true, ?bool_decide_false by done.
  - change (Z.of_nat 1) with 1. replace (10 <? a + 1) with true by lia. do 4 f_equal. lia.
  - change (Z.of_nat 1) with 1. replace (10 <? a + 1) with false by lia. do 4 f_equal. lia.
  - replace (10 <? a + Z.of_nat (S (S k))) with true by (symmetry; apply Z.ltb_lt; lia). do 4 f_equal. lia.
  - rewrite IH by (simpl; lia). simpl CrossDoor._pick_attemps.
    unfold picked, picks. simpl CrossDoor._pick_attemps.
    replace (a + 1 + Z.of_nat (S k)) with (a + Z.of_nat (S (S k))) by lia.
    destruct (10 <? a + _) eqn:E2; to_prop; do 4 f_equal; lia.
Qed.

Lemma picker_tick fuel p q num d :
  0 < num -> 0 <= CrossDoor._pick_attemps d -> CrossDoor._pick_attemps d + num < 2 ^ 31 ->
  update fuel (picker p q num) (St ∅ d) =
    Ok (if 10 <? CrossDoor._pick_attemps d + num then Success else Failure, St ∅ (picked num d)).
Proof.
  intros Hn Ha Hl. unfold picker. rewrite update_unfold. unfold execute, decorator_execute.
  replace (Z.to_nat num) with (S (Z.to_nat (num - 1))) by lia.
  rewrite pick_loop by lia. replace (Z.of_nat (S (Z.to_nat (num - 1)))) with num by lia.
  by destruct (10 <? _).
Qed.

(** What the opener leaves behind: an open door, and the attempts made at it. *)
Definition opened (num : Z) (d : CrossDoor.t) : CrossDoor.t :=
  if CrossDoor._door_locked d then
    CrossDoor.Mk true false (CrossDoor._pick_attemps d + picks num (CrossDoor._pick_attemps d))
  else d.

Lemma leaf_tick fuel q l d :
  update fuel (Leaf q (Some l)) (St ∅ d) = Ok ((door_execute l d).1, St ∅ (door_execute l d).2).
Proof.
  rewrite update_unfold. cbn [execute leaf_execute door_leaves world ctx].
  destruct (door_execute l d) as [s w]. cbn [mbind outcome_bind fst snd]. by destruct s.
Qed.

(** One child of a Selector or Sequence that starts at its first. *)
Lemma resume_step upd go_on this i (child : node door_leaf) rest st s (st1 : state CrossDoor.t) :
  upd child st = Ok (s, st1) ->
  resume_loop upd go_on this 0 i (child :: rest) st =
    if bool_decide (s = go_on) then resume_loop upd go_on this 0 (S i) rest st1
    else Ok (s, with_ctx (Context.set this (i64 (Z.of_nat i))) st1).
Proof.
  intros E. cbn [resume_loop]. rewrite (proj2 (Z.ltb_ge _ _)) by lia. by rewrite E.
Qed.

Lemma opener_tick fuel p num d :
  p = 0%N \/ p = 4%N -> 0 < num -> 0 <= CrossDoor._pick_attemps d ->
  CrossDoor._pick_attemps d + num < 2 ^ 31 ->
  update fuel (opener p num) (St ∅ d) = Ok (Success, St ∅ (opened num d)).
Proof.
  intros Hp Hn Ha Hl. rewrite update_unfold. unfold opener, execute, composite_execute.
  cbn [has cxx_assert mbind outcome_bind ctx].
  change (Context.get p ∅) with 0. erewrite resume_step by apply leaf_tick.
  unfold opened. cbn [door_execute AI_openDoor status_of CrossDoor.openDoor fst snd].
  destruct (CrossDoor._door_locked d) eqn:El; cbn [negb]; [|by destruct Hp as [->| ->]].
  rewrite bool_decide_true by done. erewrite resume_step by by apply picker_tick.
  unfold picked. destruct (10 <? _); [by destruct Hp as [->| ->]|].
  rewrite bool_decide_true by done. erewrite resume_step by apply leaf_tick.
  by destruct Hp as [->| ->].
Qed.

(** The inner Selector of make_brain: an open door is passed by, a closed one opened. *)
Lemma selector_tick fuel num d :
  door_ok d -> 0 < num -> 0 <= CrossDoor._pick_attemps d -> CrossDoor._pick_attemps d + num < 2 ^ 31 ->
  update fuel (Composite 1 (Selector false)
      [Decorator 2 Inverter (Some (Leaf 3 (Some IsDoorClosed))); opener 4 num]) (St ∅ d) =
    Ok (Success, St ∅ (opened num d)).
Proof.
  intros Hd Hn Ha Hl. rewrite update_unfold. unfold execute, composite_execute.
  cbn [has cxx_assert mbind outcome_bind ctx]. change (Context.get 1 ∅) with 0.
  assert (update fuel (Decorator 2 Inverter (Some (Leaf 3 (Some IsDoorClosed)))) (St ∅ d) =
    Ok (if CrossDoor._door_open d then Success else Failure, St ∅ d)) as Hi.
  { rewrite update_unfold. unfold execute, decorator_execute. rewrite leaf_tick.
    cbn. by destruct (CrossDoor._door_open d). }
  erewrite resume_step by exact Hi.
  unfold door_ok in Hd. destruct (CrossDoor._door_open d); cbn [negb] in Hd.
  - unfold opened. by rewrite Hd.
  - rewrite bool_decide_true by done. by erewrite resume_step by by apply opener_tick; auto.
Qed.

Lemma opened_ok num d : door_ok d -> door_ok (opened num d) /\ CrossDoor._door_open (opened num d) = true.
Proof.
  unfold door_ok, opened. destruct d as [[|] [|] a]; by split || done.
Qed.

Lemma make_brain_run num d :
  door_ok d -> 0 < num -> 0 <= CrossDoor._pick_attemps d -> CrossDoor._pick_attemps d + num < 2 ^ 31 ->
  run_once (make_brain num) d = Ok (Success, St ∅ (opened num d)).
Proof.
  intros Hd Hn Ha Hl. unfold run_once. rewrite make_brain_eq by done. cbn [mbind outcome_bind].
  unfold brain_tree. rewrite update_unfold. unfold execute, composite_execute.
  cbn [has cxx_assert mbind outcome_bind ctx]. change (Context.get 0 ∅) with 0.
  erewrite resume_step by by apply selector_tick. rewrite bool_decide_true by done.
  erewrite resume_step by apply leaf_tick.
  cbn [door_execute AI_passThroughDoor status_of CrossDoor.passThroughDoor fst snd].
  by rewrite (proj2 (opened_ok num d Hd)).
Qed.

(** One update of the tree of make_brain, on any door that is locked exactly when
    it is closed (every reachable one), succeeds: the door is open and unlocked
    afterwards, no node of the tree is left in the context, and a door that was
    locked has been picked until the lock gave way on an attempt after the tenth,
    at most [num_attemps] times. *)
Theorem make_brain_opens num d :
  door_ok d -> 0 < num -> 0 <= CrossDoor._pick_attemps d -> CrossDoor._pick_attemps d + num < 2 ^ 31 ->
  exists d', run_once (make_brain num) d = Ok (Success, St ∅ d') /\
    CrossDoor._door_open d' = true /\ CrossDoor._door_locked d' = false /\
    CrossDoor._pick_attemps d' =
      if CrossDoor._door_locked d
      then CrossDoor._pick_attemps d + Z.min num (Z.max 1 (11 - CrossDoor._pick_attemps d))
      else CrossDoor._pick_attemps d.
Proof.
  intros Hd Hn Ha Hl. exists (opened num d). split; [by apply make_brain_run|].
  unfold opened, door_ok in *. destruct (CrossDoor._door_locked d) eqn:El; simpl; [done|].
  rewrite El. destruct (CrossDoor._door_open d); done.
Qed.

(** The lock opens with the eleventh attempt and no sooner: of [n + 1] calls of
    pickLock on a new door the last succeeds exactly when [n] is at least 10. *)
Theorem pickLock_eleventh (n : nat) :
  Z.of_nat n < 2 ^ 31 - 1 ->
  (CrossDoor.pickLock (Nat.iter n (fun d => (CrossDoor.pickLock d).2) CrossDoor.initial)).1 = (10 <=? Z.of_nat n).
Proof.
  intros Hn.
  assert (CrossDoor._pick_attemps (Nat.iter n (fun d => (CrossDoor.pickLock d).2) CrossDoor.initial) = Z.of_nat n)
    as Ha.
  { induction n as [|n IH]; [done|]. rewrite Nat2Z.inj_succ in *. simpl.
    unfold CrossDoor.pickLock at 1. rewrite IH, swrap_small by (simpl; lia).
    destruct (_ <? _); simpl; lia. }
  unfold CrossDoor.pickLock at 1. rewrite Ha, swrap_small by (simpl; lia).
  unfold CrossDoor.attemp_limit. destruct (10 <? _) eqn:E; to_prop; cbn [fst]; lia.
Qed.

(** ** The properties at concrete inputs *)

Lemma build_chain_calls_of_witness :
  build_chain (calls_of (brain_tree 7)) = Ok (number (brain_tree 7) 0).
Proof. apply (build_chain_calls_of (brain_tree 7)). simpl. repeat split; lia || done. Defined.

Lemma make_brain_opens_witness :
  exists d', run_once (make_brain 7) (CrossDoor.Mk false true 6) = Ok (Success, St ∅ d') /\
    CrossDoor._door_open d' = true /\ CrossDoor._door_locked d' = false /\
    CrossDoor._pick_attemps d' = 6 + Z.min 7 (Z.max 1 (11 - 6)).
Proof. apply (make_brain_opens 7 (CrossDoor.Mk false true 6)); simpl; done || lia. Defined.

Lemma pickLock_eleventh_witness :
  (CrossDoor.pickLock (Nat.iter 3 (fun d => (CrossDoor.pickLock d).2) CrossDoor.initial)).1 = false.
Proof. apply (pickLock_eleventh 3). lia. Defined.
