(* ===== verification/Messaging.v ===== *)
(** * Message queues and dispatchers

    Models conc-in-action/atm_example/queue.h, sender.h, receiver.h, dispatcher.h
    and templateDispatcher.h.

    A message has a dynamic type, its [kind].  [queue::push] wraps the message:
    the constructor of wrapped_message initialises [contents] from [contents]
    itself instead of from its argument, so what a receiver finds in a message
    with members is whatever was in that memory.  The model takes this as a
    function [contents], which keeps the type (the type is the template's), and
    an empty message is unaffected by it.  [fun m => m] is what was meant. *)

From stdpp Require Import base tactics option list numbers.
From Stdlib Require Import ZArith Lia Bool.
From S2P Require Import Prelude.

Class Typed (M K : Type) := {
  kind : M -> K;
  kind_eq_dec :: EqDecision K;
  close_kind : K
}.

(** ** The queue *)

Section Queue.
Context {M : Type} (contents : M -> M).

Definition push (msg : M) (q : list M) : list M := q ++ [contents msg].

(** [None]: the caller blocks. *)
Definition wait_and_pop (q : list M) : option (M * list M) :=
  match q with [] => None | msg :: q' => Some (msg, q') end.
End Queue.

(** A sender is the queue it points to, or nullptr; sending to nullptr does
    nothing. *)
Definition sender (D : Type) : Type := option D.

Definition send {D M} (deliver : D -> M -> list (D * M)) (s : sender D) (msg : M) : list (D * M) :=
  match s with Some d => deliver d msg | None => [] end.

(** ** The dispatcher chain *)

Section Dispatch.
Context {M K R : Type} `{Typed M K}.

(** [wait()] and then a chain of [handle<Msg>( f )]. *)
Inductive chain :=
| wait
| handle (prev : chain) (Msg : K) (f : M -> R).

Inductive dispatched :=
| Handled (r : R)
| Unhandled
| Closed.

(** [dispatch]: the handler added last is asked first; [dispatcher::dispatch] at
    the end of the chain throws on close_queue. *)
Fixpoint dispatch (c : chain) (msg : M) : dispatched :=
  match c with
  | wait => if decide (kind msg = close_kind) then Closed else Unhandled
  | handle prev Msg f => if decide (kind msg = Msg) then Handled (f msg) else dispatch prev msg
  end.

(** [wait_and_dispatch], on what is in the queue: pops until a message is
    handled.  [None]: the queue ran empty and the thread blocks. *)
Fixpoint wait_and_dispatch (c : chain) (q : list M) : option (dispatched * list M) :=
  match q with
  | [] => None
  | msg :: q' =>
      match dispatch c msg with
      | Handled r => Some (Handled r, q')
      | Closed => Some (Closed, q')
      | Unhandled => wait_and_dispatch c q'
      end
  end.

(** The types a chain handles, in the order of the calls. *)
Fixpoint handled_kinds (c : chain) : list K :=
  match c with wait => [] | handle prev Msg _ => handled_kinds prev ++ [Msg] end.

Lemma dispatch_unhandled c msg :
  kind msg ∉ handled_kinds c -> dispatch c msg = if decide (kind msg = close_kind) then Closed else Unhandled.
Proof.
  induction c as [|prev IH Msg f]; simpl; intros Hn; [done|].
  apply not_elem_of_app in Hn as [H1 H2].
  destruct (decide (kind msg = Msg)) as [E|_]; [|by apply IH].
  destruct H2. rewrite E. by left.
Qed.

Lemma dispatch_handled c msg : kind msg ∈ handled_kinds c -> exists r, dispatch c msg = Handled r.
Proof.
  induction c as [|prev IH Msg f]; simpl; intros Hn; [by apply not_elem_of_nil in Hn|].
  destruct (decide (kind msg = Msg)); [by eexists|]. apply IH.
  apply elem_of_app in Hn as [Hn|Hn]; [done|]. by apply list_elem_of_singleton in Hn.
Qed.

(** A chain of handlers takes the first message of the queue that one of them is
    for, or the first close_queue, whichever comes first; the messages before it
    are dropped for good, those after it stay; and it blocks exactly when there is
    no such message. *)
Theorem wait_and_dispatch_spec c (q : list M) :
  close_kind ∉ handled_kinds c ->
  match wait_and_dispatch c q with
  | None => Forall (fun m => (kind m ∉ handled_kinds c) /\ kind m <> close_kind) q
  | Some (r, rest) =>
      exists dropped m, q = dropped ++ m :: rest /\
        Forall (fun m => (kind m ∉ handled_kinds c) /\ kind m <> close_kind) dropped /\
        r = dispatch c m /\ (kind m ∈ handled_kinds c \/ kind m = close_kind)
  end.
Proof.
  intros Hc. induction q as [|m q IH]; simpl; [constructor|].
  destruct (dispatch c m) as [r| |] eqn:E.
  - exists [], m. split; [done|]. split; [constructor|]. split; [done|].
    destruct (decide (kind m ∈ handled_kinds c)); [by left|].
    rewrite dispatch_unhandled in E by done. destruct (decide _); [by right | done].
  - assert ((kind m ∉ handled_kinds c) /\ kind m <> close_kind) as Hm.
    { split.
      - intros Hin. apply dispatch_handled in Hin as [r Hr]. congruence.
      - intros Hk. rewrite dispatch_unhandled, decide_True in E by (done || by rewrite Hk). done. }
    destruct (wait_and_dispatch c q) as [[r rest]|].
    + destruct IH as (dropped & m' & -> & Hd & Hr). exists (m :: dropped), m'.
      split; [done|]. split; [by constructor | done].
    + by constructor.
  - exists [], m. split; [done|]. split; [constructor|]. split; [done|].
    destruct (decide (kind m ∈ handled_kinds c)); [by left|].
    rewrite dispatch_unhandled in E by done. destruct (decide _); [by right | done].
Qed.
End Dispatch.
Arguments chain M K R : clear implicits.
Arguments dispatched R : clear implicits.

(** Small messages: numbers, with their parity as type and 0 to close. *)
Module Sample.
#[export] Instance parity : Typed nat (option bool) := {
  kind n := match n with O => None | _ => Some (Nat.even n) end;
  kind_eq_dec := option_eq_dec;
  close_kind := None
}.
End Sample.
Import Sample.

Lemma wait_and_dispatch_spec_witness :
  let c := handle wait (Some true) (fun n => n) in
  exists dropped m, [3; 5; 4; 7; 0] = dropped ++ m :: [7; 0] /\
    Forall (fun m => (kind m ∉ handled_kinds c) /\ kind m <> close_kind) dropped /\
    Handled 4 = dispatch c m /\ (kind m ∈ handled_kinds c \/ kind m = close_kind).
Proof.
  pose proof (wait_and_dispatch_spec (handle wait (Some true) (fun n : nat => n)) [3; 5; 4; 7; 0]) as H.
  change (wait_and_dispatch _ _) with (Some (Handled 4, [7; 0])) in H. apply H.
  intros Hc%list_elem_of_singleton. discriminate Hc.
Defined.
