(* ===== verification/Atm.v ===== *)
(** * The automatic teller

    Models conc-in-action/atm_example: message.h, bank_machine.h, atm_machine.h,
    interface_machine.h and main in atm_example.cpp.

    Four threads (ATM, bank, interface, and main, which turns key presses into
    messages) run in any interleaving.  A step of the system is a step of one
    thread: one [send], one message popped and dispatched, or one entry into a
    state function.  Between its blocking waits a thread has a list of sends left
    to do. *)

From stdpp Require Import base tactics option list numbers strings relations.
From Stdlib Require Import ZArith Lia Bool Ascii.
From S2P Require Import Prelude Messaging.

#[local] Open Scope Z_scope.

(** ** message.h *)

Abbreviation cxx_string := (list ascii).

(** The queues a sender can point to. *)
Inductive dest := ToBank | ToAtm | ToInterface.

#[export] Instance dest_eq_dec : EqDecision dest.
Proof. solve_decision. Defined.

Inductive message :=
| withdraw (account : cxx_string) (amount : Z) (atm_queue : sender dest)
| withdraw_ok
| withdraw_denied
| cancel_withdrawal (account : cxx_string) (amount : Z)
| withdrawal_processed (account : cxx_string) (amount : Z)
| card_inserted (account : cxx_string)
| digit_pressed (digit : ascii)
| clear_last_pressed
| eject_card
| withdraw_pressed (amount : Z)
| cancel_pressed
| issue_money (amount : Z)
| verify_pin (account pin : cxx_string) (atm_queue : sender dest)
| pin_verified
| pin_incorrect
| display_enter_pin
| display_enter_card
| display_insufficient_funds
| display_withdrawal_cancelled
| display_pin_incorrect_message
| display_withdrawal_options
| get_balance (account : cxx_string) (atm_queue : sender dest)
| balance (amount : Z)
| display_balance (amount : Z)
| balance_pressed
| close_queue.

(** The message types. *)
Inductive message_type :=
| T_withdraw | T_withdraw_ok | T_withdraw_denied | T_cancel_withdrawal | T_withdrawal_processed
| T_card_inserted | T_digit_pressed | T_clear_last_pressed | T_eject_card | T_withdraw_pressed
| T_cancel_pressed | T_issue_money | T_verify_pin | T_pin_verified | T_pin_incorrect
| T_display_enter_pin | T_display_enter_card | T_display_insufficient_funds
| T_display_withdrawal_cancelled | T_display_pin_incorrect_message | T_display_withdrawal_options
| T_get_balance | T_balance | T_display_balance | T_balance_pressed | T_close_queue.

#[export] Instance message_type_eq_dec : EqDecision message_type.
Proof. solve_decision. Defined.

#[export] Instance message_typed : Typed message message_type := {
  kind m :=
    match m with
    | withdraw _ _ _ => T_withdraw
    | withdraw_ok => T_withdraw_ok
    | withdraw_denied => T_withdraw_denied
    | cancel_withdrawal _ _ => T_cancel_withdrawal
    | withdrawal_processed _ _ => T_withdrawal_processed
    | card_inserted _ => T_card_inserted
    | digit_pressed _ => T_digit_pressed
    | clear_last_pressed => T_clear_last_pressed
    | eject_card => T_eject_card
    | withdraw_pressed _ => T_withdraw_pressed
    | cancel_pressed => T_cancel_pressed
    | issue_money _ => T_issue_money
    | verify_pin _ _ _ => T_verify_pin
    | pin_verified => T_pin_verified
    | pin_incorrect => T_pin_incorrect
    | display_enter_pin => T_display_enter_pin
    | display_enter_card => T_display_enter_card
    | display_insufficient_funds => T_display_insufficient_funds
    | display_withdrawal_cancelled => T_display_withdrawal_cancelled
    | display_pin_incorrect_message => T_display_pin_incorrect_message
    | display_withdrawal_options => T_display_withdrawal_options
    | get_balance _ _ => T_get_balance
    | balance _ => T_balance
    | display_balance _ => T_display_balance
    | balance_pressed => T_balance_pressed
    | close_queue => T_close_queue
    end;
  kind_eq_dec := message_type_eq_dec;
  close_kind := T_close_queue
}.

(** Sends a thread has still to do. *)
Abbreviation sends := (list (dest * message)).

Definition to (s : sender dest) (m : message) : sends := send (fun d m => [(d, m)]) s m.

Definition outs (s : sends) : list message := map snd s.

(** ** bank_machine.h *)

Module bank_machine.

Record t := Mk { balance_ : Z; running : bool; out : sends; approved : list Z }.

(** [approved], the amounts the bank agreed to, is kept for the theorems only. *)
Definition initial : t := Mk 199 true [] [].

(** What a handler does: the next balance, the sends, the amount approved. *)
Abbreviation effect := (Z * sends * list Z)%type.

Definition correct_pin : cxx_string := ["1"; "9"; "3"; "7"]%char.

Definition on_verify_pin (b : Z) (m : message) : effect :=
  match m with
  | verify_pin _ pin atm_queue =>
      (b, to atm_queue (if bool_decide (pin = correct_pin) then pin_verified else pin_incorrect), [])
  | _ => (b, [], [])
  end.

Definition on_withdraw (b : Z) (m : message) : effect :=
  match m with
  | withdraw _ amount atm_queue =>
      if amount <=? b then (u32 (b - amount), to atm_queue withdraw_ok, [amount])
      else (b, to atm_queue withdraw_denied, [])
  | _ => (b, [], [])
  end.

Definition on_get_balance (b : Z) (m : message) : effect :=
  match m with
  | get_balance _ atm_queue => (b, to atm_queue (balance b), [])
  | _ => (b, [], [])
  end.

Definition run_chain (b : Z) : chain message message_type effect :=
  handle (handle (handle (handle (handle wait
    T_verify_pin (on_verify_pin b))
    T_withdraw (on_withdraw b))
    T_get_balance (on_get_balance b))
    T_withdrawal_processed (fun _ => (b, [], [])))
    T_cancel_withdrawal (fun _ => (b, [], [])).

(** One message popped by the bank. *)
Definition receive (m : message) (k : t) : t :=
  match dispatch (run_chain (balance_ k)) m with
  | Handled (b, s, ok) => Mk b true s (approved k ++ ok)
  | Unhandled => k
  | Closed => Mk (balance_ k) false [] (approved k)
  end.

End bank_machine.

(** ** interface_machine.h *)

Module interface_machine.

Record t := Mk { running : bool; printed : list message }.

Definition initial : t := Mk true [].

(** What is printed is the message. *)
Definition run_chain : chain message message_type message :=
  handle (handle (handle (handle (handle (handle (handle (handle (handle wait
    T_issue_money (fun m => m))
    T_display_insufficient_funds (fun m => m))
    T_display_enter_pin (fun m => m))
    T_display_enter_card (fun m => m))
    T_display_balance (fun m => m))
    T_display_withdrawal_options (fun m => m))
    T_display_withdrawal_cancelled (fun m => m))
    T_display_pin_incorrect_message (fun m => m))
    T_eject_card (fun m => m).

Definition receive (m : message) (k : t) : t :=
  match dispatch run_chain m with
  | Handled p => Mk true (printed k ++ [p])
  | Unhandled => k
  | Closed => Mk false (printed k)
  end.

End interface_machine.

(** ** atm_machine.h *)

Module atm.

(** The state functions. *)
Inductive fn :=
| waiting_for_card | getting_pin | verifing_pin | wait_for_action
| process_withdrawal | process_balance | done_processing.

#[export] Instance fn_eq_dec : EqDecision fn.
Proof. solve_decision. Defined.

(** Where the thread is: about to call [( this->*state )()], blocked in the
    function's wait, or out of [run]. *)
Inductive mode := Enter (state : fn) | Waiting (state : fn) | Stopped.

Record t := Mk {
  at_ : mode;
  account : cxx_string;
  withdrawal_amount : Z;
  pin : cxx_string;
  out : sends
}.

Definition initial : t := Mk (Enter waiting_for_card) [] 0 [] [].

(** The sends of a state function before it waits. *)
Definition entry_sends (state : fn) : sends :=
  match state with
  | waiting_for_card => [(ToInterface, display_enter_card)]
  | wait_for_action => [(ToInterface, display_withdrawal_options)]
  | done_processing => [(ToInterface, eject_card)]
  | _ => []
  end.

(** done_processing does not wait: it goes on to waiting_for_card. *)
Definition enter (state : fn) (a : t) : t :=
  Mk (match state with done_processing => Enter waiting_for_card | _ => Waiting state end)
    (account a) (withdrawal_amount a) (pin a) (entry_sends state).

Definition goto (state : fn) (s : sends) (a : t) : t :=
  Mk (Enter state) (account a) (withdrawal_amount a) (pin a) s.

(** The sender the ATM puts into its requests is its own queue. *)
Definition incoming : sender dest := Some ToAtm.

Definition process_withdrawal_chain (a : t) : chain message message_type t :=
  handle (handle (handle wait
    T_withdraw_ok (fun _ =>
      goto done_processing
        [(ToInterface, issue_money (withdrawal_amount a));
         (ToBank, withdrawal_processed (account a) (withdrawal_amount a))] a))
    T_withdraw_denied (fun _ =>
      goto done_processing [(ToInterface, display_insufficient_funds)] a))
    T_cancel_pressed (fun _ =>
      goto done_processing
        [(ToBank, cancel_withdrawal (account a) (withdrawal_amount a));
         (ToInterface, display_withdrawal_cancelled)] a).

Definition process_balance_chain (a : t) : chain message message_type t :=
  handle (handle wait
    T_balance (fun m =>
      match m with
      | balance amount => goto wait_for_action [(ToInterface, display_balance amount)] a
      | _ => a
      end))
    T_cancel_pressed (fun _ => goto done_processing [] a).

Definition wait_for_action_chain (a : t) : chain message message_type t :=
  handle (handle (handle wait
    T_withdraw_pressed (fun m =>
      match m with
      | withdraw_pressed amount =>
          Mk (Enter process_withdrawal) (account a) amount (pin a)
            [(ToBank, withdraw (account a) amount incoming)]
      | _ => a
      end))
    T_balance_pressed (fun _ =>
      goto process_balance [(ToBank, get_balance (account a) incoming)] a))
    T_cancel_pressed (fun _ => goto done_processing [] a).

Definition verifing_pin_chain (a : t) : chain message message_type t :=
  handle (handle (handle wait
    T_pin_verified (fun _ => goto wait_for_action [] a))
    T_pin_incorrect (fun _ =>
      goto done_processing [(ToInterface, display_pin_incorrect_message)] a))
    T_cancel_pressed (fun _ => goto done_processing [] a).

Definition pin_len : nat := 4.

Definition getting_pin_chain (a : t) : chain message message_type t :=
  handle (handle (handle wait
    T_digit_pressed (fun m =>
      match m with
      | digit_pressed digit =>
          let pin' := pin a ++ [digit] in
          if decide (length pin' = pin_len) then
            Mk (Enter verifing_pin) (account a) (withdrawal_amount a) pin'
              [(ToBank, verify_pin (account a) pin' incoming)]
          else Mk (Enter getting_pin) (account a) (withdrawal_amount a) pin' []
      | _ => a
      end))
    T_clear_last_pressed (fun _ =>
      Mk (Enter getting_pin) (account a) (withdrawal_amount a)
        (match pin a with [] => [] | _ => removelast (pin a) end) []))
    T_cancel_pressed (fun _ => goto done_processing [] a).

Definition waiting_for_card_chain (a : t) : chain message message_type t :=
  handle wait
    T_card_inserted (fun m =>
      match m with
      | card_inserted acc =>
          Mk (Enter getting_pin) acc (withdrawal_amount a) [] [(ToInterface, display_enter_pin)]
      | _ => a
      end).

Definition chain_of (state : fn) (a : t) : chain message message_type t :=
  match state with
  | waiting_for_card => waiting_for_card_chain a
  | getting_pin => getting_pin_chain a
  | verifing_pin => verifing_pin_chain a
  | wait_for_action => wait_for_action_chain a
  | process_withdrawal => process_withdrawal_chain a
  | process_balance => process_balance_chain a
  | done_processing => wait
  end.

(** One message popped by the ATM while it waits in [state]; close_queue ends
    [run]. *)
Definition receive (state : fn) (m : message) (a : t) : t :=
  match dispatch (chain_of state a) m with
  | Handled a' => a'
  | Unhandled => a
  | Closed => Mk Stopped (account a) (withdrawal_amount a) (pin a) []
  end.

End atm.

(** ** atm_example.cpp *)

Module keyboard.

(** [main]: the characters still to come, the sends to do, and whether q was
    pressed. *)
Record t := Mk { keys : list ascii; out : sends; quit_pressed : bool }.

Definition is_digit (c : ascii) : bool :=
  ((48 <=? nat_of_ascii c) && (nat_of_ascii c <=? 57))%nat.

Definition account_number : cxx_string := ["a"; "c"; "c"; "1"; "2"; "3"; "4"]%char.

(** The switch. *)
Definition pressed (c : ascii) : sends :=
  if is_digit c then [(ToAtm, digit_pressed c)]
  else if bool_decide (c = "b"%char) then [(ToAtm, balance_pressed)]
  else if bool_decide (c = "w"%char) then [(ToAtm, withdraw_pressed 50)]
  else if bool_decide (c = "c"%char) then [(ToAtm, cancel_pressed)]
  else if bool_decide (c = "i"%char) then [(ToAtm, card_inserted account_number)]
  else [].

(** The calls of [done] after the loop. *)
Definition dones : sends :=
  [(ToBank, close_queue); (ToAtm, close_queue); (ToInterface, close_queue)].

Definition next (k : t) : option t :=
  if quit_pressed k then None
  else
    match keys k with
    | [] => None
    | c :: cs =>
        if bool_decide (c = "q"%char) then Some (Mk cs dones true)
        else Some (Mk cs (pressed c) false)
    end.

End keyboard.

(** ** The system *)

Record system := Sys {
  queues : dest -> list message;
  the_bank : bank_machine.t;
  the_atm : atm.t;
  the_interface : interface_machine.t;
  the_main : keyboard.t;
  issued : list Z
}.

Inductive thread := BankThread | AtmThread | InterfaceThread | MainThread.

Section System.
Context (contents : message -> message).

Definition deliver (d : dest) (m : message) (q : dest -> list message) : dest -> list message :=
  fun d' => if decide (d' = d) then push contents m (q d') else q d'.

Definition popped (d : dest) (rest : list message) (q : dest -> list message) : dest -> list message :=
  fun d' => if decide (d' = d) then rest else q d'.

Definition amounts_issued (m : message) : list Z :=
  match m with issue_money amount => [amount] | _ => [] end.

Definition set_queues (q : dest -> list message) (s : system) : system :=
  Sys q (the_bank s) (the_atm s) (the_interface s) (the_main s) (issued s).
Definition set_bank (k : bank_machine.t) (s : system) : system :=
  Sys (queues s) k (the_atm s) (the_interface s) (the_main s) (issued s).
Definition set_atm (a : atm.t) (s : system) : system :=
  Sys (queues s) (the_bank s) a (the_interface s) (the_main s) (issued s).
Definition set_interface (i : interface_machine.t) (s : system) : system :=
  Sys (queues s) (the_bank s) (the_atm s) i (the_main s) (issued s).
Definition set_main (k : keyboard.t) (s : system) : system :=
  Sys (queues s) (the_bank s) (the_atm s) (the_interface s) k (issued s).

Definition initial (keys : list ascii) : system :=
  Sys (fun _ => []) bank_machine.initial atm.initial interface_machine.initial
    (keyboard.Mk keys [] false) [].

(** One step of a thread; [None] when it is blocked or has ended.  [issued]
    records the amounts the ATM sent out to be issued, for the theorems only. *)
Definition step_thread (t : thread) (s : system) : option system :=
  match t with
  | BankThread =>
      let k := the_bank s in
      if bank_machine.running k then
        match bank_machine.out k with
        | (d, m) :: rest =>
            Some (set_bank (bank_machine.Mk (bank_machine.balance_ k) true rest (bank_machine.approved k))
              (set_queues (deliver d m (queues s)) s))
        | [] =>
            match wait_and_pop (queues s ToBank) with
            | None => None
            | Some (m, rest) =>
                Some (set_bank (bank_machine.receive m k) (set_queues (popped ToBank rest (queues s)) s))
            end
        end
      else None
  | AtmThread =>
      let a := the_atm s in
      match atm.out a with
      | (d, m) :: rest =>
          Some (Sys (deliver d m (queues s)) (the_bank s)
            (atm.Mk (atm.at_ a) (atm.account a) (atm.withdrawal_amount a) (atm.pin a) rest)
            (the_interface s) (the_main s) (issued s ++ amounts_issued m))
      | [] =>
          match atm.at_ a with
          | atm.Enter state => Some (set_atm (atm.enter state a) s)
          | atm.Waiting state =>
              match wait_and_pop (queues s ToAtm) with
              | None => None
              | Some (m, rest) =>
                  Some (set_atm (atm.receive state m a) (set_queues (popped ToAtm rest (queues s)) s))
              end
          | atm.Stopped => None
          end
      end
  | InterfaceThread =>
      let i := the_interface s in
      if interface_machine.running i then
        match wait_and_pop (queues s ToInterface) with
        | None => None
        | Some (m, rest) =>
            Some (set_interface (interface_machine.receive m i)
              (set_queues (popped ToInterface rest (queues s)) s))
        end
      else None
  | MainThread =>
      let k := the_main s in
      match keyboard.out k with
      | (d, m) :: rest =>
          Some (set_main (keyboard.Mk (keyboard.keys k) rest (keyboard.quit_pressed k))
            (set_queues (deliver d m (queues s)) s))
      | [] =>
          match keyboard.next k with
          | None => None
          | Some k' => Some (set_main k' s)
          end
      end
  end.

(** Any thread that can step may. *)
Definition step (s s' : system) : Prop := exists t, step_thread t s = Some s'.

(** A schedule run to its end; a blocked thread is passed over. *)
Fixpoint run (ts : list thread) (s : system) : system :=
  match ts with
  | [] => s
  | t :: ts' => run ts' (match step_thread t s with Some s' => s' | None => s end)
  end.

Lemma run_reaches ts s : reaches step s (run ts s).
Proof.
  revert s. induction ts as [|t ts IH]; intros s; simpl; [constructor|].
  destruct (step_thread t s) as [s'|] eqn:E; [|apply IH].
  eapply reaches_trans; [apply reaches_one; by exists t | apply IH].
Qed.
End System.

(** ** Case analysis on a step *)

Section Invariants.
Context (contents : message -> message).

(** Computes the fields of the states before and after. *)
Ltac sys_cbn :=
  cbn [queues the_bank the_atm the_interface the_main issued set_queues set_bank set_atm set_interface
    set_main bank_machine.balance_ bank_machine.running bank_machine.out bank_machine.approved
    atm.at_ atm.account atm.withdrawal_amount atm.pin atm.out atm.enter
    keyboard.keys keyboard.out keyboard.quit_pressed interface_machine.running outs map fst snd] in *.

(** The eight things that can happen. *)
Inductive move : system -> system -> Prop :=
| bank_sends s d m rest b ok :
    the_bank s = bank_machine.Mk b true ((d, m) :: rest) ok ->
    move s (set_bank (bank_machine.Mk b true rest ok) (set_queues (deliver contents d m (queues s)) s))
| bank_receives s m rest b ok :
    the_bank s = bank_machine.Mk b true [] ok -> queues s ToBank = m :: rest ->
    move s (set_bank (bank_machine.receive m (bank_machine.Mk b true [] ok))
              (set_queues (popped ToBank rest (queues s)) s))
| atm_sends s d m rest st acc n p :
    the_atm s = atm.Mk st acc n p ((d, m) :: rest) ->
    move s (Sys (deliver contents d m (queues s)) (the_bank s) (atm.Mk st acc n p rest)
              (the_interface s) (the_main s) (issued s ++ amounts_issued m))
| atm_enters s f acc n p :
    the_atm s = atm.Mk (atm.Enter f) acc n p [] ->
    move s (set_atm (atm.enter f (atm.Mk (atm.Enter f) acc n p [])) s)
| atm_receives s m rest f acc n p :
    the_atm s = atm.Mk (atm.Waiting f) acc n p [] -> queues s ToAtm = m :: rest ->
    move s (set_atm (atm.receive f m (atm.Mk (atm.Waiting f) acc n p []))
              (set_queues (popped ToAtm rest (queues s)) s))
| interface_receives s m rest pr :
    the_interface s = interface_machine.Mk true pr -> queues s ToInterface = m :: rest ->
    move s (set_interface (interface_machine.receive m (interface_machine.Mk true pr))
              (set_queues (popped ToInterface rest (queues s)) s))
| main_sends s d m rest ks q :
    the_main s = keyboard.Mk ks ((d, m) :: rest) q ->
    move s (set_main (keyboard.Mk ks rest q) (set_queues (deliver contents d m (queues s)) s))
| main_reads s ks q k' :
    the_main s = keyboard.Mk ks [] q -> keyboard.next (keyboard.Mk ks [] q) = Some k' ->
    move s (set_main k' s).

Lemma step_move s s' : step contents s s' <-> move s s'.
Proof.
  split.
  - intros [t E]. destruct t; simpl in E.
    + destruct (the_bank s) as [b [|] out ok] eqn:Eb; [simpl in E|discriminate].
      destruct out as [|[d m] rest]; [|injection E as <-; by constructor].
      destruct (queues s ToBank) as [|m rest] eqn:Eq; [discriminate|].
      injection E as <-. by constructor.
    + destruct (the_atm s) as [st acc n p out] eqn:Ea; simpl in E.
      destruct out as [|[d m] rest]; [|injection E as <-; by constructor].
      destruct st as [f|f|]; [injection E as <-; by constructor | |discriminate].
      destruct (queues s ToAtm) as [|m rest] eqn:Eq; [discriminate|]. injection E as <-. by constructor.
    + destruct (the_interface s) as [[|] pr] eqn:Ei; [simpl in E|discriminate].
      destruct (queues s ToInterface) as [|m rest] eqn:Eq; [discriminate|]. injection E as <-. by constructor.
    + destruct (the_main s) as [ks out q] eqn:Em; simpl in E.
      destruct out as [|[d m] rest]; [|injection E as <-; by constructor].
      destruct (keyboard.next _) as [k'|] eqn:En; [|discriminate]. injection E as <-. by econstructor.
  - intros H. destruct H as [s d m rest b ok E | s m rest b ok E Eq | s d m rest st acc n p E
      | s f acc n p E | s m rest f acc n p E Eq | s m rest pr E Eq | s d m rest ks q E | s ks q k' E En].
    1,2: exists BankThread. 3-5: exists AtmThread. 6: exists InterfaceThread. 7,8: exists MainThread.
    all: simpl; rewrite E; simpl; rewrite ?Eq, ?En; done.
Qed.

Lemma deliver_eq d m q : deliver contents d m q d = q d ++ [contents m].
Proof. unfold deliver. by rewrite decide_True. Qed.

Lemma deliver_forall (P : message -> Prop) d m q :
  P (contents m) -> (forall d', Forall P (q d')) -> forall d', Forall P (deliver contents d m q d').
Proof.
  intros Hm Hq d'. unfold deliver, push. destruct (decide _); [|done].
  apply Forall_app. split; [done | by constructor].
Qed.

Lemma popped_forall (P : message -> Prop) d m rest q :
  q d = m :: rest -> (forall d', Forall P (q d')) -> P m /\ forall d', Forall P (popped d rest q d').
Proof.
  intros E Hq. pose proof (Hq d) as Hd. rewrite E in Hd. apply Forall_cons_1 in Hd as [Hm Hr].
  split; [done|]. intros d'. unfold popped. by destruct (decide _).
Qed.

(** ** What every message carries *)

(** A property of all messages of the system, in the queues or about to be sent. *)
Definition all_messages (P : message -> Prop) (s : system) : Prop :=
  (forall d, Forall P (queues s d)) /\ Forall (fun e => P e.2) (bank_machine.out (the_bank s)) /\
  Forall (fun e => P e.2) (atm.out (the_atm s)) /\ Forall (fun e => P e.2) (keyboard.out (the_main s)).

(** The amounts a withdrawal is made of satisfy [P]. *)
Definition amount_ok (P : Z -> Prop) (m : message) : Prop :=
  match m with
  | withdraw _ n _ | cancel_withdrawal _ n | withdrawal_processed _ n | withdraw_pressed n | issue_money n => P n
  | _ => True
  end.

Definition withdrawing (st : atm.mode) : Prop :=
  st = atm.Enter atm.process_withdrawal \/ st = atm.Waiting atm.process_withdrawal.

Definition amounts_ok (P : Z -> Prop) (s : system) : Prop :=
  all_messages (amount_ok P) s /\
  (withdrawing (atm.at_ (the_atm s)) -> P (atm.withdrawal_amount (the_atm s))).

(** The bank's handlers, message by message. *)
Lemma bank_receive_eq m b ok :
  bank_machine.receive m (bank_machine.Mk b true [] ok) =
    match m with
    | verify_pin _ pin s =>
        bank_machine.Mk b true
          (to s (if bool_decide (pin = bank_machine.correct_pin) then pin_verified else pin_incorrect)) (ok ++ [])
    | withdraw _ n s =>
        if n <=? b then bank_machine.Mk (u32 (b - n)) true (to s withdraw_ok) (ok ++ [n])
        else bank_machine.Mk b true (to s withdraw_denied) (ok ++ [])
    | get_balance _ s => bank_machine.Mk b true (to s (balance b)) (ok ++ [])
    | withdrawal_processed _ _ | cancel_withdrawal _ _ => bank_machine.Mk b true [] (ok ++ [])
    | close_queue => bank_machine.Mk b false [] ok
    | _ => bank_machine.Mk b true [] ok
    end.
Proof.
  destruct m; try reflexivity. unfold bank_machine.receive, bank_machine.run_chain; cbn.
  by destruct (_ <=? _).
Qed.

Lemma to_forall (P : dest * message -> Prop) s m : (forall d, P (d, m)) -> Forall P (to s m).
Proof. intros H. destruct s; simpl; repeat constructor. apply H. Qed.

Lemma bank_receive_amounts P m b ok :
  Forall (fun e => amount_ok P e.2) (bank_machine.out (bank_machine.receive m (bank_machine.Mk b true [] ok))).
Proof.
  rewrite bank_receive_eq. destruct m; try constructor; repeat case_match; by apply to_forall.
Qed.

(** The ATM's handlers, state by state. *)
Lemma atm_receive_eq f m acc n p :
  atm.receive f m (atm.Mk (atm.Waiting f) acc n p []) =
    match f, m with
    | _, close_queue => atm.Mk atm.Stopped acc n p []
    | atm.waiting_for_card, card_inserted acc' =>
        atm.Mk (atm.Enter atm.getting_pin) acc' n [] [(ToInterface, display_enter_pin)]
    | atm.getting_pin, digit_pressed c =>
        if decide (length (p ++ [c]) = atm.pin_len) then
          atm.Mk (atm.Enter atm.verifing_pin) acc n (p ++ [c]) [(ToBank, verify_pin acc (p ++ [c]) atm.incoming)]
        else atm.Mk (atm.Enter atm.getting_pin) acc n (p ++ [c]) []
    | atm.getting_pin, clear_last_pressed =>
        atm.Mk (atm.Enter atm.getting_pin) acc n (match p with [] => [] | _ => removelast p end) []
    | atm.verifing_pin, pin_verified => atm.Mk (atm.Enter atm.wait_for_action) acc n p []
    | atm.verifing_pin, pin_incorrect =>
        atm.Mk (atm.Enter atm.done_processing) acc n p [(ToInterface, display_pin_incorrect_message)]
    | atm.wait_for_action, withdraw_pressed amount =>
        atm.Mk (atm.Enter atm.process_withdrawal) acc amount p [(ToBank, withdraw acc amount atm.incoming)]
    | atm.wait_for_action, balance_pressed =>
        atm.Mk (atm.Enter atm.process_balance) acc n p [(ToBank, get_balance acc atm.incoming)]
    | atm.process_withdrawal, withdraw_ok =>
        atm.Mk (atm.Enter atm.done_processing) acc n p
          [(ToInterface, issue_money n); (ToBank, withdrawal_processed acc n)]
    | atm.process_withdrawal, withdraw_denied =>
        atm.Mk (atm.Enter atm.done_processing) acc n p [(ToInterface, display_insufficient_funds)]
    | atm.process_withdrawal, cancel_pressed =>
        atm.Mk (atm.Enter atm.done_processing) acc n p
          [(ToBank, cancel_withdrawal acc n); (ToInterface, display_withdrawal_cancelled)]
    | atm.process_balance, balance amount =>
        atm.Mk (atm.Enter atm.wait_for_action) acc n p [(ToInterface, display_balance amount)]
    | (atm.getting_pin | atm.verifing_pin | atm.wait_for_action | atm.process_balance), cancel_pressed =>
        atm.Mk (atm.Enter atm.done_processing) acc n p []
    | _, _ => atm.Mk (atm.Waiting f) acc n p []
    end.
Proof. by destruct f, m. Qed.

Lemma atm_receive_amounts P f m acc n p :
  amount_ok P m -> (f = atm.process_withdrawal -> P n) ->
  let a := atm.receive f m (atm.Mk (atm.Waiting f) acc n p []) in
  Forall (fun e => amount_ok P e.2) (atm.out a) /\ (withdrawing (atm.at_ a) -> P (atm.withdrawal_amount a)).
Proof.
  intros Hm Hn. cbv zeta. rewrite atm_receive_eq.
  destruct f; try specialize (Hn eq_refl); destruct m; cbn [atm.out atm.at_ atm.withdrawal_amount];
    try (case_match; cbn [atm.out atm.at_ atm.withdrawal_amount]);
    (split; [repeat constructor; done | intros [Hw|Hw]; try discriminate Hw; done]).
Qed.

Lemma pressed_amounts (P : Z -> Prop) c : P 50 -> Forall (fun e => amount_ok P e.2) (keyboard.pressed c).
Proof. intros HP. unfold keyboard.pressed. repeat case_match; repeat constructor; done. Qed.

Lemma amounts_preserved P :
  P 50 -> (forall m, amount_ok P m -> amount_ok P (contents m)) ->
  preserved (step contents) (amounts_ok P).
Proof.
  intros HP Hc s s' [(Hq & Hb & Ha & Hm) Hw] Hs. apply step_move in Hs.
  destruct Hs as [s d m rest b ok E | s m rest b ok E Eq | s d m rest st acc n p E
      | s f acc n p E | s m rest f acc n p E Eq | s m rest pr E Eq | s d m rest ks q E | s ks q k' E En];
    try rewrite E in *; sys_cbn.
  - apply Forall_cons_1 in Hb as [Hb1 Hb2]. split; [|done]. split; [|done]. by apply deliver_forall; auto.
  - destruct (popped_forall _ _ _ _ _ Eq Hq) as [H1 H2]. split; [|done]. split; [done|].
    split; [apply bank_receive_amounts | done].
  - apply Forall_cons_1 in Ha as [Ha1 Ha2]. split; [|done]. split; [|done]. by apply deliver_forall; auto.
  - split; [split; [done|]; split; [done|]; split; [by destruct f; repeat constructor | done]|].
    intros [Hx|Hx]; destruct f; try discriminate Hx. apply Hw. by left.
  - destruct (popped_forall _ _ _ _ _ Eq Hq) as [H1 H2].
    destruct (atm_receive_amounts P f m acc n p H1) as [H3 H4]; [intros ->; apply Hw; by right|].
    split; [|done]. split; [done|]. split; done.
  - destruct (popped_forall _ _ _ _ _ Eq Hq) as [H1 H2]. split; [|done]. done.
  - apply Forall_cons_1 in Hm as [Hm1 Hm2]. split; [|done]. split; [by apply deliver_forall; auto|]. done.
  - split; [|done]. split; [done|]. split; [done|]. split; [done|].
    unfold keyboard.next in En. sys_cbn. repeat case_match; try discriminate; injection En as <-; sys_cbn;
      [repeat constructor | by apply pressed_amounts].
Qed.

Lemma amounts_initial P ks : amounts_ok P (initial ks).
Proof. split; [by repeat split|]. intros [Hx|Hx]; discriminate Hx. Qed.
(** ** Money *)

Definition total (l : list Z) : Z := fold_right Z.add 0 l.

Lemma total_app l l' : total (l ++ l') = total l + total l'.
Proof. induction l as [|x l IH]; simpl; lia. Qed.

Definition unsigned (n : Z) : Prop := 0 <= n < 2 ^ 32.

Lemma total_cons x l : total (x :: l) = x + total l.
Proof. reflexivity. Qed.

Arguments total : simpl never.

(** The balance and what was approved make up the 199 the bank started with. *)
Definition funds_ok (s : system) : Prop :=
  0 <= bank_machine.balance_ (the_bank s) /\
  bank_machine.balance_ (the_bank s) + total (bank_machine.approved (the_bank s)) = 199.

Lemma bank_receive_funds m b ok :
  amount_ok unsigned m -> 0 <= b <= 199 -> b + total ok = 199 ->
  let k := bank_machine.receive m (bank_machine.Mk b true [] ok) in
  0 <= bank_machine.balance_ k /\ bank_machine.balance_ k + total (bank_machine.approved k) = 199.
Proof.
  intros Hm Hb Ht. cbv zeta. rewrite bank_receive_eq.
  destruct m; cbn [bank_machine.balance_ bank_machine.approved];
    rewrite ?total_app; change (total []) with 0; try lia.
  destruct (_ <=? _) eqn:E; to_prop; cbn [bank_machine.balance_ bank_machine.approved];
    rewrite total_app, ?total_cons; change (total []) with 0; [|lia].
  unfold amount_ok, unsigned in Hm. rewrite wrap_small; lia.
Qed.

Lemma total_nonneg l : Forall (fun n => 0 <= n) l -> 0 <= total l.
Proof. induction 1; rewrite ?total_cons; [done|lia]. Qed.

(** Everything approved satisfies what every withdrawal does. *)
Definition approved_ok (P : Z -> Prop) (s : system) : Prop := Forall P (bank_machine.approved (the_bank s)).

Lemma bank_receive_approved (P : Z -> Prop) m b ok :
  amount_ok P m -> Forall P ok ->
  Forall P (bank_machine.approved (bank_machine.receive m (bank_machine.Mk b true [] ok))).
Proof.
  intros Hm Hok. rewrite bank_receive_eq.
  destruct m; cbn [bank_machine.approved]; rewrite ?app_nil_r; try done.
  destruct (_ <=? _); cbn [bank_machine.approved]; rewrite ?app_nil_r; [|done].
  apply Forall_app. split; [done | by constructor].
Qed.

Definition money_ok (P : Z -> Prop) (s : system) : Prop :=
  amounts_ok P s /\ amounts_ok unsigned s /\ approved_ok P s /\ approved_ok unsigned s /\ funds_ok s /\
  Forall P (issued s).

Lemma money_preserved P :
  P 50 -> (forall m, amount_ok P m -> amount_ok P (contents m)) ->
  (forall m, amount_ok unsigned m -> amount_ok unsigned (contents m)) ->
  preserved (step contents) (money_ok P).
Proof.
  intros HP Hc Hu s s' (Ha & Hau & Hk & Hku & [Hf1 Hf2] & Hi) Hs.
  assert (unsigned 50) as H50 by (unfold unsigned; lia).
  split; [exact (amounts_preserved P HP Hc s s' Ha Hs)|].
  split; [exact (amounts_preserved unsigned H50 Hu s s' Hau Hs)|].
  apply step_move in Hs. destruct Ha as [(Hq & _ & Hao & _) _], Hau as [(Hqu & _) _].
  unfold approved_ok, funds_ok in *.
  destruct Hs as [s d m rest b ok E | s m rest b ok E Eq | s d m rest st acc n p E
      | s f acc n p E | s m rest f acc n p E Eq | s m rest pr E Eq | s d m rest ks q E | s ks q k' E En];
    try rewrite E in *; sys_cbn; try done.
  - destruct (popped_forall _ _ _ _ _ Eq Hq) as [H1 _], (popped_forall _ _ _ _ _ Eq Hqu) as [H2 _].
    split; [by apply bank_receive_approved|]. split; [by apply bank_receive_approved|].
    split; [|done]. apply bank_receive_funds; try done.
    assert (0 <= total ok); [|lia].
    apply total_nonneg. eapply Forall_impl; [exact Hku|]. unfold unsigned. intros x Hx. lia.
  - split; [done|]. split; [done|]. split; [done|]. apply Forall_app. split; [done|].
    apply Forall_cons_1 in Hao as [Hm _]. destruct m; repeat constructor. done.
Qed.

Lemma money_initial P ks : money_ok P (initial ks).
Proof.
  split; [apply amounts_initial|]. split; [apply amounts_initial|].
  repeat split; try constructor; simpl; lia.
Qed.

(** ** Approvals and issues *)

Definition count (k : message_type) (l : list message) : nat := length (filter (fun m => kind m = k) l).

Arguments count : simpl never.

Lemma count_app k l l' : count k (l ++ l') = (count k l + count k l')%nat.
Proof. unfold count. by rewrite filter_app, length_app. Qed.

Lemma count_cons k m l : count k (m :: l) = ((if decide (kind m = k) then 1 else 0) + count k l)%nat.
Proof. unfold count. rewrite filter_cons. by destruct (decide _). Qed.

Lemma count_none k l : Forall (fun m => kind m <> k) l -> count k l = 0%nat.
Proof. induction 1 as [|m l Hm Hl IH]; [done|]. rewrite count_cons, IH. by destruct (decide _). Qed.

(** Only the bank sends withdraw_ok. *)
Definition only_bank_approves (s : system) : Prop :=
  Forall (fun m => kind m <> T_withdraw_ok) (outs (atm.out (the_atm s))) /\
  Forall (fun m => kind m <> T_withdraw_ok) (outs (keyboard.out (the_main s))).

(** Each approval is on its way to the ATM, or about to be issued, or issued, or
    lost: never doubled. *)
Definition issues_ok (s : system) : Prop :=
  only_bank_approves s /\
  (length (issued s) + count T_issue_money (outs (atm.out (the_atm s)))
    + count T_withdraw_ok (queues s ToAtm) + count T_withdraw_ok (outs (bank_machine.out (the_bank s)))
   <= length (bank_machine.approved (the_bank s)))%nat.

Lemma bank_receive_ok m b ok :
  let k := bank_machine.receive m (bank_machine.Mk b true [] ok) in
  (count T_withdraw_ok (outs (bank_machine.out k)) + length ok <= length (bank_machine.approved k))%nat.
Proof.
  cbv zeta. rewrite bank_receive_eq.
  destruct m as [? n [?|]| | | | | | | | | | | |? ? [?|]| | | | | | | | |? [?|]| | | |];
    cbn [bank_machine.out bank_machine.approved to send outs map];
    repeat case_match; cbn; rewrite ?length_app; simpl; lia.
Qed.

Lemma atm_receive_ok f m acc n p :
  let a := atm.receive f m (atm.Mk (atm.Waiting f) acc n p []) in
  Forall (fun m => kind m <> T_withdraw_ok) (outs (atm.out a)) /\
  (count T_issue_money (outs (atm.out a)) = 0 \/
   count T_issue_money (outs (atm.out a)) = 1 /\ kind m = T_withdraw_ok)%nat.
Proof.
  cbv zeta. rewrite atm_receive_eq. destruct f, m; try case_match; cbn [atm.out outs map snd];
    (split; [repeat constructor; discriminate | (by left) || (by right)]).
Qed.

Context (contents_kind : forall m, kind (contents m) = kind m).

Lemma deliver_count k d m q d' :
  (count k (deliver contents d m q d') <= count k (q d') + if decide (kind m = k) then 1 else 0)%nat.
Proof.
  unfold deliver, push. destruct (decide (d' = d)); [|lia].
  rewrite count_app, count_cons, contents_kind. unfold count at 2. simpl. lia.
Qed.

Lemma pressed_kinds c : Forall (fun m => kind m <> T_withdraw_ok) (outs (keyboard.pressed c)).
Proof. unfold keyboard.pressed. repeat case_match; repeat constructor; discriminate. Qed.

Lemma issues_preserved : preserved (step contents) issues_ok.
Proof.
  intros s s' [[Ha Hm] Hc] Hs. apply step_move in Hs. unfold issues_ok, only_bank_approves.
  destruct Hs as [s d m rest b ok E | s m rest b ok E Eq | s d m rest st acc n p E
      | s f acc n p E | s m rest f acc n p E Eq | s m rest pr E Eq | s d m rest ks q E | s ks q k' E En];
    try rewrite E in *; sys_cbn.
  - split; [done|]. rewrite count_cons in Hc.
    pose proof (deliver_count T_withdraw_ok d m (queues s) ToAtm). lia.
  - split; [done|]. pose proof (bank_receive_ok m b ok) as Hb. cbv zeta in Hb.
    change (count _ []) with 0%nat in Hc. change (popped ToBank rest (queues s) ToAtm) with (queues s ToAtm). lia.
  - apply Forall_cons_1 in Ha as [Ha1 Ha2]. split; [done|]. rewrite count_cons in Hc.
    pose proof (deliver_count T_withdraw_ok d m (queues s) ToAtm) as Hd.
    rewrite decide_False in Hd by done. rewrite length_app.
    assert (length (amounts_issued m) = if decide (kind m = T_issue_money) then 1 else 0)%nat by by destruct m.
    lia.
  - split; [split; [by destruct f; repeat constructor | done]|].
    assert (count T_issue_money (map snd (atm.entry_sends f)) = 0)%nat as -> by by destruct f. lia.
  - destruct (atm_receive_ok f m acc n p) as [H1 H2]. cbv zeta in H1, H2. split; [done|].
    rewrite Eq, count_cons in Hc. change (popped ToAtm rest (queues s) ToAtm) with rest.
    change (count _ []) with 0%nat in Hc. destruct H2 as [H2|[H2 Hk]]; [lia|].
    rewrite decide_True in Hc by done. lia.
  - split; [done|]. by cbn.
  - apply Forall_cons_1 in Hm as [Hm1 Hm2]. split; [done|].
    pose proof (deliver_count T_withdraw_ok d m (queues s) ToAtm) as Hd.
    rewrite decide_False in Hd by done. lia.
  - split; [|done]. split; [done|]. unfold keyboard.next in En. sys_cbn.
    repeat case_match; try discriminate; injection En as <-; sys_cbn;
      [repeat constructor; discriminate | apply pressed_kinds].
Qed.

Lemma issues_initial ks : issues_ok (initial ks).
Proof. split; [by split|]. change (count _ _) with 0%nat. simpl. lia. Qed.
(** ** Termination

    Every message is worth more than what handling it can set off. *)

Definition worth (k : message_type) : nat :=
  match k with
  | T_withdraw | T_verify_pin | T_get_balance => 13
  | T_withdraw_ok | T_withdraw_denied | T_pin_verified | T_pin_incorrect | T_balance => 11
  | T_card_inserted | T_digit_pressed | T_clear_last_pressed | T_withdraw_pressed | T_cancel_pressed
  | T_balance_pressed => 16
  | _ => 1
  end.

Definition queue_worth (q : list message) : nat := sum_list_with (fun m => worth (kind m)) q.
Definition sends_worth (o : sends) : nat := sum_list_with (fun e => S (worth (kind e.2))) o.

Lemma sends_worth_cons d m l : sends_worth ((d, m) :: l) = (S (worth (kind m)) + sends_worth l)%nat.
Proof. reflexivity. Qed.

Lemma sends_worth_nil : sends_worth [] = 0%nat.
Proof. reflexivity. Qed.

(** What entering a state function sends, and leads to. *)
Definition mode_worth (st : atm.mode) : nat :=
  match st with
  | atm.Enter (atm.waiting_for_card | atm.wait_for_action) => 3
  | atm.Enter atm.done_processing => 6
  | atm.Enter _ => 1
  | _ => 0
  end.

Definition queues_worth (q : dest -> list message) : nat :=
  (queue_worth (q ToBank) + queue_worth (q ToAtm) + queue_worth (q ToInterface))%nat.

Definition measure (s : system) : nat :=
  (queues_worth (queues s) + sends_worth (bank_machine.out (the_bank s)) +
   sends_worth (atm.out (the_atm s)) + mode_worth (atm.at_ (the_atm s)) +
   sends_worth (keyboard.out (the_main s)) + 18 * length (keyboard.keys (the_main s)))%nat.

Lemma queue_worth_app q q' : queue_worth (q ++ q') = (queue_worth q + queue_worth q')%nat.
Proof. apply sum_list_with_app. Qed.

Lemma queues_worth_deliver d m q :
  queues_worth (deliver contents d m q) = (queues_worth q + worth (kind m))%nat.
Proof.
  assert (queue_worth [contents m] = worth (kind m)) as Hm
    by (unfold queue_worth; cbn [sum_list_with]; rewrite contents_kind; lia).
  unfold queues_worth, deliver, push. destruct d;
    repeat ((rewrite decide_True by done) || (rewrite decide_False by done)); rewrite queue_worth_app, Hm; lia.
Qed.

Lemma queues_worth_popped d m rest q :
  q d = m :: rest -> (queues_worth (popped d rest q) + worth (kind m))%nat = queues_worth q.
Proof.
  intros E. assert (queue_worth (q d) = worth (kind m) + queue_worth rest)%nat as Hq by by rewrite E.
  unfold queues_worth, popped. destruct d;
    repeat ((rewrite decide_True by done) || (rewrite decide_False by done)); rewrite Hq; lia.
Qed.

Lemma to_worth s m : (sends_worth (to s m) <= S (worth (kind m)))%nat.
Proof. destruct s; unfold sends_worth; simpl; lia. Qed.

Lemma bank_receive_worth m b ok :
  (sends_worth (bank_machine.out (bank_machine.receive m (bank_machine.Mk b true [] ok))) < worth (kind m))%nat.
Proof.
  rewrite bank_receive_eq. destruct m; repeat case_match; cbn [bank_machine.out];
    try (unfold sends_worth; simpl; lia);
    (eapply Nat.le_lt_trans; [apply to_worth | simpl; lia]).
Qed.

Lemma atm_receive_worth f m acc n p :
  let a := atm.receive f m (atm.Mk (atm.Waiting f) acc n p []) in
  (sends_worth (atm.out a) + mode_worth (atm.at_ a) < worth (kind m))%nat.
Proof.
  cbv zeta. rewrite atm_receive_eq. destruct f, m; try case_match; unfold sends_worth; simpl; lia.
Qed.

Lemma pressed_worth c : (sends_worth (keyboard.pressed c) <= 17)%nat.
Proof. unfold keyboard.pressed. repeat case_match; unfold sends_worth; simpl; lia. Qed.

Lemma measure_decreases s s' : step contents s s' -> (measure s' < measure s)%nat.
Proof.
  intros Hs. apply step_move in Hs. unfold measure.
  destruct Hs as [s d m rest b ok E | s m rest b ok E Eq | s d m rest st acc n p E
      | s f acc n p E | s m rest f acc n p E Eq | s m rest pr E Eq | s d m rest ks q E | s ks q k' E En];
    try rewrite E in *; sys_cbn; rewrite ?queues_worth_deliver, ?sends_worth_cons, ?sends_worth_nil; try lia.
  - rewrite <- (queues_worth_popped _ _ _ _ Eq). pose proof (bank_receive_worth m b ok). lia.
  - destruct f; unfold sends_worth; simpl; lia.
  - rewrite <- (queues_worth_popped _ _ _ _ Eq). pose proof (atm_receive_worth f m acc n p) as H.
    cbv zeta in H. change (mode_worth (atm.Waiting f)) with 0%nat. lia.
  - rewrite <- (queues_worth_popped _ _ _ _ Eq). destruct m; simpl; lia.
  - unfold keyboard.next in En. sys_cbn. destruct q; [discriminate|]. destruct ks as [|c ks]; [discriminate|].
    pose proof (pressed_worth c).
    destruct (bool_decide _); injection En as <-; sys_cbn; cbn [length]; [|lia].
    change (sends_worth keyboard.dones) with 6%nat. lia.
Qed.

Lemma steps_bound n s s' : nsteps (step contents) n s s' -> (n + measure s' <= measure s)%nat.
Proof.
  induction 1 as [s|n s t u Hst Htu IH]; [lia|]. apply measure_decreases in Hst. lia.
Qed.

(** ** Closing down *)

(** Once q was pressed every queue of a running thread holds, or is about to be
    sent, a close_queue; before, q is still to come. *)
Definition close_pending (d : dest) (s : system) : Prop :=
  close_queue ∈ queues s d \/ (d, close_queue) ∈ keyboard.out (the_main s).

Definition closing (s : system) : Prop :=
  (keyboard.quit_pressed (the_main s) = true \/ "q"%char ∈ keyboard.keys (the_main s)) /\
  (keyboard.quit_pressed (the_main s) = true ->
     (bank_machine.running (the_bank s) = true -> close_pending ToBank s) /\
     (atm.at_ (the_atm s) <> atm.Stopped -> close_pending ToAtm s) /\
     (interface_machine.running (the_interface s) = true -> close_pending ToInterface s)).

Lemma contents_close : contents close_queue = close_queue.
Proof.
  pose proof (contents_kind close_queue) as H. by destruct (contents close_queue).
Qed.

Lemma deliver_in d m q d' x : x ∈ q d' -> x ∈ deliver contents d m q d'.
Proof. intros Hx. unfold deliver, push. destruct (decide _); [|done]. apply elem_of_app. by left. Qed.

Lemma popped_in d m rest q d' x :
  q d = m :: rest -> x ∈ q d' -> (d = d' /\ x = m) \/ x ∈ popped d rest q d'.
Proof.
  intros E Hx. unfold popped. destruct (decide (d' = d)) as [->|]; [|by right].
  rewrite E in Hx. apply elem_of_cons in Hx as [->|Hx]; [by left | by right].
Qed.

Lemma close_deliver d m d' s s' :
  queues s' = deliver contents d m (queues s) -> the_main s' = the_main s ->
  close_pending d' s -> close_pending d' s'.
Proof.
  intros Eq Em [Hc|Hc]; [left; rewrite Eq; by apply deliver_in | right; by rewrite Em].
Qed.

Lemma close_popped d m rest d' s s' :
  queues s d = m :: rest -> queues s' = popped d rest (queues s) -> the_main s' = the_main s ->
  (d = d' -> m <> close_queue) -> close_pending d' s -> close_pending d' s'.
Proof.
  intros E Eq Em Hm [Hc|Hc]; [|right; by rewrite Em]. left. rewrite Eq.
  destruct (popped_in _ _ _ _ _ _ E Hc) as [[-> <-]|Hp]; [by destruct (Hm eq_refl) | done].
Qed.

Lemma close_main_sends d m rest ks q d' s :
  the_main s = keyboard.Mk ks ((d, m) :: rest) q -> close_pending d' s ->
  close_pending d' (set_main (keyboard.Mk ks rest q) (set_queues (deliver contents d m (queues s)) s)).
Proof.
  intros E [Hc|Hc]; [left; by apply deliver_in|]. rewrite E in Hc. sys_cbn.
  apply elem_of_cons in Hc as [Hc|Hc]; [|by right].
  injection Hc as <- <-. left. sys_cbn. rewrite deliver_eq, contents_close. apply elem_of_app. right. by left.
Qed.

Lemma bank_receive_running m b ok :
  bank_machine.running (bank_machine.receive m (bank_machine.Mk b true [] ok)) = true -> m <> close_queue.
Proof. rewrite bank_receive_eq. by intros H ->. Qed.

Lemma atm_receive_running f m a :
  atm.at_ (atm.receive f m a) <> atm.Stopped -> m <> close_queue.
Proof. intros H ->. apply H. by destruct f. Qed.

Lemma interface_receive_running m i :
  interface_machine.running (interface_machine.receive m i) = true -> m <> close_queue.
Proof. by intros H ->. Qed.

Lemma closing_preserved : preserved (step contents) closing.
Proof.
  intros s s' [Hq Hc] Hs. apply step_move in Hs. unfold closing.
  destruct Hs as [s d m rest b ok E | s m rest b ok E Eq | s d m rest st acc n p E
      | s f acc n p E | s m rest f acc n p E Eq | s m rest pr E Eq | s d m rest ks q E | s ks q k' E En];
    try rewrite E in *; sys_cbn.
  - split; [done|]. intros H. destruct (Hc H) as (H1 & H2 & H3).
    split; [|split]; intros Hr; apply (close_deliver d m _ s); auto.
  - split; [done|]. intros H. destruct (Hc H) as (H1 & H2 & H3).
    split; [|split]; intros Hr; (eapply (close_popped _ _ _ _ s); [exact Eq | done | done | | by auto]); try done.
    intros _. by eapply bank_receive_running.
  - split; [done|]. intros H. destruct (Hc H) as (H1 & H2 & H3).
    split; [|split]; intros Hr; apply (close_deliver d m _ s); auto.
  - split; [done|]. intros H. destruct (Hc H) as (H1 & H2 & H3). split; [|split]; intros Hr; auto.
  - split; [done|]. intros H. destruct (Hc H) as (H1 & H2 & H3).
    split; [|split]; intros Hr; (eapply (close_popped _ _ _ _ s); [exact Eq | done | done | | by auto]); try done.
    intros _. by eapply atm_receive_running.
  - split; [done|]. intros H. destruct (Hc H) as (H1 & H2 & H3).
    split; [|split]; intros Hr; (eapply (close_popped _ _ _ _ s); [exact Eq | done | done | | by auto]); try done.
    intros _. by eapply interface_receive_running.
  - split; [done|]. intros H. destruct (Hc H) as (H1 & H2 & H3).
    split; [|split]; intros Hr; eapply close_main_sends; eauto.
  - unfold keyboard.next in En. sys_cbn. destruct q; [discriminate|]. destruct ks as [|c ks]; [discriminate|].
    destruct (bool_decide (c = "q"%char)) eqn:Ec; to_prop; injection En as <-; sys_cbn.
    + split; [by left|]. intros _. unfold close_pending. sys_cbn. unfold keyboard.dones.
      split; [|split]; intros _; right; rewrite !elem_of_cons; tauto.
    + split; [|done]. destruct Hq as [Hq|Hq]; [done|]. right.
      apply elem_of_cons in Hq as [Hq|Hq]; [by destruct Ec | done].
Qed.

Lemma closing_initial ks : "q"%char ∈ ks -> closing (initial ks).
Proof. intros Hq. split; [by right | discriminate]. Qed.

(** A state in which no thread can step, after q, has stopped altogether. *)
Lemma closing_final s :
  closing s -> (forall s', ~ step contents s s') ->
  bank_machine.running (the_bank s) = false /\ atm.at_ (the_atm s) = atm.Stopped /\
  interface_machine.running (the_interface s) = false.
Proof.
  intros [Hq Hc] Hf.
  assert (forall t, step_thread contents t s = None) as Hn.
  { intros t. destruct (step_thread contents t s) as [s'|] eqn:E; [|done].
    destruct (Hf s'). by exists t. }
  pose proof (Hn MainThread) as Hm. simpl in Hm.
  destruct (keyboard.out (the_main s)) as [|[d m] rest] eqn:Eo; [|discriminate].
  assert (keyboard.quit_pressed (the_main s) = true) as Hquit.
  { destruct Hq as [Hq|Hq]; [done|]. destruct (keyboard.next (the_main s)) eqn:En; [discriminate|].
    unfold keyboard.next in En. destruct (keyboard.quit_pressed (the_main s)); [done|].
    destruct (keyboard.keys (the_main s)) as [|c cs]; [by apply not_elem_of_nil in Hq|].
    destruct (bool_decide (c = "q"%char)); discriminate. }
  destruct (Hc Hquit) as (H1 & H2 & H3). unfold close_pending in *. rewrite Eo in *.
  pose proof (Hn BankThread) as Hb. pose proof (Hn AtmThread) as Ha. pose proof (Hn InterfaceThread) as Hi.
  simpl in Hb, Ha, Hi.
  split; [|split].
  - destruct (bank_machine.running (the_bank s)); [|done]. exfalso.
    destruct (bank_machine.out (the_bank s)) as [|[d m] rest]; [|discriminate].
    destruct (H1 eq_refl) as [Hx|Hx]; [|by apply not_elem_of_nil in Hx].
    destruct (queues s ToBank); [by apply not_elem_of_nil in Hx | discriminate].
  - destruct (atm.out (the_atm s)) as [|[d m] rest]; [|discriminate].
    destruct (atm.at_ (the_atm s)); [discriminate | exfalso | done].
    destruct (H2 ltac:(discriminate)) as [Hx|Hx]; [|by apply not_elem_of_nil in Hx].
    destruct (queues s ToAtm); [by apply not_elem_of_nil in Hx | discriminate].
  - destruct (interface_machine.running (the_interface s)); [|done]. exfalso.
    destruct (H3 eq_refl) as [Hx|Hx]; [|by apply not_elem_of_nil in Hx].
    destruct (queues s ToInterface); [by apply not_elem_of_nil in Hx | discriminate].
Qed.
(** ** PINs *)

Definition digit (c : ascii) : Prop := keyboard.is_digit c = true.

Definition pin_message (m : message) : Prop :=
  match m with
  | verify_pin _ pin _ => length pin = 4%nat /\ Forall digit pin
  | digit_pressed c => digit c
  | _ => True
  end.

Definition getting (st : atm.mode) : Prop := st = atm.Enter atm.getting_pin \/ st = atm.Waiting atm.getting_pin.

Definition pins_ok (s : system) : Prop :=
  all_messages pin_message s /\
  (getting (atm.at_ (the_atm s)) ->
     (length (atm.pin (the_atm s)) < 4)%nat /\ Forall digit (atm.pin (the_atm s))).

Lemma bank_receive_pins m b ok :
  Forall (fun e => pin_message e.2) (bank_machine.out (bank_machine.receive m (bank_machine.Mk b true [] ok))).
Proof.
  rewrite bank_receive_eq. destruct m; try constructor; repeat case_match; by apply to_forall.
Qed.

Lemma Forall_removelast {A} (P : A -> Prop) l : Forall P l -> Forall P (removelast l).
Proof. induction 1 as [|x [|y l] Hx Hl IH]; simpl; [done | constructor | by constructor]. Qed.

Lemma length_removelast_le {A} (l : list A) : (length (removelast l) <= length l)%nat.
Proof. induction l as [|x [|y l] IH]; simpl in *; lia. Qed.

Lemma atm_receive_pins f m acc n p :
  pin_message m -> (f = atm.getting_pin -> (length p < 4)%nat /\ Forall digit p) ->
  let a := atm.receive f m (atm.Mk (atm.Waiting f) acc n p []) in
  Forall (fun e => pin_message e.2) (atm.out a) /\
  (getting (atm.at_ a) -> (length (atm.pin a) < 4)%nat /\ Forall digit (atm.pin a)).
Proof.
  intros Hm Hp. cbv zeta. rewrite atm_receive_eq.
  destruct f; try specialize (Hp eq_refl) as [Hl Hd]; destruct m; try case_match;
    cbn [atm.out atm.at_ atm.pin];
    (split; [try (repeat constructor; done) | intros [Hx|Hx]; try discriminate Hx; try done]).
  - by split; [simpl; lia|].
  - constructor; [|constructor]. cbn. split; [done|]. apply Forall_app. split; [done | by constructor].
  - match goal with Hn : length _ <> _ |- _ => pose proof Hn as Hn' end.
    unfold atm.pin_len in Hn'. rewrite length_app in Hn' |- *. cbn [length] in *. split; [lia|].
    apply Forall_app. split; [done | by constructor].
  - split; [eapply Nat.le_lt_trans; [apply length_removelast_le | done] | by apply Forall_removelast].
Qed.

Lemma pressed_pins c : Forall (fun e => pin_message e.2) (keyboard.pressed c).
Proof. unfold keyboard.pressed. repeat case_match; repeat constructor; done. Qed.

Lemma pins_preserved :
  (forall m, pin_message m -> pin_message (contents m)) -> preserved (step contents) pins_ok.
Proof.
  intros Hc s s' [(Hq & Hb & Ha & Hm) Hw] Hs. apply step_move in Hs.
  destruct Hs as [s d m rest b ok E | s m rest b ok E Eq | s d m rest st acc n p E
      | s f acc n p E | s m rest f acc n p E Eq | s m rest pr E Eq | s d m rest ks q E | s ks q k' E En];
    try rewrite E in *; sys_cbn; unfold pins_ok, all_messages; try rewrite E; sys_cbn.
  - apply Forall_cons_1 in Hb as [Hb1 Hb2]. split; [|done]. split; [|done]. by apply deliver_forall; auto.
  - destruct (popped_forall _ _ _ _ _ Eq Hq) as [H1 H2]. split; [|done]. split; [done|].
    split; [apply bank_receive_pins | done].
  - apply Forall_cons_1 in Ha as [Ha1 Ha2]. split; [|done]. split; [|done]. by apply deliver_forall; auto.
  - split; [split; [done|]; split; [done|]; split; [by destruct f; repeat constructor | done]|].
    intros [Hx|Hx]; destruct f; try discriminate Hx. apply Hw. by left.
  - destruct (popped_forall _ _ _ _ _ Eq Hq) as [H1 H2].
    destruct (atm_receive_pins f m acc n p H1) as [H3 H4]; [intros ->; apply Hw; by right|].
    split; [|done]. split; [done|]. split; done.
  - destruct (popped_forall _ _ _ _ _ Eq Hq) as [H1 H2]. split; [|done]. done.
  - apply Forall_cons_1 in Hm as [Hm1 Hm2]. split; [|done]. split; [by apply deliver_forall; auto|]. done.
  - split; [|done]. split; [done|]. split; [done|]. split; [done|].
    unfold keyboard.next in En. sys_cbn. repeat case_match; try discriminate; injection En as <-; sys_cbn;
      [repeat constructor | by apply pressed_pins].
Qed.

Lemma pins_initial ks : pins_ok (initial ks).
Proof. split; [by repeat split|]. intros [Hx|Hx]; discriminate Hx. Qed.
End Invariants.

(** ** Properties *)

(** What a received message may be: of the type that was sent, and with an
    unsigned where an unsigned is.  The copy of the message that was meant
    satisfies it, and so does any bit pattern. *)
Class Received (contents : message -> message) : Prop := {
  received_kind m : kind (contents m) = kind m;
  received_unsigned m : amount_ok unsigned m -> amount_ok unsigned (contents m)
}.

#[export] Instance received_intended : Received (fun m => m).
Proof. by split. Qed.


(** Money is issued at most once per approval: in every interleaving, and whatever
    the messages contain, the ATM has sent no more issue_money messages than the
    bank has approved withdrawals. *)
Theorem issues_at_most_approvals contents `{!Received contents} ks s :
  reaches (step contents) (initial ks) s ->
  (length (issued s) <= length (bank_machine.approved (the_bank s)))%nat.
Proof.
  intros Hr. assert (issues_ok s) as [_ Hi]; [|lia].
  eapply reaches_invariant; [|apply issues_initial | exact Hr].
  apply issues_preserved, received_kind.
Qed.



(** With messages that arrive as they were sent, every PIN the bank is asked to
    verify has exactly four digits, and no more than three are held while digits
    are awaited. *)
Theorem pins_have_four_digits ks s :
  reaches (step (fun m => m)) (initial ks) s ->
  (forall d acc pin r, verify_pin acc pin r ∈ queues s d -> length pin = 4%nat /\ Forall digit pin) /\
  (atm.at_ (the_atm s) = atm.Waiting atm.getting_pin -> (length (atm.pin (the_atm s)) < 4)%nat).
Proof.
  intros Hr. assert (pins_ok s) as [(Hq & _) Hg].
  { eapply reaches_invariant; [|apply pins_initial | exact Hr]. by apply pins_preserved. }
  split.
  - intros d acc pin r Hin. specialize (Hq d). rewrite Forall_forall in Hq. by apply (Hq _ Hin).
  - intros Ha. apply Hg. by right.
Qed.

(** ** Two executions

    Both are runs of the model with messages that arrive as they were sent. *)

Definition times (n : nat) (t : thread) : list thread := replicate n t.

Definition keys_i1937 : list ascii := ["i"; "1"; "9"; "3"; "7"]%char.

(** The bank is slow: its answer to the right PIN of a cancelled session comes
    when the ATM waits for the answer to a wrong one. *)
Definition slow_bank : list thread :=
  times 10 MainThread ++ times 60 AtmThread ++        (* card, 1937 *)
  times 2 MainThread ++ times 20 AtmThread ++         (* cancel *)
  times 10 MainThread ++ times 60 AtmThread ++        (* card, 0000 *)
  times 4 BankThread ++ times 10 AtmThread ++
  times 2 MainThread ++ times 10 AtmThread ++         (* withdraw *)
  times 2 BankThread ++ times 10 AtmThread.

(** The cancel key comes after the bank approved and before the ATM heard of it. *)
Definition late_cancel : list thread :=
  times 10 MainThread ++ times 60 AtmThread ++ times 4 BankThread ++ times 10 AtmThread ++
  times 2 MainThread ++ times 10 AtmThread ++         (* withdraw *)
  times 2 MainThread ++ times 4 BankThread ++         (* cancel; the bank approves *)
  times 20 AtmThread ++ times 4 BankThread ++         (* the ATM cancels; the bank hears of it *)
  times 10 MainThread ++ times 20 AtmThread ++ times 20 BankThread ++ times 20 InterfaceThread.

(** A wrong PIN can be accepted: there is an execution in which the card was put
    in again after a cancel, the PIN typed is 0000, and the ATM nevertheless goes
    on and issues 50, on the bank's late answer to the session before. *)
Theorem stale_pin_accepted :
  exists s, reaches (step (fun m => m))
      (initial (keys_i1937 ++ ["c"; "i"; "0"; "0"; "0"; "0"; "w"]%char)) s /\
    atm.pin (the_atm s) = ["0"; "0"; "0"; "0"]%char /\ issued s = [50].
Proof.
  exists (run (fun m => m) slow_bank (initial (keys_i1937 ++ ["c"; "i"; "0"; "0"; "0"; "0"; "w"]%char))).
  split; [apply run_reaches|]. split; vm_compute; reflexivity.
Qed.

(** A withdrawal cancelled after the bank approved it is lost: there is a complete
    execution in which the bank has handled the cancel_withdrawal message, no
    money was issued, and the balance is 50 lower for good. *)
Theorem cancelled_withdrawal_lost :
  exists s, reaches (step (fun m => m)) (initial (keys_i1937 ++ ["w"; "c"; "q"]%char)) s /\
    (forall s', ~ step (fun m => m) s s') /\
    queues s ToBank = [] /\ issued s = [] /\ bank_machine.balance_ (the_bank s) = 149.
Proof.
  exists (run (fun m => m) late_cancel (initial (keys_i1937 ++ ["w"; "c"; "q"]%char))).
  split; [apply run_reaches|]. split.
  - intros s' [t E]. destruct t; vm_compute in E; discriminate E.
  - repeat split; vm_compute; reflexivity.
Qed.

(** ** The properties at concrete inputs *)

Definition sample_keys : list ascii := keys_i1937 ++ ["w"; "q"]%char.
Definition sample_run : system := run (fun m => m) slow_bank (initial sample_keys).


Lemma issues_at_most_approvals_witness :
  (length (issued sample_run) <= length (bank_machine.approved (the_bank sample_run)))%nat.
Proof. apply (issues_at_most_approvals (fun m => m) sample_keys), run_reaches. Defined.



Lemma pins_have_four_digits_witness :
  (forall d acc pin r, verify_pin acc pin r ∈ queues sample_run d -> length pin = 4%nat /\ Forall digit pin) /\
  (atm.at_ (the_atm sample_run) = atm.Waiting atm.getting_pin -> (length (atm.pin (the_atm sample_run)) < 4)%nat).
Proof. apply (pins_have_four_digits sample_keys), run_reaches. Defined.
