(* ===== verification/KcpWire.v ===== *)
(** * KCP on the wire

    Models the first part of io/kcp/include/ikcp.c: the arithmetic helpers, the
    encode and decode functions, the segment and [ikcp_encode_seg], and the header
    that [ikcp_input] decodes.

    A datagram is the list of its bytes.  The machine is little-endian, so the
    16- and 32-bit functions, which copy the object, store the low byte first. *)

From Stdlib Require Import ZArith Lia Bool.
From stdpp Require Import base tactics option list numbers.
From S2P Require Import Prelude.

#[local] Open Scope Z_scope.

Definition IKCP_RTO_NDL : Z := 30.
Definition IKCP_RTO_MIN : Z := 100.
Definition IKCP_RTO_DEF : Z := 200.
Definition IKCP_RTO_MAX : Z := 60000.
Definition IKCP_CMD_PUSH : Z := 81.
Definition IKCP_CMD_ACK : Z := 82.
Definition IKCP_CMD_WASK : Z := 83.
Definition IKCP_CMD_WINS : Z := 84.
Definition IKCP_ASK_SEND : Z := 1.
Definition IKCP_ASK_TELL : Z := 2.
Definition IKCP_WND_SND : Z := 32.
Definition IKCP_WND_RCV : Z := 128.
Definition IKCP_MTU_DEF : Z := 1400.
Definition IKCP_INTERVAL : Z := 100.
Definition IKCP_OVERHEAD : Z := 24.
Definition IKCP_DEADLINK : Z := 20.
Definition IKCP_THRESH_INIT : Z := 2.
Definition IKCP_THRESH_MIN : Z := 2.
Definition IKCP_PROBE_INIT : Z := 7000.
Definition IKCP_PROBE_LIMIT : Z := 120000.
Definition IKCP_FASTACK_LIMIT : Z := 5.

(** ** Helpers *)

Definition imin_ (a b : Z) : Z := if a <=? b then a else b.
Definition imax_ (a b : Z) : Z := if b <=? a then a else b.
Definition ibound_ (lower middle upper : Z) : Z := imin_ (imax_ lower middle) upper.
Definition itimediff (later earlier : Z) : Z := i32 (later - earlier).

(** ** Encoding *)

Fixpoint le_bytes (n : nat) (z : Z) : list Z :=
  match n with O => [] | S n' => z mod 256 :: le_bytes n' (z / 256) end.

Fixpoint le_value (bs : list Z) : Z :=
  match bs with [] => 0 | b :: bs' => b + 256 * le_value bs' end.

Definition ikcp_encode8u (p : list Z) (c : Z) : list Z := p ++ le_bytes 1 c.
Definition ikcp_encode16u (p : list Z) (w : Z) : list Z := p ++ le_bytes 2 w.
Definition ikcp_encode32u (p : list Z) (l : Z) : list Z := p ++ le_bytes 4 l.

(** Decoding reads from the front and leaves the rest; reading past the end is
    undefined. *)
Definition ikcp_decode (n : nat) (p : list Z) : outcome (Z * list Z) :=
  let* bs := mread p 0 (Z.of_nat n) in Ok (le_value bs, drop n p).
Definition ikcp_decode8u := ikcp_decode 1.
Definition ikcp_decode16u := ikcp_decode 2.
Definition ikcp_decode32u := ikcp_decode 4.

(** ** Segments

    [len] is the length of [data], which the code keeps in a member. *)

Module seg.

Record t := Mk {
  conv : Z; cmd : Z; frg : Z; wnd : Z; ts : Z; sn : Z; una : Z;
  resendts : Z; rto : Z; fastack : Z; xmit : Z;
  data : list Z
}.

Definition len (s : t) : Z := zlen (data s).

End seg.

(** The members that go on the wire, without the data. *)
Record header := Header
  { h_conv : Z; h_cmd : Z; h_frg : Z; h_wnd : Z; h_ts : Z; h_sn : Z; h_una : Z; h_len : Z }.

Definition encode_header (ptr : list Z) (h : header) : list Z :=
  let ptr := ikcp_encode32u ptr (h_conv h) in
  let ptr := ikcp_encode8u ptr (h_cmd h) in
  let ptr := ikcp_encode8u ptr (h_frg h) in
  let ptr := ikcp_encode16u ptr (h_wnd h) in
  let ptr := ikcp_encode32u ptr (h_ts h) in
  let ptr := ikcp_encode32u ptr (h_sn h) in
  let ptr := ikcp_encode32u ptr (h_una h) in
  ikcp_encode32u ptr (h_len h).

Definition header_of (s : seg.t) : header :=
  Header (seg.conv s) (seg.cmd s) (seg.frg s) (seg.wnd s) (seg.ts s) (seg.sn s) (seg.una s) (seg.len s).

Definition ikcp_encode_seg (ptr : list Z) (s : seg.t) : list Z := encode_header ptr (header_of s).

(** The rest of the header, after [ikcp_input] has looked at [conv]. *)
Definition decode_rest (conv : Z) (data : list Z) : outcome (header * list Z) :=
  let* (cmd, data) := ikcp_decode8u data in
  let* (frg, data) := ikcp_decode8u data in
  let* (wnd, data) := ikcp_decode16u data in
  let* (ts, data) := ikcp_decode32u data in
  let* (sn, data) := ikcp_decode32u data in
  let* (una, data) := ikcp_decode32u data in
  let* (len, data) := ikcp_decode32u data in
  Ok (Header conv cmd frg wnd ts sn una len, data).

Definition decode_header (data : list Z) : outcome (header * list Z) :=
  let* (conv, data) := ikcp_decode32u data in decode_rest conv data.

(** [ikcp_getconv]. *)
Definition ikcp_getconv (ptr : list Z) : outcome Z :=
  let* (conv, _) := ikcp_decode32u ptr in Ok conv.

(** ** Round trips *)

Lemma length_le_bytes n z : length (le_bytes n z) = n.
Proof. revert z. induction n as [|n IH]; intros z; simpl; [done | by rewrite IH]. Qed.

Lemma le_bytes_are_bytes n z : Forall is_byte (le_bytes n z).
Proof.
  revert z. induction n as [|n IH]; intros z; simpl; constructor; [|done].
  apply Z.mod_pos_bound. lia.
Qed.

Lemma le_value_bytes n z : le_value (le_bytes n z) = z mod 256 ^ Z.of_nat n.
Proof.
  revert z. induction n as [|n IH]; intros z; cbn [le_bytes le_value].
  { by rewrite Z.mod_1_r. }
  rewrite IH, Nat2Z.inj_succ, Z.pow_succ_r by lia.
  rewrite Z.rem_mul_r by (try apply Z.pow_pos_nonneg; lia). lia.
Qed.

Lemma le_value_small n z : 0 <= z < 256 ^ Z.of_nat n -> le_value (le_bytes n z) = z.
Proof. intros H. by rewrite le_value_bytes, Z.mod_small. Qed.

Lemma le_bytes_value bs : Forall is_byte bs -> le_bytes (length bs) (le_value bs) = bs.
Proof.
  induction 1 as [|b bs Hb Hbs IH]; [done|]. cbn [length le_bytes le_value]. unfold is_byte in Hb.
  rewrite (Z.mul_comm 256), Z.mod_add, Z.div_add, (Z.mod_small b), (Z.div_small b), Z.add_0_l, IH by lia.
  done.
Qed.

Lemma le_value_bound bs : Forall is_byte bs -> 0 <= le_value bs < 256 ^ zlen bs.
Proof.
  induction 1 as [|b bs Hb Hbs IH]; cbn [length le_value]; [simpl; lia|].
  rewrite Nat2Z.inj_succ, Z.pow_succ_r by lia. unfold is_byte in Hb. lia.
Qed.

(** Decoding what was encoded in front of [rest]. *)
Lemma ikcp_decode_bytes n z rest :
  ikcp_decode n (le_bytes n z ++ rest) = Ok (z mod 256 ^ Z.of_nat n, rest).
Proof.
  unfold ikcp_decode. rewrite mread_ok by (rewrite ?length_app, ?length_le_bytes; lia).
  cbn [mbind outcome_bind]. unfold slice. change (Z.to_nat 0) with 0%nat. rewrite drop_0, Nat2Z.id.
  rewrite take_app_length' by (by rewrite length_le_bytes).
  rewrite drop_app_length' by (by rewrite length_le_bytes).
  by rewrite le_value_bytes.
Qed.

Lemma ikcp_decode_ok n p : (n <= length p)%nat -> ikcp_decode n p = Ok (le_value (take n p), drop n p).
Proof.
  intros H. unfold ikcp_decode. rewrite mread_ok by lia. unfold slice.
  change (Z.to_nat 0) with 0%nat. by rewrite drop_0, Nat2Z.id.
Qed.

(** The ranges of the members on the wire. *)
Definition header_ok (h : header) : Prop :=
  0 <= h_conv h < 2 ^ 32 /\ 0 <= h_cmd h < 256 /\ 0 <= h_frg h < 256 /\ 0 <= h_wnd h < 65536 /\
  0 <= h_ts h < 2 ^ 32 /\ 0 <= h_sn h < 2 ^ 32 /\ 0 <= h_una h < 2 ^ 32 /\ 0 <= h_len h < 2 ^ 32.

Lemma encode_header_app ptr h : encode_header ptr h = ptr ++ encode_header [] h.
Proof.
  unfold encode_header, ikcp_encode32u, ikcp_encode16u, ikcp_encode8u.
  by rewrite <- !app_assoc.
Qed.

Lemma length_encode_header h : length (encode_header [] h) = 24%nat.
Proof.
  unfold encode_header, ikcp_encode32u, ikcp_encode16u, ikcp_encode8u.
  by rewrite !length_app, !length_le_bytes.
Qed.

Lemma encode_header_bytes h : Forall is_byte (encode_header [] h).
Proof.
  unfold encode_header, ikcp_encode32u, ikcp_encode16u, ikcp_encode8u.
  repeat (apply Forall_app_2; [|apply le_bytes_are_bytes]). constructor.
Qed.

Lemma decode_encode_header h rest :
  header_ok h -> decode_header (encode_header [] h ++ rest) = Ok (h, rest).
Proof.
  intros (? & ? & ? & ? & ? & ? & ? & ?).
  unfold encode_header, ikcp_encode32u, ikcp_encode16u, ikcp_encode8u.
  rewrite app_nil_l, <- !app_assoc. unfold decode_header, decode_rest, ikcp_decode32u, ikcp_decode16u, ikcp_decode8u.
  do 8 (rewrite ikcp_decode_bytes; cbn [mbind outcome_bind]).
  destruct h as [c cm f w t s u l]. simpl in *. do 3 f_equal; try (apply Z.mod_small; lia).
Qed.

(** Encoding what was decoded from bytes gives the bytes back. *)
Lemma le_bytes_take n p : Forall is_byte p -> (n <= length p)%nat -> le_bytes n (le_value (take n p)) = take n p.
Proof.
  intros Hb Hn. rewrite <- (le_bytes_value (take n p)) at 2 by (by apply Forall_take).
  by rewrite length_take, Nat.min_l.
Qed.

Lemma encode_decode_header p rest : Forall is_byte p -> length p = 24%nat ->
  exists h, decode_header (p ++ rest) = Ok (h, rest) /\ encode_header [] h = p.
Proof.
  intros Hb Hl. unfold decode_header, decode_rest, ikcp_decode32u, ikcp_decode16u, ikcp_decode8u.
  do 8 (rewrite ikcp_decode_ok by (rewrite ?length_drop, length_app; lia); cbn [mbind outcome_bind]).
  rewrite !drop_drop. eexists. split.
  { do 3 f_equal. cbn [Nat.add]. by rewrite drop_app_length' by done. }
  unfold encode_header, ikcp_encode32u, ikcp_encode16u, ikcp_encode8u.
  cbn [h_conv h_cmd h_frg h_wnd h_ts h_sn h_una h_len Nat.add].
  assert (forall i n, (i + n <= 24)%nat ->
    le_bytes n (le_value (take n (drop i (p ++ rest)))) = take n (drop i p)) as Hstep.
  { intros i n Hin. rewrite drop_app_le by lia. rewrite take_app_le by (rewrite length_drop; lia).
    apply le_bytes_take; [by apply Forall_drop | rewrite length_drop; lia]. }
  pose proof (Hstep 0%nat 4%nat ltac:(lia)) as H0. rewrite !drop_0 in H0. rewrite H0.
  rewrite !Hstep by lia. rewrite app_nil_l.
  repeat (rewrite <- app_assoc). clear - Hl.
  do 25 (destruct p as [|? p]; [try done|]); done.
Qed.

(** The 24 bytes of a segment header: a header in range is decoded from what
    [ikcp_encode_seg] writes for it, whatever follows; and any 24 bytes are decoded
    to a header that is encoded as these bytes. *)
Theorem header_round_trip :
  (forall h rest, header_ok h -> decode_header (encode_header [] h ++ rest) = Ok (h, rest)) /\
  (forall p rest, Forall is_byte p -> length p = 24%nat ->
     exists h, decode_header (p ++ rest) = Ok (h, rest) /\ encode_header [] h = p).
Proof. split; [apply decode_encode_header | apply encode_decode_header]. Qed.
