(* ===== verification/Kcp.v ===== *)
(** * KCP

    Models the control block and the operations of io/kcp/include/ikcp.c (an ARQ
    protocol over datagrams): send, recv, input, flush, update, check and the
    settings.

    The members of IKCPCB have their names and are grouped in records by what they
    serve; [user], the logging members and the members nothing reads (ts_recent,
    ts_lastack) are left out.  A queue is the list of its segments in order.  The
    datagrams given to [output] are a list, in order.  Allocation succeeds (where it
    fails the code asserts). *)

From Stdlib Require Import ZArith Lia Bool.
From stdpp Require Import base tactics option list numbers.
From S2P Require Import Prelude KcpWire.

#[local] Open Scope Z_scope.

(** ** The control block *)

(** Settings; [bufcap] is the size of the block [buffer]. *)
Record config := Config {
  conv : Z; mtu : Z; mss : Z; snd_wnd : Z; rcv_wnd : Z; nodelay : Z; interval : Z;
  fastresend : Z; fastlimit : Z; nocwnd : Z; stream : Z; dead_link : Z; rx_minrto : Z;
  bufcap : Z
}.

Record sender := Sender {
  snd_una : Z; snd_nxt : Z;
  snd_buf : list seg.t; snd_queue : list seg.t; nsnd_buf : Z; nsnd_que : Z
}.

(** [acklist] is a block of [ackblock] pairs, [ackcount] of them in use. *)
Record receiver := Receiver {
  rcv_nxt : Z;
  rcv_buf : list seg.t; rcv_queue : list seg.t; nrcv_buf : Z; nrcv_que : Z;
  acklist : list Z; ackcount : Z; ackblock : Z
}.

Record rtt_state := Rtt { rx_srtt : Z; rx_rttval : Z; rx_rto : Z }.

Record congestion := Congestion { cwnd : Z; ssthresh : Z; incr : Z; rmt_wnd : Z }.

Record timer := Timer
  { current : Z; ts_flush : Z; updated : Z; ts_probe : Z; probe_wait : Z; probe : Z }.

Record statistics := Statistics { state : Z; xmit : Z; resend_cnt : Z }.

Record kcp := Kcp {
  cfg : config; tx : sender; rx : receiver; rtt : rtt_state; cc : congestion; clk : timer;
  stats : statistics
}.

Definition with_cfg (c : config) (k : kcp) : kcp := Kcp c (tx k) (rx k) (rtt k) (cc k) (clk k) (stats k).
Definition with_tx (s : sender) (k : kcp) : kcp := Kcp (cfg k) s (rx k) (rtt k) (cc k) (clk k) (stats k).
Definition with_rx (r : receiver) (k : kcp) : kcp := Kcp (cfg k) (tx k) r (rtt k) (cc k) (clk k) (stats k).
Definition with_rtt (r : rtt_state) (k : kcp) : kcp := Kcp (cfg k) (tx k) (rx k) r (cc k) (clk k) (stats k).
Definition with_cc (c : congestion) (k : kcp) : kcp := Kcp (cfg k) (tx k) (rx k) (rtt k) c (clk k) (stats k).
Definition with_clk (t : timer) (k : kcp) : kcp := Kcp (cfg k) (tx k) (rx k) (rtt k) (cc k) t (stats k).

Definition ikcp_create (conv : Z) : kcp :=
  Kcp
    (Config conv IKCP_MTU_DEF (u32 (IKCP_MTU_DEF - IKCP_OVERHEAD)) IKCP_WND_SND IKCP_WND_RCV 0 IKCP_INTERVAL
       0 IKCP_FASTACK_LIMIT 0 1 IKCP_DEADLINK IKCP_RTO_MIN ((IKCP_MTU_DEF + IKCP_OVERHEAD) * 3))
    (Sender 0 0 [] [] 0 0)
    (Receiver 0 [] [] 0 0 [] 0 0)
    (Rtt 0 0 IKCP_RTO_DEF)
    (Congestion 0 IKCP_THRESH_INIT 0 IKCP_WND_RCV)
    (Timer 0 IKCP_INTERVAL 0 0 0 0)
    (Statistics 0 0 0).

(** ** Receiving: user level *)

(** [length += seg->len]: an int plus a uint32, converted back to int. *)
Fixpoint peek_length (q : list seg.t) (length : Z) : Z :=
  match q with
  | [] => length
  | s :: q' =>
      let length := i32 (length + seg.len s) in
      if seg.frg s =? 0 then length else peek_length q' length
  end.

Definition ikcp_peeksize (r : receiver) : Z :=
  match rcv_queue r with
  | [] => -1
  | s :: _ =>
      if seg.frg s =? 0 then i32 (seg.len s)
      else if nrcv_que r <? u32 (seg.frg s + 1) then -1
      else peek_length (rcv_queue r) 0
  end.

(** The merge loop: copies the segments of one message to [buffer] (from offset
    [off]; [None] is NULL) and removes them unless this is a peek.  The results are
    the queue left, the count, the memory of [buffer] and the length. *)
Fixpoint merge_loop (ispeek : bool) (q : list seg.t) (n : Z) (buffer : option (list Z)) (off len : Z)
    : outcome (list seg.t * Z * option (list Z) * Z) :=
  match q with
  | [] => Ok ([], n, buffer, len)
  | s :: q' =>
      let* buffer :=
        match buffer with
        | Some b => let* b' := mwrite b off (seg.data s) in Ok (Some b')
        | None => Ok None
        end in
      let off := off + seg.len s in
      let len := i32 (len + seg.len s) in
      let n := if ispeek then n else u32 (n - 1) in
      let* (rest, n, buffer, len) :=
        if seg.frg s =? 0 then Ok (q', n, buffer, len) else merge_loop ispeek q' n buffer off len in
      Ok (if ispeek then s :: rest else rest, n, buffer, len)
  end.

(** Moves what is in order from [rcv_buf] to [rcv_queue]. *)
Fixpoint move_ready (wnd : Z) (buf : list seg.t) (r : receiver) : receiver :=
  match buf with
  | s :: buf' =>
      if (seg.sn s =? rcv_nxt r) && (nrcv_que r <? wnd) then
        move_ready wnd buf'
          (Receiver (u32 (rcv_nxt r + 1)) buf' (rcv_queue r ++ [s]) (u32 (nrcv_buf r - 1))
             (u32 (nrcv_que r + 1)) (acklist r) (ackcount r) (ackblock r))
      else r
  | [] => r
  end.

Definition with_probe (p : Z) (t : timer) : timer :=
  Timer (current t) (ts_flush t) (updated t) (ts_probe t) (probe_wait t) p.

Definition ikcp_recv (k : kcp) (buffer : option (list Z)) (len : Z)
    : outcome (Z * option (list Z) * kcp) :=
  let r := rx k in
  let ispeek := len <? 0 in
  match rcv_queue r with
  | [] => Ok (-1, buffer, k)
  | _ :: _ =>
      let* len := if len <? 0 then int_of (- len) else Ok len in
      let peeksize := ikcp_peeksize r in
      if peeksize <? 0 then Ok (-2, buffer, k)
      else if len <? peeksize then Ok (-3, buffer, k)
      else
        let recover := rcv_wnd (cfg k) <=? nrcv_que r in
        let* (q, n, buffer, len) := merge_loop ispeek (rcv_queue r) (nrcv_que r) buffer 0 0 in
        cxx_assert (len =? peeksize) ;;*
        let r := Receiver (rcv_nxt r) (rcv_buf r) q (nrcv_buf r) n (acklist r) (ackcount r) (ackblock r) in
        let r := move_ready (rcv_wnd (cfg k)) (rcv_buf r) r in
        let k := with_rx r k in
        let k :=
          if (nrcv_que r <? rcv_wnd (cfg k)) && recover then
            with_clk (with_probe (Z.lor (probe (clk k)) IKCP_ASK_TELL) (clk k)) k
          else k in
        Ok (len, buffer, k)
  end.

(** ** Sending: user level *)

Definition seg_of_data (frg : Z) (data : list Z) : seg.t := seg.Mk 0 0 frg 0 0 0 0 0 0 0 0 data.

(** What [ikcp_send] appends to the last queued segment in stream mode: the bytes
    sent, those left, and the queue. *)
Definition send_extend (c : config) (s : sender) (buffer : list Z) (len : Z)
    : outcome (Z * list Z * Z * sender) :=
  if negb (stream c =? 0) then
    match list.last (snd_queue s) with
    | Some old =>
        if seg.len old <? mss c then
          let capacity := i32 (mss c - seg.len old) in
          let extend := if len <? capacity then len else capacity in
          let* bs := mread buffer 0 extend in
          let q := removelast (snd_queue s) ++ [seg_of_data 0 (seg.data old ++ bs)] in
          Ok (extend, drop (Z.to_nat extend) buffer, len - extend,
              Sender (snd_una s) (snd_nxt s) (snd_buf s) q (nsnd_buf s) (nsnd_que s))
        else Ok (0, buffer, len, s)
    | None => Ok (0, buffer, len, s)
    end
  else Ok (0, buffer, len, s).

(** The fragment loop, [todo] rounds of it left. *)
Fixpoint send_fragments (todo : nat) (c : config) (s : sender) (buffer : list Z) (len sent : Z)
    : outcome (Z * sender) :=
  match todo with
  | O => Ok (sent, s)
  | S todo' =>
      let size := if mss c <? len then mss c else len in
      let* bs := mread buffer 0 size in
      let frg := if stream c =? 0 then Z.of_nat todo' else 0 in
      let s := Sender (snd_una s) (snd_nxt s) (snd_buf s) (snd_queue s ++ [seg_of_data frg bs])
                 (nsnd_buf s) (u32 (nsnd_que s + 1)) in
      send_fragments todo' c s (drop (Z.to_nat size) buffer) (len - size) (sent + size)
  end.

Definition fragments (c : config) (len : Z) : Z :=
  if len <=? mss c then 1 else u32 (len + mss c - 1) / mss c.

(** [buffer] is not NULL. *)
Definition ikcp_send (k : kcp) (buffer : list Z) (len : Z) : outcome (Z * kcp) :=
  let c := cfg k in
  cxx_assert (0 <? mss c) ;;*
  if len <? 0 then Ok (-1, k)
  else
    let* (sent, buffer, len, s) := send_extend c (tx k) buffer len in
    if negb (stream c =? 0) && (len <=? 0) then Ok (sent, with_tx s k)
    else
      let count := fragments c len in
      if IKCP_WND_RCV <=? count then
        if negb (stream c =? 0) && (0 <? sent) then Ok (sent, with_tx s k) else Ok (-2, with_tx s k)
      else
        let count := if count =? 0 then 1 else count in
        let* (sent, s) := send_fragments (Z.to_nat count) c s buffer len sent in
        Ok (sent, with_tx s k).

(** ** Acknowledgements *)

Definition ikcp_update_ack (c : config) (t : rtt_state) (rtt : Z) : outcome rtt_state :=
  let* (srtt, rttval) :=
    if rx_srtt t =? 0 then Ok (rtt, Z.quot rtt 2)
    else
      let* delta := int_of (rtt - rx_srtt t) in
      let delta := if delta <? 0 then - delta else delta in
      let* v := int_mul 3 (rx_rttval t) in
      let rttval := i32 (Z.quot (v + delta) 4) in
      let* s7 := int_mul 7 (rx_srtt t) in
      let* s := int_of (s7 + rtt) in
      let srtt := Z.quot s 8 in
      Ok (if srtt <? 1 then 1 else srtt, rttval) in
  let* v4 := int_mul 4 rttval in
  let rto := i32 (u32 (srtt + imax_ (interval c) (u32 v4))) in
  Ok (Rtt srtt rttval (i32 (ibound_ (u32 (rx_minrto c)) (u32 rto) IKCP_RTO_MAX))).

Definition with_una (u : Z) (s : sender) : sender :=
  Sender u (snd_nxt s) (snd_buf s) (snd_queue s) (nsnd_buf s) (nsnd_que s).
Definition with_buf (b : list seg.t) (n : Z) (s : sender) : sender :=
  Sender (snd_una s) (snd_nxt s) b (snd_queue s) n (nsnd_que s).

Definition ikcp_shrink_buf (s : sender) : sender :=
  match snd_buf s with
  | p :: _ => with_una (seg.sn p) s
  | [] => with_una (snd_nxt s) s
  end.

(** Removes the segment with number [sn]; [None]: there is none. *)
Fixpoint ack_loop (sn : Z) (buf : list seg.t) : option (list seg.t) :=
  match buf with
  | [] => None
  | s :: buf' =>
      if sn =? seg.sn s then Some buf'
      else if itimediff sn (seg.sn s) <? 0 then None
      else option_map (cons s) (ack_loop sn buf')
  end.

Definition outstanding (s : sender) (sn : Z) : bool :=
  negb ((itimediff sn (snd_una s) <? 0) || (0 <=? itimediff sn (snd_nxt s))).

Definition ikcp_parse_ack (s : sender) (sn : Z) : sender :=
  if outstanding s sn then
    match ack_loop sn (snd_buf s) with
    | Some buf => with_buf buf (u32 (nsnd_buf s - 1)) s
    | None => s
    end
  else s.

Fixpoint una_loop (una : Z) (buf : list seg.t) (n : Z) : list seg.t * Z :=
  match buf with
  | [] => ([], n)
  | s :: buf' =>
      if 0 <? itimediff una (seg.sn s) then una_loop una buf' (u32 (n - 1)) else (buf, n)
  end.

Definition ikcp_parse_una (s : sender) (una : Z) : sender :=
  let '(buf, n) := una_loop una (snd_buf s) (nsnd_buf s) in with_buf buf n s.

Definition with_fastack (f : Z) (s : seg.t) : seg.t :=
  seg.Mk (seg.conv s) (seg.cmd s) (seg.frg s) (seg.wnd s) (seg.ts s) (seg.sn s) (seg.una s)
    (seg.resendts s) (seg.rto s) f (seg.xmit s) (seg.data s).

Fixpoint fastack_loop (sn : Z) (buf : list seg.t) : list seg.t :=
  match buf with
  | [] => []
  | s :: buf' =>
      if itimediff sn (seg.sn s) <? 0 then buf
      else (if negb (sn =? seg.sn s) then with_fastack (u32 (seg.fastack s + 1)) s else s)
             :: fastack_loop sn buf'
  end.

Definition ikcp_parse_fastack (s : sender) (sn : Z) : sender :=
  if outstanding s sn then with_buf (fastack_loop sn (snd_buf s)) (nsnd_buf s) s else s.

(** [for ( newblock = 8; newblock < newsize; newblock <<= 1 )]: 32 doublings
    exhaust a uint32. *)
Fixpoint double_until (fuel : nat) (newblock newsize : Z) : outcome Z :=
  match fuel with
  | O => Err OutOfFuel
  | S fuel' => if newblock <? newsize then double_until fuel' (u32 (2 * newblock)) newsize else Ok newblock
  end.

(** The rest of a new block is not initialised: 0 stands for it. *)
Definition ikcp_ack_push (r : receiver) (sn ts : Z) : outcome receiver :=
  let newsize := u32 (ackcount r + 1) in
  let* (acklist, ackblock) :=
    if ackblock r <? newsize then
      let* newblock := double_until 33 8 newsize in
      let* old := mread (acklist r) 0 (2 * ackcount r) in
      Ok (old ++ replicate (Z.to_nat (2 * newblock - 2 * ackcount r)) 0, newblock)
    else Ok (acklist r, ackblock r) in
  let* acklist := mwrite acklist (2 * ackcount r) [sn; ts] in
  Ok (Receiver (rcv_nxt r) (rcv_buf r) (rcv_queue r) (nrcv_buf r) (nrcv_que r) acklist
        (u32 (ackcount r + 1)) ackblock).

Definition ikcp_ack_get (r : receiver) (p : Z) : outcome (Z * Z) :=
  let* bs := mread (acklist r) (2 * p) 2 in Ok (nth 0 bs 0, nth 1 bs 0).

(** ** Data from the network *)

(** The search from the end of [rcv_buf], reversed; [None]: a repetition. *)
Fixpoint insert_back (rbuf : list seg.t) (newseg : seg.t) : option (list seg.t) :=
  match rbuf with
  | [] => Some [newseg]
  | s :: rbuf' =>
      if seg.sn s =? seg.sn newseg then None
      else if 0 <? itimediff (seg.sn newseg) (seg.sn s) then Some (newseg :: rbuf)
      else option_map (cons s) (insert_back rbuf' newseg)
  end.

Definition ikcp_parse_data (c : config) (r : receiver) (newseg : seg.t) : receiver :=
  let sn := seg.sn newseg in
  if (0 <=? itimediff sn (u32 (rcv_nxt r + rcv_wnd c))) || (itimediff sn (rcv_nxt r) <? 0) then r
  else
    let r :=
      match insert_back (rev (rcv_buf r)) newseg with
      | Some rbuf =>
          Receiver (rcv_nxt r) (rev rbuf) (rcv_queue r) (u32 (nrcv_buf r + 1)) (nrcv_que r)
            (acklist r) (ackcount r) (ackblock r)
      | None => r
      end in
    move_ready (rcv_wnd c) (rcv_buf r) r.

(** [flag], [maxack] of [ikcp_input] ([latest_ts] is only read by a disabled
    variant). *)
Definition note_ack (sn : Z) (ack : option Z) : option Z :=
  match ack with
  | None => Some sn
  | Some maxack => Some (if 0 <? itimediff sn maxack then sn else maxack)
  end.

Definition with_rmt_wnd (w : Z) (c : congestion) : congestion := Congestion (cwnd c) (ssthresh c) (incr c) w.

(** One segment of the datagram, its header decoded and [len] bytes of data there. *)
Definition input_segment (k : kcp) (ack : option Z) (h : header) (payload : list Z)
    : outcome (kcp * option Z) :=
  let k := with_cc (with_rmt_wnd (h_wnd h) (cc k)) k in
  let k := with_tx (ikcp_shrink_buf (ikcp_parse_una (tx k) (h_una h))) k in
  if h_cmd h =? IKCP_CMD_ACK then
    let* t :=
      (if 0 <=? itimediff (current (clk k)) (h_ts h)
       then ikcp_update_ack (cfg k) (rtt k) (itimediff (current (clk k)) (h_ts h))
       else Ok (rtt k)) in
    let k := with_rtt t k in
    Ok (with_tx (ikcp_shrink_buf (ikcp_parse_ack (tx k) (h_sn h))) k, note_ack (h_sn h) ack)
  else if h_cmd h =? IKCP_CMD_PUSH then
    if itimediff (h_sn h) (u32 (rcv_nxt (rx k) + rcv_wnd (cfg k))) <? 0 then
      let* r := ikcp_ack_push (rx k) (h_sn h) (h_ts h) in
      if 0 <=? itimediff (h_sn h) (rcv_nxt r) then
        let newseg := seg.Mk (h_conv h) (h_cmd h) (h_frg h) (h_wnd h) (h_ts h) (h_sn h) (h_una h) 0 0 0 0 payload in
        Ok (with_rx (ikcp_parse_data (cfg k) r newseg) k, ack)
      else Ok (with_rx r k, ack)
    else Ok (k, ack)
  else if h_cmd h =? IKCP_CMD_WASK then
    Ok (with_clk (with_probe (Z.lor (probe (clk k)) IKCP_ASK_TELL) (clk k)) k, ack)
  else Ok (k, ack).

Definition known_cmd (cmd : Z) : bool :=
  (cmd =? IKCP_CMD_PUSH) || (cmd =? IKCP_CMD_ACK) || (cmd =? IKCP_CMD_WASK) || (cmd =? IKCP_CMD_WINS).

(** The loop over the datagram; a negative result leaves [ikcp_input] at once, 0 is
    the [break]. *)
Fixpoint input_loop (fuel : nat) (k : kcp) (ack : option Z) (data : list Z)
    : outcome (Z * kcp * option Z) :=
  match fuel with
  | O => Err OutOfFuel
  | S fuel' =>
      if zlen data <? IKCP_OVERHEAD then Ok (0, k, ack)
      else
        let* (h_conv, data) := ikcp_decode32u data in
        if negb (h_conv =? conv (cfg k)) then Ok (-1, k, ack)
        else
          let* (h, data) := decode_rest h_conv data in
          if (zlen data <? h_len h) || (i32 (h_len h) <? 0) then Ok (-2, k, ack)
          else if negb (known_cmd (h_cmd h)) then Ok (-3, k, ack)
          else
            let* payload := mread data 0 (h_len h) in
            let* (k, ack) := input_segment k ack h payload in
            input_loop fuel' k ack (drop (Z.to_nat (h_len h)) data)
  end.

(** The end of [ikcp_input]: the congestion window grows when [snd_una] moved. *)
Definition grow_window (mss : Z) (c : congestion) : congestion :=
  if cwnd c <? rmt_wnd c then
    let '(w, i) :=
      if cwnd c <? ssthresh c then (u32 (cwnd c + 1), u32 (incr c + mss))
      else
        let i := if incr c <? mss then mss else incr c in
        let i := u32 (i + u32 (u32 (mss * mss) / i + mss / 16)) in
        (if u32 (u32 (cwnd c + 1) * mss) <=? i
         then u32 (i + mss - 1) / (if 0 <? mss then mss else 1) else cwnd c, i) in
    if rmt_wnd c <? w then Congestion (rmt_wnd c) (ssthresh c) (u32 (rmt_wnd c * mss)) (rmt_wnd c)
    else Congestion w (ssthresh c) i (rmt_wnd c)
  else c.

Definition ikcp_input (k : kcp) (data : list Z) : outcome (Z * kcp) :=
  let prev_una := snd_una (tx k) in
  if zlen data <? IKCP_OVERHEAD then Ok (-1, k)
  else
    let* (code, k, ack) := input_loop (S (length data)) k None data in
    if code <? 0 then Ok (code, k)
    else
      let k := match ack with Some maxack => with_tx (ikcp_parse_fastack (tx k) maxack) k | None => k end in
      let k :=
        if 0 <? itimediff (snd_una (tx k)) prev_una then with_cc (grow_window (mss (cfg k)) (cc k)) k else k in
      Ok (0, k).

(** ** Flushing

    [ptr] is what is in [buffer]; [out] the datagrams given to [output]. *)

Record writer := Writer { ptr : list Z; out : list (list Z) }.

Definition ikcp_output (data : list Z) (w : writer) : list (list Z) :=
  if zlen data =? 0 then out w else out w ++ [data].

(** Sends what is there when [need] more bytes do not fit in a datagram. *)
Definition make_room (c : config) (need : Z) (w : writer) : writer :=
  if mtu c <? zlen (ptr w) + need then Writer [] (ikcp_output (ptr w) w) else w.

(** Writing past the end of [buffer] is undefined. *)
Definition write (c : config) (bs : list Z) (w : writer) : outcome writer :=
  guard_defined (zlen (ptr w) + zlen bs <=? bufcap c) ;;* Ok (Writer (ptr w ++ bs) (out w)).

Definition write_seg (c : config) (s : seg.t) (w : writer) : outcome writer :=
  write c (ikcp_encode_seg [] s) (make_room c IKCP_OVERHEAD w).

Definition ikcp_wnd_unused (c : config) (r : receiver) : Z :=
  if nrcv_que r <? rcv_wnd c then rcv_wnd c - nrcv_que r else 0.

(** The segment [seg] on the stack. *)
Definition flush_seg (k : kcp) (cmd sn ts : Z) : seg.t :=
  seg.Mk (conv (cfg k)) cmd 0 (ikcp_wnd_unused (cfg k) (rx k)) ts sn (rcv_nxt (rx k)) 0 0 0 0 [].

(** [i] counts up to [ackcount]; the last numbers stay in [seg]. *)
Fixpoint flush_acks (todo : nat) (i : Z) (k : kcp) (sn ts : Z) (w : writer) : outcome (Z * Z * writer) :=
  match todo with
  | O => Ok (sn, ts, w)
  | S todo' =>
      let w := make_room (cfg k) IKCP_OVERHEAD w in
      let* (sn, ts) := ikcp_ack_get (rx k) i in
      let* w := write (cfg k) (ikcp_encode_seg [] (flush_seg k IKCP_CMD_ACK sn ts)) w in
      flush_acks todo' (i + 1) k sn ts w
  end.

Definition update_probe (rmt_wnd : Z) (t : timer) : timer :=
  if rmt_wnd =? 0 then
    if probe_wait t =? 0 then
      Timer (current t) (ts_flush t) (updated t) (u32 (current t + IKCP_PROBE_INIT)) IKCP_PROBE_INIT (probe t)
    else if 0 <=? itimediff (current t) (ts_probe t) then
      let wait := if probe_wait t <? IKCP_PROBE_INIT then IKCP_PROBE_INIT else probe_wait t in
      let wait := u32 (wait + wait / 2) in
      let wait := if IKCP_PROBE_LIMIT <? wait then IKCP_PROBE_LIMIT else wait in
      Timer (current t) (ts_flush t) (updated t) (u32 (current t + wait)) wait (Z.lor (probe t) IKCP_ASK_SEND)
    else t
  else Timer (current t) (ts_flush t) (updated t) 0 0 (probe t).

(** The loop that moves segments from [snd_queue] to [snd_buf]. *)
Fixpoint admit_loop (k : kcp) (wnd cwnd : Z) (queue : list seg.t) (s : sender) : sender :=
  if itimediff (snd_nxt s) (u32 (snd_una s + cwnd)) <? 0 then
    match queue with
    | [] => s
    | q :: queue' =>
        let now := current (clk k) in
        let newseg := seg.Mk (conv (cfg k)) IKCP_CMD_PUSH (seg.frg q) wnd now (snd_nxt s) (rcv_nxt (rx k))
                        now (u32 (rx_rto (rtt k))) 0 0 (seg.data q) in
        admit_loop k wnd cwnd queue'
          (Sender (snd_una s) (u32 (snd_nxt s + 1)) (snd_buf s ++ [newseg]) queue'
             (u32 (nsnd_buf s + 1)) (u32 (nsnd_que s - 1)))
    end
  else s.

(** What the loop over [snd_buf] changes besides the segments. *)
Record flushing := Flushing
  { fw : writer; fstats : statistics; change : Z; lost : bool }.

(** Whether a segment is to be sent, and how its members change then: the first
    time, after its timeout, or after enough later ones were acknowledged. *)
Inductive send_reason := NotNow | First | Timeout | Fast.

Definition due (c : config) (now resent : Z) (s : seg.t) : send_reason :=
  if seg.xmit s =? 0 then First
  else if 0 <=? itimediff now (seg.resendts s) then Timeout
  else if resent <=? seg.fastack s then
    if (i32 (seg.xmit s) <=? fastlimit c) || (fastlimit c <=? 0) then Fast else NotNow
  else NotNow.

Definition next_rto (c : config) (rx_rto rto : Z) : Z :=
  if nodelay c =? 0 then u32 (rto + imax_ rto (u32 rx_rto))
  else let step := if nodelay c <? 2 then i32 rto else rx_rto in u32 (rto + Z.quot step 2).

(** The segment as it is sent: [ts], [wnd] and [una] are renewed. *)
Definition resend (c : config) (now rx_rto rtomin wnd una : Z) (why : send_reason) (s : seg.t) : seg.t :=
  let '(resendts, rto, fastack) :=
    match why with
    | First => (u32 (u32 (now + u32 rx_rto) + rtomin), u32 rx_rto, seg.fastack s)
    | Timeout => let r := next_rto c rx_rto (seg.rto s) in (u32 (now + r), r, seg.fastack s)
    | Fast => (u32 (now + seg.rto s), seg.rto s, 0)
    | NotNow => (seg.resendts s, seg.rto s, seg.fastack s)
    end in
  seg.Mk (seg.conv s) (seg.cmd s) (seg.frg s) wnd now (seg.sn s) una resendts rto fastack
    (u32 (seg.xmit s + 1)) (seg.data s).

Definition flush_one (k : kcp) (resent rtomin wnd : Z) (s : seg.t) (f : flushing) : outcome (seg.t * flushing) :=
  let c := cfg k in
  match due c (current (clk k)) resent s with
  | NotNow => Ok (s, f)
  | why =>
      let s := resend c (current (clk k)) (rx_rto (rtt k)) rtomin wnd (rcv_nxt (rx k)) why s in
      let st := fstats f in
      let sent := match why with Timeout => u32 (xmit st + 1) | _ => xmit st end in
      let w := make_room c (IKCP_OVERHEAD + seg.len s) (fw f) in
      let again := if 1 <? seg.xmit s then u32 (resend_cnt st + 1) else resend_cnt st in
      let* w := write c (ikcp_encode_seg [] s) w in
      let* w := write c (seg.data s) w in
      let dead := if dead_link c <=? seg.xmit s then 2 ^ 32 - 1 else state st in
      Ok (s, Flushing w (Statistics dead sent again)
               (match why with Fast => change f + 1 | _ => change f end)
               (match why with Timeout => true | _ => lost f end))
  end.

Fixpoint flush_data (k : kcp) (resent rtomin wnd : Z) (buf : list seg.t) (f : flushing)
    : outcome (list seg.t * flushing) :=
  match buf with
  | [] => Ok ([], f)
  | s :: buf' =>
      let* (s', f) := flush_one k resent rtomin wnd s f in
      let* (buf'', f) := flush_data k resent rtomin wnd buf' f in
      Ok (s' :: buf'', f)
  end.

(** The end of [ikcp_flush]: the slow-start threshold and the congestion window. *)
Definition flush_window (mss inflight resent cwnd' : Z) (change lost : bool) (c : congestion) : congestion :=
  let atleast x := if x <? IKCP_THRESH_MIN then IKCP_THRESH_MIN else x in
  let c :=
    if change then
      let th := atleast (inflight / 2) in
      Congestion (u32 (th + resent)) th (u32 (u32 (th + resent) * mss)) (rmt_wnd c)
    else c in
  let c := if lost then Congestion 1 (atleast (cwnd' / 2)) mss (rmt_wnd c) else c in
  if cwnd c <? 1 then Congestion 1 (ssthresh c) mss (rmt_wnd c) else c.

(** The window the sender may use now. *)
Definition send_window (k : kcp) : Z :=
  let w := imin_ (snd_wnd (cfg k)) (rmt_wnd (cc k)) in
  if nocwnd (cfg k) =? 0 then imin_ (cwnd (cc k)) w else w.

Definition resent_of (c : config) : Z := if 0 <? fastresend c then u32 (fastresend c) else 2 ^ 32 - 1.
Definition rtomin_of (k : kcp) : Z :=
  if nodelay (cfg k) =? 0 then u32 (Z.shiftr (rx_rto (rtt k)) 3) else 0.

(** The acknowledgements and window probes. *)
Definition flush_control (k : kcp) : outcome (timer * writer) :=
  let* (sn, ts, w) := flush_acks (Z.to_nat (ackcount (rx k))) 0 k 0 0 (Writer [] []) in
  let t := update_probe (rmt_wnd (cc k)) (clk k) in
  let* w :=
    (if negb (Z.land (probe t) IKCP_ASK_SEND =? 0)
     then write_seg (cfg k) (flush_seg k IKCP_CMD_WASK sn ts) w else Ok w) in
  let* w :=
    (if negb (Z.land (probe t) IKCP_ASK_TELL =? 0)
     then write_seg (cfg k) (flush_seg k IKCP_CMD_WINS sn ts) w else Ok w) in
  Ok (with_probe 0 t, w).

Definition ikcp_flush (k : kcp) : outcome (kcp * list (list Z)) :=
  if updated (clk k) =? 0 then Ok (k, [])
  else
    let wnd := ikcp_wnd_unused (cfg k) (rx k) in
    let* (t, w) := flush_control k in
    let r := rx k in
    let r := Receiver (rcv_nxt r) (rcv_buf r) (rcv_queue r) (nrcv_buf r) (nrcv_que r) (acklist r) 0 (ackblock r) in
    let s := admit_loop k wnd (send_window k) (snd_queue (tx k)) (tx k) in
    let* (buf, f) :=
      flush_data k (resent_of (cfg k)) (rtomin_of k) wnd (snd_buf s) (Flushing w (stats k) 0 false) in
    let out := if 0 <? zlen (ptr (fw f)) then ikcp_output (ptr (fw f)) (fw f) else out (fw f) in
    let c := flush_window (mss (cfg k)) (u32 (snd_nxt s - snd_una s)) (resent_of (cfg k)) (send_window k)
               (negb (change f =? 0)) (lost f) (cc k) in
    Ok (Kcp (cfg k) (with_buf buf (nsnd_buf s) s) r (rtt k) c t (fstats f), out).

(** ** Time *)

Definition ikcp_update (k : kcp) (now : Z) : outcome (kcp * list (list Z)) :=
  let t := clk k in
  let flush_at := if updated t =? 0 then now else ts_flush t in
  let slap := itimediff now flush_at in
  let '(flush_at, slap) := if (10000 <=? slap) || (slap <? -10000) then (now, 0) else (flush_at, slap) in
  let set f := with_clk (Timer now f (if updated t =? 0 then 1 else updated t) (ts_probe t) (probe_wait t) (probe t)) k in
  if 0 <=? slap then
    let flush_at := u32 (flush_at + interval (cfg k)) in
    let flush_at := if 0 <=? itimediff now flush_at then u32 (now + interval (cfg k)) else flush_at in
    ikcp_flush (set flush_at)
  else Ok (set flush_at, []).

(** The least time to a retransmission; [None]: one is due. *)
Fixpoint check_loop (now : Z) (buf : list seg.t) (tm_packet : Z) : option Z :=
  match buf with
  | [] => Some tm_packet
  | s :: buf' =>
      let diff := itimediff (seg.resendts s) now in
      if diff <=? 0 then None
      else check_loop now buf' (if diff <? tm_packet then diff else tm_packet)
  end.

Definition ikcp_check (k : kcp) (now : Z) : Z :=
  let t := clk k in
  if updated t =? 0 then now
  else
    let flush_at :=
      if (10000 <=? itimediff now (ts_flush t)) || (itimediff now (ts_flush t) <? -10000)
      then now else ts_flush t in
    if 0 <=? itimediff now flush_at then now
    else
      let tm_flush := itimediff flush_at now in
      match check_loop now (snd_buf (tx k)) (2 ^ 31 - 1) with
      | None => now
      | Some tm_packet =>
          let minimal := u32 (if tm_packet <? tm_flush then tm_packet else tm_flush) in
          let minimal := if interval (cfg k) <=? minimal then interval (cfg k) else minimal in
          u32 (now + minimal)
      end.

(** ** Settings *)

(** The new block is allocated first; it always can be. *)
Definition ikcp_setmtu (k : kcp) (mtu : Z) : Z * kcp :=
  if (mtu <? 50) || (mtu <? IKCP_OVERHEAD) then (-1, k)
  else
    let c := cfg k in
    (0, with_cfg (Config (conv c) mtu (u32 (mtu - IKCP_OVERHEAD)) (snd_wnd c) (rcv_wnd c) (nodelay c) (interval c)
                    (fastresend c) (fastlimit c) (nocwnd c) (stream c) (dead_link c) (rx_minrto c)
                    (u32 (u32 (mtu + IKCP_OVERHEAD) * 3))) k).

Definition clamp_interval (interval : Z) : Z :=
  if 5000 <? interval then 5000 else if interval <? 10 then 10 else interval.

Definition ikcp_interval (k : kcp) (interval : Z) : Z * kcp :=
  let c := cfg k in
  (0, with_cfg (Config (conv c) (mtu c) (mss c) (snd_wnd c) (rcv_wnd c) (nodelay c) (clamp_interval interval)
                  (fastresend c) (fastlimit c) (nocwnd c) (stream c) (dead_link c) (rx_minrto c) (bufcap c)) k).

Definition ikcp_nodelay (k : kcp) (nodelay' interval' resend nc : Z) : Z * kcp :=
  let c := cfg k in
  let '(nd, minrto) :=
    if 0 <=? nodelay' then (nodelay', if negb (nodelay' =? 0) then IKCP_RTO_NDL else IKCP_RTO_MIN)
    else (nodelay c, rx_minrto c) in
  (0, with_cfg (Config (conv c) (mtu c) (mss c) (snd_wnd c) (rcv_wnd c) nd
                  (if 0 <=? interval' then clamp_interval interval' else interval c)
                  (if 0 <=? resend then resend else fastresend c) (fastlimit c)
                  (if 0 <=? nc then nc else nocwnd c) (stream c) (dead_link c) minrto (bufcap c)) k).

Definition ikcp_wndsize (k : kcp) (sndwnd rcvwnd : Z) : Z * kcp :=
  let c := cfg k in
  (0, with_cfg (Config (conv c) (mtu c) (mss c) (if 0 <? sndwnd then sndwnd else snd_wnd c)
                  (if 0 <? rcvwnd then imax_ rcvwnd IKCP_WND_RCV else rcv_wnd c) (nodelay c) (interval c)
                  (fastresend c) (fastlimit c) (nocwnd c) (stream c) (dead_link c) (rx_minrto c) (bufcap c)) k).

Definition ikcp_waitsnd (k : kcp) : Z := i32 (u32 (nsnd_buf (tx k) + nsnd_que (tx k))).

(** The stream member is set by the programs that use the library. *)
Definition set_stream (stream' : Z) (k : kcp) : kcp :=
  let c := cfg k in
  with_cfg (Config (conv c) (mtu c) (mss c) (snd_wnd c) (rcv_wnd c) (nodelay c) (interval c)
              (fastresend c) (fastlimit c) (nocwnd c) stream' (dead_link c) (rx_minrto c) (bufcap c)) k.
