(* ===== verification/KcpInv.v ===== *)
(** * The invariant of a KCP control block

    What is always true of the state of Kcp.v: the numbers of the segments in the
    two buffers ascend within half the number space from [snd_una] and [rcv_nxt],
    the counters are the lengths of the lists, the block of the acknowledgements
    has room for them.  Every operation preserves it, whatever bytes arrive; and
    [ikcp_input] ends and stays in its memory. *)

From Stdlib Require Import ZArith Lia Bool.
From stdpp Require Import base tactics option list numbers.
From S2P Require Import Prelude KcpWire Kcp.

#[local] Open Scope Z_scope.

(** ** Sequence numbers

    [offset b n] is how far [n] is after [b] in the circle of the uint32s. *)

Definition offset (b n : Z) : Z := u32 (n - b).

Lemma offset_range b n : 0 <= offset b n < 2 ^ 32.
Proof. apply u32_range. Qed.

Lemma offset_add b d : 0 <= d < 2 ^ 32 -> offset b (u32 (b + d)) = d.
Proof.
  intros H. unfold offset, wrap. rewrite Zminus_mod_idemp_l. rewrite Z.mod_small; lia.
Qed.

Lemma offset_self b : offset b b = 0.
Proof. unfold offset. by rewrite Z.sub_diag. Qed.

Lemma offset_inv b n : 0 <= n < 2 ^ 32 -> n = u32 (b + offset b n).
Proof.
  intros H. unfold offset, wrap. rewrite Zplus_mod_idemp_r. rewrite Z.mod_small; lia.
Qed.

(** The comparison of two numbers that are less than half the circle after [b]. *)
Lemma itimediff_offset b m n :
  offset b m < 2 ^ 31 -> offset b n < 2 ^ 31 -> itimediff m n = offset b m - offset b n.
Proof.
  unfold offset, itimediff, wrap, swrap. intros Hm Hn.
  Z.to_euclidean_division_equations. lia.
Qed.

(** A number compared with the base itself. *)
Lemma itimediff_base b n : 0 <= itimediff n b -> offset b n = itimediff n b.
Proof. unfold offset, itimediff, wrap, swrap. Z.to_euclidean_division_equations. lia. Qed.

Lemma offset_shift b d n :
  0 <= d <= offset b n -> offset (u32 (b + d)) n = offset b n - d.
Proof.
  unfold offset, wrap. intros H. rewrite Zminus_mod_idemp_r.
  Z.to_euclidean_division_equations. lia.
Qed.

Lemma offset_zero b n : 0 <= b < 2 ^ 32 -> 0 <= n < 2 ^ 32 -> offset b n = 0 -> n = b.
Proof. intros Hb Hn H. rewrite (offset_inv b n), H, Z.add_0_r, u32_small by lia. done. Qed.

(** The numbers of [buf] ascend from at least [lo] to below [hi] after [b]. *)
Fixpoint ascending (b lo hi : Z) (buf : list seg.t) : Prop :=
  match buf with
  | [] => True
  | s :: buf' =>
      0 <= seg.sn s < 2 ^ 32 /\ lo <= offset b (seg.sn s) < hi /\
      ascending b (offset b (seg.sn s) + 1) hi buf'
  end.

#[global] Instance ascending_dec b lo hi buf : Decision (ascending b lo hi buf).
Proof. revert lo. induction buf as [|s buf IH]; intros lo; simpl; apply _. Defined.

Lemma ascending_weaken b lo lo' hi hi' buf :
  lo' <= lo -> hi <= hi' -> ascending b lo hi buf -> ascending b lo' hi' buf.
Proof.
  revert lo lo'. induction buf as [|s buf IH]; intros lo lo' Hl Hh; [done|].
  intros (Hs & Ho & Ha). split_and!; [lia | lia | lia|lia|]. by eapply IH; [| |exact Ha].
Qed.

Lemma ascending_length b lo hi buf : lo <= hi -> ascending b lo hi buf -> zlen buf <= hi - lo.
Proof.
  revert lo. induction buf as [|s buf IH]; intros lo H; [simpl; lia|].
  intros (_ & Ho & Ha). apply IH in Ha; [|lia]. cbn [length]. lia.
Qed.

(** Moving the base up to [d <= lo]. *)
Lemma ascending_rebase b d lo hi buf :
  0 <= d <= lo -> ascending b lo hi buf -> ascending (u32 (b + d)) (lo - d) (hi - d) buf.
Proof.
  revert lo. induction buf as [|s buf IH]; intros lo H; [done|].
  intros (Hs & Ho & Ha). simpl. rewrite offset_shift by lia.
  split_and!; [lia | lia | lia | lia|].
  replace (offset b (seg.sn s) - d + 1) with (offset b (seg.sn s) + 1 - d) by lia.
  apply IH; [lia | done].
Qed.

Lemma ascending_app b lo hi buf1 buf2 mid :
  ascending b lo mid buf1 -> ascending b mid hi buf2 -> lo <= mid <= hi -> ascending b lo hi (buf1 ++ buf2).
Proof.
  revert lo. induction buf1 as [|s buf1 IH]; intros lo H1 H2 Hm.
  { by apply (ascending_weaken b mid lo hi hi); [lia..|]. }
  destruct H1 as (Hs & Ho & Ha). cbn [app ascending]. split_and!; [lia.. |].
  apply IH; [done | done | lia].
Qed.

(** A change that keeps the numbers keeps the order. *)
Lemma ascending_sn b lo hi buf buf' :
  map seg.sn buf = map seg.sn buf' -> ascending b lo hi buf -> ascending b lo hi buf'.
Proof.
  revert lo buf'. induction buf as [|s buf IH]; intros lo [|s' buf']; try done.
  cbn [map ascending]. intros [= E1 E2] (Hs & Ho & Ha). rewrite <- E1. split_and!; [lia..|]. by apply IH.
Qed.

(** ** Well-formed states *)

Record sender_ok (s : sender) : Prop := {
  so_una : 0 <= snd_una s < 2 ^ 32;
  so_nxt : 0 <= snd_nxt s < 2 ^ 32;
  so_gap : offset (snd_una s) (snd_nxt s) < 2 ^ 31;
  so_buf : ascending (snd_una s) 0 (offset (snd_una s) (snd_nxt s)) (snd_buf s);
  so_head : snd_una s = match snd_buf s with p :: _ => seg.sn p | [] => snd_nxt s end;
  so_nbuf : nsnd_buf s = zlen (snd_buf s);
  so_nque : nsnd_que s = u32 (zlen (snd_queue s))
}.

Record receiver_ok (r : receiver) : Prop := {
  ro_nxt : 0 <= rcv_nxt r < 2 ^ 32;
  ro_buf : ascending (rcv_nxt r) 0 (2 ^ 31) (rcv_buf r);
  ro_nbuf : nrcv_buf r = zlen (rcv_buf r);
  ro_nque : nrcv_que r = zlen (rcv_queue r) /\ nrcv_que r < 2 ^ 31;
  ro_acks : zlen (acklist r) = 2 * ackblock r;
  ro_count : 0 <= ackcount r <= ackblock r;
  ro_block : ackblock r <= 2 ^ 31
}.

(** The calls set [rx_minrto] to 30 or 100; test.cpp sets it to 10 itself. *)
Definition rto_floor : Z := 10.

Definition config_ok (c : config) : Prop :=
  0 < mss c < 2 ^ 31 /\ 0 < snd_wnd c < 2 ^ 31 /\ 0 < rcv_wnd c < 2 ^ 31 /\ 10 <= interval c <= 5000 /\
  rto_floor <= rx_minrto c <= IKCP_RTO_MIN.

Definition cc_ok (c : congestion) : Prop := 0 <= cwnd c < 2 ^ 32 /\ 0 <= rmt_wnd c < 2 ^ 32.

Definition rtt_ok (t : rtt_state) : Prop := rto_floor <= rx_rto t <= IKCP_RTO_MAX.

Definition wf (k : kcp) : Prop :=
  config_ok (cfg k) /\ sender_ok (tx k) /\ receiver_ok (rx k) /\ rtt_ok (rtt k) /\ cc_ok (cc k).

Lemma wf_intro k :
  config_ok (cfg k) -> sender_ok (tx k) -> receiver_ok (rx k) -> rtt_ok (rtt k) -> cc_ok (cc k) -> wf k.
Proof. by intros. Qed.

Lemma create_wf cv : wf (ikcp_create cv).
Proof.
  repeat split; done.
Qed.

(** ** The sender *)

(** What is left of the buffer after acknowledgements, before [snd_una] moves. *)
Record sender_pre (s : sender) : Prop := {
  sp_una : 0 <= snd_una s < 2 ^ 32;
  sp_nxt : 0 <= snd_nxt s < 2 ^ 32;
  sp_gap : offset (snd_una s) (snd_nxt s) < 2 ^ 31;
  sp_buf : ascending (snd_una s) 0 (offset (snd_una s) (snd_nxt s)) (snd_buf s);
  sp_nbuf : nsnd_buf s = zlen (snd_buf s);
  sp_nque : nsnd_que s = u32 (zlen (snd_queue s))
}.

Lemma sender_ok_pre s : sender_ok s -> sender_pre s.
Proof. intros []. by constructor. Qed.
#[export] Hint Resolve sender_ok_pre : cxx.

Lemma shrink_ok s : sender_pre s -> sender_ok (ikcp_shrink_buf s).
Proof.
  intros [Hu Hn Hg Hb Hc Hq]. unfold ikcp_shrink_buf. destruct (snd_buf s) as [|p buf] eqn:E.
  - constructor; simpl; rewrite ?offset_self, ?E; done.
  - simpl in Hb. destruct Hb as (Hs & Ho & Ha).
    assert (offset (seg.sn p) (snd_nxt s) = offset (snd_una s) (snd_nxt s) - offset (snd_una s) (seg.sn p)) as Eo.
    { rewrite (offset_inv (snd_una s) (seg.sn p)) at 1 by lia. apply offset_shift. lia. }
    constructor; simpl; rewrite ?E; try done; [lia|].
    cbn [ascending]. rewrite offset_self, Eo. split_and!; [lia..|].
    apply (ascending_rebase _ (offset (snd_una s) (seg.sn p))) in Ha; [|lia].
    rewrite <- offset_inv in Ha by lia.
    by replace (offset (snd_una s) (seg.sn p) + 1 - offset (snd_una s) (seg.sn p)) with (0 + 1) in Ha by lia.
Qed.

Lemma una_loop_spec una buf n b hi : n = zlen buf -> zlen buf < 2 ^ 32 -> ascending b 0 hi buf ->
  exists gone, buf = gone ++ fst (una_loop una buf n) /\
    snd (una_loop una buf n) = zlen (fst (una_loop una buf n)) /\
    Forall (fun s => 0 < itimediff una (seg.sn s)) gone /\ ascending b 0 hi (fst (una_loop una buf n)).
Proof.
  revert n. induction buf as [|s buf IH]; intros n -> Hl Ha; [by exists []|].
  cbn [una_loop length] in *. destruct (0 <? itimediff una (seg.sn s)) eqn:E; [|by exists []].
  rewrite u32_small by lia. destruct Ha as (Hs & Ho & Ha).
  destruct (IH (Z.of_nat (S (length buf)) - 1)) as (gone & Eb & En & Hf & Ha'); [lia | lia | |].
  { eapply ascending_weaken; [| |exact Ha]; lia. }
  exists (s :: gone). split_and!; [by rewrite Eb at 1 | done | |done]. constructor; [lia | done].
Qed.

Lemma sender_pre_length s : sender_pre s -> zlen (snd_buf s) < 2 ^ 31.
Proof. intros []. apply ascending_length in sp_buf0; [|apply offset_range]. lia. Qed.

Lemma parse_una_pre s una : sender_pre s -> sender_pre (ikcp_parse_una s una).
Proof.
  intros H. pose proof (sender_pre_length s H) as Hl. destruct H as [Hu Hn Hg Hb Hc Hq].
  unfold ikcp_parse_una. destruct (una_loop una (snd_buf s) (nsnd_buf s)) as [buf n] eqn:E.
  destruct (una_loop_spec una (snd_buf s) (nsnd_buf s) _ _ Hc ltac:(lia) Hb) as (gone & E1 & E2 & _ & Ha).
  rewrite E in *. by constructor.
Qed.

Lemma ack_loop_spec sn buf buf' b lo hi : ack_loop sn buf = Some buf' -> ascending b lo hi buf ->
  ascending b lo hi buf' /\ zlen buf = zlen buf' + 1 /\ buf' `sublist_of` buf.
Proof.
  revert lo buf'. induction buf as [|s buf IH]; intros lo buf'; [done|]. cbn [ack_loop ascending].
  intros H (Hs & Ho & Ha). destruct (sn =? seg.sn s).
  { injection H as <-. split_and!; [by eapply ascending_weaken; [| |exact Ha]; lia | cbn [length]; lia | by apply sublist_cons]. }
  destruct (itimediff sn (seg.sn s) <? 0); [done|].
  destruct (ack_loop sn buf) as [b'|] eqn:E; [|done]. injection H as <-.
  destruct (IH _ _ eq_refl Ha) as (Ha' & Hl & Hsub).
  split_and!; [split_and!; [lia.. | done] | cbn [length]; lia | by apply sublist_skip].
Qed.

Lemma parse_ack_pre s sn : sender_pre s -> sender_pre (ikcp_parse_ack s sn).
Proof.
  intros H. pose proof (sender_pre_length s H) as Hl. unfold ikcp_parse_ack.
  destruct (outstanding s sn); [|done]. destruct (ack_loop sn (snd_buf s)) as [buf|] eqn:E; [|done].
  destruct H as [Hu Hn Hg Hb Hc Hq]. destruct (ack_loop_spec _ _ _ _ _ _ E Hb) as (Ha & Hlen & _).
  constructor; try done. simpl. rewrite Hc, u32_small by lia. lia.
Qed.

Lemma fastack_sn sn buf : map seg.sn (fastack_loop sn buf) = map seg.sn buf.
Proof.
  induction buf as [|s buf IH]; [done|]. cbn [fastack_loop].
  destruct (itimediff sn (seg.sn s) <? 0); [done|]. cbn [map]. rewrite IH. by destruct (sn =? seg.sn s).
Qed.

(** A new buffer with the same numbers. *)
Lemma same_numbers_ok s buf : map seg.sn buf = map seg.sn (snd_buf s) -> sender_ok s ->
  sender_ok (with_buf buf (nsnd_buf s) s).
Proof.
  intros E [Hu Hn Hg Hb Hh Hc Hq]. constructor; simpl; try done.
  - by eapply ascending_sn.
  - rewrite Hh. destruct buf as [|p buf], (snd_buf s) as [|q buf']; try done. simpl in E. congruence.
  - rewrite Hc. pose proof (f_equal length E) as El. rewrite !length_map in El. by rewrite El.
Qed.

Lemma parse_fastack_ok s sn : sender_ok s -> sender_ok (ikcp_parse_fastack s sn).
Proof.
  intros H. unfold ikcp_parse_fastack. destruct (outstanding s sn); [|done].
  apply same_numbers_ok; [|done]. apply fastack_sn.
Qed.

#[export] Hint Resolve shrink_ok parse_una_pre parse_ack_pre parse_fastack_ok : cxx.

(** ** The receiver *)

Lemma ascending_snoc b lo hi l s :
  ascending b lo hi (l ++ [s]) <->
  ascending b lo (offset b (seg.sn s)) l /\ 0 <= seg.sn s < 2 ^ 32 /\ lo <= offset b (seg.sn s) < hi.
Proof.
  revert lo. induction l as [|p l IH]; intros lo; cbn [app ascending]; [tauto|]. rewrite IH. intuition lia.
Qed.

(** Inserting from the end keeps the order; [None] means the number is there. *)
Lemma insert_back_spec b lo hi rbuf new :
  ascending b lo hi (rev rbuf) -> hi <= 2 ^ 31 -> 0 <= seg.sn new < 2 ^ 32 -> lo <= offset b (seg.sn new) < hi ->
  match insert_back rbuf new with
  | Some rbuf' => ascending b lo hi (rev rbuf') /\ Permutation rbuf' (new :: rbuf)
  | None => seg.sn new ∈ map seg.sn rbuf
  end.
Proof.
  intros Ha Hh Hn Ho. revert hi Ha Hh Ho. induction rbuf as [|s rbuf IH]; intros hi Ha Hh Ho.
  { split; [|done]. simpl. split_and!; lia || done. }
  cbn [rev] in Ha. pose proof Ha as (Hp & Hs & Hos)%ascending_snoc. cbn [insert_back].
  destruct (seg.sn s =? seg.sn new) eqn:E1; to_prop; [rewrite <- E1; apply list_elem_of_here|].
  rewrite (itimediff_offset b) by lia. destruct (0 <? _) eqn:E2; to_prop.
  { split; [|done]. cbn [rev]. apply ascending_snoc. split_and!; [|lia..].
    apply ascending_snoc. split_and!; done || lia. }
  assert (offset b (seg.sn new) <> offset b (seg.sn s)) as Hne.
  { intros E. apply E1. rewrite (offset_inv b (seg.sn new)), (offset_inv b (seg.sn s)) by lia. congruence. }
  specialize (IH _ Hp ltac:(lia) ltac:(lia)). destruct (insert_back rbuf new) as [rbuf'|]; simpl.
  - destruct IH as (IH1 & IH2). split.
    + apply ascending_snoc. split_and!; [done | lia..].
    + rewrite IH2. constructor.
  - by apply list_elem_of_further.
Qed.

Lemma insert_back_forall (P : seg.t -> Prop) rbuf new rbuf' :
  insert_back rbuf new = Some rbuf' -> P new -> Forall P rbuf -> Forall P rbuf'.
Proof.
  revert rbuf'. induction rbuf as [|s rbuf IH]; intros rbuf'; cbn [insert_back].
  { intros [= <-] H _. by constructor. }
  destruct (_ =? _); [done|]. destruct (0 <? _); [intros [= <-] H1 H2; by constructor|].
  destruct (insert_back rbuf new) as [b|]; [|done]. intros [= <-] H1 H2.
  apply list.Forall_cons in H2 as [H2 H3]. constructor; [done | by apply IH].
Qed.

Definition recv_rest (r r' : receiver) : Prop :=
  acklist r' = acklist r /\ ackcount r' = ackcount r /\ ackblock r' = ackblock r.

Lemma recv_rest_refl r : recv_rest r r.
Proof. done. Qed.

Lemma move_ready_ok wnd r : receiver_ok r -> wnd < 2 ^ 31 ->
  receiver_ok (move_ready wnd (rcv_buf r) r) /\ recv_rest r (move_ready wnd (rcv_buf r) r).
Proof.
  intros H Hw. remember (rcv_buf r) as buf eqn:E. revert r E H.
  induction buf as [|s buf IH]; intros r E H; cbn [move_ready]; [done|].
  destruct ((seg.sn s =? rcv_nxt r) && (nrcv_que r <? wnd)) eqn:Ec; [|done]. to_prop.
  destruct H as [Hn Hb Hc [Hq1 Hq2] Hal Hcn Hbl]. rewrite <- E in *. destruct Hb as (Hs & Ho & Ha).
  match goal with |- receiver_ok (move_ready _ _ ?r') /\ _ => set (r1 := r') end.
  assert (offset (rcv_nxt r) (seg.sn s) = 0) as E0 by (replace (seg.sn s) with (rcv_nxt r) by done; apply offset_self).
  assert (zlen buf <= 2 ^ 31 - 1) as Hlen by (eapply ascending_length in Ha; lia).
  assert (receiver_ok r1) as Hr1.
  { constructor; simpl; try done; [apply u32_range | | | ].
    - rewrite E0 in Ha. apply (ascending_rebase _ 1) in Ha; [|lia]. eapply ascending_weaken; [| |exact Ha]; lia.
    - rewrite Hc. cbn [length]. rewrite u32_small by lia. lia.
    - rewrite length_app, u32_small by lia. cbn [length]. lia. }
  by destruct (IH r1 eq_refl Hr1).
Qed.

Lemma parse_data_ok c r new : receiver_ok r -> 0 < rcv_wnd c < 2 ^ 31 -> 0 <= seg.sn new < 2 ^ 32 ->
  receiver_ok (ikcp_parse_data c r new) /\ recv_rest r (ikcp_parse_data c r new).
Proof.
  intros H Hw Hs. unfold ikcp_parse_data.
  destruct ((0 <=? itimediff (seg.sn new) (u32 (rcv_nxt r + rcv_wnd c))) ||
    (itimediff (seg.sn new) (rcv_nxt r) <? 0)) eqn:E; [done|]. to_prop.
  pose proof (i32_range (seg.sn new - rcv_nxt r)) as Hi. fold (itimediff (seg.sn new) (rcv_nxt r)) in Hi.
  assert (offset (rcv_nxt r) (seg.sn new) < 2 ^ 31) as Ho by (rewrite itimediff_base; lia).
  pose proof (offset_range (rcv_nxt r) (seg.sn new)) as Ho0.
  destruct H as [Hn Hb Hc Hq Hal Hcn Hbl].
  pose proof (ascending_length (rcv_nxt r) 0 (2 ^ 31) _ ltac:(lia) Hb) as Hl.
  pose proof (insert_back_spec _ 0 _ (rev (rcv_buf r)) new ltac:(by rewrite rev_involutive)
    ltac:(lia) Hs ltac:(lia)) as Hi'.
  destruct (insert_back (rev (rcv_buf r)) new) as [rbuf|].
  - destruct Hi' as (Ha & Hp). pose proof (Permutation_length Hp) as Hlen.
    cbn [length] in Hlen. rewrite length_rev in Hlen.
    match goal with |- receiver_ok (move_ready _ _ ?r') /\ _ => set (r1 := r') end.
    change (recv_rest r) with (recv_rest r1). apply (move_ready_ok _ r1); [|lia].
    constructor; simpl; try done. rewrite u32_small, length_rev by lia. lia.
  - apply move_ready_ok; [by constructor | lia].
Qed.

(** The block grows by doubling. *)
Lemma double_until_spec fuel k n : n <= 2 ^ 31 -> 0 <= k -> 32 - k <= Z.of_nat fuel -> k <= 31 ->
  exists j, double_until fuel (2 ^ k) n = Ok (2 ^ j) /\ n <= 2 ^ j /\ k <= j <= 31.
Proof.
  intros Hn. revert k. induction fuel as [|fuel IH]; intros k Hk Hf Hk31; [lia|].
  cbn [double_until]. destruct (2 ^ k <? n) eqn:E; to_prop.
  - assert (k <> 31) by (intros ->; lia).
    destruct (IH (k + 1)) as (j & Ej & Hj1 & Hj2); [lia..|]. exists j. rewrite <- Ej.
    split; [|lia]. f_equal. rewrite Z.pow_add_r, Z.pow_1_r by lia.
    assert (2 ^ k <= 2 ^ 30) by (apply Z.pow_le_mono_r; lia). rewrite u32_small by lia. lia.
  - exists k. split_and!; [done | lia..].
Qed.

Lemma ack_push_ok r sn ts : receiver_ok r -> ackcount r < 2 ^ 31 ->
  exists r', ikcp_ack_push r sn ts = Ok r' /\ receiver_ok r' /\
    ackcount r' = ackcount r + 1 /\ rcv_nxt r' = rcv_nxt r /\ rcv_buf r' = rcv_buf r /\
    rcv_queue r' = rcv_queue r /\ nrcv_que r' = nrcv_que r /\ nrcv_buf r' = nrcv_buf r /\
    take (Z.to_nat (2 * ackcount r')) (acklist r') = take (Z.to_nat (2 * ackcount r)) (acklist r) ++ [sn; ts].
Proof.
  intros [Hn Hb Hc Hq Hal Hcn Hbl] Hlt. unfold ikcp_ack_push. rewrite (u32_small (ackcount r + 1)) by lia.
  assert (exists acks blk, (if ackblock r <? ackcount r + 1 then
      let* newblock := double_until 33 8 (ackcount r + 1) in
      let* old := mread (acklist r) 0 (2 * ackcount r) in
      Ok (old ++ replicate (Z.to_nat (2 * newblock - 2 * ackcount r)) 0, newblock)
    else Ok (acklist r, ackblock r)) = Ok (acks, blk) /\ zlen acks = 2 * blk /\ ackcount r + 1 <= blk <= 2 ^ 31 /\
      take (Z.to_nat (2 * ackcount r)) acks = take (Z.to_nat (2 * ackcount r)) (acklist r)) as
    (acks & blk & -> & Hl & Hblk & Ht).
  { destruct (ackblock r <? ackcount r + 1) eqn:E; to_prop; [|exists (acklist r), (ackblock r); split_and!; done || lia].
    destruct (double_until_spec 33 3 (ackcount r + 1)) as (j & Ej & Hj1 & Hj2); [lia..|].
    change (2 ^ 3) with 8 in Ej. rewrite Ej. cbn [mbind outcome_bind]. rewrite mread_ok by lia. cbn [mbind outcome_bind].
    assert (2 ^ j <= 2 ^ 31) by (apply Z.pow_le_mono_r; lia).
    eexists _, _. split; [done|]. rewrite length_app, length_replicate, Nat2Z.inj_add.
    rewrite length_slice by lia. split_and!; [lia..|].
    rewrite take_app_le by (pose proof (length_slice (acklist r) 0 (2 * ackcount r)); lia).
    unfold slice. by rewrite take_take, Nat.min_id. }
  cbn [mbind outcome_bind]. rewrite mwrite_ok by (cbn [length]; lia). cbn [mbind outcome_bind].
  eexists. split; [done|]. split.
  - constructor; simpl; try done; try lia. rewrite length_splice by (cbn [length]; lia). done.
  - cbn [ackcount acklist rcv_nxt rcv_buf rcv_queue nrcv_que nrcv_buf]. split_and!; [done.. |].
    unfold splice. rewrite app_assoc. rewrite take_app_le by (rewrite length_app, length_take; cbn [length]; lia).
    rewrite take_ge by (rewrite length_app, length_take; cbn [length]; lia). by rewrite Ht.
Qed.

Lemma ack_push_same r sn ts r' : ikcp_ack_push r sn ts = Ok r' ->
  rcv_queue r' = rcv_queue r /\ rcv_nxt r' = rcv_nxt r /\ rcv_buf r' = rcv_buf r.
Proof.
  unfold ikcp_ack_push. intros ([a b] & _ & H)%outcome_bind_inv.
  apply outcome_bind_inv in H as (a' & _ & H). by injection H as <-.
Qed.
