(* ===== verification/Iqueue.v ===== *)
(** * The linked queues of KCP

    Models the queues of io/kcp/include/ikcp.h as they are in memory: circular doubly
    linked lists whose nodes are the first member of a segment and whose heads are
    members of the control block, the macros that link and unlink a node, and on top of
    them the loops of ikcp.c that go through the queues.  Kcp.v has the same operations
    on lists; here they are shown to do the same, without following a null or dangling
    pointer, freeing a segment twice or losing one. *)

From Stdlib Require Import ZArith Lia Bool.
From stdpp Require Import base tactics option list numbers gmap functions fin_maps.
From S2P Require Import Prelude KcpWire.
From S2P Require Kcp.

#[local] Open Scope Z_scope.

(** ** Memory

    An address is a [Z], NULL is 0; a structure is known by its address, its extent is not modelled.  The members of the structures IQUEUEHEAD and IKCPSEG
    are maps from the address of a structure to its member; [node] being the first member of
    IKCPSEG, [iqueue_entry] leaves the address as it is.  What malloc returns is new and not null. *)

Inductive queue := snd_queue | rcv_queue | snd_buf | rcv_buf.

#[global] Instance queue_eq_dec : EqDecision queue.
Proof. solve_decision. Defined.

(** The members of IKCPCB that the loops read and write. *)
Record block := Block {
  cfg : Kcp.config; current : Z; rx_rto : Z;
  snd_una : Z; snd_nxt : Z; nsnd_buf : Z; nsnd_que : Z;
  rcv_nxt : Z; nrcv_buf : Z; nrcv_que : Z; probe : Z
}.

Record memory := Memory { next : gmap Z Z; prev : gmap Z Z; segs : gmap Z seg.t; cb : block }.

Class Allocator := {
  malloc : gset Z -> Z;
  malloc_fresh X : malloc X ∉ X;
  malloc_not_null X : malloc X <> 0
}.

#[refine] #[global] Instance first_free : Allocator := {| malloc X := fresh (X ∪ {[0]}) |}.
Proof.
  - intros X H. apply (is_fresh (X ∪ {[0]})). set_solver.
  - intros X H. apply (is_fresh (X ∪ {[0]})). set_solver.
Defined.

(** The address of the head of a queue: its member of the control block, which is at [kcp]. *)
Class Kcpcb := {
  kcp : Z;
  kcp_not_null : 0 < kcp
}.

Definition head `{Kcpcb} (q : queue) : Z :=
  kcp + match q with snd_queue => 136 | rcv_queue => 152 | snd_buf => 168 | rcv_buf => 184 end.

Definition M (A : Type) : Type := memory -> outcome (A * memory).

Definition ret {A} (a : A) : M A := fun m => Ok (a, m).
Definition bind {A B} (c : M A) (k : A -> M B) : M B := fun m =>
  match c m with Ok (a, m') => k a m' | Err f => Err f end.

Notation "'let!' x ':=' c 'in' k" := (bind c (fun x => k))
  (at level 10, x pattern, c at level 100, k at level 200) : cxx_scope.
Notation "c ';;!' k" := (bind c (fun _ => k))
  (at level 100, k at level 200, right associativity) : cxx_scope.

Definition lift {A} (c : outcome A) : M A := fun m => let* a := c in Ok (a, m).

(** A member of the structure at [p] is read or written: [p] must point to one. *)
Definition load {A} (member : memory -> gmap Z A) (p : Z) : M A := fun m =>
  if p =? 0 then Err UndefinedBehaviour
  else match member m !! p with Some v => Ok (v, m) | None => Err UndefinedBehaviour end.

Definition set_next (p v : Z) : M unit :=
  let! _ := load next p in fun m => Ok (tt, Memory (<[p:=v]> (next m)) (prev m) (segs m) (cb m)).
Definition set_prev (p v : Z) : M unit :=
  let! _ := load prev p in fun m => Ok (tt, Memory (next m) (<[p:=v]> (prev m)) (segs m) (cb m)).
Definition set_seg (p : Z) (s : seg.t) : M unit :=
  let! _ := load segs p in fun m => Ok (tt, Memory (next m) (prev m) (<[p:=s]> (segs m)) (cb m)).

Definition get_block : M block := fun m => Ok (cb m, m).
Definition modify (f : block -> block) : M unit := fun m =>
  Ok (tt, Memory (next m) (prev m) (segs m) (f (cb m))).

(** The new segment's members are not set: what is read of them before is not fixed by the
    code, which sets the links and the data first. *)
Definition ikcp_segment_new `{Allocator} (s : seg.t) : M Z := fun m =>
  let p := malloc (dom (next m)) in
  Ok (p, Memory (<[p:=0]> (next m)) (<[p:=0]> (prev m)) (<[p:=s]> (segs m)) (cb m)).

Definition ikcp_segment_delete (p : Z) : M unit :=
  let! _ := load segs p in fun m =>
  Ok (tt, Memory (delete p (next m)) (delete p (prev m)) (delete p (segs m)) (cb m)).

(** ** The macros *)

Definition IQUEUE_INIT (ptr : Z) : M unit :=
  set_next ptr ptr ;;! set_prev ptr ptr.

Definition IQUEUE_ADD (node head : Z) : M unit :=
  set_prev node head ;;!
  let! n := load next head in set_next node n ;;!
  let! n := load next head in set_prev n node ;;!
  set_next head node.

Definition IQUEUE_ADD_TAIL (node head : Z) : M unit :=
  let! p := load prev head in set_prev node p ;;!
  set_next node head ;;!
  let! p := load prev head in set_next p node ;;!
  set_prev head node.

Definition IQUEUE_DEL (entry : Z) : M unit :=
  let! n := load next entry in let! p := load prev entry in set_prev n p ;;!
  let! p := load prev entry in let! n := load next entry in set_next p n ;;!
  set_next entry 0 ;;!
  set_prev entry 0.

Definition IQUEUE_DEL_INIT (entry : Z) : M unit := IQUEUE_DEL entry ;;! IQUEUE_INIT entry.

Definition IQUEUE_IS_EMPTY (entry : Z) : M bool :=
  let! n := load next entry in ret (entry =? n).

(** ** The loops of ikcp.c

    A loop over a queue takes fuel; a call gives it one more than there are segments. *)

Definition with_fuel {A} (c : nat -> M A) : M A := fun m => c (S (size (segs m))) m.
Definition out_of_fuel {A} : M A := fun _ => Err OutOfFuel.

Definition with_counts (nxt nbuf nque : Z) (b : block) : block :=
  Block (cfg b) (current b) (rx_rto b) (snd_una b) nxt nbuf nque
    (rcv_nxt b) (nrcv_buf b) (nrcv_que b) (probe b).
Definition with_una (una : Z) (b : block) : block :=
  Block (cfg b) (current b) (rx_rto b) una (snd_nxt b) (nsnd_buf b) (nsnd_que b)
    (rcv_nxt b) (nrcv_buf b) (nrcv_que b) (probe b).
Definition with_rcounts (nxt nbuf nque : Z) (b : block) : block :=
  Block (cfg b) (current b) (rx_rto b) (snd_una b) (snd_nxt b) (nsnd_buf b) (nsnd_que b)
    nxt nbuf nque (probe b).
Definition with_probe (p : Z) (b : block) : block :=
  Block (cfg b) (current b) (rx_rto b) (snd_una b) (snd_nxt b) (nsnd_buf b) (nsnd_que b)
    (rcv_nxt b) (nrcv_buf b) (nrcv_que b) p.

Definition less_snd_buf (b : block) : block := with_counts (snd_nxt b) (u32 (nsnd_buf b - 1)) (nsnd_que b) b.

Section Calls.
Context `{Kcpcb}.

Definition ikcp_shrink_buf : M unit :=
  let! p := load next (head snd_buf) in
  if negb (p =? head snd_buf) then
    let! s := load segs p in modify (with_una (seg.sn s))
  else let! b := get_block in modify (with_una (snd_nxt b)).

Definition outstanding (sn : Z) (b : block) : bool :=
  negb ((itimediff sn (snd_una b) <? 0) || (0 <=? itimediff sn (snd_nxt b))).

Fixpoint ack_loop (fuel : nat) (sn p : Z) : M unit :=
  match fuel with
  | O => out_of_fuel
  | S fuel =>
      if p =? head snd_buf then ret tt
      else
        let! s := load segs p in
        let! nxt := load next p in
        if sn =? seg.sn s then
          IQUEUE_DEL p ;;! ikcp_segment_delete p ;;! modify less_snd_buf
        else if itimediff sn (seg.sn s) <? 0 then ret tt
        else ack_loop fuel sn nxt
  end.

Definition ikcp_parse_ack (sn : Z) : M unit :=
  let! b := get_block in
  if outstanding sn b then
    let! p := load next (head snd_buf) in with_fuel (fun fuel => ack_loop fuel sn p)
  else ret tt.

Fixpoint una_loop (fuel : nat) (una p : Z) : M unit :=
  match fuel with
  | O => out_of_fuel
  | S fuel =>
      if p =? head snd_buf then ret tt
      else
        let! s := load segs p in
        let! nxt := load next p in
        if 0 <? itimediff una (seg.sn s) then
          IQUEUE_DEL p ;;! ikcp_segment_delete p ;;! modify less_snd_buf ;;! una_loop fuel una nxt
        else ret tt
  end.

Definition ikcp_parse_una (una : Z) : M unit :=
  let! p := load next (head snd_buf) in with_fuel (fun fuel => una_loop fuel una p).

Fixpoint fastack_loop (fuel : nat) (sn p : Z) : M unit :=
  match fuel with
  | O => out_of_fuel
  | S fuel =>
      if p =? head snd_buf then ret tt
      else
        let! s := load segs p in
        let! nxt := load next p in
        if itimediff sn (seg.sn s) <? 0 then ret tt
        else
          (if negb (sn =? seg.sn s) then set_seg p (Kcp.with_fastack (u32 (seg.fastack s + 1)) s) else ret tt) ;;!
          fastack_loop fuel sn nxt
  end.

Definition ikcp_parse_fastack (sn : Z) : M unit :=
  let! b := get_block in
  if outstanding sn b then
    let! p := load next (head snd_buf) in with_fuel (fun fuel => fastack_loop fuel sn p)
  else ret tt.

(** The loop that moves what is in order from [rcv_buf] to [rcv_queue], in [ikcp_recv]
    and [ikcp_parse_data]. *)
Fixpoint move_loop (fuel : nat) : M unit :=
  match fuel with
  | O => out_of_fuel
  | S fuel =>
      let! e := IQUEUE_IS_EMPTY (head rcv_buf) in
      if negb e then
        let! p := load next (head rcv_buf) in
        let! s := load segs p in
        let! b := get_block in
        if (seg.sn s =? rcv_nxt b) && (nrcv_que b <? Kcp.rcv_wnd (cfg b)) then
          IQUEUE_DEL p ;;!
          modify (fun b => with_rcounts (rcv_nxt b) (u32 (nrcv_buf b - 1)) (nrcv_que b) b) ;;!
          IQUEUE_ADD_TAIL p (head rcv_queue) ;;!
          modify (fun b => with_rcounts (u32 (rcv_nxt b + 1)) (nrcv_buf b) (u32 (nrcv_que b + 1)) b) ;;!
          move_loop fuel
        else ret tt
      else ret tt
  end.

(** The search from the end of [rcv_buf]: the node after which a segment belongs, and
    [repeat]. *)
Fixpoint search_loop (fuel : nat) (sn p : Z) : M (Z * bool) :=
  match fuel with
  | O => out_of_fuel
  | S fuel =>
      if p =? head rcv_buf then ret (p, false)
      else
        let! s := load segs p in
        let! prv := load prev p in
        if seg.sn s =? sn then ret (p, true)
        else if 0 <? itimediff sn (seg.sn s) then ret (p, false)
        else search_loop fuel sn prv
  end.

Definition ikcp_parse_data (newseg : Z) : M unit :=
  let! s := load segs newseg in
  let! b := get_block in
  let sn := seg.sn s in
  if (0 <=? itimediff sn (u32 (rcv_nxt b + Kcp.rcv_wnd (cfg b)))) || (itimediff sn (rcv_nxt b) <? 0) then
    ikcp_segment_delete newseg
  else
    let! p := load prev (head rcv_buf) in
    let! (p, repeat) := with_fuel (fun fuel => search_loop fuel sn p) in
    (if negb repeat then
       IQUEUE_INIT newseg ;;! IQUEUE_ADD newseg p ;;!
       modify (fun b => with_rcounts (rcv_nxt b) (u32 (nrcv_buf b + 1)) (nrcv_que b) b)
     else ikcp_segment_delete newseg) ;;!
    with_fuel move_loop.

(** The loop of [ikcp_peeksize]. *)
Fixpoint peek_loop (fuel : nat) (p length : Z) : M Z :=
  match fuel with
  | O => out_of_fuel
  | S fuel =>
      if p =? head rcv_queue then ret length
      else
        let! s := load segs p in
        let length := i32 (length + seg.len s) in
        if seg.frg s =? 0 then ret length
        else let! p := load next p in peek_loop fuel p length
  end.

Definition ikcp_peeksize : M Z :=
  let! e := IQUEUE_IS_EMPTY (head rcv_queue) in
  if e then ret (-1)
  else
    let! p := load next (head rcv_queue) in
    let! s := load segs p in
    let! b := get_block in
    if seg.frg s =? 0 then ret (i32 (seg.len s))
    else if nrcv_que b <? u32 (seg.frg s + 1) then ret (-1)
    else
      let! p := load next (head rcv_queue) in with_fuel (fun fuel => peek_loop fuel p 0).

(** [buffer] is the memory of the caller's buffer ([None] is NULL), [off] how far it has
    been advanced. *)
Fixpoint merge_loop (fuel : nat) (ispeek : bool) (p : Z) (buffer : option (list Z)) (off len : Z)
    : M (option (list Z) * Z) :=
  match fuel with
  | O => out_of_fuel
  | S fuel =>
      if p =? head rcv_queue then ret (buffer, len)
      else
        let! s := load segs p in
        let! nxt := load next p in
        let! buffer :=
          match buffer with
          | Some b => let! b := lift (mwrite b off (seg.data s)) in ret (Some b)
          | None => ret None
          end in
        let len := i32 (len + seg.len s) in
        let fragment := seg.frg s in
        (if ispeek then ret tt
         else
           IQUEUE_DEL p ;;! ikcp_segment_delete p ;;!
           modify (fun b => with_rcounts (rcv_nxt b) (nrcv_buf b) (u32 (nrcv_que b - 1)) b)) ;;!
        if fragment =? 0 then ret (buffer, len)
        else merge_loop fuel ispeek nxt buffer (off + seg.len s) len
  end.

Definition ikcp_recv (buffer : option (list Z)) (len : Z) : M (Z * option (list Z)) :=
  let ispeek := len <? 0 in
  let! e := IQUEUE_IS_EMPTY (head rcv_queue) in
  if e then ret (-1, buffer)
  else
    let! len := lift (if len <? 0 then int_of (- len) else Ok len) in
    let! peeksize := ikcp_peeksize in
    if peeksize <? 0 then ret (-2, buffer)
    else if len <? peeksize then ret (-3, buffer)
    else
      let! b := get_block in
      let recover := Kcp.rcv_wnd (cfg b) <=? nrcv_que b in
      let! p := load next (head rcv_queue) in
      let! (buffer, len) := with_fuel (fun fuel => merge_loop fuel ispeek p buffer 0 0) in
      lift (cxx_assert (len =? peeksize)) ;;!
      with_fuel move_loop ;;!
      let! b := get_block in
      (if (nrcv_que b <? Kcp.rcv_wnd (cfg b)) && recover then
         modify (fun b => with_probe (Z.lor (probe b) IKCP_ASK_TELL) b)
       else ret tt) ;;!
      ret (len, buffer).

(** The loop of [ikcp_flush] that moves segments from [snd_queue] to [snd_buf]; [wnd] and
    [cwnd] are computed before it. *)
Fixpoint admit_loop (fuel : nat) (wnd cwnd : Z) : M unit :=
  match fuel with
  | O => out_of_fuel
  | S fuel =>
      let! b := get_block in
      if itimediff (snd_nxt b) (u32 (snd_una b + cwnd)) <? 0 then
        let! e := IQUEUE_IS_EMPTY (head snd_queue) in
        if e then ret tt
        else
          let! p := load next (head snd_queue) in
          IQUEUE_DEL p ;;! IQUEUE_ADD_TAIL p (head snd_buf) ;;!
          modify (fun b => with_counts (snd_nxt b) (u32 (nsnd_buf b + 1)) (u32 (nsnd_que b - 1)) b) ;;!
          let! s := load segs p in
          set_seg p (seg.Mk (Kcp.conv (cfg b)) IKCP_CMD_PUSH (seg.frg s) wnd (current b) (snd_nxt b) (rcv_nxt b)
                       (current b) (u32 (rx_rto b)) 0 0 (seg.data s)) ;;!
          modify (fun b => with_counts (u32 (snd_nxt b + 1)) (nsnd_buf b) (nsnd_que b) b) ;;!
          admit_loop fuel wnd cwnd
      else ret tt
  end.

(** [while ( !iqueue_is_empty( &kcp->q ) )] of [ikcp_release]. *)
Fixpoint release_loop (fuel : nat) (q : queue) : M unit :=
  match fuel with
  | O => out_of_fuel
  | S fuel =>
      let! e := IQUEUE_IS_EMPTY (head q) in
      if negb e then
        let! p := load next (head q) in IQUEUE_DEL p ;;! ikcp_segment_delete p ;;! release_loop fuel q
      else ret tt
  end.

(** [ikcp_release], but for the blocks of [buffer], [acklist] and the control block. *)
Definition ikcp_release : M unit :=
  with_fuel (fun fuel => release_loop fuel snd_buf) ;;!
  with_fuel (fun fuel => release_loop fuel rcv_buf) ;;!
  with_fuel (fun fuel => release_loop fuel snd_queue) ;;!
  with_fuel (fun fuel => release_loop fuel rcv_queue) ;;!
  modify (fun b => with_counts (snd_nxt b) 0 0 b) ;;!
  modify (fun b => with_rcounts (rcv_nxt b) 0 0 b).

Context `{Allocator}.

(** What [ikcp_send] does first in stream mode: it appends to the last queued segment. The
    bytes sent, the buffer advanced and the bytes left. *)
Definition send_extend (buffer : list Z) (len : Z) : M (Z * list Z * Z) :=
  let! b := get_block in
  if negb (Kcp.stream (cfg b) =? 0) then
    let! e := IQUEUE_IS_EMPTY (head snd_queue) in
    if e then ret (0, buffer, len)
    else
      let! oldp := load prev (head snd_queue) in
      let! old := load segs oldp in
      if seg.len old <? Kcp.mss (cfg b) then
        let capacity := i32 (Kcp.mss (cfg b) - seg.len old) in
        let extend := if len <? capacity then len else capacity in
        let! p := ikcp_segment_new (Kcp.seg_of_data 0 []) in
        IQUEUE_ADD_TAIL p (head snd_queue) ;;!
        let! bs := lift (mread buffer 0 extend) in
        set_seg p (Kcp.seg_of_data 0 (seg.data old ++ bs)) ;;!
        IQUEUE_DEL_INIT oldp ;;!
        ikcp_segment_delete oldp ;;!
        ret (extend, drop (Z.to_nat extend) buffer, len - extend)
      else ret (0, buffer, len)
  else ret (0, buffer, len).

Fixpoint send_fragments (todo : nat) (buffer : list Z) (len sent : Z) : M Z :=
  match todo with
  | O => ret sent
  | S todo' =>
      let! b := get_block in
      let size := if Kcp.mss (cfg b) <? len then Kcp.mss (cfg b) else len in
      let! p := ikcp_segment_new (Kcp.seg_of_data 0 []) in
      let! bs := lift (mread buffer 0 size) in
      let frg := if Kcp.stream (cfg b) =? 0 then Z.of_nat todo' else 0 in
      set_seg p (Kcp.seg_of_data frg bs) ;;!
      IQUEUE_INIT p ;;! IQUEUE_ADD_TAIL p (head snd_queue) ;;!
      modify (fun b => with_counts (snd_nxt b) (nsnd_buf b) (u32 (nsnd_que b + 1)) b) ;;!
      send_fragments todo' (drop (Z.to_nat size) buffer) (len - size) (sent + size)
  end.

Definition ikcp_send (buffer : list Z) (len : Z) : M Z :=
  let! b := get_block in
  let c := cfg b in
  lift (cxx_assert (0 <? Kcp.mss c)) ;;!
  if len <? 0 then ret (-1)
  else
    let! (sent, buffer, len) := send_extend buffer len in
    if negb (Kcp.stream c =? 0) && (len <=? 0) then ret sent
    else
      let count := Kcp.fragments c len in
      if IKCP_WND_RCV <=? count then
        if negb (Kcp.stream c =? 0) && (0 <? sent) then ret sent else ret (-2)
      else send_fragments (Z.to_nat (if count =? 0 then 1 else count)) buffer len sent.

(** The data segment of [ikcp_input]: its members are set before [ikcp_parse_data]. *)
Definition input_push (s : seg.t) : M unit :=
  let! p := ikcp_segment_new s in ikcp_parse_data p.

End Calls.

(** [ikcp_create] of the queues: the heads are initialised. *)
Definition create_queues `{Kcpcb} : M unit :=
  IQUEUE_INIT (head snd_queue) ;;! IQUEUE_INIT (head rcv_queue) ;;!
  IQUEUE_INIT (head snd_buf) ;;! IQUEUE_INIT (head rcv_buf).

(** The memory of a control block just allocated, its heads not yet set. *)
Definition heads `{Kcpcb} : gmap Z Z :=
  <[head snd_queue:=0]> (<[head rcv_queue:=0]> (<[head snd_buf:=0]> {[head rcv_buf:=0]})).
Definition block_of (k : Kcp.kcp) : block :=
  Block (Kcp.cfg k) (Kcp.current (Kcp.clk k)) (Kcp.rx_rto (Kcp.rtt k))
    (Kcp.snd_una (Kcp.tx k)) (Kcp.snd_nxt (Kcp.tx k)) (Kcp.nsnd_buf (Kcp.tx k)) (Kcp.nsnd_que (Kcp.tx k))
    (Kcp.rcv_nxt (Kcp.rx k)) (Kcp.nrcv_buf (Kcp.rx k)) (Kcp.nrcv_que (Kcp.rx k)) (Kcp.probe (Kcp.clk k)).

(** ** Rings

    [linked m a l z]: following [next] from [a] one passes the nodes [l] and comes to [z], and
    following [prev] from [z] one comes back. *)

Definition edge (m : memory) (a b : Z) : Prop := next m !! a = Some b /\ prev m !! b = Some a.

Fixpoint linked (m : memory) (a : Z) (l : list Z) (z : Z) : Prop :=
  match l with
  | [] => edge m a z
  | b :: l => edge m a b /\ linked m b l z
  end.

Record ring (m : memory) (hd : Z) (l : list Z) : Prop := Ring {
  ring_linked : linked m hd l hd;
  ring_nodup : NoDup (hd :: l);
  ring_not_null : 0 ∉ hd :: l
}.

(** The first node of a list that is followed by [z]. *)
Definition from (z : Z) (l : list Z) : Z := match l with [] => z | p :: _ => p end.

(** The call returns [a] in a memory of which [Q] holds. *)
Definition leads {A} (o : outcome (A * memory)) (a : A) (Q : memory -> Prop) : Prop :=
  exists m, o = Ok (a, m) /\ Q m.

Definition same_links (X : list Z) (m m' : memory) : Prop :=
  forall p, p ∉ X -> next m' !! p = next m !! p /\ prev m' !! p = prev m !! p.

(** The rest of the memory when links change. *)
Definition same_rest (m m' : memory) : Prop := segs m' = segs m /\ cb m' = cb m.

Lemma linked_app m a l1 p l2 z : linked m a (l1 ++ p :: l2) z <-> linked m a l1 p /\ linked m p l2 z.
Proof. revert a. induction l1 as [|b l1 IH]; intros a; simpl; [done|]. rewrite IH. tauto. Qed.

Lemma linked_frame m m' a l z :
  (forall p, p ∈ a :: l -> next m' !! p = next m !! p) ->
  (forall p, p ∈ l ++ [z] -> prev m' !! p = prev m !! p) ->
  linked m a l z -> linked m' a l z.
Proof.
  revert a. induction l as [|b l IH]; intros a Hn Hp; simpl.
  - intros [E1 E2]. split; [rewrite Hn | rewrite Hp]; set_solver.
  - intros [[E1 E2] Hl]. split; [split; [rewrite Hn | rewrite Hp]; set_solver|].
    apply IH; [set_solver..|done].
Qed.

Lemma ring_rotate m hd l1 p l2 : ring m hd (l1 ++ p :: l2) -> ring m p (l2 ++ hd :: l1).
Proof.
  intros [Hl Hn H0].
  assert (hd :: l1 ++ p :: l2 ≡ₚ p :: l2 ++ hd :: l1) as Hp by (by rewrite (app_comm_cons l1), (Permutation_app_comm (hd :: l1))).
  split.
  - apply linked_app. apply linked_app in Hl. tauto.
  - by rewrite <- Hp.
  - by rewrite <- Hp.
Qed.

Lemma linked_first m a l z : linked m a l z -> next m !! a = Some (from z l).
Proof. destruct l; intros H; apply H. Qed.

Lemma linked_last m a l z : linked m a l z -> prev m !! z = Some (from a (rev l)).
Proof.
  destruct l as [|y l] using rev_ind; [intros H; apply H|].
  intros [_ H]%linked_app. rewrite rev_app_distr. apply H.
Qed.

Lemma ring_next m hd l1 p l2 : ring m hd (l1 ++ p :: l2) -> next m !! p = Some (from hd l2).
Proof. intros [[_ Hl]%linked_app _ _]. by apply linked_first in Hl. Qed.

Lemma ring_prev m hd l1 p l2 : ring m hd (l1 ++ p :: l2) -> prev m !! p = Some (from hd (rev l1)).
Proof. intros [[Hl _]%linked_app _ _]. by apply linked_last in Hl. Qed.

Lemma ring_frame X m m' hd l : same_links X m m' -> (forall p, p ∈ hd :: l -> p ∉ X) -> ring m hd l -> ring m' hd l.
Proof.
  intros Hs Hd [Hl Hn H0]. split; [|done..].
  revert Hl. apply linked_frame; intros p Hp; apply (Hs p), Hd; set_solver.
Qed.

(** *** The accesses *)

Lemma load_member {A} (f : memory -> gmap Z A) p v m : p <> 0 -> f m !! p = Some v -> load f p m = Ok (v, m).
Proof. intros Hp E. unfold load. apply Z.eqb_neq in Hp. by rewrite Hp, E. Qed.

Lemma bind_ok {A B} (c : M A) (k : A -> M B) a m m' : c m = Ok (a, m') -> bind c k m = k a m'.
Proof. intros E. unfold bind. by rewrite E. Qed.

Lemma leads_bind {A B} (c : M A) (k : A -> M B) a b m Q :
  leads (c m) a (fun m' => leads (k a m') b Q) -> leads (bind c k m) b Q.
Proof. intros (m' & E & H). unfold bind. by rewrite E. Qed.

Lemma leads_ret {A} (a : A) m (Q : memory -> Prop) : Q m -> leads (ret a m) a Q.
Proof. by exists m. Qed.

Lemma leads_weaken {A} (o : outcome (A * memory)) a (P Q : memory -> Prop) :
  leads o a P -> (forall m, P m -> Q m) -> leads o a Q.
Proof. intros (m & E & H) HQ. exists m. auto. Qed.

Lemma leads_load {A B} (f : memory -> gmap Z A) p v (k : A -> M B) b m Q :
  p <> 0 -> f m !! p = Some v -> leads (k v m) b Q -> leads (bind (load f p) k m) b Q.
Proof. intros Hp E H. by rewrite (bind_ok _ _ v m m) by by apply load_member. Qed.

Lemma set_next_ok p v w m : p <> 0 -> next m !! p = Some w ->
  set_next p v m = Ok (tt, Memory (<[p:=v]> (next m)) (prev m) (segs m) (cb m)).
Proof. intros Hp E. unfold set_next. by rewrite (bind_ok _ _ w m m) by by apply load_member. Qed.

Lemma set_prev_ok p v w m : p <> 0 -> prev m !! p = Some w ->
  set_prev p v m = Ok (tt, Memory (next m) (<[p:=v]> (prev m)) (segs m) (cb m)).
Proof. intros Hp E. unfold set_prev. by rewrite (bind_ok _ _ w m m) by by apply load_member. Qed.

Lemma set_next_leads p v (k : unit -> M unit) m (Q : memory -> Prop) : p <> 0 -> is_Some (next m !! p) ->
  leads (k tt (Memory (<[p:=v]> (next m)) (prev m) (segs m) (cb m))) tt Q ->
  leads (bind (set_next p v) k m) tt Q.
Proof. intros Hp [w E] H. by rewrite (bind_ok _ _ tt m _ (set_next_ok p v w m Hp E)). Qed.

Lemma set_prev_leads p v (k : unit -> M unit) m (Q : memory -> Prop) : p <> 0 -> is_Some (prev m !! p) ->
  leads (k tt (Memory (next m) (<[p:=v]> (prev m)) (segs m) (cb m))) tt Q ->
  leads (bind (set_prev p v) k m) tt Q.
Proof. intros Hp [w E] H. by rewrite (bind_ok _ _ tt m _ (set_prev_ok p v w m Hp E)). Qed.

(** A node that can be linked: it is one, and it is not in the ring. *)
Definition loose (m : memory) (node : Z) : Prop :=
  node <> 0 /\ is_Some (next m !! node) /\ is_Some (prev m !! node).

Lemma in_rev (p : Z) l : p ∈ rev l <-> p ∈ l.
Proof. rewrite !list_elem_of_In. symmetry. apply List.in_rev. Qed.

Lemma from_in z l : from z l ∈ z :: l.
Proof. destruct l; set_solver. Qed.

Lemma ring_nonzero m hd l p : ring m hd l -> p ∈ hd :: l -> p <> 0.
Proof. intros [_ _ H0] Hp ->. done. Qed.

Lemma IQUEUE_INIT_spec m ptr : loose m ptr ->
  leads (IQUEUE_INIT ptr m) tt (fun m' => ring m' ptr [] /\ same_links [ptr] m m' /\ same_rest m m').
Proof.
  intros (H0 & Hn & Hp). unfold IQUEUE_INIT.
  apply set_next_leads; [done..|].
  destruct Hp as [w E]. eexists. split; [by apply (set_prev_ok ptr ptr w)|]. cbn.
  split_and!; [|intros p ?; cbn; rewrite !lookup_insert_ne by set_solver; done | done].
  split; cbn; [split; by simplify_map_eq | apply NoDup_singleton | set_solver].
Qed.

Lemma IQUEUE_ADD_spec m node hd l : ring m hd l -> loose m node -> node ∉ hd :: l ->
  leads (IQUEUE_ADD node hd m) tt
    (fun m' => ring m' hd (node :: l) /\ same_links (node :: hd :: l) m m' /\ same_rest m m').
Proof.
  intros Hr (H0 & Hn & Hp) Hni. pose proof (ring_nonzero _ _ _ hd Hr) as Hhd.
  pose proof (linked_first _ _ _ _ (ring_linked _ _ _ Hr)) as Ef. set (y := from hd l) in *.
  pose proof (from_in hd l) as Hy. pose proof (ring_nonzero _ _ _ y Hr Hy) as Hy0.
  assert (is_Some (prev m !! y)) as Epy.
  { destruct Hr as [Hl _ _]. destruct l; cbn in *; [by exists hd; apply Hl | by exists hd; apply Hl]. }
  assert (node <> hd /\ node <> y) as [Hnh Hnv] by set_solver.
  unfold IQUEUE_ADD.
  apply set_prev_leads; [done..|].
  apply (leads_load next hd y); [set_solver | done |]. apply set_next_leads; [done..|].
  apply (leads_load next hd y); [set_solver | by cbn; rewrite lookup_insert_ne |].
  apply set_prev_leads; [done | by cbn; rewrite lookup_insert_ne |]. cbn [next prev segs cb].
  eexists. split; [eapply set_next_ok; [set_solver | cbn; rewrite lookup_insert_ne; done]|]. cbn [next prev segs cb].
  split_and!; [|intros p ?; cbn; rewrite !lookup_insert_ne by set_solver; done | done].
  destruct Hr as [Hl [Hd1 Hd2]%NoDup_cons Hz].
  split; [|repeat apply NoDup_cons_2; set_solver | set_solver].
  cbn [linked]. split; [split; by simplify_map_eq|].
  destruct l as [|y' l]; [split; by simplify_map_eq|]. cbn [from] in y. subst y.
  split; [split; by simplify_map_eq|].
  apply NoDup_cons in Hd2 as [Hd2 Hd3].
  eapply (linked_frame m); [| |apply Hl]; intros p Hq; cbn; rewrite !lookup_insert_ne; set_solver.
Qed.

Lemma IQUEUE_ADD_TAIL_spec m node hd l : ring m hd l -> loose m node -> node ∉ hd :: l ->
  leads (IQUEUE_ADD_TAIL node hd m) tt
    (fun m' => ring m' hd (l ++ [node]) /\ same_links (node :: hd :: l) m m' /\ same_rest m m').
Proof.
  intros Hr (H0 & Hn & Hp) Hni. pose proof (ring_nonzero _ _ _ hd Hr) as Hhd.
  pose proof (linked_last _ _ _ _ (ring_linked _ _ _ Hr)) as Ef. set (y := from hd (rev l)) in *.
  assert (y ∈ hd :: l) as Hy.
  { pose proof (from_in hd (rev l)) as Hy. rewrite elem_of_cons, in_rev in Hy. set_solver. }
  pose proof (ring_nonzero _ _ _ y Hr Hy) as Hy0.
  assert (is_Some (next m !! y)) as Eny.
  { destruct Hr as [Hl _ _]. subst y. destruct l as [|x l _] using rev_ind; [by exists hd; apply Hl|].
    rewrite rev_app_distr. apply linked_app in Hl as [_ Hl]. exists hd. apply Hl. }
  assert (node <> hd /\ node <> y) as [Hnh Hnv] by set_solver.
  unfold IQUEUE_ADD_TAIL.
  apply (leads_load prev hd y); [set_solver | done |]. apply set_prev_leads; [done..|].
  apply set_next_leads; [done..|].
  apply (leads_load prev hd y); [set_solver | by cbn; rewrite lookup_insert_ne |].
  apply set_next_leads; [done | by cbn; rewrite lookup_insert_ne |]. cbn [next prev segs cb].
  eexists. split; [eapply set_prev_ok; [set_solver | cbn; rewrite lookup_insert_ne; done]|]. cbn [next prev segs cb].
  split_and!; [|intros p ?; cbn; rewrite !lookup_insert_ne by set_solver; done | done].
  destruct Hr as [Hl Hd Hz].
  assert (hd :: l ++ [node] ≡ₚ node :: hd :: l) as Hperm by (rewrite app_comm_cons; apply Permutation_app_comm).
  split; [|rewrite Hperm; by constructor | rewrite Hperm; set_solver].
  apply linked_app. split; [|split; by simplify_map_eq].
  subst y. destruct l as [|x l _] using rev_ind; [split; by simplify_map_eq|].
  rewrite rev_app_distr in *. cbn [rev app from] in *.
  apply linked_app in Hl as [Hl _]. apply linked_app. split; [|split; by simplify_map_eq].
  rewrite app_comm_cons in Hd. apply NoDup_app in Hd as (Hd1 & Hd2 & _).
  apply NoDup_cons in Hd1 as [Hd1 _].
  eapply (linked_frame m); [| |apply Hl]; intros p Hq; cbn; rewrite !lookup_insert_ne; set_solver.
Qed.

(** Unlinking the head of a non-empty ring: the rest is a ring. *)
Lemma IQUEUE_DEL_head m p y l : ring m p (y :: l) ->
  leads (IQUEUE_DEL p m) tt
    (fun m' => (ring m' y l /\ loose m' p) /\ same_links (p :: y :: l) m m' /\ same_rest m m').
Proof.
  intros Hr. assert (p <> 0) as Hp0 by (apply (ring_nonzero m p (y :: l)); [done | apply list_elem_of_here]).
  pose proof (linked_last _ _ _ _ (ring_linked _ _ _ Hr)) as Ex. set (x := from p (rev (y :: l))) in *.
  assert (x ∈ y :: l /\ is_Some (next m !! x)) as [Hx Enx].
  { destruct Hr as [[_ Hl] _ _]. subst x. destruct l as [|x l _] using rev_ind; [split; [set_solver | by exists p; apply Hl]|].
    cbn. rewrite rev_app_distr. cbn. apply linked_app in Hl as [_ Hl]. split; [set_solver | exists p; apply Hl]. }
  assert (x <> 0) as Hx0 by (apply (ring_nonzero m p (y :: l)); set_solver).
  assert (y <> 0) as Hy0 by (apply (ring_nonzero m p (y :: l)); set_solver).
  destruct Hr as [[[Ey Eyp] Hl] [Hd1 Hd2]%NoDup_cons Hz].
  assert (y <> p /\ x <> p) as [Hyp Hxp] by (clearbody x; set_solver +Hd1 Hx).
  unfold IQUEUE_DEL.
  apply (leads_load next p y); [done..|]. apply (leads_load prev p x); [done..|].
  apply set_prev_leads; [done | by eexists|].
  apply (leads_load prev p x); [done | by cbn; rewrite lookup_insert_ne|].
  apply (leads_load next p y); [done..|].
  apply set_next_leads; [done..|]. cbn [next prev segs cb].
  apply set_next_leads; [done | cbn; rewrite lookup_insert_ne by done; by eexists |]. cbn [next prev segs cb].
  eexists. split; [eapply set_prev_ok; [done | cbn; by rewrite lookup_insert_ne]|]. cbn [next prev segs cb].
  split_and!; [|by split_and!; cbn; [|simplify_map_eq; by eexists..]
               |intros q ?; cbn; rewrite !lookup_insert_ne by set_solver; done | done].
  split; [|done|set_solver].
  subst x. destruct l as [|x l _] using rev_ind; [split; by simplify_map_eq|]. cbn in *.
  rewrite rev_app_distr in *. cbn in *.
  apply linked_app in Hl as [Hl _]. apply linked_app.
  rewrite app_comm_cons in Hd2. apply NoDup_app in Hd2 as (Hd2 & Hd3 & _). apply NoDup_cons in Hd2 as [Hd2 _].
  split; [|split; by simplify_map_eq].
  eapply (linked_frame m); [| |apply Hl]; intros q Hq; cbn; rewrite !lookup_insert_ne; set_solver.
Qed.

Lemma IQUEUE_DEL_spec m hd l1 p l2 : ring m hd (l1 ++ p :: l2) ->
  leads (IQUEUE_DEL p m) tt
    (fun m' => (ring m' hd (l1 ++ l2) /\ loose m' p) /\ same_links (hd :: l1 ++ p :: l2) m m' /\ same_rest m m').
Proof.
  intros Hr%ring_rotate. destruct l2 as [|y l2]; cbn in Hr;
    (eapply leads_weaken; [by apply IQUEUE_DEL_head|]); intros m' ([H1 H4] & H2 & H3).
  - rewrite app_nil_r. split_and!; [exact H1 | exact H4 | | exact H3]. intros q Hq. apply H2. set_solver.
  - apply ring_rotate in H1. split_and!; [exact H1 | exact H4 | | exact H3]. intros q Hq. apply H2. set_solver.
Qed.

(** ** Four queues in one memory

    [rep m L S D b]: the queue [q] is a ring of the nodes [L q], which are the segments [S q];
    the queues are apart; [D] is a segment in no queue; there are no other segments. *)

Section Representation.
Context `{Kcpcb}.

Definition held (m : memory) (p : Z) (s : seg.t) : Prop := segs m !! p = Some s.

Record rep (m : memory) (L : queue -> list Z) (S : queue -> list seg.t) (D : option (Z * seg.t)) (b : block)
    : Prop := Rep {
  rep_ring q : ring m (head q) (L q);
  rep_apart q q' p : q <> q' -> p ∈ head q :: L q -> p ∉ head q' :: L q';
  rep_segs q : Forall2 (held m) (L q) (S q);
  rep_owned p s : D = Some (p, s) -> loose m p /\ held m p s /\ forall q, p ∉ head q :: L q;
  rep_all p : is_Some (segs m !! p) -> (exists q, p ∈ L q) \/ exists s, D = Some (p, s);
  rep_block : cb m = b
}.

Lemma head_inj q q' : head q = head q' -> q = q'.
Proof. unfold head. destruct q, q'; intros E; try done; lia. Qed.

Lemma rep_ext m L L' S S' D b : (forall q, L q = L' q) -> (forall q, S q = S' q) -> rep m L S D b -> rep m L' S' D b.
Proof.
  intros EL ES [H1 H2 H3 H4 H5 H6]. split; try done.
  - intros q. by rewrite <- EL.
  - intros q q' p. rewrite <- !EL. apply H2.
  - intros q. by rewrite <- EL, <- ES.
  - intros p s Hp. destruct (H4 p s Hp) as (? & ? & Hq). split_and!; [done..|]. intros q. by rewrite <- EL.
  - intros p Hp. destruct (H5 p Hp) as [[q Hq]|]; [left; exists q; by rewrite <- EL | by right].
Qed.

Lemma fn_cases {T} (P : queue -> T -> Prop) q t (f : queue -> T) :
  P q t -> (forall q', q' <> q -> P q' (f q')) -> forall q', P q' (<[q:=t]> f q').
Proof.
  intros H1 H2 q'. destruct (decide (q = q')) as [<-|Hn].
  - by rewrite fn_lookup_insert.
  - rewrite fn_lookup_insert_ne by done. by apply H2.
Qed.

Definition mine (D : option (Z * seg.t)) (p : Z) : Prop := exists s, D = Some (p, s).

(** One ring is relinked, with a segment put in or taken out. *)
Lemma rep_relink m m' X q l' ss' D' L S D b : rep m L S D b -> ring m' (head q) l' ->
  same_links X m m' -> same_rest m m' ->
  (forall p, p ∈ X -> p ∈ head q :: L q \/ mine D p) -> (forall p, p ∈ l' -> p ∈ L q \/ mine D p) ->
  Forall2 (held m) l' ss' ->
  (forall p s, D' = Some (p, s) -> loose m' p /\ held m p s /\ p ∉ head q :: l' /\ (p ∈ L q \/ mine D p)) ->
  (forall p, p ∈ L q \/ mine D p -> p ∈ l' \/ mine D' p) ->
  rep m' (<[q:=l']> L) (<[q:=ss']> S) D' b.
Proof.
  intros [H1 H2 H3 H4 H5 H6] Hr HX [Hs Hb] HXin Hin Hss HD' Hall.
  assert (forall p q', q' <> q -> p ∈ head q' :: L q' -> p ∉ head q :: L q /\ ~ mine D p) as Hout.
  { intros p q' Hn Hp. split; [by apply (H2 q' q)|]. intros [s Es]. by apply (H4 p s Es) in Hp. }
  assert (forall p q', q' <> q -> p ∈ head q' :: L q' -> p ∉ head q :: l') as Hout'.
  { intros p q' Hn Hp Hl. destruct (Hout p q' Hn Hp) as [Ho Hm]. apply elem_of_cons in Hl as [->|Hl]; [set_solver|].
    destruct (Hin p Hl); [set_solver | done]. }
  split.
  - apply (fn_cases (fun q l => ring m' (head q) l)); [done|]. intros q' Hn.
    apply (ring_frame X m); [done | | done]. intros p Hp HpX. destruct (Hout p q' Hn Hp). by destruct (HXin p HpX).
  - intros q1 q2 p Hn. unfold insert, fn_insert. destruct (decide (q = q1)) as [<-|H1n], (decide (q = q2)) as [<-|H2n]; [done|..].
    + intros Hp Hp2. by apply (Hout' p q2).
    + intros Hp. by apply (Hout' p q1).
    + by apply H2.
  - apply (fn_cases (fun q ss => Forall2 (held m') _ ss)); unfold held; rewrite Hs.
    + by rewrite fn_lookup_insert.
    + intros q' Hn. by rewrite fn_lookup_insert_ne.
  - intros p s Ep. destruct (HD' p s Ep) as (Hl & Hh & Hni & Hc). unfold held. rewrite Hs. split_and!; [done..|].
    apply (fn_cases (fun q l => p ∉ head q :: l)); [done|]. intros q' Hn Hp.
    destruct (Hout p q' Hn Hp). set_solver.
  - intros p. rewrite Hs. intros Hp.
    assert ((exists q', q' <> q /\ p ∈ L q') \/ p ∈ l' \/ mine D' p) as [(q' & Hn & Hq')|[Hl|Hl]].
    { destruct (H5 p Hp) as [[q' Hq']|Hm]; [|right; by apply Hall; right].
      destruct (decide (q' = q)) as [->|Hn]; [right; by apply Hall; left | left; by exists q']. }
    + left. exists q'. by rewrite fn_lookup_insert_ne.
    + left. exists q. by rewrite fn_lookup_insert.
    + by right.
  - by rewrite Hb.
Qed.

(** *** What a step reads *)

Lemma rep_first m L S D b q : rep m L S D b -> next m !! head q = Some (from (head q) (L q)).
Proof. intros Hr. eapply linked_first, (ring_linked _ _ _ (rep_ring _ _ _ _ _ Hr q)). Qed.

Lemma rep_last m L S D b q : rep m L S D b -> prev m !! head q = Some (from (head q) (rev (L q))).
Proof. intros Hr. eapply linked_last, (ring_linked _ _ _ (rep_ring _ _ _ _ _ Hr q)). Qed.

Lemma rep_next m L S D b q l1 p l2 : rep m L S D b -> L q = l1 ++ p :: l2 -> next m !! p = Some (from (head q) l2).
Proof. intros Hr E. pose proof (rep_ring _ _ _ _ _ Hr q) as Hq. rewrite E in Hq. by apply ring_next in Hq. Qed.

Lemma rep_prev m L S D b q l1 p l2 : rep m L S D b -> L q = l1 ++ p :: l2 -> prev m !! p = Some (from (head q) (rev l1)).
Proof. intros Hr E. pose proof (rep_ring _ _ _ _ _ Hr q) as Hq. rewrite E in Hq. by apply ring_prev in Hq. Qed.

Lemma rep_node m L S D b q p : rep m L S D b -> p ∈ head q :: L q -> p <> 0.
Proof. intros Hr. apply (ring_nonzero m _ _ _ (rep_ring _ _ _ _ _ Hr q)). Qed.

Lemma rep_not_head m L S D b q p : rep m L S D b -> p ∈ L q -> p <> head q.
Proof. intros Hr Hp ->. destruct (rep_ring _ _ _ _ _ Hr q) as [_ [Hn _]%NoDup_cons _]. done. Qed.

Lemma rep_seg m L S D b q l1 p l2 s1 s s2 : rep m L S D b ->
  L q = l1 ++ p :: l2 -> S q = s1 ++ s :: s2 -> length l1 = length s1 -> held m p s.
Proof.
  intros Hr EL ES Hlen. pose proof (rep_segs _ _ _ _ _ Hr q) as H2. rewrite EL, ES in H2.
  apply Forall2_app_inv in H2 as [_ H2]; [|done]. by apply Forall2_cons_1 in H2 as [H2 _].
Qed.

Lemma rep_loose m L S D b q p : rep m L S D b -> p ∈ L q -> loose m p.
Proof.
  intros Hr Hp. split; [apply (rep_node m L S D b q p Hr); set_solver|].
  apply list_elem_of_split in Hp as (l1 & l2 & E).
  split; eexists; [by eapply rep_next | by eapply rep_prev].
Qed.

(** A loop over a queue needs no more fuel than there are segments. *)
Lemma rep_size m L S D b q : rep m L S D b -> (length (L q) <= size (segs m))%nat.
Proof.
  intros Hr. destruct (rep_ring _ _ _ _ _ Hr q) as [_ [_ Hn]%NoDup_cons _].
  rewrite <- size_dom, <- (size_list_to_set (C := gset Z) (L q)) by done. apply subseteq_size.
  intros p. rewrite elem_of_list_to_set, elem_of_dom. intros Hp.
  destruct (list_elem_of_split _ _ Hp) as (l1 & l2 & E).
  pose proof (rep_segs _ _ _ _ _ Hr q) as H2. rewrite E in H2.
  apply Forall2_app_inv_l in H2 as (s1 & s2 & _ & H2 & _).
  apply Forall2_cons_inv_l in H2 as (s & s3 & Hs & _). by exists s.
Qed.

(** *** The steps *)

Lemma del_step m L S b q l1 p l2 s1 s s2 : rep m L S None b ->
  L q = l1 ++ p :: l2 -> S q = s1 ++ s :: s2 -> length l1 = length s1 ->
  leads (IQUEUE_DEL p m) tt (fun m' => rep m' (<[q:=l1 ++ l2]> L) (<[q:=s1 ++ s2]> S) (Some (p, s)) b).
Proof.
  intros Hr EL ES Hlen. pose proof (rep_ring _ _ _ _ _ Hr q) as Hq. rewrite EL in Hq.
  eapply leads_weaken; [by apply IQUEUE_DEL_spec|]. intros m' ([Hq' Hlo] & HX & Hs).
  assert (p ∉ head q :: l1 ++ l2) as Hni.
  { destruct Hq as [_ Hn _]. rewrite app_comm_cons, <- Permutation_middle in Hn. by apply NoDup_cons in Hn as [Hn _]. }
  apply (rep_relink m m' (head q :: l1 ++ p :: l2) q _ _ _ L S None b); try done.
  - rewrite EL. by left.
  - rewrite EL. set_solver.
  - pose proof (rep_segs _ _ _ _ _ Hr q) as H2. rewrite EL, ES in H2.
    apply Forall2_app_inv in H2 as [H2 H3]; [|done]. apply Forall2_cons_1 in H3 as [_ H3]. by apply Forall2_app.
  - intros p' s' [= <- <-]. split_and!; [done | by eapply rep_seg | done | left; rewrite EL; set_solver].
  - intros p' [Hp|[? [=]]]. rewrite EL in Hp. destruct (decide (p' = p)) as [->|]; [right; by exists s | left; set_solver].
Qed.

Lemma own_node m L S b p s : rep m L S (Some (p, s)) b -> loose m p /\ held m p s /\ forall q, p ∉ head q :: L q.
Proof. intros Hr. by apply (rep_owned _ _ _ _ _ Hr). Qed.

Lemma add_tail_step m L S b q p s : rep m L S (Some (p, s)) b ->
  leads (IQUEUE_ADD_TAIL p (head q) m) tt (fun m' => rep m' (<[q:=L q ++ [p]]> L) (<[q:=S q ++ [s]]> S) None b).
Proof.
  intros Hr. destruct (own_node _ _ _ _ _ _ Hr) as (Hlo & Hh & Hni).
  eapply leads_weaken; [apply (IQUEUE_ADD_TAIL_spec m p (head q) (L q)); [apply Hr | done..]|]. intros m' (Hq' & HX & Hs).
  apply (rep_relink m m' (p :: head q :: L q) q _ _ _ L S (Some (p, s)) b); try done.
  - intros p'. rewrite elem_of_cons. intros [->|]; [right; by exists s | by left].
  - intros p'. rewrite elem_of_app, list_elem_of_singleton. intros [| ->]; [by left | right; by exists s].
  - apply Forall2_app; [apply Hr | by repeat constructor].
  - intros p' [Hp|[? [= -> _]]]; left; set_solver.
Qed.

Lemma add_step m L S b q l1 l2 p s s1 s2 : rep m L S (Some (p, s)) b ->
  L q = l1 ++ l2 -> S q = s1 ++ s2 -> length l1 = length s1 ->
  leads (IQUEUE_ADD p (from (head q) (rev l1)) m) tt
    (fun m' => rep m' (<[q:=l1 ++ p :: l2]> L) (<[q:=s1 ++ s :: s2]> S) None b).
Proof.
  intros Hr EL ES Hlen. destruct (own_node _ _ _ _ _ _ Hr) as (Hlo & Hh & Hni). specialize (Hni q). rewrite EL in Hni.
  pose proof (rep_ring _ _ _ _ _ Hr q) as Hq. rewrite EL in Hq.
  assert (leads (IQUEUE_ADD p (from (head q) (rev l1)) m) tt
    (fun m' => ring m' (head q) (l1 ++ p :: l2) /\ same_links (p :: head q :: l1 ++ l2) m m' /\ same_rest m m')) as Hadd.
  { destruct l1 as [|x l1 _] using rev_ind; [by apply IQUEUE_ADD_spec|].
    rewrite rev_app_distr, <- app_assoc in *. cbn in *. apply ring_rotate in Hq.
    eapply leads_weaken; [apply (IQUEUE_ADD_spec m p x (l2 ++ head q :: l1)); [done..|set_solver]|].
    intros m' (H1 & H2 & H3). split_and!; [| |done].
    - apply (ring_rotate m' x (p :: l2) (head q) l1) in H1. done.
    - intros p' Hp. apply H2. set_solver. }
  eapply leads_weaken; [exact Hadd|]. intros m' (Hq' & HX & Hs).
  apply (rep_relink m m' (p :: head q :: l1 ++ l2) q _ _ _ L S (Some (p, s)) b); try done.
  - rewrite EL. intros p'. rewrite elem_of_cons. intros [->|]; [right; by exists s | by left].
  - rewrite EL. intros p' Hp. destruct (decide (p' = p)) as [->|]; [right; by exists s | left; set_solver].
  - pose proof (rep_segs _ _ _ _ _ Hr q) as H2. rewrite EL, ES in H2.
    apply Forall2_app_inv in H2 as [H2 H3]; [|done]. apply Forall2_app; [done | by constructor].
  - rewrite EL. intros p' [Hp|[? [= -> _]]]; left; set_solver.
Qed.

Lemma held_frame m m' l ss : (forall p, p ∈ l -> segs m' !! p = segs m !! p) ->
  Forall2 (held m) l ss -> Forall2 (held m') l ss.
Proof.
  intros Hs H2. induction H2 as [|p s l ss Hp H2 IH]; constructor.
  - unfold held. rewrite Hs; [done | left].
  - apply IH. intros p' Hp'. apply Hs. by right.
Qed.

(** Only the segment that is in no queue changes, comes or goes. *)
Lemma rep_own m m' p L S D D' b : rep m L S D b -> (forall q, p ∉ head q :: L q) ->
  (forall p', mine D p' -> p' = p) -> same_links [p] m m' ->
  (forall p', p' <> p -> segs m' !! p' = segs m !! p') -> cb m' = cb m ->
  match D' with None => segs m' !! p = None | Some (p', s) => p' = p /\ loose m' p /\ held m' p s end ->
  rep m' L S D' b.
Proof.
  intros [H1 H2 H3 H4 H5 H6] Hni HD HX Hs Hb HD'. split.
  - intros q. apply (ring_frame [p] m); [done | | done]. intros p' Hp' ->%list_elem_of_singleton. by apply (Hni q).
  - done.
  - intros q. apply (held_frame m); [|done]. intros p' Hp'. apply Hs. intros ->. apply (Hni q). by right.
  - intros p' s' ->. destruct HD' as (-> & ? & ?). done.
  - intros p' Hp'. destruct (decide (p' = p)) as [->|Hn].
    + destruct D' as [[p1 s1]|]; [destruct HD' as (-> & _); right; by exists s1|]. rewrite HD' in Hp'. by destruct Hp'.
    + rewrite Hs in Hp' by done. destruct (H5 p' Hp') as [|Hm]; [by left | by destruct Hn; apply HD].
  - by rewrite Hb.
Qed.

Lemma mine_some p s p' : mine (Some (p, s)) p' -> p' = p.
Proof. by intros [? [= -> _]]. Qed.

Lemma delete_step m L S b p s : rep m L S (Some (p, s)) b ->
  leads (ikcp_segment_delete p m) tt (fun m' => rep m' L S None b).
Proof.
  intros Hr. destruct (own_node _ _ _ _ _ _ Hr) as ((H0 & _ & _) & Hh & Hni).
  unfold ikcp_segment_delete. rewrite (bind_ok _ _ s m m) by (by apply load_member). eexists. split; [done|].
  apply (rep_own m _ p L S (Some (p, s)) None b); try done.
  - intros p'. apply mine_some.
  - intros p' Hp. cbn. rewrite !lookup_delete_ne by set_solver. done.
  - intros p' Hp. cbn. by rewrite lookup_delete_ne.
  - cbn. apply lookup_delete_eq.
Qed.

Lemma set_own_step m L S b p s s' : rep m L S (Some (p, s)) b ->
  leads (set_seg p s' m) tt (fun m' => rep m' L S (Some (p, s')) b).
Proof.
  intros Hr. destruct (own_node _ _ _ _ _ _ Hr) as (Hlo & Hh & Hni).
  unfold set_seg. rewrite (bind_ok _ _ s m m) by (apply load_member; [apply Hlo | done]). eexists. split; [done|].
  apply (rep_own m _ p L S (Some (p, s)) _ b); try done.
  - intros p'. apply mine_some.
  - intros p' Hp. cbn. by rewrite lookup_insert_ne.
  - split_and!; [done..|]. unfold held. cbn. apply lookup_insert_eq.
Qed.

Lemma init_step m L S b p s : rep m L S (Some (p, s)) b ->
  leads (IQUEUE_INIT p m) tt (fun m' => rep m' L S (Some (p, s)) b).
Proof.
  intros Hr. destruct (own_node _ _ _ _ _ _ Hr) as (Hlo & Hh & Hni).
  eapply leads_weaken; [by apply IQUEUE_INIT_spec|]. intros m' (Hring & HX & Hs & Hb).
  apply (rep_own m _ p L S (Some (p, s)) _ b); try done.
  - intros p'. apply mine_some.
  - by rewrite Hs.
  - unfold held. rewrite Hs. split_and!; [done| |done]. split; [apply Hlo|]. split; eexists; apply Hring.
Qed.

Lemma modify_step f m L S D b : rep m L S D b -> leads (modify f m) tt (fun m' => rep m' L S D (f b)).
Proof.
  intros [H1 H2 H3 H4 H5 <-]. eexists. split; [done|]. split; try done. intros q. apply (ring_frame [] m); [done | set_solver | done].
Qed.

Lemma new_step `{Allocator} s m L S b : rep m L S None b ->
  exists p m', ikcp_segment_new s m = Ok (p, m') /\ rep m' L S (Some (p, s)) b.
Proof.
  intros Hr. unfold ikcp_segment_new. set (p := malloc (dom (next m))). do 2 eexists. split; [done|].
  pose proof (malloc_fresh (dom (next m))) as Hf. pose proof (malloc_not_null (dom (next m))) as Hnz. fold p in Hf, Hnz.
  assert (forall q, p ∉ head q :: L q) as Hni.
  { intros q Hp. apply Hf, elem_of_dom. apply elem_of_cons in Hp as [->|Hp].
    - eexists. by eapply rep_first.
    - by destruct (rep_loose m L S None b q p) as (_ & ? & _). }
  apply (rep_own m _ p L S None _ b); try done; cbn.
  - by intros p' [? [=]].
  - intros p' Hp. cbn. rewrite !lookup_insert_ne by set_solver. done.
  - intros p' Hp. by rewrite lookup_insert_ne.
  - split; [done|]. split; [split_and!; [done|..]; cbn; rewrite lookup_insert_eq; by eexists|].
    unfold held. cbn. by rewrite lookup_insert_eq.
Qed.

Lemma set_step s' m L S b q l1 p l2 s1 s s2 : rep m L S None b ->
  L q = l1 ++ p :: l2 -> S q = s1 ++ s :: s2 -> length l1 = length s1 ->
  leads (set_seg p s' m) tt (fun m' => rep m' L (<[q:=s1 ++ s' :: s2]> S) None b).
Proof.
  intros Hr EL ES Hlen. assert (p ∈ L q) as Hp by (rewrite EL; set_solver).
  pose proof (rep_seg _ _ _ _ _ _ _ _ _ _ _ _ Hr EL ES Hlen) as Hh.
  unfold set_seg. rewrite (bind_ok _ _ s m m) by (apply load_member; [eapply rep_node; [done | by right] | done]).
  eexists. split; [done|]. destruct Hr as [H1 H2 H3 H4 H5 H6]. split; try done; cbn.
  - intros q'. apply (ring_frame [] m); [done | set_solver | done].
  - apply (fn_cases (fun q ss => Forall2 (held _) (L q) ss)).
    + specialize (H3 q). rewrite EL, ES in *. destruct (H1 q) as [_ [_ Hn]%NoDup_cons _].
      rewrite EL in Hn. apply NoDup_app in Hn as (_ & Hn1 & [Hn2 _]%NoDup_cons).
      apply Forall2_app_inv in H3 as [H3 H7]; [|done]. apply Forall2_cons_1 in H7 as [_ H7].
      apply Forall2_app; [|constructor; [unfold held; cbn; apply lookup_insert_eq|]];
        (eapply held_frame; [|done]); intros p' Hp'; cbn; rewrite lookup_insert_ne; set_solver.
    + intros q' Hn. eapply held_frame; [|done]. intros p' Hp'. cbn. rewrite lookup_insert_ne; [done|].
      intros <-. by apply (H2 q' q p Hn); right.
  - intros p'. destruct (decide (p = p')) as [<-|Hn]; [intros _; left; by exists q|].
    rewrite lookup_insert_ne by done. apply H5.
Qed.

Lemma empty_step m L S D b q : rep m L S D b ->
  IQUEUE_IS_EMPTY (head q) m = Ok (bool_decide (L q = []), m).
Proof.
  intros Hr. unfold IQUEUE_IS_EMPTY. rewrite (bind_ok _ _ (from (head q) (L q)) m m).
  - unfold ret. do 2 f_equal. destruct (L q) as [|p l] eqn:E; cbn [from].
    + rewrite bool_decide_true by done. by apply Z.eqb_eq.
    + rewrite bool_decide_false by done. apply Z.eqb_neq. intros Hp. symmetry in Hp. revert Hp.
      apply (rep_not_head m L S D b); [done|]. rewrite E. left.
  - apply load_member; [eapply rep_node; [done | left] | by eapply rep_first].
Qed.

(** *** Steps of a loop at its cursor *)

Definition reps (m : memory) (S : queue -> list seg.t) (b : block) : Prop := exists L, rep m L S None b.

Lemma reps_ext m S S' b : (forall q, S q = S' q) -> reps m S b -> reps m S' b.
Proof. intros ES [L Hr]. exists L. revert Hr. by apply rep_ext. Qed.

Lemma rep_reps m L S S' b : rep m L S None b -> (forall q, S q = S' q) -> reps m S' b.
Proof. intros Hr ES. exists L. revert Hr. by apply rep_ext. Qed.

(** The segments that are left pair up with the nodes that are left. *)
Lemma rep_split m L S D b q l1 p l2 s1 ss : rep m L S D b ->
  L q = l1 ++ p :: l2 -> S q = s1 ++ ss -> length l1 = length s1 ->
  exists s s2, ss = s :: s2 /\ held m p s.
Proof.
  intros Hr EL ES Hlen. pose proof (rep_segs _ _ _ _ _ Hr q) as H2. rewrite EL, ES in H2.
  apply Forall2_app_inv in H2 as [_ H2]; [|done]. apply Forall2_cons_inv_l in H2 as (s & s2 & Hs & _ & ->).
  by exists s, s2.
Qed.

Lemma rep_end m L S D b q l1 s1 ss : rep m L S D b ->
  L q = l1 -> S q = s1 ++ ss -> length l1 = length s1 -> ss = [].
Proof.
  intros Hr EL ES Hlen. pose proof (rep_segs _ _ _ _ _ Hr q) as H2%Forall2_length. rewrite EL, ES, length_app in H2.
  destruct ss; [done | cbn in H2; lia].
Qed.

Lemma leads_step {A B} (c : M A) (k : A -> M B) a b m (P Q : memory -> Prop) :
  leads (c m) a P -> (forall m', P m' -> leads (k a m') b Q) -> leads (bind c k m) b Q.
Proof. intros (m' & E & H1) H2. apply (leads_bind c k a). exists m'. auto. Qed.

Lemma leads_block {B} (k : block -> M B) b m L S D (r : B) Q : rep m L S D b ->
  leads (k b m) r Q -> leads (bind get_block k m) r Q.
Proof. intros Hr H1. apply (leads_bind _ _ b). exists m. split; [by rewrite <- (rep_block _ _ _ _ _ Hr) | done]. Qed.

(** Reads of the segment and of the next node at the cursor. *)
Lemma leads_at {B} m L S D b q l1 p l2 s1 s s2 (k : seg.t -> M B) r Q : rep m L S D b ->
  L q = l1 ++ p :: l2 -> S q = s1 ++ s :: s2 -> length l1 = length s1 ->
  leads (k s m) r Q -> leads (bind (load segs p) k m) r Q.
Proof.
  intros Hr EL ES Hlen H1. apply (leads_load segs p s); [|by eapply rep_seg | done].
  eapply rep_node; [done|]. rewrite EL. set_solver.
Qed.

Lemma leads_next {B} m L S D b q l1 p l2 (k : Z -> M B) r Q : rep m L S D b ->
  L q = l1 ++ p :: l2 -> leads (k (from (head q) l2) m) r Q -> leads (bind (load next p) k m) r Q.
Proof.
  intros Hr EL H1. apply (leads_load next p (from (head q) l2)); [|by eapply rep_next | done].
  eapply rep_node; [done|]. rewrite EL. set_solver.
Qed.

Lemma leads_first {B} m L S D b q (k : Z -> M B) r Q : rep m L S D b ->
  leads (k (from (head q) (L q)) m) r Q -> leads (bind (load next (head q)) k m) r Q.
Proof.
  intros Hr H1. apply (leads_load next _ (from (head q) (L q))); [|by eapply rep_first | done].
  eapply rep_node; [done|]. left.
Qed.

Lemma leads_empty {B} m L S D b q (k : bool -> M B) r Q : rep m L S D b ->
  leads (k (bool_decide (L q = [])) m) r Q -> leads (bind (IQUEUE_IS_EMPTY (head q)) k m) r Q.
Proof. intros Hr H1. eapply leads_bind. eexists. split; [by eapply empty_step | done]. Qed.

Lemma cursor_on m L S D b q l1 p l2 : rep m L S D b -> L q = l1 ++ p :: l2 -> (p =? head q) = false.
Proof. intros Hr EL. apply Z.eqb_neq. eapply rep_not_head; [done|]. rewrite EL. set_solver. Qed.

Lemma fn_same {T} q t (f : queue -> T) : f q = t -> forall q', f q' = <[q:=t]> f q'.
Proof. intros E. apply (fn_cases (fun q' x => f q' = x)); done. Qed.

Lemma fn_twice {T} q (t u : T) (f : queue -> T) q' : <[q:=t]> (<[q:=u]> f) q' = <[q:=t]> f q'.
Proof. unfold insert, fn_insert. by destruct (decide (q = q')). Qed.

Lemma rep_nil m L S D b q : rep m L S D b -> L q = [] -> S q = [].
Proof. intros Hr E. by apply (rep_end m L S D b q [] [] (S q)). Qed.

End Representation.
