(* ===== verification/IqueueRefine.v ===== *)
(** * The queue operations of KCP refine those on lists

    The loops and calls of Iqueue.v, on linked nodes, do what those of Kcp.v do on lists:
    whatever the sequence of calls, the memory stands for the lists. *)

From Stdlib Require Import ZArith Lia Bool.
From stdpp Require Import base tactics option list numbers gmap functions.
From S2P Require Import Prelude KcpWire Iqueue.
From S2P Require Kcp.

#[local] Open Scope Z_scope.

(** The lists of a control block. *)
Definition lists_of (k : Kcp.kcp) (q : queue) : list seg.t :=
  match q with
  | snd_queue => Kcp.snd_queue (Kcp.tx k) | rcv_queue => Kcp.rcv_queue (Kcp.rx k)
  | snd_buf => Kcp.snd_buf (Kcp.tx k) | rcv_buf => Kcp.rcv_buf (Kcp.rx k)
  end.

(** The memory stands for the control block [k] of Kcp.v. *)
Definition stands `{Kcpcb} (m : memory) (k : Kcp.kcp) : Prop := reps m (lists_of k) (block_of k).

(** A call on the memory returns what the call on lists returns, and goes wrong as it does. *)
Definition follows `{Kcpcb} {A} (o : outcome (A * memory)) (r : outcome (A * Kcp.kcp)) : Prop :=
  match r with
  | Ok (a, k) => leads o a (fun m => stands m k)
  | Err f => o = Err f
  end.

(** *** Sequences of calls

    The operations of ikcp.c that work on the queues: what an input does with an
    acknowledgement, with [una] and with a data segment, what the flush moves, and the
    user's send and recv. *)
Inductive call :=
| Una (una : Z) | Ack (sn : Z) | Fastack (sn : Z) | Shrink | Push (s : seg.t)
| Admit (wnd cwnd : Z) | Send (buffer : list Z) (len : Z) | Recv (buffer : option (list Z)) (len : Z).

Definition result : Type := Z * option (list Z).
Definition nothing : result := (0, None).

Section Run.
Context `{Kcpcb} `{Allocator}.

Definition exec (c : call) : M result :=
  match c with
  | Una una => ikcp_parse_una una ;;! ret nothing
  | Ack sn => ikcp_parse_ack sn ;;! ret nothing
  | Fastack sn => ikcp_parse_fastack sn ;;! ret nothing
  | Shrink => ikcp_shrink_buf ;;! ret nothing
  | Push s => input_push s ;;! ret nothing
  | Admit wnd cwnd => with_fuel (fun fuel => admit_loop fuel wnd cwnd) ;;! ret nothing
  | Send buffer len => let! n := ikcp_send buffer len in ret (n, None)
  | Recv buffer len => ikcp_recv buffer len
  end.

Fixpoint exec_all (l : list call) : M (list result) :=
  match l with
  | [] => ret []
  | c :: l => let! r := exec c in let! rs := exec_all l in ret (r :: rs)
  end.

(** A control block is created, used and released. *)
Definition created (conv : Z) : memory := Memory heads heads ∅ (block_of (Kcp.ikcp_create conv)).
Definition use (l : list call) : M (list result) := create_queues ;;! exec_all l.
End Run.

Definition spec (c : call) (k : Kcp.kcp) : outcome (result * Kcp.kcp) :=
  let tx s := Ok (nothing, Kcp.with_tx s k) in
  match c with
  | Una una => tx (Kcp.ikcp_parse_una (Kcp.tx k) una)
  | Ack sn => tx (Kcp.ikcp_parse_ack (Kcp.tx k) sn)
  | Fastack sn => tx (Kcp.ikcp_parse_fastack (Kcp.tx k) sn)
  | Shrink => tx (Kcp.ikcp_shrink_buf (Kcp.tx k))
  | Push s => Ok (nothing, Kcp.with_rx (Kcp.ikcp_parse_data (Kcp.cfg k) (Kcp.rx k) s) k)
  | Admit wnd cwnd => tx (Kcp.admit_loop k wnd cwnd (Kcp.snd_queue (Kcp.tx k)) (Kcp.tx k))
  | Send buffer len => let* (n, k) := Kcp.ikcp_send k buffer len in Ok ((n, None), k)
  | Recv buffer len => Kcp.ikcp_recv k buffer len
  end.

Fixpoint spec_all (l : list call) (k : Kcp.kcp) : outcome (list result * Kcp.kcp) :=
  match l with
  | [] => Ok ([], k)
  | c :: l => let* (r, k) := spec c k in let* (rs, k) := spec_all l k in Ok (r :: rs, k)
  end.

Section Refinement.
Context `{Kcpcb}.

Definition with_nsnd_buf (n : Z) (b : block) : block := with_counts (snd_nxt b) n (nsnd_que b) b.

Lemma una_loop_refines una fuel m L S b : rep m L S None b -> (length (L snd_buf) < fuel)%nat ->
  leads (una_loop fuel una (from (head snd_buf) (L snd_buf)) m) tt (fun m' =>
    let '(buf, n) := Kcp.una_loop una (S snd_buf) (nsnd_buf b) in
    reps m' (<[snd_buf:=buf]> S) (with_nsnd_buf n b)).
Proof.
  revert m L S b. induction fuel as [|fuel IH]; intros m L S b Hr Hf; [lia|].
  cbn [una_loop]. destruct (L snd_buf) as [|p l] eqn:EL; cbn [from].
  - rewrite Z.eqb_refl. apply leads_ret. pose proof (rep_nil _ _ _ _ _ _ Hr EL) as ES. rewrite ES.
    apply (rep_reps m L S); [destruct b; exact Hr | by apply fn_same].
  - rewrite (cursor_on _ _ _ _ _ _ [] _ _ Hr EL).
    destruct (rep_split _ _ _ _ _ _ [] p l [] (S snd_buf) Hr EL) as (s & ss & ES & _); [done..|]. rewrite ES.
    eapply (leads_at m L S None b snd_buf [] p l [] s ss); [done..|].
    eapply (leads_next m L S None b snd_buf [] p l); [done..|].
    cbn [Kcp.una_loop]. destruct (0 <? itimediff una (seg.sn s)).
    + eapply leads_step; [by apply (del_step m L S b snd_buf [] p l [] s ss)|]. intros m1 Hr1.
      eapply leads_step; [by apply (delete_step _ _ _ _ _ _ Hr1)|]. intros m2 Hr2.
      eapply leads_step; [by apply (modify_step less_snd_buf _ _ _ _ _ Hr2)|]. intros m3 Hr3.
      specialize (IH m3 _ _ _ Hr3). rewrite !fn_lookup_insert in IH. eapply leads_weaken; [apply IH; cbn in *; lia|].
      intros m4. cbn [app nsnd_buf less_snd_buf with_counts]. destruct (Kcp.una_loop una ss _) as [buf n].
      apply reps_ext. intros q. apply fn_twice.
    + apply leads_ret. apply (rep_reps m L S); [destruct b; exact Hr | by apply fn_same].
Qed.

Lemma ack_loop_refines sn fuel m L S b l1 l2 s1 s2 : rep m L S None b ->
  L snd_buf = l1 ++ l2 -> S snd_buf = s1 ++ s2 -> length l1 = length s1 -> (length l2 < fuel)%nat ->
  leads (ack_loop fuel sn (from (head snd_buf) l2) m) tt (fun m' =>
    match Kcp.ack_loop sn s2 with
    | Some buf => reps m' (<[snd_buf:=s1 ++ buf]> S) (less_snd_buf b)
    | None => reps m' S b
    end).
Proof.
  intros Hr. revert l1 l2 s1 s2. induction fuel as [|fuel IH]; intros l1 l2 s1 s2 EL ES Hlen Hf; [lia|].
  cbn [ack_loop]. destruct l2 as [|p l2]; cbn [from].
  - rewrite Z.eqb_refl. apply leads_ret. rewrite app_nil_r in EL.
    rewrite (rep_end m L S None b snd_buf l1 s1 s2) by done. by exists L.
  - rewrite (cursor_on _ _ _ _ _ _ _ _ _ Hr EL).
    destruct (rep_split _ _ _ _ _ _ l1 p l2 s1 s2 Hr EL ES Hlen) as (s & ss & -> & _).
    eapply (leads_at m L S None b snd_buf l1 p l2 s1 s ss); [done..|].
    eapply (leads_next m L S None b snd_buf l1 p l2); [done..|].
    cbn [Kcp.ack_loop]. destruct (sn =? seg.sn s).
    + eapply leads_step; [by apply (del_step m L S b snd_buf l1 p l2 s1 s ss)|]. intros m1 Hr1.
      eapply leads_step; [by apply (delete_step _ _ _ _ _ _ Hr1)|]. intros m2 Hr2.
      eapply leads_weaken; [by apply (modify_step less_snd_buf _ _ _ _ _ Hr2)|]. intros m3 Hr3. eexists. exact Hr3.
    + destruct (itimediff sn (seg.sn s) <? 0); [apply leads_ret; by exists L|].
      eapply leads_weaken.
      * apply (IH (l1 ++ [p]) l2 (s1 ++ [s]) ss); rewrite <- ?app_assoc; try done; rewrite ?length_app; cbn in *; lia.
      * intros m' Hm. destruct (Kcp.ack_loop sn ss); [|done]. cbn. by rewrite <- app_assoc in Hm.
Qed.

Lemma fastack_loop_refines sn fuel m L S b l1 l2 s1 s2 : rep m L S None b ->
  L snd_buf = l1 ++ l2 -> S snd_buf = s1 ++ s2 -> length l1 = length s1 -> (length l2 < fuel)%nat ->
  leads (fastack_loop fuel sn (from (head snd_buf) l2) m) tt (fun m' =>
    reps m' (<[snd_buf:=s1 ++ Kcp.fastack_loop sn s2]> S) b).
Proof.
  revert m L S l1 l2 s1 s2. induction fuel as [|fuel IH]; intros m L S l1 l2 s1 s2 Hr EL ES Hlen Hf; [lia|].
  cbn [fastack_loop]. destruct l2 as [|p l2]; cbn [from].
  - rewrite Z.eqb_refl. apply leads_ret. rewrite app_nil_r in EL.
    pose proof (rep_end m L S None b snd_buf l1 s1 s2 Hr EL ES Hlen) as ->.
    apply (rep_reps m L S); [done | by apply fn_same].
  - rewrite (cursor_on _ _ _ _ _ _ _ _ _ Hr EL).
    destruct (rep_split _ _ _ _ _ _ l1 p l2 s1 s2 Hr EL ES Hlen) as (s & ss & -> & _).
    eapply (leads_at m L S None b snd_buf l1 p l2 s1 s ss); [done..|].
    eapply (leads_next m L S None b snd_buf l1 p l2); [done..|].
    cbn [Kcp.fastack_loop]. destruct (itimediff sn (seg.sn s) <? 0).
    + apply leads_ret. apply (rep_reps m L S); [done | by apply fn_same].
    + set (s' := if negb (sn =? seg.sn s) then _ else s).
      eapply (leads_step _ _ tt _ _ (fun m' => rep m' L (<[snd_buf:=s1 ++ s' :: ss]> S) None b)).
      * subst s'. destruct (negb _); [by apply (set_step _ m L S b snd_buf l1 p l2 s1 s ss)|].
        apply leads_ret. revert Hr. apply rep_ext; [done | by apply fn_same].
      * intros m' Hr'. eapply leads_weaken.
        -- apply (IH m' L (<[snd_buf:=s1 ++ s' :: ss]> S) (l1 ++ [p]) l2 (s1 ++ [s']) ss); rewrite ?fn_lookup_insert, <- ?app_assoc; try done;
             rewrite ?length_app; cbn in *; lia.
        -- intros m2. rewrite <- (app_assoc s1 [s']). apply reps_ext. intros q. apply fn_twice.
Qed.

(** *** Receiving *)

Lemma rep_length m L S D b q : rep m L S D b -> length (L q) = length (S q).
Proof. intros Hr. apply (Forall2_length (R := held m)), (rep_segs _ _ _ _ _ Hr). Qed.

Lemma stands_rep m k : stands m k -> exists L, rep m L (lists_of k) None (block_of k).
Proof. done. Qed.

Lemma rep_stands m L S b k : rep m L S None b -> (forall q, S q = lists_of k q) -> b = block_of k -> stands m k.
Proof. intros Hr ES ->. by apply (rep_reps m L S). Qed.

Lemma move_loop_refines fuel m k : stands m k -> (length (Kcp.rcv_buf (Kcp.rx k)) < fuel)%nat ->
  leads (move_loop fuel m) tt (fun m' =>
    stands m' (Kcp.with_rx (Kcp.move_ready (Kcp.rcv_wnd (Kcp.cfg k)) (Kcp.rcv_buf (Kcp.rx k)) (Kcp.rx k)) k)).
Proof.
  revert m k. induction fuel as [|fuel IH]; intros m k [L Hr] Hf; [lia|].
  cbn [move_loop]. eapply leads_empty; [done|].
  pose proof (rep_segs _ _ _ _ _ Hr rcv_buf) as H2. change (lists_of k rcv_buf) with (Kcp.rcv_buf (Kcp.rx k)) in H2.
  destruct (Kcp.rcv_buf (Kcp.rx k)) as [|s ss] eqn:ES.
  { apply Forall2_nil_inv_r in H2. rewrite bool_decide_true by done. apply leads_ret.
    apply (rep_stands m L _ _ _ Hr); [by intros [] | by destruct k]. }
  apply Forall2_cons_inv_r in H2 as (p & l & Hs & _ & EL). rewrite bool_decide_false by (by rewrite EL). cbn [negb].
  eapply leads_first; [done|]. rewrite EL. cbn [from].
  eapply (leads_at m L _ None _ rcv_buf [] p l [] s ss); [done..|].
  eapply leads_block; [done|]. cbn [block_of rcv_nxt nrcv_que cfg Kcp.move_ready].
  destruct (_ && _) eqn:Ego; [|apply leads_ret; apply (rep_stands m L _ _ _ Hr); [by intros [] | by destruct k]].
  eapply leads_step; [by apply (del_step m L (lists_of k) (block_of k) rcv_buf [] p l [] s ss)|]. intros m1 Hr1.
  eapply leads_step; [eapply (modify_step _ _ _ _ _ _ Hr1)|]. intros m2 Hr2.
  eapply leads_step; [eapply (add_tail_step _ _ _ _ rcv_queue _ _ Hr2)|]. intros m3 Hr3.
  eapply leads_step; [eapply (modify_step _ _ _ _ _ _ Hr3)|]. intros m4 Hr4.
  set (r' := Kcp.Receiver _ ss _ _ _ _ _ _).
  eapply leads_weaken; [apply (IH m4 (Kcp.with_rx r' k))|].
  - apply (rep_stands _ _ _ _ _ Hr4); [by intros [] | by destruct k].
  - cbn. cbn in Hf. lia.
  - intros m5 Hm5. exact Hm5.
Qed.

(** The search ends after the nodes [l1] of the queue. *)
Lemma search_loop_refines fuel newseg m L S D b l1 l2 s1 s2 : rep m L S D b ->
  L rcv_buf = l1 ++ l2 -> S rcv_buf = s1 ++ s2 -> length l1 = length s1 -> (length l1 < fuel)%nat ->
  match Kcp.insert_back (rev s1) newseg with
  | None => exists p, search_loop fuel (seg.sn newseg) (from (head rcv_buf) (rev l1)) m = Ok (p, true, m)
  | Some rbuf => exists l3 l4 s3 s4, l1 = l3 ++ l4 /\ s1 = s3 ++ s4 /\ length l3 = length s3 /\
      rev rbuf = s3 ++ newseg :: s4 /\
      search_loop fuel (seg.sn newseg) (from (head rcv_buf) (rev l1)) m = Ok (from (head rcv_buf) (rev l3), false, m)
  end.
Proof.
  intros Hr. revert l1 l2 s1 s2. induction fuel as [|fuel IH]; intros l1 l2 s1 s2 EL ES Hlen Hf; [lia|].
  cbn [search_loop]. destruct l1 as [|p l1 _] using rev_ind.
  - destruct s1; [|done]. cbn. exists [], [], [], []. by rewrite Z.eqb_refl.
  - destruct s1 as [|s s1 _] using rev_ind; [by rewrite length_app in Hlen; cbn in Hlen; lia|].
    rewrite !length_app in Hlen. rewrite !rev_app_distr. cbn [rev app from Kcp.insert_back].
    rewrite <- app_assoc in EL, ES. cbn in EL, ES, Hlen.
    rewrite (cursor_on _ _ _ _ _ _ _ _ _ Hr EL).
    rewrite (bind_ok _ _ s m m) by (apply load_member; [eapply rep_node; [done|]; rewrite EL; set_solver | eapply rep_seg; [done..|lia]]).
    rewrite (bind_ok _ _ (from (head rcv_buf) (rev l1)) m m)
      by (apply load_member; [eapply rep_node; [done|]; rewrite EL; set_solver | by eapply rep_prev]).
    destruct (seg.sn s =? seg.sn newseg); [by eexists|].
    destruct (0 <? itimediff (seg.sn newseg) (seg.sn s)).
    + exists (l1 ++ [p]), [], (s1 ++ [s]), []. cbn [rev].
      rewrite !app_nil_r, !rev_involutive, !length_app, rev_app_distr. cbn. split_and!; [done..|lia|done|done].
    + specialize (IH l1 (p :: l2) s1 (s :: s2) EL ES). rewrite length_app in Hf. cbn in Hf.
      specialize (IH ltac:(lia) ltac:(lia)). destruct (Kcp.insert_back (rev s1) newseg) as [rbuf|]; [|done]. cbn.
      destruct IH as (l3 & l4 & s3 & s4 & -> & -> & Hl & Er & E). exists l3, (l4 ++ [p]), s3, (s4 ++ [s]).
      by rewrite !app_assoc, Er, <- !app_assoc.
Qed.

Lemma with_fuel_move m k : stands m k ->
  leads (with_fuel move_loop m) tt (fun m' =>
    stands m' (Kcp.with_rx (Kcp.move_ready (Kcp.rcv_wnd (Kcp.cfg k)) (Kcp.rcv_buf (Kcp.rx k)) (Kcp.rx k)) k)).
Proof.
  intros [L Hr]. apply move_loop_refines; [by exists L|].
  change (Kcp.rcv_buf (Kcp.rx k)) with (lists_of k rcv_buf).
  pose proof (rep_size _ _ _ _ _ rcv_buf Hr) as Hz. rewrite (rep_length _ _ _ _ _ rcv_buf Hr) in Hz. lia.
Qed.

Lemma parse_data_refines m L k p newseg : rep m L (lists_of k) (Some (p, newseg)) (block_of k) ->
  leads (ikcp_parse_data p m) tt (fun m' =>
    stands m' (Kcp.with_rx (Kcp.ikcp_parse_data (Kcp.cfg k) (Kcp.rx k) newseg) k)).
Proof.
  intros Hr. destruct (own_node _ _ _ _ _ _ Hr) as ((H0 & _) & Hh & _).
  unfold ikcp_parse_data, Kcp.ikcp_parse_data.
  apply (leads_load segs p newseg); [done..|]. eapply leads_block; [done|]. cbn [block_of rcv_nxt cfg].
  destruct (_ || _).
  { eapply leads_weaken; [by apply (delete_step _ _ _ _ _ _ Hr)|]. intros m' Hr'.
    apply (rep_stands _ _ _ _ _ Hr'); [by intros [] | by destruct k]. }
  apply (leads_load prev (head rcv_buf) (from (head rcv_buf) (rev (L rcv_buf)))); [eapply rep_node; [done|left] | by eapply rep_last|].
  pose proof (search_loop_refines (S (size (segs m))) newseg m L _ _ _ (L rcv_buf) [] (lists_of k rcv_buf) [] Hr) as Hs.
  rewrite !app_nil_r in Hs. pose proof (rep_length _ _ _ _ _ rcv_buf Hr) as Hlen.
  pose proof (rep_size _ _ _ _ _ rcv_buf Hr) as Hz.
  specialize (Hs eq_refl eq_refl Hlen ltac:(lia)). change (lists_of k rcv_buf) with (Kcp.rcv_buf (Kcp.rx k)) in Hs.
  destruct (Kcp.insert_back (rev (Kcp.rcv_buf (Kcp.rx k))) newseg) as [rbuf|].
  - destruct Hs as (l3 & l4 & s3 & s4 & EL & ES & Hl & -> & E).
    eapply leads_bind. eexists. split; [exact E|]. cbn [negb].
    set (k1 := Kcp.with_rx (Kcp.Receiver (Kcp.rcv_nxt (Kcp.rx k)) (s3 ++ newseg :: s4) (Kcp.rcv_queue (Kcp.rx k))
      (u32 (Kcp.nrcv_buf (Kcp.rx k) + 1)) (Kcp.nrcv_que (Kcp.rx k)) (Kcp.acklist (Kcp.rx k)) (Kcp.ackcount (Kcp.rx k))
      (Kcp.ackblock (Kcp.rx k))) k).
    eapply (leads_step _ _ tt _ _ (fun m' => stands m' k1)); [|intros m2 Hm2; exact (with_fuel_move m2 k1 Hm2)].
    eapply leads_step; [by apply (init_step _ _ _ _ _ _ Hr)|]. intros m1 Hr1.
    eapply leads_step; [eapply (add_step m1 L (lists_of k) (block_of k) rcv_buf l3 l4 p newseg s3 s4); done|]. intros m2 Hr2.
    eapply leads_weaken; [eapply (modify_step _ _ _ _ _ _ Hr2)|]. intros m3 Hr3.
    apply (rep_stands _ _ _ _ _ Hr3); [by intros [] | by destruct k].
  - destruct Hs as [p' E]. eapply leads_bind. eexists. split; [exact E|]. cbn [negb].
    eapply leads_step; [by apply (delete_step _ _ _ _ _ _ Hr)|]. intros m1 Hr1.
    exact (with_fuel_move m1 k (ex_intro _ L Hr1)).
Qed.

Lemma peek_loop_refines fuel m L S D b l1 l2 s1 s2 length0 : rep m L S D b ->
  L rcv_queue = l1 ++ l2 -> S rcv_queue = s1 ++ s2 -> length l1 = length s1 -> (length l2 < fuel)%nat ->
  peek_loop fuel (from (head rcv_queue) l2) length0 m = Ok (Kcp.peek_length s2 length0, m).
Proof.
  intros Hr. revert l1 l2 s1 s2 length0. induction fuel as [|fuel IH]; intros l1 l2 s1 s2 n EL ES Hlen Hf; [lia|].
  cbn [peek_loop]. destruct l2 as [|p l2]; cbn [from].
  - rewrite Z.eqb_refl. rewrite app_nil_r in EL. by rewrite (rep_end m L S D b rcv_queue l1 s1 s2).
  - rewrite (cursor_on _ _ _ _ _ _ _ _ _ Hr EL).
    destruct (rep_split _ _ _ _ _ _ l1 p l2 s1 s2 Hr EL ES Hlen) as (s & ss & -> & Hs).
    assert (p <> 0) by (eapply rep_node; [done|]; rewrite EL; set_solver).
    rewrite (bind_ok _ _ s m m) by (by apply load_member). cbn [Kcp.peek_length].
    destruct (seg.frg s =? 0); [done|].
    rewrite (bind_ok _ _ (from (head rcv_queue) l2) m m) by (apply load_member; [done | by eapply rep_next]).
    apply (IH (l1 ++ [p]) l2 (s1 ++ [s]) ss); rewrite <- ?app_assoc; try done; rewrite ?length_app; cbn in *; lia.
Qed.

Lemma peeksize_refines m k : stands m k -> ikcp_peeksize m = Ok (Kcp.ikcp_peeksize (Kcp.rx k), m).
Proof.
  intros [L Hr]. unfold ikcp_peeksize, Kcp.ikcp_peeksize.
  rewrite (bind_ok _ _ (bool_decide (L rcv_queue = [])) m m) by (by eapply empty_step).
  pose proof (rep_segs _ _ _ _ _ Hr rcv_queue) as H2. change (lists_of k rcv_queue) with (Kcp.rcv_queue (Kcp.rx k)) in H2.
  destruct (Kcp.rcv_queue (Kcp.rx k)) as [|s ss] eqn:ES.
  { apply Forall2_nil_inv_r in H2. by rewrite bool_decide_true. }
  apply Forall2_cons_inv_r in H2 as (p & l & Hs & _ & EL). rewrite bool_decide_false by (by rewrite EL).
  assert (p <> 0) by (eapply rep_node; [done|]; rewrite EL; set_solver).
  assert (load next (head rcv_queue) m = Ok (p, m)) as Ef.
  { apply load_member; [eapply rep_node; [done | left]|]. rewrite (rep_first _ _ _ _ _ rcv_queue Hr). by rewrite EL. }
  rewrite (bind_ok _ _ p m m Ef), (bind_ok _ _ s m m) by (by apply load_member).
  rewrite (bind_ok _ _ (block_of k) m m) by (unfold get_block; by rewrite (rep_block _ _ _ _ _ Hr)). cbn [block_of nrcv_que].
  destruct (seg.frg s =? 0); [done|]. destruct (_ <? _); [done|].
  rewrite (bind_ok _ _ p m m Ef). pose proof (rep_size _ _ _ _ _ rcv_queue Hr) as Hz. rewrite EL in Hz.
  pose proof (peek_loop_refines (S (size (segs m))) m L _ _ _ [] (p :: l) [] (s :: ss) 0 Hr EL ES eq_refl) as Hp.
  apply Hp. lia.
Qed.

Definition with_nrcv_que (n : Z) (b : block) : block := with_rcounts (rcv_nxt b) (nrcv_buf b) n b.

Lemma merge_loop_refines ispeek fuel m L S b l1 l2 s1 s2 buffer off len : rep m L S None b ->
  L rcv_queue = l1 ++ l2 -> S rcv_queue = s1 ++ s2 -> length l1 = length s1 -> (length l2 < fuel)%nat ->
  match Kcp.merge_loop ispeek s2 (nrcv_que b) buffer off len with
  | Ok (rest, n, buffer', len') =>
      leads (merge_loop fuel ispeek (from (head rcv_queue) l2) buffer off len m) (buffer', len') (fun m' =>
        reps m' (<[rcv_queue:=s1 ++ rest]> S) (with_nrcv_que n b))
  | Err f => merge_loop fuel ispeek (from (head rcv_queue) l2) buffer off len m = Err f
  end.
Proof.
  revert m L S b l1 l2 s1 s2 buffer off len.
  induction fuel as [|fuel IH]; intros m L S b l1 l2 s1 s2 buffer off len Hr EL ES Hlen Hf; [lia|].
  cbn [merge_loop]. destruct l2 as [|p l2]; cbn [from].
  { rewrite Z.eqb_refl. rewrite app_nil_r in EL. pose proof (rep_end m L S None b rcv_queue l1 s1 s2 Hr EL ES Hlen) as ->.
    cbn. apply leads_ret. apply (rep_reps m L S); [destruct b; exact Hr | by apply fn_same]. }
  rewrite (cursor_on _ _ _ _ _ _ _ _ _ Hr EL).
  destruct (rep_split _ _ _ _ _ _ l1 p l2 s1 s2 Hr EL ES Hlen) as (s & ss & -> & Hs).
  assert (p <> 0) by (eapply rep_node; [done|]; rewrite EL; set_solver).
  rewrite (bind_ok _ _ s m m) by (by apply load_member).
  rewrite (bind_ok _ _ (from (head rcv_queue) l2) m m) by (apply load_member; [done | by eapply rep_next]).
  cbn [Kcp.merge_loop].
  set (copy := match buffer with Some b => _ | None => Ok None end).
  assert (forall A (k : option (list Z) -> M A), bind match buffer with
      Some b => let! b := lift (mwrite b off (seg.data s)) in ret (Some b) | None => ret None end k m =
      match copy with Ok b => k b m | Err f => Err f end) as Hcopy.
  { intros A k. subst copy. unfold bind, lift, ret. destruct buffer as [c|]; [|done]. by destruct (mwrite c off (seg.data s)). }
  rewrite Hcopy. clear Hcopy. destruct copy as [buffer'|f]; [|done]. clear buffer. rewrite outcome_bind_ok.
  set (n := if ispeek then nrcv_que b else _).
  set (l1' := if ispeek then l1 ++ [p] else l1). set (s1' := if ispeek then s1 ++ [s] else s1).
  assert (leads ((if ispeek then ret tt else IQUEUE_DEL p ;;! ikcp_segment_delete p ;;!
      modify (fun b => with_rcounts (rcv_nxt b) (nrcv_buf b) (u32 (nrcv_que b - 1)) b)) m) tt
    (fun m' => rep m' (<[rcv_queue:=l1' ++ l2]> L) (<[rcv_queue:=s1' ++ ss]> S) None (with_nrcv_que n b))) as (m1 & E1 & Hr1).
  { subst n l1' s1'. destruct ispeek.
    - apply leads_ret. rewrite <- !app_assoc. apply (rep_ext m L _ S); [by apply fn_same..|]. destruct b; exact Hr.
    - eapply leads_step; [by apply (del_step m L S b rcv_queue l1 p l2 s1 s ss)|]. intros m1 Hr1.
      eapply leads_step; [by apply (delete_step _ _ _ _ _ _ Hr1)|]. intros m2 Hr2.
      exact (modify_step _ _ _ _ _ _ Hr2). }
  rewrite (bind_ok _ _ tt m m1) by exact E1.
  assert (length l1' = length s1') as Hlen' by (subst l1' s1'; destruct ispeek; rewrite ?length_app; cbn; lia).
  assert (forall rest, s1' ++ rest = s1 ++ (if ispeek then s :: rest else rest)) as Hrest
    by (intros rest; subst s1'; destruct ispeek; by rewrite <- ?app_assoc).
  destruct (seg.frg s =? 0).
  - cbn. apply leads_ret. apply (rep_reps _ _ _ _ _ Hr1). intros q. by rewrite Hrest.
  - specialize (IH m1 _ _ _ l1' l2 s1' ss buffer' (off + seg.len s) (i32 (len + seg.len s)) Hr1).
    rewrite !fn_lookup_insert in IH. specialize (IH eq_refl eq_refl Hlen' ltac:(cbn in Hf; lia)).
    cbn [with_nrcv_que nrcv_que with_rcounts] in IH.
    destruct (Kcp.merge_loop ispeek ss n buffer' _ _) as [[[[rest n'] buffer''] len']|f]; [|done].
    cbn. eapply leads_weaken; [exact IH|]. intros m2. rewrite <- Hrest. apply reps_ext. intros q. apply fn_twice.
Qed.

Lemma follows_ret {A} (a : A) m k : stands m k -> follows (ret a m) (Ok (a, k)).
Proof. intros Hm. by exists m. Qed.

(** One step of a call, and of its counterpart. *)
Lemma follows_step {A B} (c : M A) (f : A -> M B) a m r (P : memory -> Prop) :
  leads (c m) a P -> (forall m', P m' -> follows (f a m') r) -> follows (bind c f m) r.
Proof. intros (m' & E & Hm) Hf. unfold bind. rewrite E. by apply Hf. Qed.

Lemma follows_same {A B} (c : M A) (f : A -> M B) a m r :
  c m = Ok (a, m) -> follows (f a m) r -> follows (bind c f m) r.
Proof. intros E Hf. unfold bind. by rewrite E. Qed.

Lemma follows_to {A B} (c : M A) (f : A -> M B) a m m' r :
  c m = Ok (a, m') -> follows (f a m') r -> follows (bind c f m) r.
Proof. intros E Hf. unfold bind. by rewrite E. Qed.

Lemma follows_err {A B} (c : M A) (g : A -> M B) m f : c m = Err f -> follows (bind c g m) (Err f).
Proof. intros E. unfold follows, bind. by rewrite E. Qed.

Lemma follows_lift {A B} (o : outcome A) (f : A -> M B) m (g : A -> outcome (B * Kcp.kcp)) :
  (forall a, o = Ok a -> follows (f a m) (g a)) -> follows (bind (lift o) f m) (let* a := o in g a).
Proof. intros Hf. unfold bind, lift. destruct o as [a|e]; [by apply Hf | done]. Qed.

Lemma follows_block {B} (f : block -> M B) m k r : stands m k ->
  follows (f (block_of k) m) r -> follows (bind get_block f m) r.
Proof. intros [L Hr]. apply follows_same. unfold get_block. by rewrite (rep_block _ _ _ _ _ Hr). Qed.

Lemma empty_lists m k q : stands m k -> IQUEUE_IS_EMPTY (head q) m = Ok (bool_decide (lists_of k q = []), m).
Proof.
  intros [L Hr]. rewrite (empty_step m L _ None _ q Hr). do 2 f_equal. apply bool_decide_ext.
  rewrite <- !length_zero_iff_nil. by rewrite (rep_length _ _ _ _ _ q Hr).
Qed.

Lemma recv_refines m k buffer len : stands m k -> follows (ikcp_recv buffer len m) (Kcp.ikcp_recv k buffer len).
Proof.
  intros Hm. unfold ikcp_recv, Kcp.ikcp_recv. apply (follows_same _ _ _ _ _ (empty_lists m k rcv_queue Hm)).
  cbn [lists_of]. destruct (Kcp.rcv_queue (Kcp.rx k)) as [|s ss] eqn:ES.
  { rewrite bool_decide_true by done. by apply follows_ret. }
  rewrite bool_decide_false by done. rewrite <- ES. apply follows_lift. intros len' _.
  apply (follows_same _ _ _ _ _ (peeksize_refines m k Hm)).
  destruct (_ <? 0); [by apply follows_ret|]. destruct (len' <? _); [by apply follows_ret|].
  apply (follows_block _ m k); [done|]. pose proof Hm as [L Hr].
  eapply (follows_same _ _ (from (head rcv_queue) (L rcv_queue))).
  { apply load_member; [eapply rep_node; [done | left] | by eapply rep_first]. }
  pose proof (merge_loop_refines (len <? 0) (S (size (segs m))) m L _ _ [] (L rcv_queue) [] _ buffer 0 0 Hr
    eq_refl eq_refl eq_refl) as Hmerge.
  specialize (Hmerge ltac:(pose proof (rep_size _ _ _ _ _ rcv_queue Hr); lia)). cbn [block_of nrcv_que lists_of app] in Hmerge.
  destruct (Kcp.merge_loop _ _ _ _ _ _) as [[[[rest n] buffer'] len2]|f];
    [|exact (follows_err _ _ _ _ Hmerge)].
  rewrite outcome_bind_ok. eapply follows_step; [exact Hmerge|]. intros m1 [L1 Hr1].
  apply follows_lift. intros _ _.
  set (r := Kcp.Receiver _ _ rest _ n _ _ _).
  assert (stands m1 (Kcp.with_rx r k)) as Hm1.
  { apply (rep_stands _ _ _ _ _ Hr1); [by intros [] | by destruct k]. }
  eapply follows_step; [exact (with_fuel_move _ _ Hm1)|]. intros m2 Hm2. cbn [Kcp.with_rx Kcp.cfg Kcp.rx] in Hm2.
  apply (follows_block _ m2 _ _ Hm2). cbn [block_of nrcv_que cfg Kcp.with_rx Kcp.rx Kcp.cfg].
  set (k2 := Kcp.with_rx _ (Kcp.with_rx r k)) in *. fold r.
  destruct (_ && _); (eapply follows_step; [|intros m3 Hm3; apply follows_ret; exact Hm3]).
  - destruct Hm2 as [L2 Hr2]. eapply leads_weaken; [exact (modify_step _ _ _ _ _ _ Hr2)|]. intros m3 Hr3.
    apply (rep_stands _ _ _ _ _ Hr3); [by intros [] | done].
  - by apply leads_ret.
Qed.

(** *** Acknowledgements *)

Lemma first_node m k q : stands m k -> exists L, rep m L (lists_of k) None (block_of k) /\
  load next (head q) m = Ok (from (head q) (L q), m) /\ (length (L q) < S (size (segs m)))%nat.
Proof.
  intros [L Hr]. exists L. split_and!; [done| |].
  - apply load_member; [eapply rep_node; [done | left] | by eapply rep_first].
  - pose proof (rep_size _ _ _ _ _ q Hr). lia.
Qed.

Lemma shrink_refines m k : stands m k ->
  leads (ikcp_shrink_buf m) tt (fun m' => stands m' (Kcp.with_tx (Kcp.ikcp_shrink_buf (Kcp.tx k)) k)).
Proof.
  intros Hm. destruct (first_node m k snd_buf Hm) as (L & Hr & Ef & _). unfold ikcp_shrink_buf, Kcp.ikcp_shrink_buf.
  rewrite (bind_ok _ _ _ m m Ef).
  pose proof (rep_segs _ _ _ _ _ Hr snd_buf) as H2. change (lists_of k snd_buf) with (Kcp.snd_buf (Kcp.tx k)) in H2.
  destruct (L snd_buf) as [|p l] eqn:EL; cbn [from].
  - apply Forall2_nil_inv_l in H2 as ->. rewrite Z.eqb_refl. cbn [negb]. eapply leads_block; [done|].
    eapply leads_weaken; [exact (modify_step _ _ _ _ _ _ Hr)|]. intros m' Hr'.
    apply (rep_stands _ _ _ _ _ Hr'); [by intros [] | by destruct k].
  - apply Forall2_cons_inv_l in H2 as (s & ss & Hs & _ & ES). rewrite ES.
    rewrite (cursor_on m L _ None _ snd_buf [] p l Hr EL). cbn [negb].
    eapply (leads_at m L _ None _ snd_buf [] p l [] s ss); [done..|].
    eapply leads_weaken; [exact (modify_step _ _ _ _ _ _ Hr)|]. intros m' Hr'.
    apply (rep_stands _ _ _ _ _ Hr'); [by intros [] | by destruct k].
Qed.

Lemma parse_una_refines una m k : stands m k ->
  leads (ikcp_parse_una una m) tt (fun m' => stands m' (Kcp.with_tx (Kcp.ikcp_parse_una (Kcp.tx k) una) k)).
Proof.
  intros Hm. destruct (first_node m k snd_buf Hm) as (L & Hr & Ef & Hf). unfold ikcp_parse_una, Kcp.ikcp_parse_una.
  rewrite (bind_ok _ _ _ m m Ef). eapply leads_weaken; [by apply (una_loop_refines una _ _ _ _ _ Hr)|]. intros m'.
  cbn [lists_of block_of nsnd_buf]. destruct (Kcp.una_loop _ _ _) as [buf n]. intros [L' Hr'].
  apply (rep_stands _ _ _ _ _ Hr'); [by intros [] | done].
Qed.

Lemma parse_ack_refines sn m k : stands m k ->
  leads (ikcp_parse_ack sn m) tt (fun m' => stands m' (Kcp.with_tx (Kcp.ikcp_parse_ack (Kcp.tx k) sn) k)).
Proof.
  intros Hm. destruct (first_node m k snd_buf Hm) as (L & Hr & Ef & Hf). unfold ikcp_parse_ack, Kcp.ikcp_parse_ack.
  eapply leads_block; [done|]. change (outstanding sn (block_of k)) with (Kcp.outstanding (Kcp.tx k) sn).
  destruct (Kcp.outstanding _ _); [|apply leads_ret; apply (rep_stands _ _ _ _ _ Hr); [by intros [] | by destruct k]].
  rewrite (bind_ok _ _ _ m m Ef).
  eapply leads_weaken; [by apply (ack_loop_refines sn _ _ _ _ _ [] (L snd_buf) [] (lists_of k snd_buf) Hr)|]. intros m'.
  cbn [lists_of app]. destruct (Kcp.ack_loop _ _) as [buf|]; intros [L' Hr'];
    (apply (rep_stands _ _ _ _ _ Hr'); [by intros [] | by destruct k]).
Qed.

Lemma parse_fastack_refines sn m k : stands m k ->
  leads (ikcp_parse_fastack sn m) tt (fun m' => stands m' (Kcp.with_tx (Kcp.ikcp_parse_fastack (Kcp.tx k) sn) k)).
Proof.
  intros Hm. destruct (first_node m k snd_buf Hm) as (L & Hr & Ef & Hf). unfold ikcp_parse_fastack, Kcp.ikcp_parse_fastack.
  eapply leads_block; [done|]. change (outstanding sn (block_of k)) with (Kcp.outstanding (Kcp.tx k) sn).
  destruct (Kcp.outstanding _ _); [|apply leads_ret; apply (rep_stands _ _ _ _ _ Hr); [by intros [] | by destruct k]].
  rewrite (bind_ok _ _ _ m m Ef).
  eapply leads_weaken; [by apply (fastack_loop_refines sn _ _ _ _ _ [] (L snd_buf) [] (lists_of k snd_buf) Hr)|]. intros m' [L' Hr'].
  apply (rep_stands _ _ _ _ _ Hr'); [by intros [] | by destruct k].
Qed.

(** *** Sending *)

Lemma admit_loop_tx t k wnd cwnd q s : Kcp.admit_loop (Kcp.with_tx t k) wnd cwnd q s = Kcp.admit_loop k wnd cwnd q s.
Proof. revert s. induction q as [|x q IH]; intros s; cbn; [done|]. by rewrite IH. Qed.

Lemma admit_loop_refines fuel wnd cwnd m k : stands m k -> (length (Kcp.snd_queue (Kcp.tx k)) < fuel)%nat ->
  leads (admit_loop fuel wnd cwnd m) tt (fun m' =>
    stands m' (Kcp.with_tx (Kcp.admit_loop k wnd cwnd (Kcp.snd_queue (Kcp.tx k)) (Kcp.tx k)) k)).
Proof.
  revert m k. induction fuel as [|fuel IH]; intros m k Hm Hf; [lia|].
  cbn [admit_loop]. pose proof Hm as [L Hr]. eapply leads_block; [done|]. cbn [block_of snd_nxt snd_una].
  assert (stands m (Kcp.with_tx (Kcp.tx k) k)) as Hsame by (by destruct k).
  destruct (Kcp.snd_queue (Kcp.tx k)) as [|s ss] eqn:ES; cbn [Kcp.admit_loop].
  { destruct (itimediff _ _ <? 0); [|by apply leads_ret].
    rewrite (bind_ok _ _ _ m m (empty_lists m k snd_queue Hm)). cbn [lists_of]. rewrite ES, bool_decide_true by done.
    by apply leads_ret. }
  destruct (itimediff _ _ <? 0); [|by apply leads_ret].
  rewrite (bind_ok _ _ _ m m (empty_lists m k snd_queue Hm)). cbn [lists_of]. rewrite ES, bool_decide_false by done.
  pose proof (rep_segs _ _ _ _ _ Hr snd_queue) as H2. change (lists_of k snd_queue) with (Kcp.snd_queue (Kcp.tx k)) in H2.
  rewrite ES in H2. apply Forall2_cons_inv_r in H2 as (p & l & Hs & _ & EL).
  eapply leads_first; [done|]. rewrite EL. cbn [from].
  eapply leads_step; [eapply (del_step m L (lists_of k) (block_of k) snd_queue [] p l [] s ss); done|]. intros m1 Hr1.
  eapply leads_step; [eapply (add_tail_step _ _ _ _ snd_buf _ _ Hr1)|]. intros m2 Hr2.
  eapply leads_step; [eapply (modify_step _ _ _ _ _ _ Hr2)|]. intros m3 Hr3.
  eapply (leads_at _ _ _ _ _ snd_buf (L snd_buf) p [] (lists_of k snd_buf) s []);
    [exact Hr3 | by rewrite fn_lookup_insert, fn_lookup_insert_ne.. | exact (rep_length _ _ _ _ _ snd_buf Hr) |].
  eapply leads_step;
    [eapply (set_step _ _ _ _ _ snd_buf (L snd_buf) p [] (lists_of k snd_buf) s [] Hr3);
       [by rewrite fn_lookup_insert, fn_lookup_insert_ne.. | exact (rep_length _ _ _ _ _ snd_buf Hr)]|]. intros m4 Hr4.
  eapply leads_step; [eapply (modify_step _ _ _ _ _ _ Hr4)|]. intros m5 Hr5.
  set (tx' := Kcp.Sender _ _ (_ ++ [_]) ss _ _).
  eapply leads_weaken; [apply (IH m5 (Kcp.with_tx tx' k))|].
  - apply (rep_stands _ _ _ _ _ Hr5); [by intros [] | by destruct k].
  - cbn in *. lia.
  - intros m6. rewrite admit_loop_tx. done.
Qed.

Context `{Allocator}.

Lemma del_init_step m L S b q l1 p l2 s1 s s2 : rep m L S None b ->
  L q = l1 ++ p :: l2 -> S q = s1 ++ s :: s2 -> length l1 = length s1 ->
  leads (IQUEUE_DEL_INIT p m) tt (fun m' => rep m' (<[q:=l1 ++ l2]> L) (<[q:=s1 ++ s2]> S) (Some (p, s)) b).
Proof.
  intros Hr EL ES Hlen. unfold IQUEUE_DEL_INIT. eapply leads_step; [by apply (del_step m L S b q l1 p l2 s1 s s2)|].
  intros m1 Hr1. exact (init_step _ _ _ _ _ _ Hr1).
Qed.

Definition tx_result {A} (k : Kcp.kcp) (o : outcome (A * Kcp.sender)) : outcome (A * Kcp.kcp) :=
  let* (a, s) := o in Ok (a, Kcp.with_tx s k).

Lemma send_extend_refines m k buffer len : stands m k ->
  follows (send_extend buffer len m) (tx_result k (Kcp.send_extend (Kcp.cfg k) (Kcp.tx k) buffer len)).
Proof.
  intros Hm. unfold send_extend, Kcp.send_extend. apply (follows_block _ m k _ Hm). cbn [block_of cfg].
  assert (stands m (Kcp.with_tx (Kcp.tx k) k)) as Hsame by (by destruct k).
  destruct (negb _); [|by apply follows_ret].
  apply (follows_same _ _ _ _ _ (empty_lists m k snd_queue Hm)). cbn [lists_of].
  pose proof Hm as [L Hr]. pose proof (rep_segs _ _ _ _ _ Hr snd_queue) as H2.
  change (lists_of k snd_queue) with (Kcp.snd_queue (Kcp.tx k)) in H2.
  destruct (Kcp.snd_queue (Kcp.tx k)) as [|old s1 _] eqn:ES using rev_ind.
  { rewrite bool_decide_true by done. by apply follows_ret. }
  rewrite bool_decide_false by (by destruct s1). rewrite last_snoc, removelast_last.
  apply Forall2_app_inv_r in H2 as (l1 & x & H1 & H2 & EL).
  apply Forall2_cons_inv_r in H2 as (oldp & y & Ho & Hy & ->). apply Forall2_nil_inv_r in Hy as ->.
  pose proof (Forall2_length H1) as Hlen.
  assert (oldp <> 0) as Hz by (eapply rep_node; [done|]; rewrite EL; set_solver).
  apply (follows_same _ _ oldp).
  { apply load_member; [eapply rep_node; [done | left]|]. rewrite (rep_last _ _ _ _ _ snd_queue Hr), EL. by rewrite rev_app_distr. }
  apply (follows_same _ _ old); [by apply load_member|].
  destruct (seg.len old <? _); [|by apply follows_ret].
  destruct (new_step (Kcp.seg_of_data 0 []) m L _ _ Hr) as (p & m1 & E1 & Hr1).
  apply (follows_to _ _ _ _ _ _ E1).
  eapply follows_step; [exact (add_tail_step _ _ _ _ snd_queue _ _ Hr1)|]. intros m2 Hr2.
  unfold tx_result. rewrite outcome_bind_assoc. apply follows_lift. intros bs _.
  set (s' := Kcp.seg_of_data 0 (seg.data old ++ bs)).
  eapply follows_step; [eapply (set_step s' m2 _ _ _ snd_queue (l1 ++ [oldp]) p [] (s1 ++ [old]) _ [] Hr2)|].
  { by rewrite fn_lookup_insert, EL. }
  { rewrite fn_lookup_insert. cbn [lists_of]. by rewrite ES. }
  { by rewrite !length_app, Hlen. }
  intros m3 Hr3.
  eapply follows_step; [eapply (del_init_step m3 _ _ _ snd_queue l1 oldp [p] s1 old [s'] Hr3)|].
  { by rewrite fn_lookup_insert, EL, <- app_assoc. }
  { by rewrite fn_lookup_insert, <- app_assoc. }
  { done. }
  intros m4 Hr4. eapply follows_step; [exact (delete_step _ _ _ _ _ _ Hr4)|]. intros m5 Hr5.
  apply follows_ret. apply (rep_stands _ _ _ _ _ Hr5); [by intros [] | by destruct k].
Qed.

Lemma send_fragments_refines todo m k buffer len sent : stands m k ->
  follows (send_fragments todo buffer len sent m) (tx_result k (Kcp.send_fragments todo (Kcp.cfg k) (Kcp.tx k) buffer len sent)).
Proof.
  revert m k buffer len sent. induction todo as [|todo IH]; intros m k buffer len sent Hm.
  { apply follows_ret. by destruct k. }
  cbn [send_fragments Kcp.send_fragments]. apply (follows_block _ m k _ Hm). cbn [block_of cfg].
  pose proof Hm as [L Hr]. destruct (new_step (Kcp.seg_of_data 0 []) m L _ _ Hr) as (p & m1 & E1 & Hr1).
  apply (follows_to _ _ _ _ _ _ E1). unfold tx_result. rewrite outcome_bind_assoc. apply follows_lift. intros bs _.
  eapply follows_step; [exact (set_own_step _ _ _ _ _ _ _ Hr1)|]. intros m2 Hr2.
  eapply follows_step; [exact (init_step _ _ _ _ _ _ Hr2)|]. intros m3 Hr3.
  eapply follows_step; [exact (add_tail_step _ _ _ _ snd_queue _ _ Hr3)|]. intros m4 Hr4.
  eapply follows_step; [exact (modify_step _ _ _ _ _ _ Hr4)|]. intros m5 Hr5.
  set (tx' := Kcp.Sender _ _ _ (_ ++ [_]) _ _).
  assert (stands m5 (Kcp.with_tx tx' k)) as Hm5 by (apply (rep_stands _ _ _ _ _ Hr5); [by intros [] | by destruct k]).
  exact (IH m5 (Kcp.with_tx tx' k) _ _ _ Hm5).
Qed.

Lemma send_refines m k buffer len : stands m k -> follows (ikcp_send buffer len m) (Kcp.ikcp_send k buffer len).
Proof.
  intros Hm. unfold ikcp_send, Kcp.ikcp_send. apply (follows_block _ m k _ Hm). cbn [block_of cfg].
  apply follows_lift. intros _ _. destruct (len <? 0); [by apply follows_ret|].
  pose proof (send_extend_refines m k buffer len Hm) as He.
  destruct (Kcp.send_extend _ _ _ _) as [[[[sent buffer'] len'] s]|e]; cbn in He; [|by apply follows_err].
  destruct He as (m1 & E1 & Hm1). apply (follows_to _ _ _ _ _ _ E1). rewrite outcome_bind_ok.
  destruct (_ && _); [by apply follows_ret|].
  destruct (_ <=? _); [destruct (_ && _); by apply follows_ret|].
  exact (send_fragments_refines _ m1 (Kcp.with_tx s k) _ _ _ Hm1).
Qed.

(** *** Creation and release *)

Lemma input_push_refines m k s : stands m k ->
  leads (input_push s m) tt (fun m' => stands m' (Kcp.with_rx (Kcp.ikcp_parse_data (Kcp.cfg k) (Kcp.rx k) s) k)).
Proof.
  intros [L Hr]. destruct (new_step s m L _ _ Hr) as (p & m1 & E1 & Hr1).
  unfold input_push. rewrite (bind_ok _ _ _ _ _ E1). by apply (parse_data_refines m1 L).
Qed.

Lemma head_not_null q : head q <> 0.
Proof. pose proof kcp_not_null. unfold head. destruct q; lia. Qed.

Lemma heads_lookup q : heads !! head q = Some 0.
Proof.
  assert (forall q q', q <> q' -> head q <> head q') as Hd by (intros q1 q2 Hn E; by apply Hn, head_inj).
  unfold heads. destruct q; repeat first [by rewrite lookup_insert_eq | rewrite lookup_insert_ne by by apply Hd | by rewrite lookup_singleton_eq].
Qed.

(** The heads of [qs] are initialised, the others are as allocated. *)
Definition initialised (m : memory) (qs : list queue) (b : block) : Prop :=
  (forall q, q ∈ qs -> ring m (head q) []) /\ (forall q, loose m (head q)) /\ segs m = ∅ /\ cb m = b.

Lemma initialise_step m qs b q : initialised m qs b ->
  leads (IQUEUE_INIT (head q) m) tt (fun m' => initialised m' (q :: qs) b).
Proof.
  intros (Hi & Hl & Hs & Hb). eapply leads_weaken; [by apply IQUEUE_INIT_spec|]. intros m' (Hr & HX & Hs' & Hb').
  split_and!; [| |by rewrite Hs' | by rewrite Hb'].
  - intros q' Hq. destruct (decide (q' = q)) as [->|Hn]; [done|].
    apply (ring_frame [head q] m); [done | | apply Hi; set_solver].
    intros p ->%list_elem_of_singleton ->%list_elem_of_singleton%head_inj. done.
  - intros q'. destruct (decide (q' = q)) as [->|Hn].
    + destruct (ring_linked _ _ _ Hr) as [E1 E2]. split_and!; [apply head_not_null | by eexists..].
    + destruct (HX (head q')) as [E1 E2]; [intros ->%list_elem_of_singleton%head_inj; done|].
      unfold loose. rewrite E1, E2. apply Hl.
Qed.

Lemma create_stands conv :
  leads (create_queues (Memory heads heads ∅ (block_of (Kcp.ikcp_create conv)))) tt (fun m => stands m (Kcp.ikcp_create conv)).
Proof.
  unfold create_queues. set (b := block_of _).
  assert (initialised (Memory heads heads ∅ b) [] b) as H1.
  { split_and!; [by intros q ?%not_elem_of_nil | | done..].
    intros q. split_and!; [apply head_not_null | exists 0; apply heads_lookup..]. }
  eapply leads_step; [exact (initialise_step _ _ _ _ H1)|]. clear H1. intros m1 H1.
  eapply leads_step; [exact (initialise_step _ _ _ _ H1)|]. clear m1 H1. intros m1 H1.
  eapply leads_step; [exact (initialise_step _ _ _ _ H1)|]. clear m1 H1. intros m1 H1.
  eapply leads_weaken; [exact (initialise_step _ _ _ _ H1)|]. clear m1 H1. intros m (Hi & Hl & Hs & Hb).
  exists (fun _ => []). split; try done.
  - intros q. apply Hi. destruct q; set_solver.
  - intros q q' p Hn ->%list_elem_of_singleton ->%list_elem_of_singleton%head_inj. done.
  - intros []; constructor.
  - intros p [s Hp]. by rewrite Hs, lookup_empty in Hp.
Qed.

Lemma release_loop_spec fuel q m L S b : rep m L S None b -> (length (L q) < fuel)%nat ->
  leads (release_loop fuel q m) tt (fun m' => reps m' (<[q:=[]]> S) b).
Proof.
  revert m L S. induction fuel as [|fuel IH]; intros m L S Hr Hf; [lia|]. cbn [release_loop].
  eapply leads_empty; [done|]. destruct (L q) as [|p l] eqn:EL.
  - rewrite bool_decide_true by done. apply leads_ret. apply (rep_reps m L S); [done|].
    apply fn_same. by apply (rep_nil _ _ _ _ _ _ Hr).
  - rewrite bool_decide_false by done. cbn [negb]. eapply leads_first; [done|]. rewrite EL. cbn [from].
    destruct (rep_split _ _ _ _ _ _ [] p l [] (S q) Hr EL) as (s & ss & ES & _); [done..|].
    eapply leads_step; [by apply (del_step m L S b q [] p l [] s ss)|]. intros m1 Hr1.
    eapply leads_step; [by apply (delete_step _ _ _ _ _ _ Hr1)|]. intros m2 Hr2.
    eapply leads_weaken; [apply (IH _ _ _ Hr2)|].
    + rewrite fn_lookup_insert. cbn in *. lia.
    + intros m3. apply reps_ext. intros q'. apply fn_twice.
Qed.

Lemma release_step q m S b : reps m S b ->
  leads (with_fuel (fun fuel => release_loop fuel q) m) tt (fun m' => reps m' (<[q:=[]]> S) b).
Proof. intros [L Hr]. apply (release_loop_spec _ q m L); [done|]. pose proof (rep_size _ _ _ _ _ q Hr). lia. Qed.

Lemma release_empties m k : stands m k -> leads (ikcp_release m) tt (fun m' => segs m' = ∅).
Proof.
  intros Hm. unfold ikcp_release.
  eapply leads_step; [exact (release_step _ _ _ _ Hm)|]. intros m1 H1.
  eapply leads_step; [exact (release_step _ _ _ _ H1)|]. intros m2 H2.
  eapply leads_step; [exact (release_step _ _ _ _ H2)|]. intros m3 H3.
  eapply leads_step; [exact (release_step _ _ _ _ H3)|]. intros m4 [L Hr].
  eapply leads_step; [exact (modify_step _ _ _ _ _ _ Hr)|]. intros m5 Hr5.
  eapply leads_weaken; [exact (modify_step _ _ _ _ _ _ Hr5)|]. intros m6 Hr6.
  apply map_empty. intros p. destruct (segs m6 !! p) as [s|] eqn:E; [|done].
  destruct (rep_all _ _ _ _ _ Hr6 p) as [[q Hq]|[? [=]]]; [by eexists|].
  pose proof (rep_length _ _ _ _ _ q Hr6) as Hlen. destruct q; cbn in Hlen; apply nil_length_inv in Hlen; rewrite Hlen in Hq; by apply not_elem_of_nil in Hq.
Qed.

(** *** Whole runs *)

Lemma follows_done m (c : M unit) (k' : Kcp.kcp) : leads (c m) tt (fun m' => stands m' k') ->
  follows ((c ;;! ret nothing) m) (Ok (nothing, k')).
Proof. intros Hc. eapply follows_step; [exact Hc|]. intros m' Hm'. by apply follows_ret. Qed.

Lemma exec_refines c m k : stands m k -> follows (exec c m) (spec c k).
Proof.
  intros Hm. destruct c as [una|sn|sn| |s|wnd cwnd|buffer len|buffer len]; cbn [exec spec].
  - by apply follows_done, parse_una_refines.
  - by apply follows_done, parse_ack_refines.
  - by apply follows_done, parse_fastack_refines.
  - by apply follows_done, shrink_refines.
  - by apply follows_done, input_push_refines.
  - apply follows_done. apply admit_loop_refines; [done|]. destruct (first_node m k snd_queue Hm) as (L & Hr & _ & Hf).
    by rewrite (rep_length _ _ _ _ _ snd_queue Hr) in Hf.
  - pose proof (send_refines m k buffer len Hm) as Hs. destruct (Kcp.ikcp_send k buffer len) as [[n k']|f].
    + destruct Hs as (m' & E & Hm'). apply (follows_to _ _ _ _ _ _ E). by apply follows_ret.
    + by apply follows_err.
  - by apply recv_refines.
Qed.

Lemma exec_all_refines l m k : stands m k -> follows (exec_all l m) (spec_all l k).
Proof.
  revert m k. induction l as [|c l IH]; intros m k Hm; [by apply follows_ret|]. cbn [exec_all spec_all].
  pose proof (exec_refines c m k Hm) as Hc. destruct (spec c k) as [[r k1]|f]; [|by apply follows_err].
  destruct Hc as (m1 & E1 & Hm1). apply (follows_to _ _ _ _ _ _ E1). rewrite outcome_bind_ok.
  specialize (IH m1 k1 Hm1). destruct (spec_all l k1) as [[rs k2]|f]; [|by apply follows_err].
  destruct IH as (m2 & E2 & Hm2). apply (follows_to _ _ _ _ _ _ E2). by apply follows_ret.
Qed.
End Refinement.

(** C11. The linked queues of ikcp.h and the loops over them implement the lists of Kcp.v:
    whatever calls are made on a new control block, and wherever the allocator puts the
    segments, they return what the calls on lists return and leave rings that stand for
    those lists (or go wrong exactly as they do: no null, dangling or foreign pointer is
    followed), and ikcp_release then frees every segment. *)
Theorem queues_implement_lists `{Kcpcb} `{Allocator} (conv : Z) (l : list call) :
  match spec_all l (Kcp.ikcp_create conv) with
  | Ok (rs, k) => exists m, use l (created conv) = Ok (rs, m) /\ stands m k /\
      exists m', ikcp_release m = Ok (tt, m') /\ segs m' = ∅
  | Err f => use l (created conv) = Err f
  end.
Proof.
  destruct (create_stands conv) as (m0 & E0 & Hm0). pose proof (exec_all_refines l m0 _ Hm0) as Hl.
  unfold use. rewrite (bind_ok _ _ _ _ _ E0). destruct (spec_all _ _) as [[rs k]|f]; [|done].
  destruct Hl as (m & E & Hm). exists m. split_and!; [done..|]. exact (release_empties m k Hm).
Qed.

(** A run: one message is sent in two segments and admitted, the second is acknowledged; a
    segment arrives ahead of its turn, then the one before it, and both are read. *)
#[local] Instance sample_block : Kcpcb := {| kcp := 4096; kcp_not_null := eq_refl |}.

Definition arriving (sn : Z) (data : list Z) : seg.t := seg.Mk 1 81 0 32 0 sn 0 0 0 0 0 data.

Example sample_run :
  exists m, use [Send (replicate 1400 7) 1400; Admit 128 32; Ack 1; Shrink; Push (arriving 1 [4; 5]); Push (arriving 0 [3]);
                 Recv (Some [0; 0]) 2; Recv (Some [0; 0]) 2] (created 1) =
    Ok ([(1400, None); nothing; nothing; nothing; nothing; nothing; (1, Some [3; 0]); (2, Some [4; 5])], m) /\
  map_to_list (seg.sn <$> segs m) = [(4281, 0)] /\ snd_una (cb m) = 0.
Proof. eexists. split; [vm_compute; reflexivity|]. by vm_compute. Qed.
