(* ===== verification/KcpInput.v ===== *)
(** * KCP: what a datagram does

    [ikcp_input] takes a datagram apart and handles its segments one by one.  Here
    the two are separated ([parse], then [handle_all], by [input_loop_parse]), and
    it is shown that any bytes at all leave a well-formed state; the only thing that
    can go wrong is the signed overflow of the round-trip estimate. *)

From Stdlib Require Import ZArith Lia Bool.
From stdpp Require Import base tactics option list numbers.
From S2P Require Import Prelude KcpWire Kcp KcpInv.

#[local] Open Scope Z_scope.

(** ** Taking a datagram apart *)

(** The result code and the segments that are handled before it is returned. *)
Fixpoint parse (fuel : nat) (cv : Z) (data : list Z) : outcome (Z * list (header * list Z)) :=
  match fuel with
  | O => Err OutOfFuel
  | S fuel' =>
      if zlen data <? IKCP_OVERHEAD then Ok (0, [])
      else
        let* (h_conv, data) := ikcp_decode32u data in
        if negb (h_conv =? cv) then Ok (-1, [])
        else
          let* (h, data) := decode_rest h_conv data in
          if (zlen data <? h_len h) || (i32 (h_len h) <? 0) then Ok (-2, [])
          else if negb (known_cmd (h_cmd h)) then Ok (-3, [])
          else
            let* payload := mread data 0 (h_len h) in
            let* (code, segs) := parse fuel' cv (drop (Z.to_nat (h_len h)) data) in
            Ok (code, (h, payload) :: segs)
  end.

Fixpoint handle_all (k : kcp) (ack : option Z) (segs : list (header * list Z)) : outcome (kcp * option Z) :=
  match segs with
  | [] => Ok (k, ack)
  | (h, payload) :: segs' =>
      let* (k, ack) := input_segment k ack h payload in handle_all k ack segs'
  end.

(** What is known of a segment that is handled. *)
Definition received_ok (cv : Z) (s : header * list Z) : Prop :=
  header_ok (fst s) /\ h_conv (fst s) = cv /\ known_cmd (h_cmd (fst s)) = true /\
  zlen (snd s) = h_len (fst s) /\ h_len (fst s) < 2 ^ 31 /\ Forall is_byte (snd s).

Lemma le_value_take n p : Forall is_byte p -> (n <= length p)%nat -> 0 <= le_value (take n p) < 256 ^ Z.of_nat n.
Proof.
  intros Hb Hl. pose proof (le_value_bound (take n p) ltac:(by apply Forall_take)) as H.
  rewrite length_take, Nat.min_l in H by lia. done.
Qed.

(** Reading a header of bytes: it is in range, and 20 bytes are gone. *)
Lemma decode_rest_ok cv data : Forall is_byte data -> 20 <= zlen data -> 0 <= cv < 2 ^ 32 ->
  exists h, decode_rest cv data = Ok (h, drop 20 data) /\ header_ok h /\ h_conv h = cv.
Proof.
  intros Hb Hl Hc. unfold decode_rest, ikcp_decode8u, ikcp_decode16u, ikcp_decode32u.
  do 7 (rewrite ikcp_decode_ok by (rewrite ?length_drop; lia); cbn [mbind outcome_bind]).
  rewrite !drop_drop. eexists. split; [reflexivity|]. split; [|done].
  unfold header_ok; cbn [KcpWire.h_conv h_cmd h_frg h_wnd h_ts h_sn h_una h_len].
  split; [lia|]. split_and!; (apply le_value_take; [auto using Forall_drop | rewrite ?length_drop; lia]).
Qed.

Definition codes : list Z := [0; -1; -2; -3].

Definition wire_size (segs : list (header * list Z)) : Z := foldr (fun s z => 24 + zlen (snd s) + z) 0 segs.

Lemma parse_total fuel cv data : (length data < fuel)%nat -> Forall is_byte data ->
  exists code segs, parse fuel cv data = Ok (code, segs) /\ code ∈ codes /\
    Forall (received_ok cv) segs /\ wire_size segs <= zlen data.
Proof.
  revert data. induction fuel as [|fuel IH]; intros data Hf Hb; [lia|]. cbn [parse]. unfold IKCP_OVERHEAD.
  destruct (zlen data <? 24) eqn:E24; to_prop.
  { exists 0, []. split_and!; [done | apply list_elem_of_here | done | simpl; lia]. }
  unfold ikcp_decode32u. rewrite ikcp_decode_ok by lia. cbn [mbind outcome_bind].
  pose proof (le_value_take 4 data Hb ltac:(lia)) as Hv. change (256 ^ Z.of_nat 4) with (2 ^ 32) in Hv.
  destruct (le_value (take 4 data) =? cv) eqn:Ecv; to_prop; cbn [negb].
  2: { exists (-1), []. split_and!; [done | apply list_elem_of_In; cbn; lia | done | simpl; lia]. }
  destruct (decode_rest_ok cv (drop 4 data)) as (h & Eh & Hh & Hhc);
    [auto using Forall_drop | rewrite length_drop; lia | lia|].
  rewrite Ecv, Eh. cbn [mbind outcome_bind]. rewrite drop_drop, Nat.add_comm.
  set (d := drop (20 + 4) data). assert (zlen d = zlen data - 24) as Hd by (unfold d; rewrite length_drop; lia).
  destruct ((zlen d <? h_len h) || (i32 (h_len h) <? 0)) eqn:El; to_prop.
  { exists (-2), []. split_and!; [done | apply list_elem_of_In; cbn; lia | done | simpl; lia]. }
  destruct (known_cmd (h_cmd h)) eqn:Ek; cbn [negb].
  2: { exists (-3), []. split_and!; [done | apply list_elem_of_In; cbn; lia | done | simpl; lia]. }
  pose proof Hh as (_ & _ & _ & _ & _ & _ & _ & Hlen).
  assert (h_len h < 2 ^ 31) as Hlen31.
  { destruct (Z_lt_le_dec (h_len h) (2 ^ 31)) as [|Hge]; [done|]. revert H0. unfold swrap.
    Z.to_euclidean_division_equations. lia. }
  rewrite mread_ok by lia. cbn [mbind outcome_bind].
  destruct (IH (drop (Z.to_nat (h_len h)) d)) as (code & segs & E & Hcode & Hsegs & Hsz).
  { rewrite length_drop. lia. } { unfold d. auto using Forall_drop. }
  rewrite E. cbn [mbind outcome_bind]. eexists code, _. split_and!; [done | done | |].
  - constructor; [|done]. unfold received_ok. cbn [fst snd]. split_and!; [done.. | | lia|].
    + rewrite length_slice; lia.
    + unfold slice, d. auto using Forall_take, Forall_drop.
  - cbn [wire_size foldr snd]. fold (wire_size segs). rewrite length_slice by lia.
    rewrite length_drop in Hsz. lia.
Qed.

(** [input_segment] leaves the settings and the times alone. *)
Lemma input_segment_cfg k ack h p k' ack' :
  input_segment k ack h p = Ok (k', ack') ->
  cfg k' = cfg k /\ updated (clk k') = updated (clk k) /\ current (clk k') = current (clk k).
Proof.
  unfold input_segment. destruct (h_cmd h =? IKCP_CMD_ACK).
  { intros (t & _ & H)%outcome_bind_inv. by injection H as <- <-. }
  destruct (h_cmd h =? IKCP_CMD_PUSH); [|destruct (h_cmd h =? IKCP_CMD_WASK); intros H; by injection H as <- <-].
  destruct (_ <? 0); [|intros H; by injection H as <- <-].
  intros (r & _ & H)%outcome_bind_inv. destruct (_ <=? _); by injection H as <- <-.
Qed.

Lemma input_loop_parse fuel k ack data code segs :
  parse fuel (conv (cfg k)) data = Ok (code, segs) ->
  input_loop fuel k ack data = (let* (k', ack') := handle_all k ack segs in Ok (code, k', ack')).
Proof.
  revert k ack data segs. induction fuel as [|fuel IH]; intros k ack data segs; [done|].
  cbn [parse input_loop]. destruct (zlen data <? IKCP_OVERHEAD); [by intros [= <- <-]|].
  destruct (ikcp_decode32u data) as [[c d]|f]; cbn [mbind outcome_bind]; [|done].
  destruct (negb (c =? conv (cfg k))); [by intros [= <- <-]|].
  destruct (decode_rest c d) as [[h d']|f]; cbn [mbind outcome_bind]; [|done].
  destruct (_ || _); [by intros [= <- <-]|]. destruct (negb _); [by intros [= <- <-]|].
  destruct (mread d' 0 (h_len h)) as [pl|f]; cbn [mbind outcome_bind]; [|done].
  destruct (parse fuel _ _) as [[code' segs']|f] eqn:E; cbn [mbind outcome_bind]; [|done].
  intros [= <- <-]. cbn [handle_all].
  destruct (input_segment k ack h pl) as [[k' ack']|f] eqn:Es; cbn [mbind outcome_bind]; [|done].
  apply input_segment_cfg in Es as (Ec & _ & _). apply IH. by rewrite Ec.
Qed.

(** ** Handling a segment *)

(** The estimates are far from overflow: below 2^28 ms, which is three days. *)
Definition calm (t : rtt_state) : Prop := 0 <= rx_srtt t < 2 ^ 28 /\ 0 <= rx_rttval t < 2 ^ 28.

(** An acknowledgement is of something sent in the last three days. *)
Definition fresh (now : Z) (h : header) : Prop := h_cmd h = IKCP_CMD_ACK -> itimediff now (h_ts h) < 2 ^ 28.

Lemma int_of_cases z : (int_of z = Ok z /\ - 2 ^ 31 <= z < 2 ^ 31) \/ (int_of z = Err UndefinedBehaviour /\ ~ (- 2 ^ 31 <= z < 2 ^ 31)).
Proof. unfold int_of, guard_defined. destruct (in_int z) eqn:E; unfold in_int in E; [left | right]; split; done || lia. Qed.

Ltac int_step :=
  match goal with |- context [int_of ?z] =>
    destruct (int_of_cases z) as [[-> ?] | [-> ?]]; cbn [mbind outcome_bind]
  end.

Lemma ibound_range lower middle upper : lower <= upper -> lower <= ibound_ lower middle upper <= upper.
Proof. unfold ibound_, imin_, imax_. intros H. split_ifs; lia. Qed.

(** The estimate never leaves its bounds, and overflows only far out. *)
Lemma update_ack_spec c t rtt : config_ok c -> 0 <= rtt ->
  match ikcp_update_ack c t rtt with
  | Ok t' => rx_minrto c <= rx_rto t' <= IKCP_RTO_MAX /\ (calm t -> rtt < 2 ^ 28 -> calm t')
  | Err f => f = UndefinedBehaviour /\ ~ (calm t /\ rtt < 2 ^ 28)
  end.
Proof.
  intros (_ & _ & _ & _ & Hm) Hr. unfold rto_floor, IKCP_RTO_MIN in Hm.
  assert (forall srtt rttval, (calm t -> rtt < 2 ^ 28 -> 0 <= srtt < 2 ^ 28 /\ 0 <= rttval < 2 ^ 28) ->
    match (let* v4 := int_mul 4 rttval in
           let rto := i32 (u32 (srtt + imax_ (interval c) (u32 v4))) in
           Ok (Rtt srtt rttval (i32 (ibound_ (u32 (rx_minrto c)) (u32 rto) IKCP_RTO_MAX)))) with
    | Ok t' => rx_minrto c <= rx_rto t' <= IKCP_RTO_MAX /\ (calm t -> rtt < 2 ^ 28 -> calm t')
    | Err f => f = UndefinedBehaviour /\ ~ (calm t /\ rtt < 2 ^ 28)
    end) as Hend.
  { intros srtt rttval Hc. unfold int_mul. int_step; [|split; [done|]; intros [? ?]; unfold calm in *; lia].
    cbn [rx_rto]. rewrite (u32_small (rx_minrto c)) by lia.
    pose proof (ibound_range (rx_minrto c) (u32 (i32 (u32 (srtt + imax_ (interval c) (u32 (4 * rttval))))))
      IKCP_RTO_MAX ltac:(unfold IKCP_RTO_MAX; lia)) as Hb.
    rewrite i32_small by (unfold IKCP_RTO_MAX in *; lia). split; [done|]. exact Hc. }
  unfold ikcp_update_ack. destruct (rx_srtt t =? 0) eqn:E0; to_prop.
  { apply Hend. intros. pose proof (Z.quot_pos rtt 2). pose proof (Z.quot_le_upper_bound rtt 2 rtt). lia. }
  unfold calm, int_mul in *. do 4 (try int_step); try (split; [done | lia]).
  cbv beta iota.
  apply Hend. intros Hc Hlt. split.
  - split_ifs; [lia|]. Z.to_euclidean_division_equations. lia.
  - rewrite i32_small; split_ifs; Z.to_euclidean_division_equations; lia.
Qed.

Lemma input_segment_ok k ack h p : wf k -> header_ok h -> ackcount (rx k) < 2 ^ 31 ->
  match input_segment k ack h p with
  | Ok (k', _) => wf k' /\ ackcount (rx k') <= ackcount (rx k) + 1 /\
      (calm (rtt k) -> fresh (current (clk k)) h -> calm (rtt k'))
  | Err f => f = UndefinedBehaviour /\ ~ (calm (rtt k) /\ fresh (current (clk k)) h)
  end.
Proof.
  intros (Hc & Hs & Hr & Ht & Hw) Hh Hk. pose proof Hh as (_ & _ & _ & Hwnd & _ & Hsn & _).
  assert (cc_ok (with_rmt_wnd (h_wnd h) (cc k))) as Hw' by (destruct Hw; split; simpl; lia).
  assert (sender_ok (ikcp_shrink_buf (ikcp_parse_una (tx k) (h_una h)))) as Hs' by auto with cxx.
  unfold input_segment. cbn [cfg tx rx rtt cc clk with_cc with_tx].
  destruct (h_cmd h =? IKCP_CMD_ACK) eqn:Ea; to_prop.
  { destruct (0 <=? itimediff (current (clk k)) (h_ts h)) eqn:Et; to_prop.
    - pose proof (update_ack_spec (cfg k) (rtt k) _ Hc Et) as Hu.
      destruct (ikcp_update_ack _ _ _) as [t|f]; cbn [mbind outcome_bind].
      + destruct Hu as (Hu1 & Hu2). pose proof Hc as (_ & _ & _ & _ & Hm).
        split; [|split; [simpl; lia|]].
        * apply wf_intro; simpl; auto with cxx. unfold rtt_ok. lia.
        * intros Hcalm Hf. apply Hu2; [done | by apply Hf].
      + destruct Hu as (-> & Hu). split; [done|]. intros [? Hf]. apply Hu. split; [done | by apply Hf].
    - cbn [mbind outcome_bind]. split; [|split; [simpl; lia | by simpl]].
      apply wf_intro; simpl; auto with cxx. }
  destruct (h_cmd h =? IKCP_CMD_PUSH) eqn:Ep.
  2: { destruct (h_cmd h =? IKCP_CMD_WASK); (split; [by apply wf_intro | split; [simpl; lia | by simpl]]). }
  destruct (itimediff _ _ <? 0) eqn:Ei; [|split; [by apply wf_intro | split; [simpl; lia | by simpl]]].
  destruct (ack_push_ok (rx k) (h_sn h) (h_ts h) Hr Hk) as (r & -> & Hr' & Hcount & _). cbn [mbind outcome_bind].
  destruct (0 <=? itimediff (h_sn h) (rcv_nxt r)); [|split; [by apply wf_intro | split; [simpl; lia | by simpl]]].
  set (new := seg.Mk _ _ _ _ _ _ _ _ _ _ _ _). pose proof Hc as (_ & _ & Hrw & _).
  destruct (parse_data_ok (cfg k) r new Hr' Hrw Hsn) as (Hr'' & _ & Hc' & _).
  split; [by apply wf_intro | split; [simpl; lia | by simpl]].
Qed.

Lemma handle_all_ok segs k ack : wf k -> Forall (fun s => header_ok (fst s)) segs ->
  ackcount (rx k) + zlen segs <= 2 ^ 31 ->
  match handle_all k ack segs with
  | Ok (k', _) => wf k' /\ cfg k' = cfg k /\ ackcount (rx k') <= ackcount (rx k) + zlen segs /\
      (calm (rtt k) -> Forall (fun s => fresh (current (clk k)) (fst s)) segs -> calm (rtt k'))
  | Err f => f = UndefinedBehaviour /\ ~ (calm (rtt k) /\ Forall (fun s => fresh (current (clk k)) (fst s)) segs)
  end.
Proof.
  revert k ack. induction segs as [|[h p] segs IH]; intros k ack Hk Hh Hc.
  { split; [done|]. split; [done|]. split; [simpl; lia | done]. }
  apply list.Forall_cons in Hh as [Hh1 Hh]. cbn [handle_all length] in *.
  pose proof (input_segment_ok k ack h p Hk Hh1 ltac:(lia)) as H1.
  destruct (input_segment k ack h p) as [[k1 ack1]|f] eqn:E; cbn [mbind outcome_bind].
  2: { destruct H1 as [-> H1]. split; [done|]. intros [? Hf]. apply H1. by apply list.Forall_cons in Hf as [? _]. }
  destruct H1 as (Hk1 & Hc1 & Hf1). apply input_segment_cfg in E as (Ecfg & _ & Ecur).
  pose proof (IH k1 ack1 Hk1 Hh ltac:(lia)) as H2. rewrite Ecur, Ecfg in H2.
  destruct (handle_all k1 ack1 segs) as [[k2 ack2]|f].
  - destruct H2 as (? & ? & ? & Hf2). split; [done|]. split; [done|]. split; [lia|].
    intros ? Hf. apply list.Forall_cons in Hf as [? ?]. auto.
  - destruct H2 as [-> H2]. split; [done|]. intros [? Hf]. apply list.Forall_cons in Hf as [? ?]. auto.
Qed.

Lemma grow_window_ok mss c : 0 < mss -> cc_ok c -> cc_ok (grow_window mss c).
Proof.
  intros Hm [H1 H2]. unfold grow_window, cc_ok. destruct (cwnd c <? rmt_wnd c); [|done].
  match goal with |- context [let '(w, i) := ?p in _] => assert (0 <= fst p < 2 ^ 32) as Hp end.
  { pose proof (u32_range (cwnd c + 1)). destruct (cwnd c <? ssthresh c); [done|]. cbn [fst].
    destruct (_ <=? _); [|done]. replace (0 <? mss) with true by lia.
    set (a := _ + mss - 1). pose proof (u32_range a). Z.to_euclidean_division_equations. nia. }
  destruct (if _ <? _ then _ else _) as [w i]. simpl in Hp. destruct (rmt_wnd c <? w); simpl; lia.
Qed.

Lemma wire_size_length segs : 24 * zlen segs <= wire_size segs.
Proof. induction segs as [|s segs IH]; [done|]. cbn [length wire_size foldr]. fold (wire_size segs). lia. Qed.

(** The acknowledgements that a datagram makes the receiver owe. *)
Definition ack_room (k : kcp) (data : list Z) : Prop := ackcount (rx k) + zlen data / 24 <= 2 ^ 31.

(** The segments of the datagram that [k] handles. *)
Definition handled (k : kcp) (data : list Z) : list (header * list Z) :=
  match parse (S (length data)) (conv (cfg k)) data with Ok (_, segs) => segs | Err _ => [] end.

(** What [ikcp_input] does, for any bytes. *)
Lemma input_handled k data : wf k -> Forall is_byte data -> ackcount (rx k) + zlen (handled k data) <= 2 ^ 31 ->
  match ikcp_input k data with
  | Ok (code, k') => code ∈ codes /\ wf k' /\ cfg k' = cfg k /\
      ackcount (rx k') <= ackcount (rx k) + zlen (handled k data) /\
      (calm (rtt k) -> Forall (fun s => fresh (current (clk k)) (fst s)) (handled k data) -> calm (rtt k'))
  | Err f => f = UndefinedBehaviour /\
      ~ (calm (rtt k) /\ Forall (fun s => fresh (current (clk k)) (fst s)) (handled k data))
  end.
Proof.
  intros Hk Hb Hroom. unfold ikcp_input. destruct (zlen data <? IKCP_OVERHEAD) eqn:E.
  { split; [apply list_elem_of_In; cbn; lia|]. split; [done|]. split; [done|]. split; [lia | done]. }
  unfold handled in *.
  destruct (parse_total (S (length data)) (conv (cfg k)) data ltac:(lia) Hb) as (code & segs & Ep & Hcode & Hsegs & _).
  rewrite (input_loop_parse _ _ _ _ _ _ Ep), Ep in *.
  assert (Forall (fun s => header_ok (fst s)) segs) as Hh by (eapply list.Forall_impl; [exact Hsegs | by intros ? []]).
  pose proof (handle_all_ok segs k None Hk Hh Hroom) as H.
  destruct (handle_all k None segs) as [[k' ack]|f]; cbn [mbind outcome_bind]; [|done].
  destruct H as (Hk' & Hc & Hcount & Hcalm).
  destruct (code <? 0) eqn:E0; [split; [done|]; split; [done|]; split; [done|]; split; [lia | done]|].
  set (k1 := match ack with Some maxack => _ | None => k' end).
  assert (wf k1 /\ rx k1 = rx k' /\ rtt k1 = rtt k' /\ cfg k1 = cfg k') as (Hk1 & Er & Et & Ec).
  { destruct Hk' as (? & ? & ? & ? & ?). destruct ack; (split; [|done]); apply wf_intro; simpl; auto with cxx. }
  assert (0 ∈ codes) as H0 by (apply list_elem_of_In; cbn; lia).
  destruct Hk1 as (Hc1 & Hs1 & Hr1 & Ht1 & Hw1).
  assert (cc_ok (grow_window (mss (cfg k1)) (cc k1))) by (apply grow_window_ok; [destruct Hc1; lia | done]).
  destruct (0 <? _); cbn [rx rtt cfg with_cc]; rewrite ?Er, ?Et;
    (split; [done|]; split; [by apply wf_intro|]; split; [congruence|]; split; [lia | done]).
Qed.

Lemma handled_length k data : Forall is_byte data -> zlen (handled k data) <= zlen data / 24.
Proof.
  intros Hb. unfold handled.
  destruct (parse_total (S (length data)) (conv (cfg k)) data ltac:(lia) Hb) as (code & segs & -> & _ & _ & Hsz).
  pose proof (wire_size_length segs) as Hl. apply Z.div_le_lower_bound; lia.
Qed.

Lemma input_cases k data : wf k -> Forall is_byte data -> ack_room k data ->
  match ikcp_input k data with
  | Ok (code, k') => code ∈ codes /\ wf k' /\ cfg k' = cfg k /\
      ackcount (rx k') <= ackcount (rx k) + zlen data / 24 /\
      (calm (rtt k) -> Forall (fun s => fresh (current (clk k)) (fst s)) (handled k data) -> calm (rtt k'))
  | Err f => f = UndefinedBehaviour /\
      ~ (calm (rtt k) /\ Forall (fun s => fresh (current (clk k)) (fst s)) (handled k data))
  end.
Proof.
  unfold ack_room. intros Hk Hb Hroom. pose proof (handled_length k data Hb) as Hl.
  pose proof (input_handled k data Hk Hb ltac:(lia)) as H. destruct (ikcp_input k data) as [[c k']|f]; [|done].
  destruct H as (H1 & H2 & H3 & H4 & H5). split; [done|]. split; [done|]. split; [done|]. split; [lia | done].
Qed.

(** ** What acknowledgements leave of the sender

    A property of the segments of [snd_buf] that does not look at [fastack] is kept,
    and the queue and [snd_nxt] are untouched. *)

Definition sender_kept (P : seg.t -> Prop) (s s' : sender) : Prop :=
  snd_nxt s' = snd_nxt s /\ snd_queue s' = snd_queue s /\ (Forall P (snd_buf s) -> Forall P (snd_buf s')).

Lemma sender_kept_refl P s : sender_kept P s s.
Proof. done. Qed.

Lemma sender_kept_trans P s t u : sender_kept P s t -> sender_kept P t u -> sender_kept P s u.
Proof. intros (? & ? & ?) (? & ? & ?). split_and!; [congruence | congruence | auto]. Qed.

Lemma shrink_kept P s : sender_kept P s (ikcp_shrink_buf s).
Proof. unfold ikcp_shrink_buf. destruct (snd_buf s) eqn:E; split_and!; simpl; rewrite ?E; done. Qed.

Lemma una_loop_suffix una buf n : exists gone, buf = gone ++ fst (una_loop una buf n).
Proof.
  revert n. induction buf as [|s buf IH]; intros n; [by exists []|]. cbn [una_loop].
  destruct (_ <? _); [|by exists []]. destruct (IH (u32 (n - 1))) as (gone & E).
  exists (s :: gone). cbn [app]. by rewrite <- E.
Qed.

Lemma parse_una_kept P s una : sender_kept P s (ikcp_parse_una s una).
Proof.
  unfold ikcp_parse_una. destruct (una_loop_suffix una (snd_buf s) (nsnd_buf s)) as (gone & E).
  destruct (una_loop una (snd_buf s) (nsnd_buf s)) as [buf n]. split_and!; [done | done |].
  cbn [fst snd_buf with_buf] in *. rewrite E. intros H. by apply Forall_app in H as [_ H].
Qed.

Lemma ack_loop_forall (P : seg.t -> Prop) sn buf buf' : ack_loop sn buf = Some buf' -> Forall P buf -> Forall P buf'.
Proof.
  revert buf'. induction buf as [|s buf IH]; intros buf'; [done|]. cbn [ack_loop]. intros H Hf.
  apply list.Forall_cons in Hf as [Hs Hf]. destruct (sn =? seg.sn s); [by injection H as <-|].
  destruct (_ <? 0); [done|]. destruct (ack_loop sn buf) as [b|]; [|done]. injection H as <-.
  constructor; auto.
Qed.

Lemma parse_ack_kept P s sn : sender_kept P s (ikcp_parse_ack s sn).
Proof.
  unfold ikcp_parse_ack. destruct (outstanding s sn); [|done].
  destruct (ack_loop sn (snd_buf s)) as [buf|] eqn:E; [|done]. split_and!; [done | done |].
  intros H. by eapply ack_loop_forall.
Qed.

Lemma parse_fastack_kept (P : seg.t -> Prop) s sn : (forall p f, P p -> P (with_fastack f p)) ->
  sender_kept P s (ikcp_parse_fastack s sn).
Proof.
  intros HP. unfold ikcp_parse_fastack. destruct (outstanding s sn); [|done]. split_and!; [done | done |].
  cbn [snd_buf with_buf]. induction 1 as [|p buf Hp Hbuf IH]; [constructor|]. cbn [fastack_loop].
  destruct (_ <? 0); [by constructor|]. constructor; [|done]. destruct (negb _); auto.
Qed.

(** The sender after the [una] of a header has been looked at. *)
Definition after_una (s : sender) (una : Z) : sender := ikcp_shrink_buf (ikcp_parse_una s una).

Lemma input_segment_after_una P k ack h p k' ack' : input_segment k ack h p = Ok (k', ack') ->
  sender_kept P (after_una (tx k) (h_una h)) (tx k').
Proof.
  unfold input_segment. fold (after_una (tx k) (h_una h)). destruct (h_cmd h =? IKCP_CMD_ACK).
  { intros (t & _ & H)%outcome_bind_inv. injection H as <- <-. cbn [tx with_tx with_rtt with_cc].
    eapply sender_kept_trans; [apply parse_ack_kept | apply shrink_kept]. }
  destruct (h_cmd h =? IKCP_CMD_PUSH).
  2: { destruct (h_cmd h =? IKCP_CMD_WASK); intros H; by injection H as <- <-. }
  destruct (_ <? 0); [|intros H; by injection H as <- <-].
  intros (r & _ & H)%outcome_bind_inv. destruct (_ <=? _); by injection H as <- <-.
Qed.

Lemma input_segment_kept P k ack h p k' ack' : input_segment k ack h p = Ok (k', ack') ->
  sender_kept P (tx k) (tx k').
Proof.
  intros H. eapply sender_kept_trans; [|by eapply input_segment_after_una].
  eapply sender_kept_trans; [apply parse_una_kept | apply shrink_kept].
Qed.

Lemma handle_all_kept P segs k ack k' ack' : handle_all k ack segs = Ok (k', ack') -> sender_kept P (tx k) (tx k').
Proof.
  revert k ack. induction segs as [|[h p] segs IH]; intros k ack; cbn [handle_all]; [by intros [= <- <-]|].
  intros ([k1 ack1] & E & H)%outcome_bind_inv. eapply sender_kept_trans; [by eapply input_segment_kept | by eapply IH].
Qed.

Lemma input_kept (P : seg.t -> Prop) k data code k' : Forall is_byte data ->
  (forall p f, P p -> P (with_fastack f p)) -> ikcp_input k data = Ok (code, k') -> sender_kept P (tx k) (tx k').
Proof.
  intros Hb HP. unfold ikcp_input. destruct (_ <? _); [by intros [= <- <-]|].
  destruct (parse_total (S (length data)) (conv (cfg k)) data ltac:(lia) Hb) as (c & segs & Ep & _).
  rewrite (input_loop_parse _ _ _ _ _ _ Ep). rewrite outcome_bind_assoc.
  intros ([k1 ack] & E & H)%outcome_bind_inv. apply (handle_all_kept P) in E.
  cbn [mbind outcome_bind] in H. destruct (c <? 0); [by injection H as <- <-|].
  set (k2 := match ack with Some maxack => _ | None => k1 end) in *.
  assert (sender_kept P (tx k) (tx k2)) as H2.
  { unfold k2. destruct ack as [m|]; [|done]. eapply sender_kept_trans; [exact E|]. by apply parse_fastack_kept. }
  destruct (0 <? _); by injection H as <- <-.
Qed.

(** ** The claims *)

(** C34. [ikcp_input] ends on any bytes whatsoever, reads only them, returns 0 or one
    of its three error codes and leaves a well-formed state with the settings as they
    were and at most one more acknowledgement owed per 24 bytes, provided the
    acknowledgements among the segments are less than three days old; without that it
    may, and this is the only thing that can go wrong, overflow an int. *)
Theorem input_any_bytes k data : wf k -> Forall is_byte data -> ack_room k data ->
  (calm (rtt k) -> Forall (fun s => fresh (current (clk k)) (fst s)) (handled k data) ->
   exists code k', ikcp_input k data = Ok (code, k') /\ code ∈ codes /\ wf k' /\ cfg k' = cfg k /\
     calm (rtt k') /\ ackcount (rx k') <= ackcount (rx k) + zlen data / 24) /\
  (forall f, ikcp_input k data = Err f -> f = UndefinedBehaviour).
Proof.
  intros Hk Hb Hroom. pose proof (input_cases k data Hk Hb Hroom) as H.
  destruct (ikcp_input k data) as [[c k']|f].
  - destruct H as (Hc & Hk' & Ec & Hcnt & Hcalm). split; [|done]. intros H1 H2. exists c, k'. split_and!; auto.
  - destruct H as [-> H]. split; [intros H1 H2; by destruct H | by intros f [= <-]].
Qed.

(** An acknowledgement, as [ikcp_flush] sends it. *)
Definition ack_datagram (cv ts sn una : Z) : list Z :=
  ikcp_encode_seg [] (seg.Mk cv IKCP_CMD_ACK 0 128 ts sn una 0 0 0 0 []).

Lemma input_any_bytes_witness : exists code k',
  ikcp_input (ikcp_create 7) (ack_datagram 7 0 0 0) = Ok (code, k') /\ code ∈ codes /\ wf k' /\
  cfg k' = cfg (ikcp_create 7) /\ calm (rtt k') /\ ackcount (rx k') <= 0 + 24 / 24.
Proof.
  assert (Forall is_byte (ack_datagram 7 0 0 0)) as Hb by apply encode_header_bytes.
  assert (ack_room (ikcp_create 7) (ack_datagram 7 0 0 0)) as Hr by (vm_compute; discriminate).
  destruct (input_any_bytes (ikcp_create 7) (ack_datagram 7 0 0 0) (create_wf 7) Hb Hr) as [H _].
  apply H; [split; split; vm_compute; congruence|].
  constructor; [|constructor]. intros _. vm_compute. done.
Defined.

(** The retransmission timeout stays between the configured minimum and a minute,
    whatever the measured time. *)
Theorem rto_in_bounds c t rtt t' : config_ok c -> 0 <= rtt -> ikcp_update_ack c t rtt = Ok t' ->
  rx_minrto c <= rx_rto t' <= IKCP_RTO_MAX.
Proof. intros Hc Hr E. pose proof (update_ack_spec c t rtt Hc Hr) as H. rewrite E in H. apply H. Qed.

Lemma rto_in_bounds_witness : exists t', ikcp_update_ack (cfg (ikcp_create 7)) (Rtt 0 0 200) 90000 = Ok t' /\
  rx_minrto (cfg (ikcp_create 7)) <= rx_rto t' <= IKCP_RTO_MAX.
Proof.
  destruct (ikcp_update_ack (cfg (ikcp_create 7)) (Rtt 0 0 200) 90000) as [t'|f] eqn:E;
    [|vm_compute in E; discriminate E].
  exists t'. split; [done|]. apply (rto_in_bounds _ (Rtt 0 0 200) 90000 t'); [apply (create_wf 7) | lia | exact E].
Defined.

(** One acknowledgement that claims to be twelve days old overflows. *)
Lemma old_ack_overflows :
  ikcp_input (with_clk (Timer (2 ^ 30 + 1) 0 1 0 0 0) (ikcp_create 7)) (ack_datagram 7 1 0 0) = Err UndefinedBehaviour.
Proof. vm_compute. reflexivity. Qed.
