(* ===== verification/KcpUser.v ===== *)
(** * KCP: what the user sends and receives

    [ikcp_send] cuts a message into fragments, numbered down to 0, or appends to a
    byte stream; [ikcp_recv] puts one message together again.  The fragments are
    described by [chunks] and [frag_list], the messages of a queue by [cut]. *)

From Stdlib Require Import ZArith Lia Bool.
From stdpp Require Import base tactics option list numbers.
From S2P Require Import Prelude KcpWire Kcp KcpInv.

#[local] Open Scope Z_scope.

(** What of a segment reaches the other user. *)
Definition payload (s : seg.t) : Z * list Z := (seg.frg s, seg.data s).

(** The bytes of a list of payloads. *)
Definition bytes_of (l : list (Z * list Z)) : list Z := concat (map snd l).

(** The messages of a list of payloads: each ends with fragment 0. *)
Fixpoint cut (acc : list Z) (l : list (Z * list Z)) : list (list Z) :=
  match l with
  | [] => []
  | (f, d) :: l' => if f =? 0 then (acc ++ d) :: cut [] l' else cut (acc ++ d) l'
  end.

(** Whether the last message is complete. *)
Definition complete (l : list (Z * list Z)) : Prop := match list.last l with Some (f, _) => f = 0 | None => True end.

Lemma bytes_of_app l1 l2 : bytes_of (l1 ++ l2) = bytes_of l1 ++ bytes_of l2.
Proof. unfold bytes_of. by rewrite map_app, concat_app. Qed.

Lemma complete_cons p l : l <> [] -> complete (p :: l) -> complete l.
Proof. unfold complete. by destruct l. Qed.

Lemma cut_app acc l1 l2 : complete l1 -> l1 <> [] -> cut acc (l1 ++ l2) = cut acc l1 ++ cut [] l2.
Proof.
  revert acc. induction l1 as [|[f d] l1 IH]; intros acc Hc Hn; [done|]. cbn [app cut].
  destruct (decide (l1 = [])) as [->|Hn1].
  { unfold complete in Hc. simpl in Hc. subst f. done. }
  apply complete_cons in Hc; [|done]. destruct (f =? 0); [|by apply IH].
  cbn [app]. f_equal. by apply IH.
Qed.

Lemma cut_app_nil l1 l2 : complete l1 -> cut [] (l1 ++ l2) = cut [] l1 ++ cut [] l2.
Proof. intros H. destruct (decide (l1 = [])) as [->|Hn]; [done | by apply cut_app]. Qed.

Lemma concat_cut acc l : complete l -> l <> [] -> concat (cut acc l) = acc ++ bytes_of l.
Proof.
  revert acc. induction l as [|[f d] l IH]; intros acc Hc Hn; [done|]. cbn [cut].
  unfold bytes_of. cbn [map snd concat]. fold (bytes_of l).
  destruct (decide (l = [])) as [->|Hn1].
  { unfold complete in Hc. simpl in Hc. subst f. simpl. by rewrite !app_nil_r. }
  apply complete_cons in Hc; [|done].
  destruct (f =? 0); cbn [concat]; rewrite IH by done; simpl; by rewrite <- app_assoc.
Qed.

Lemma concat_cut_nil l : complete l -> concat (cut [] l) = bytes_of l.
Proof. intros H. destruct (decide (l = [])) as [->|Hn]; [done | by apply concat_cut]. Qed.

Lemma complete_app l1 l2 : complete l1 -> complete l2 -> complete (l1 ++ l2).
Proof.
  intros H1 H2. destruct (decide (l2 = [])) as [->|Hn]; [by rewrite app_nil_r|].
  unfold complete in *. rewrite last_app. destruct (list.last l2) eqn:E; [done|]. by apply list.last_None in E.
Qed.

(** The numbers of the fragments: 0 ends a message, any other is followed by the one
    below it. *)
Fixpoint numbered (fs : list Z) : Prop :=
  match fs with
  | [] => True
  | f :: fs' => match fs' with [] => True | g :: _ => f = 0 \/ g = f - 1 end /\ numbered fs'
  end.

Lemma complete_frgs q : complete (map payload q) <-> match list.last (map seg.frg q) with Some f => f = 0 | None => True end.
Proof. unfold complete. rewrite !list.fmap_last. by destruct (list.last q). Qed.

Lemma numbered_app l1 l2 : numbered l1 -> match list.last l1 with Some f => f = 0 | None => True end ->
  numbered l2 -> numbered (l1 ++ l2).
Proof.
  induction l1 as [|f l1 IH]; [done|]. intros [Hf H1] Hl H2. cbn [app numbered].
  destruct l1 as [|g l1]; [simpl in Hl; subst f; split; [destruct l2; by try left | done]|].
  split; [exact Hf | by apply IH].
Qed.

Lemma numbered_app_l l1 l2 : numbered (l1 ++ l2) -> numbered l1.
Proof.
  induction l1 as [|f l1 IH]; [done|]. cbn [app numbered]. intros [Hf H]. split; [|auto]. by destruct l1.
Qed.

Lemma numbered_app_r l1 l2 : numbered (l1 ++ l2) -> numbered l2.
Proof. induction l1 as [|f l1 IH]; [done|]. cbn [app numbered]. intros [_ H]. auto. Qed.

(** ** Fragments *)

Fixpoint chunks (m n : nat) (bs : list Z) : list (list Z) :=
  match n with O => [] | S n' => take m bs :: chunks m n' (drop m bs) end.

(** In message mode the number of fragments that follow, in stream mode 0. *)
Fixpoint frag_list (numbered : bool) (cs : list (list Z)) : list seg.t :=
  match cs with
  | [] => []
  | d :: cs' => seg_of_data (if numbered then zlen cs' else 0) d :: frag_list numbered cs'
  end.

Lemma concat_chunks m n bs : (length bs <= n * m)%nat -> concat (chunks m n bs) = bs.
Proof.
  revert bs. induction n as [|n IH]; intros bs H.
  { simpl in *. destruct bs; [done | simpl in H; lia]. }
  cbn [chunks concat]. rewrite IH by (rewrite length_drop; lia). apply take_drop.
Qed.

Lemma length_chunks m n bs : length (chunks m n bs) = n.
Proof. revert bs. induction n as [|n IH]; intros bs; [done|]. cbn [chunks length]. by rewrite IH. Qed.

Lemma bytes_of_frags b cs : bytes_of (map payload (frag_list b cs)) = concat cs.
Proof.
  induction cs as [|d cs IH]; [done|]. cbn [frag_list map]. unfold bytes_of. cbn [map concat].
  fold (bytes_of (map payload (frag_list b cs))). by rewrite IH.
Qed.

Lemma cut_frags acc cs : cs <> [] -> cut acc (map payload (frag_list true cs)) = [acc ++ concat cs].
Proof.
  revert acc. induction cs as [|d cs IH]; intros acc Hn; [done|]. cbn [frag_list map cut payload seg.frg seg.data seg_of_data].
  destruct (decide (cs = [])) as [->|Hn1]; [simpl; by rewrite app_nil_r|].
  assert ((zlen cs =? 0) = false) as -> by (apply Z.eqb_neq; destruct cs; [done | cbn [length]; lia]).
  rewrite IH by done. by rewrite <- app_assoc.
Qed.

Lemma complete_frags b cs : complete (map payload (frag_list b cs)).
Proof.
  induction cs as [|d cs IH]; [done|]. unfold complete in *. cbn [frag_list map].
  destruct cs as [|d' cs]; [by destruct b|]. exact IH.
Qed.

Lemma numbered_frags b cs : numbered (map seg.frg (frag_list b cs)).
Proof.
  induction cs as [|d cs IH]; [done|]. cbn [frag_list map numbered]. split; [|done].
  destruct cs as [|d' cs]; [done|]. destruct b; [right | by left]. cbn [frag_list map seg.frg seg_of_data length]. lia.
Qed.

Lemma range_frags b cs : Forall (fun f => 0 <= f < Z.max 1 (zlen cs)) (map seg.frg (frag_list b cs)).
Proof.
  induction cs as [|d cs IH]; constructor; cbn [seg.frg seg_of_data length]; [destruct b; lia|].
  eapply list.Forall_impl; [exact IH|]. simpl. lia.
Qed.

Lemma size_chunks m n bs : Forall (fun d => (length d <= m)%nat) (chunks m n bs).
Proof. revert bs. induction n as [|n IH]; intros bs; [constructor|].
  cbn [chunks]. constructor; [rewrite length_take; lia | apply IH]. Qed.

Definition sized (c : config) (l : list seg.t) : Prop := Forall (fun s => seg.len s <= mss c) l.

Lemma sized_frags c b m n bs : Z.of_nat m <= mss c -> sized c (frag_list b (chunks m n bs)).
Proof.
  intros Hm. pose proof (size_chunks m n bs) as H. induction H as [|d cs Hd Hcs IH]; [constructor|].
  constructor; [unfold seg.len; simpl; lia | done].
Qed.

(** [fragments] rounds up. *)
Lemma fragments_ceil c len : config_ok c -> 0 < len < 2 ^ 31 ->
  (fragments c len - 1) * mss c < len <= fragments c len * mss c /\ 0 < fragments c len.
Proof.
  intros (Hm & _) Hl. unfold fragments. destruct (len <=? mss c) eqn:E; to_prop; [lia|].
  rewrite u32_small by lia. Z.to_euclidean_division_equations. nia.
Qed.

(** The loop appends exactly the chunks. *)
Lemma send_fragments_spec todo c s buffer len sent :
  config_ok c -> 0 <= len <= zlen buffer -> (Z.of_nat todo - 1) * mss c <= len <= Z.of_nat todo * mss c ->
  exists s', send_fragments todo c s buffer len sent = Ok (sent + len, s') /\
    snd_queue s' = snd_queue s ++ frag_list (stream c =? 0) (chunks (Z.to_nat (mss c)) todo (take (Z.to_nat len) buffer)) /\
    snd_una s' = snd_una s /\ snd_nxt s' = snd_nxt s /\ snd_buf s' = snd_buf s /\ nsnd_buf s' = nsnd_buf s /\
    (nsnd_que s = u32 (zlen (snd_queue s)) -> nsnd_que s' = u32 (zlen (snd_queue s'))).
Proof.
  intros (Hm & _). revert s buffer len sent. induction todo as [|todo IH]; intros s buffer len sent Hl Ht.
  { assert (len = 0) as -> by lia. exists s. rewrite Z.add_0_r. cbn [send_fragments chunks frag_list].
    by rewrite app_nil_r. }
  cbn [send_fragments chunks frag_list].
  set (size := if mss c <? len then mss c else len).
  assert (0 <= size <= len /\ size <= mss c /\ (size = len \/ size = mss c) /\ (mss c <= len -> size = mss c)) as Hsz
    by (unfold size; destruct (mss c <? len) eqn:E; to_prop; lia).
  rewrite mread_ok by lia. cbn [mbind outcome_bind].
  set (s1 := Sender _ _ _ _ _ _).
  destruct (IH s1 (drop (Z.to_nat size) buffer) (len - size) (sent + size)) as (s' & E & Eq & Er).
  { rewrite length_drop. lia. }
  { clearbody size. nia. }
  exists s'. rewrite E. split; [do 2 f_equal; lia|].
  assert (take (Z.to_nat (mss c)) (take (Z.to_nat len) buffer) = slice buffer 0 size) as E1.
  { unfold slice. change (Z.to_nat 0) with 0%nat. rewrite drop_0, take_take. f_equal. lia. }
  assert (drop (Z.to_nat (mss c)) (take (Z.to_nat len) buffer)
          = take (Z.to_nat (len - size)) (drop (Z.to_nat size) buffer)) as E2.
  { rewrite skipn_firstn_comm. destruct (decide (size = mss c)) as [->|Hne]; [f_equal; lia|].
    assert (size = len) as -> by lia. replace (Z.to_nat (len - len)) with 0%nat by lia.
    replace (Z.to_nat len - Z.to_nat (mss c))%nat with 0%nat by lia. done. }
  split.
  { rewrite Eq. unfold s1. cbn [snd_queue]. rewrite <- app_assoc, E1, E2, length_chunks. done. }
  destruct Er as (-> & -> & -> & -> & Hq). split_and!; [done..|].
  intros H. apply Hq. unfold s1. cbn [nsnd_que snd_queue]. rewrite H, length_app. cbn [length].
  rewrite Nat2Z.inj_add. unfold wrap. by rewrite Zplus_mod_idemp_l.
Qed.

(** ** [ikcp_send] *)

(** Only the queue has changed, and its counter with it. *)
Record queued (s s' : sender) : Prop := {
  q_una : snd_una s' = snd_una s;
  q_nxt : snd_nxt s' = snd_nxt s;
  q_buf : snd_buf s' = snd_buf s;
  q_nbuf : nsnd_buf s' = nsnd_buf s;
  q_nque : nsnd_que s = u32 (zlen (snd_queue s)) -> nsnd_que s' = u32 (zlen (snd_queue s'))
}.

Lemma queued_refl s : queued s s.
Proof. by constructor. Qed.

Lemma queued_trans s t u : queued s t -> queued t u -> queued s u.
Proof. intros [] []. constructor; try congruence. auto. Qed.

Lemma queued_ok s s' : queued s s' -> sender_ok s -> sender_ok s'.
Proof.
  intros [E1 E2 E3 E4 E5] [Hu Hn Hg Hb Hh Hc Hq]. constructor; rewrite ?E1, ?E2, ?E3, ?E4; try done. auto.
Qed.

Lemma last_snoc_split {A} (l : list A) x : list.last l = Some x -> l = removelast l ++ [x].
Proof.
  intros H. destruct l as [|y l _] using rev_ind; [done|].
  rewrite last_snoc in H. injection H as ->. by rewrite removelast_last.
Qed.

Lemma complete_snoc l d : complete (l ++ [(0, d)]).
Proof. unfold complete. by rewrite last_snoc. Qed.

(** [q'] is [q] with the bytes [bs] appended, in whole fragments. *)
Definition appends (q q' : list seg.t) (bs : list Z) : Prop :=
  complete (map payload q') /\ bytes_of (map payload q') = bytes_of (map payload q) ++ bs /\
  exists new, map seg.frg q' = map seg.frg q ++ new /\ numbered new /\ Forall (fun f => 0 <= f < IKCP_WND_RCV) new.

Lemma appends_refl q : complete (map payload q) -> appends q q [].
Proof. intros H. split; [done|]. split; [by rewrite app_nil_r|]. exists []. by rewrite app_nil_r. Qed.

Lemma appends_frags b q q' bs cs : appends q q' bs -> zlen cs < IKCP_WND_RCV ->
  appends q (q' ++ frag_list b cs) (bs ++ concat cs).
Proof.
  intros (Hc & Hb & new & Ef & Hn & Hr) Hl. unfold appends. rewrite !map_app, bytes_of_app, bytes_of_frags, Hb, <- app_assoc.
  split; [apply complete_app; [done | apply complete_frags]|]. split; [done|].
  exists (new ++ map seg.frg (frag_list b cs)). rewrite Ef, <- app_assoc. split; [done|]. split.
  - apply numbered_app; [done | | apply numbered_frags]. apply complete_frgs in Hc. rewrite Ef in Hc.
    rewrite last_app in Hc. by destruct (list.last new).
  - apply Forall_app_2; [done|]. eapply list.Forall_impl; [apply range_frags|]. unfold IKCP_WND_RCV in *. simpl. lia.
Qed.

(** In stream mode the last segment is filled up first. *)
Lemma send_extend_spec c s buffer len : config_ok c -> 0 <= len <= zlen buffer -> len < 2 ^ 31 ->
  exists ext s', send_extend c s buffer len = Ok (ext, drop (Z.to_nat ext) buffer, len - ext, s') /\
    0 <= ext <= len /\ queued s s' /\
    (complete (map payload (snd_queue s)) ->
       appends (snd_queue s) (snd_queue s') (take (Z.to_nat ext) buffer)) /\
    (sized c (snd_queue s) -> sized c (snd_queue s')) /\
    (stream c = 0 -> ext = 0 /\ s' = s) /\ (ext = 0 -> 0 < len -> s' = s).
Proof.
  intros (Hm & _) Hl Hl31. unfold send_extend.
  assert (forall b, exists ext s', Ok (0, b, len, s) = Ok (ext, drop (Z.to_nat ext) b, len - ext, s') /\
    0 <= ext <= len /\ queued s s' /\
    (complete (map payload (snd_queue s)) ->
       appends (snd_queue s) (snd_queue s') (take (Z.to_nat ext) b)) /\
    (sized c (snd_queue s) -> sized c (snd_queue s')) /\
    (stream c = 0 -> ext = 0 /\ s' = s) /\ (ext = 0 -> 0 < len -> s' = s)) as Hnone.
  { intros b. exists 0, s. rewrite Z.sub_0_r, drop_0, take_0.
    split_and!; try done; try lia. apply appends_refl. }
  destruct (stream c =? 0) eqn:Est; to_prop; cbn [negb]; [apply Hnone|].
  destruct (list.last (snd_queue s)) as [old|] eqn:El; [|apply Hnone].
  destruct (seg.len old <? mss c) eqn:Em; to_prop; [|apply Hnone].
  assert (0 <= seg.len old) as Hold by (unfold seg.len; lia).
  rewrite i32_small by lia. set (ext := if len <? _ then _ else _).
  assert (0 <= ext <= len /\ ext <= mss c - seg.len old /\ (ext = 0 -> len = 0)) as Hext
    by (unfold ext; destruct (len <? _) eqn:E; to_prop; lia).
  clearbody ext. rewrite mread_ok by lia. cbn [mbind outcome_bind]. apply last_snoc_split in El.
  eexists ext, _. split; [reflexivity|]. cbn [snd_queue]. split; [lia|].
  assert (slice buffer 0 ext = take (Z.to_nat ext) buffer) as Es
    by (unfold slice; change (Z.to_nat 0) with 0%nat; by rewrite drop_0).
  split; [|split; [|split; [|split; [done | lia]]]].
  - constructor; try done. cbn [nsnd_que snd_queue]. intros ->. rewrite El at 1. by rewrite !length_app.
  - intros Hcm. unfold appends. rewrite !map_app. cbn [map]. split; [apply complete_snoc|]. split.
    + rewrite El at 2. rewrite map_app, !bytes_of_app, <- app_assoc. f_equal.
      unfold bytes_of. simpl. by rewrite !app_nil_r, Es.
    + exists []. rewrite app_nil_r. split; [|done]. rewrite El at 2. rewrite map_app. f_equal.
      rewrite El, map_app in Hcm. cbn [map] in Hcm. unfold complete in Hcm.
      rewrite last_snoc in Hcm. simpl in *. by rewrite Hcm.
  - rewrite El at 1. unfold sized. rewrite !Forall_app. intros [H1 H2]. split; [done|].
    constructor; [|constructor]. unfold seg.len, seg_of_data in *. cbn [seg.data]. rewrite length_app, Es, length_take. lia.
Qed.

(** Everything [ikcp_send] can do. *)
Lemma send_cases k buffer len : wf k -> len <= zlen buffer -> len < 2 ^ 31 ->
  exists n s', ikcp_send k buffer len = Ok (n, with_tx s' k) /\ queued (tx k) s' /\ n <= Z.max 0 len /\
    (n < 0 -> s' = tx k) /\
    (sized (cfg k) (snd_queue (tx k)) -> sized (cfg k) (snd_queue s')) /\
    (complete (map payload (snd_queue (tx k))) -> appends (snd_queue (tx k)) (snd_queue s') (take (Z.to_nat n) buffer)) /\
    (stream (cfg k) = 0 -> 0 <= len -> n = if IKCP_WND_RCV <=? fragments (cfg k) len then -2 else len) /\
    (stream (cfg k) = 0 -> 0 <= n -> n = len /\ exists m, (0 < m)%nat /\ Z.of_nat m < IKCP_WND_RCV /\
       Z.of_nat m = Z.max 1 (fragments (cfg k) len) /\
       snd_queue s' = snd_queue (tx k) ++
         frag_list true (chunks (Z.to_nat (mss (cfg k))) m (take (Z.to_nat len) buffer))).
Proof.
  intros (Hc & _) Hl Hl31. pose proof Hc as (Hm & _).
  unfold ikcp_send. rewrite cxx_assert_true by lia. cbn [mbind outcome_bind].
  destruct (len <? 0) eqn:E0; to_prop.
  { exists (-1), (tx k). split; [by destruct k|]. split; [apply queued_refl|]. change (Z.to_nat (-1)) with 0%nat.
    rewrite take_0. split_and!; try done; try lia. apply appends_refl. }
  destruct (send_extend_spec (cfg k) (tx k) buffer len Hc ltac:(lia) Hl31)
    as (ext & s1 & -> & He & Hq & Hby & Hsz & Hst & Hno).
  cbn [mbind outcome_bind]. cbv beta iota.
  destruct (negb (stream (cfg k) =? 0) && (len - ext <=? 0)) eqn:E1; to_prop.
  { exists ext, s1. split_and!; try done; lia. }
  pose proof (fragments_ceil (cfg k) (len - ext) Hc) as Hfr.
  assert (len - ext = 0 -> fragments (cfg k) (len - ext) = 1) as Hz
    by (unfold fragments; intros ->; by replace (0 <=? mss (cfg k)) with true by lia).
  set (count := fragments (cfg k) (len - ext)) in *.
  destruct (IKCP_WND_RCV <=? count) eqn:E2; to_prop.
  { destruct (negb (stream (cfg k) =? 0) && (0 <? ext)) eqn:E3; to_prop.
    { exists ext, s1. split_and!; try done; lia. }
    assert (s1 = tx k) as ->.
    { destruct (decide (stream (cfg k) = 0)) as [Hs0|Hs0]; [by apply Hst|].
      destruct E3 as [E3|E3]; to_prop; [done|]. apply Hno; [lia|].
      unfold IKCP_WND_RCV in E2. destruct (decide (len - ext = 0)) as [Hz0|]; [specialize (Hz Hz0) | ]; lia. }
    exists (-2), (tx k). split; [done|]. split; [done|]. change (Z.to_nat (-2)) with 0%nat. rewrite take_0.
    split_and!; try done; try lia; [apply appends_refl|]. intros Hs0 _. destruct (Hst Hs0) as [Hx _]. unfold count in E2.
    rewrite Hx, Z.sub_0_r in E2. by rewrite (proj2 (Z.leb_le _ _) E2). }
  assert (0 < count /\ (count - 1) * mss (cfg k) <= len - ext <= count * mss (cfg k)) as Hcount.
  { destruct (decide (len - ext = 0)) as [Hz0|]; [rewrite (Hz Hz0); lia|]. destruct Hfr; [lia|]. lia. }
  clear Hfr. replace (count =? 0) with false by lia.
  destruct (send_fragments_spec (Z.to_nat count) (cfg k) s1 (drop (Z.to_nat ext) buffer) (len - ext) ext Hc)
    as (s2 & -> & Eq & E3 & E4 & E5 & E6 & E7); [rewrite length_drop; lia | rewrite Z2Nat.id by lia; lia |].
  cbn [mbind outcome_bind]. replace (ext + (len - ext)) with len by lia.
  exists len, s2. split; [done|]. split.
  { eapply queued_trans; [exact Hq|]. by constructor. }
  split_and!; [lia | lia | | | |].
  - intros H. rewrite Eq. unfold sized. apply Forall_app_2; [by apply Hsz | apply sized_frags; lia].
  - intros H. rewrite Eq.
    replace (take (Z.to_nat len) buffer) with
      (take (Z.to_nat ext) buffer ++ concat (chunks (Z.to_nat (mss (cfg k))) (Z.to_nat count)
         (take (Z.to_nat (len - ext)) (drop (Z.to_nat ext) buffer)))).
    + apply appends_frags; [by apply Hby | rewrite length_chunks; lia].
    + rewrite concat_chunks by (rewrite length_take; nia). rewrite take_take_drop. f_equal. lia.
  - intros Hs0 _. destruct (Hst Hs0) as [Hx _]. unfold count in E2. rewrite Hx, Z.sub_0_r in E2.
    by rewrite (proj2 (Z.leb_gt _ _) E2).
  - intros Hs0 _. split; [done|]. destruct (Hst Hs0) as [-> ->]. exists (Z.to_nat count).
    unfold count in *. rewrite Z.sub_0_r in *. split_and!; [lia.. |]. rewrite Eq, Hs0. by rewrite drop_0.
Qed.

(** ** [ikcp_recv] *)

(** The first message of a queue and what follows it. *)
Fixpoint take_msg (q : list seg.t) : list Z * list seg.t :=
  match q with
  | [] => ([], [])
  | s :: q' =>
      if seg.frg s =? 0 then (seg.data s, q')
      else let '(d, rest) := take_msg q' in (seg.data s ++ d, rest)
  end.

Lemma take_msg_length q : zlen (snd (take_msg q)) <= zlen q.
Proof.
  induction q as [|s q IH]; [done|]. cbn [take_msg length]. destruct (seg.frg s =? 0); [simpl; lia|].
  destruct (take_msg q) as [d rest]. simpl in *. lia.
Qed.

Lemma take_msg_bytes q : zlen (fst (take_msg q)) <= zlen (bytes_of (map payload q)).
Proof.
  induction q as [|s q IH]; [done|]. unfold bytes_of in *. cbn [map concat take_msg payload snd].
  rewrite length_app. destruct (seg.frg s =? 0); [simpl; lia|].
  destruct (take_msg q) as [d rest]. simpl in *. rewrite length_app. lia.
Qed.

(** [n] counts the queue when the loop starts. *)
Lemma merge_loop_spec ispeek q n b off len :
  zlen q <= n < 2 ^ 31 -> 0 <= off -> 0 <= len -> off + zlen (fst (take_msg q)) <= zlen b ->
  len + zlen (fst (take_msg q)) < 2 ^ 31 ->
  merge_loop ispeek q n (Some b) off len =
    Ok (if ispeek then q else snd (take_msg q), if ispeek then n else n - zlen q + zlen (snd (take_msg q)),
        Some (splice b off (fst (take_msg q))), len + zlen (fst (take_msg q))).
Proof.
  revert n b off len. induction q as [|s q IH]; intros n b off len Hn Ho Hlen Hb Hs.
  { simpl. unfold splice. simpl. rewrite Z.add_0_r, Nat.add_0_r, take_drop.
    destruct ispeek; repeat f_equal; lia. }
  cbn [merge_loop take_msg length] in *. unfold seg.len.
  destruct (seg.frg s =? 0) eqn:Ef.
  { cbn [fst snd] in *. rewrite mwrite_ok by lia. cbn [mbind outcome_bind]. rewrite i32_small by lia.
    rewrite u32_small by lia. destruct ispeek; cbn [length]; repeat f_equal; lia. }
  destruct (take_msg q) as [d rest] eqn:E. cbn [fst snd] in *. rewrite length_app in Hb, Hs.
  rewrite mwrite_ok by lia. cbn [mbind outcome_bind]. rewrite i32_small by lia. rewrite u32_small by lia.
  rewrite (IH (if ispeek then n else n - 1)); [| destruct ispeek; lia | lia | lia | | lia].
  2: { rewrite length_splice by lia. lia. }
  cbn [mbind outcome_bind]. rewrite splice_splice by lia.
  rewrite length_app. destruct ispeek; do 2 f_equal; [|f_equal; f_equal|]; lia.
Qed.

Lemma peek_length_spec q len : 0 <= len -> len + zlen (fst (take_msg q)) < 2 ^ 31 ->
  peek_length q len = len + zlen (fst (take_msg q)).
Proof.
  revert len. induction q as [|s q IH]; intros len Hl Hs; [simpl; lia|].
  cbn [peek_length take_msg] in *. unfold seg.len. destruct (seg.frg s =? 0).
  { cbn [fst] in *. rewrite i32_small; lia. }
  destruct (take_msg q) as [d rest]. cbn [fst] in *. rewrite length_app in *.
  rewrite i32_small by lia. rewrite IH by lia. lia.
Qed.

(** The message at the front of the queue has all its fragments there. *)
Definition whole (r : receiver) : bool :=
  match rcv_queue r with
  | [] => false
  | s :: _ => (seg.frg s =? 0) || (u32 (seg.frg s + 1) <=? nrcv_que r)
  end.

(** What is waiting to be received is less than an int can count. *)
Definition readable (r : receiver) : Prop := zlen (bytes_of (map payload (rcv_queue r))) < 2 ^ 31.

Lemma peeksize_spec r : readable r ->
  ikcp_peeksize r = if whole r then zlen (fst (take_msg (rcv_queue r))) else -1.
Proof.
  unfold readable, ikcp_peeksize, whole. intros Hr. pose proof (take_msg_bytes (rcv_queue r)) as Hm.
  destruct (rcv_queue r) as [|s q]; [done|]. destruct (seg.frg s =? 0) eqn:E; cbn [orb].
  { cbn [take_msg fst] in *. rewrite E in *. unfold seg.len. cbn [fst] in *. rewrite i32_small; lia. }
  destruct (nrcv_que r <? u32 (seg.frg s + 1)) eqn:E1; to_prop.
  - by replace (u32 (seg.frg s + 1) <=? nrcv_que r) with false by lia.
  - replace (u32 (seg.frg s + 1) <=? nrcv_que r) with true by lia. rewrite peek_length_spec; lia.
Qed.

(** The receiver after [ikcp_recv] took out the first message. *)
Definition popped (ispeek : bool) (r : receiver) : receiver :=
  let q := if ispeek then rcv_queue r else snd (take_msg (rcv_queue r)) in
  Receiver (rcv_nxt r) (rcv_buf r) q (nrcv_buf r) (zlen q) (acklist r) (ackcount r) (ackblock r).

Lemma popped_ok b r : receiver_ok r -> receiver_ok (popped b r).
Proof.
  intros [Hn Hb Hc [Hq Hq'] Hal Hcn Hbl]. pose proof (take_msg_length (rcv_queue r)).
  constructor; simpl; try done. destruct b; lia.
Qed.

Lemma move_ready_queue wnd buf r : exists more, rcv_queue (move_ready wnd buf r) = rcv_queue r ++ more.
Proof.
  revert r. induction buf as [|s buf IH]; intros r; cbn [move_ready]; [exists []; by rewrite app_nil_r|].
  destruct (_ && _); [|exists []; by rewrite app_nil_r].
  edestruct IH as (more & ->). exists (s :: more). cbn [rcv_queue]. by rewrite <- app_assoc.
Qed.

(** Everything [ikcp_recv] can do with a buffer of at least [abs len] bytes. *)
Lemma recv_cases k b len : wf k -> readable (rx k) -> - 2 ^ 31 < len < 2 ^ 31 -> Z.abs len <= zlen b ->
  let msg := fst (take_msg (rcv_queue (rx k))) in
  exists n b' k', ikcp_recv k (Some b) len = Ok (n, Some b', k') /\
    if whole (rx k) && (zlen msg <=? Z.abs len)
    then n = zlen msg /\ b' = splice b 0 msg /\ cfg k' = cfg k /\ tx k' = tx k /\ rtt k' = rtt k /\ cc k' = cc k /\
      current (clk k') = current (clk k) /\ updated (clk k') = updated (clk k) /\
      rx k' = move_ready (rcv_wnd (cfg k)) (rcv_buf (rx k)) (popped (len <? 0) (rx k))
    else n = (match rcv_queue (rx k) with [] => -1 | _ => if whole (rx k) then -3 else -2 end) /\ b' = b /\ k' = k.
Proof.
  intros (Hc & Hs & Hr & _) Hread Hlen Hb msg. assert (msg = fst (take_msg (rcv_queue (rx k)))) as Emsg by done.
  pose proof Hr as [_ _ _ [Hq Hq'] _ _ _].
  unfold ikcp_recv, whole. rewrite peeksize_spec by done. rewrite <- Emsg.
  pose proof (take_msg_bytes (rcv_queue (rx k))) as Hm. rewrite <- Emsg in Hm. unfold readable in Hread. clearbody msg.
  destruct (rcv_queue (rx k)) as [|s q] eqn:Eq.
  { exists (-1), b, k. by cbn [andb]. }
  rewrite <- Eq in *. assert ((if len <? 0 then int_of (- len) else Ok len) = Ok (Z.abs len)) as ->.
  { destruct (len <? 0) eqn:E; to_prop; [rewrite int_of_ok by lia|]; f_equal; lia. }
  cbn [mbind outcome_bind]. unfold whole. rewrite Eq. rewrite <- Eq.
  destruct ((seg.frg s =? 0) || (u32 (seg.frg s + 1) <=? nrcv_que (rx k))); cbn [andb].
  2: { exists (-2), b, k. by split_and!. }
  replace (zlen msg <? 0) with false by lia.
  destruct (Z.abs len <? zlen msg) eqn:El; to_prop.
  { replace (zlen msg <=? Z.abs len) with false by lia. exists (-3), b, k. by split_and!. }
  replace (zlen msg <=? Z.abs len) with true by lia.
  rewrite merge_loop_spec; rewrite <- ?Emsg; [| lia.. ]. cbn [mbind outcome_bind].
  rewrite cxx_assert_true by lia. cbn [mbind outcome_bind].
  eexists _, _, _. split; [reflexivity|]. unfold popped. cbn [rcv_buf rcv_nxt rcv_queue nrcv_buf nrcv_que].
  assert ((if len <? 0 then nrcv_que (rx k)
     else nrcv_que (rx k) - zlen (rcv_queue (rx k)) + zlen (snd (take_msg (rcv_queue (rx k))))) =
    zlen (if len <? 0 then rcv_queue (rx k) else snd (take_msg (rcv_queue (rx k))))) as -> by (destruct (len <? 0); lia).
  destruct (_ && _); simpl; by split_and!.
Qed.

(** ** The claims *)

(** C40. In message mode a message is cut into as many fragments as its length needs,
    at least one, each of at most [mss] bytes, numbered down to 0, that together are
    its bytes; they are appended to the queue.  A message of 128 fragments or more is
    refused and nothing changes. *)
Theorem send_cuts_message k buffer len : wf k -> stream (cfg k) = 0 -> 0 <= len <= zlen buffer -> len < 2 ^ 31 ->
  exists n s', ikcp_send k buffer len = Ok (n, with_tx s' k) /\
    if IKCP_WND_RCV <=? fragments (cfg k) len then n = -2 /\ s' = tx k
    else n = len /\ exists cs, concat cs = take (Z.to_nat len) buffer /\
      snd_queue s' = snd_queue (tx k) ++ frag_list true cs /\ snd_buf s' = snd_buf (tx k) /\
      zlen cs = Z.max 1 (fragments (cfg k) len) /\ Forall (fun d => zlen d <= mss (cfg k)) cs.
Proof.
  intros Hk Hst Hl Hl31. destruct (send_cases k buffer len Hk ltac:(lia) Hl31)
    as (n & s' & E & Hq & _ & Hneg & _ & _ & Hcode & Hmsg).
  exists n, s'. split; [done|]. specialize (Hcode Hst ltac:(lia)).
  destruct (IKCP_WND_RCV <=? fragments (cfg k) len); [split; [done | apply Hneg; lia]|].
  destruct (Hmsg Hst ltac:(lia)) as (_ & m & Hm & _ & Em & Eq). split; [done|]. eexists.
  split; [|split; [exact Eq|]].
  - apply concat_chunks. rewrite length_take. destruct Hk as (Hc & _). pose proof Hc as (Hm1 & _).
    pose proof (fragments_ceil (cfg k) len Hc) as Hf. destruct (decide (len = 0)) as [->|]; [lia|].
    destruct Hf as [Hf1 Hf2]; [lia|]. nia.
  - split; [apply (q_buf _ _ Hq)|]. split; [by rewrite length_chunks|].
    eapply list.Forall_impl; [apply size_chunks|]. destruct Hk as ((Hm1 & _) & _). simpl. lia.
Qed.

(** A control block in message mode. *)
Definition message_mode (cv : Z) : kcp := set_stream 0 (ikcp_create cv).

Lemma send_cuts_message_witness : exists n s',
  ikcp_send (message_mode 7) (replicate 3000 1) 3000 = Ok (n, with_tx s' (message_mode 7)) /\ n = 3000.
Proof.
  destruct (send_cuts_message (message_mode 7) (replicate 3000 1) 3000) as (n & s' & E & H);
    [apply create_wf | done | rewrite length_replicate; lia | lia |].
  assert ((IKCP_WND_RCV <=? fragments (cfg (message_mode 7)) 3000) = false) as Ef by (vm_compute; reflexivity).
  rewrite Ef in H. destruct H as [-> _]. exists 3000, s'. split; [exact E | reflexivity].
Defined.

(** [ikcp_recv] hands out one message or nothing.  When the first message is not
    there in full the code is -1 or -2, when the buffer is too small -3, and nothing
    changes; otherwise the result is what [ikcp_peeksize] says, the buffer begins with
    the bytes of the message, and the message is taken from the queue, unless this is
    a peek, which leaves it there. *)
Theorem recv_takes_one_message k b len : wf k -> readable (rx k) -> - 2 ^ 31 < len < 2 ^ 31 -> Z.abs len <= zlen b ->
  exists n b' k', ikcp_recv k (Some b) len = Ok (n, Some b', k') /\
    (n < 0 -> b' = b /\ k' = k /\ (ikcp_peeksize (rx k) < 0 /\ (n = -1 \/ n = -2) \/ Z.abs len < ikcp_peeksize (rx k) /\ n = -3)) /\
    (0 <= n -> n = ikcp_peeksize (rx k) /\ exists msg rest, take_msg (rcv_queue (rx k)) = (msg, rest) /\
       zlen msg = n /\ take (Z.to_nat n) b' = msg /\ length b' = length b /\ tx k' = tx k /\
       exists more, rcv_queue (rx k') = (if len <? 0 then rcv_queue (rx k) else rest) ++ more).
Proof.
  intros Hk Hr Hl Hb. destruct (recv_cases k b len Hk Hr Hl Hb) as (n & b' & k' & E & H).
  exists n, b', k'. split; [done|]. rewrite peeksize_spec by done. unfold whole in *.
  destruct (rcv_queue (rx k)) as [|s q] eqn:Eq.
  { cbn [andb] in H. destruct H as (-> & -> & ->). split; [intros _|lia]. split_and!; [done | done | left; lia]. }
  destruct ((seg.frg s =? 0) || (u32 (seg.frg s + 1) <=? nrcv_que (rx k))); cbn [andb] in H.
  2: { destruct H as (-> & -> & ->). split; [intros _|lia]. split_and!; [done | done | left; lia]. }
  rewrite <- Eq in *. destruct (zlen (fst (take_msg (rcv_queue (rx k)))) <=? Z.abs len) eqn:El; to_prop.
  2: { destruct H as (-> & -> & ->). split; [intros _|lia]. split_and!; [done | done | right; lia]. }
  destruct H as (-> & -> & _ & Et & _ & _ & _ & _ & Erx). split; [lia|]. intros _. split; [done|].
  destruct (take_msg (rcv_queue (rx k))) as [msg rest] eqn:Em. cbn [fst] in *.
  exists msg, rest. split_and!; [done | done | | | done |].
  - pose proof (slice_splice_same b 0 msg ltac:(lia) ltac:(lia)) as Hs. unfold slice in Hs.
    change (Z.to_nat 0) with 0%nat in Hs. by rewrite drop_0 in Hs.
  - apply length_splice; lia.
  - rewrite Erx. destruct (move_ready_queue (rcv_wnd (cfg k)) (rcv_buf (rx k)) (popped (len <? 0) (rx k))) as (more & Em').
    exists more. rewrite Em'. unfold popped. cbn [rcv_queue]. by rewrite Em.
Qed.

(** A control block with one message received in two fragments. *)
Definition two_fragments : kcp :=
  with_rx (Receiver 2 [] [seg_of_data 1 [1; 2]; seg_of_data 0 [3]] 0 2 [] 0 0) (ikcp_create 7).

Lemma two_fragments_ok : wf two_fragments.
Proof. pose proof (create_wf 7) as (? & ? & _ & ? & ?). by apply wf_intro. Qed.

Lemma recv_takes_one_message_witness : exists n b' k',
  ikcp_recv two_fragments (Some [0; 0; 0; 0]) 4 = Ok (n, Some b', k') /\ n = 3 /\ take 3 b' = [1; 2; 3].
Proof.
  destruct (recv_takes_one_message two_fragments [0; 0; 0; 0] 4) as (n & b' & k' & E & Hneg & Hpos);
    [apply two_fragments_ok | vm_compute; done | lia | simpl; lia |].
  exists n, b', k'. split; [exact E|]. assert (n = 3) as -> by (vm_compute in E; congruence).
  split; [done|]. destruct (Hpos ltac:(lia)) as (_ & msg & rest & Em & _ & Hb & _).
  change (Z.to_nat 3) with 3%nat in Hb. rewrite Hb. vm_compute in Em. congruence.
Defined.
