(* ===== verification/KcpFlush.v ===== *)
(** * KCP: what is sent, and when

    [ikcp_flush] against a specification: the segments it sends, in order, are
    [flush_segments], framed in datagrams of at most [mtu] bytes; the buffer is
    never overrun while the queued segments fit [mss].  Then [ikcp_update] and
    [ikcp_check]. *)

From Stdlib Require Import ZArith Lia Bool.
From stdpp Require Import base tactics option list numbers.
From S2P Require Import Prelude KcpWire Kcp KcpInv KcpUser.

#[local] Open Scope Z_scope.

(** ** Framing *)

(** A segment as it goes on the wire, and a datagram of several. *)
Definition wire (s : seg.t) : list Z := ikcp_encode_seg [] s ++ seg.data s.
Definition datagram (g : list seg.t) : list Z := concat (map wire g).

(** The settings fit each other: [buffer] holds a datagram. *)
Definition framed (c : config) : Prop := 50 <= mtu c /\ mss c = mtu c - IKCP_OVERHEAD /\ mtu c <= bufcap c.

Definition fits (c : config) (g : list seg.t) : Prop := 0 < zlen (datagram g) <= mtu c.

(** [w] holds [segs], in datagrams sent and one begun. *)
Definition holds (c : config) (segs : list seg.t) (w : writer) : Prop :=
  exists gs cur, segs = concat gs ++ cur /\ out w = map datagram gs /\ ptr w = datagram cur /\
    Forall (fits c) gs /\ zlen (ptr w) <= mtu c.

Lemma length_wire s : zlen (wire s) = 24 + seg.len s.
Proof. unfold wire, ikcp_encode_seg, seg.len. rewrite length_app, length_encode_header. lia. Qed.

Lemma datagram_snoc g s : datagram (g ++ [s]) = datagram g ++ wire s.
Proof. unfold datagram. rewrite map_app, concat_app. cbn [map concat]. by rewrite app_nil_r. Qed.

Lemma concat_snoc {A} (ls : list (list A)) l : concat (ls ++ [l]) = concat ls ++ l.
Proof. rewrite concat_app. cbn [concat]. by rewrite app_nil_r. Qed.

Lemma holds_nil c : framed c -> holds c [] (Writer [] []).
Proof. intros (H & _). exists [], []. split_and!; try done. cbn. lia. Qed.

Lemma holds_room c segs w need : holds c segs w -> 0 <= need <= mtu c ->
  holds c segs (make_room c need w) /\ zlen (ptr (make_room c need w)) + need <= mtu c.
Proof.
  intros (gs & cur & -> & Eo & Ep & Hf & Hl) Hn. unfold make_room.
  destruct (mtu c <? zlen (ptr w) + need) eqn:E; to_prop.
  2: { split; [|lia]. exists gs, cur. by split_and!. }
  split; [|simpl; lia]. exists (gs ++ [cur]), []. cbn [out ptr]. unfold ikcp_output.
  replace (zlen (ptr w) =? 0) with false by lia.
  split_and!; [by rewrite concat_snoc, app_nil_r | by rewrite map_app, Eo, Ep | done | | simpl; lia].
  apply Forall_app_2; [done|]. constructor; [|constructor]. unfold fits. rewrite <- Ep. lia.
Qed.

Lemma holds_write c segs w s : framed c -> holds c segs w -> zlen (ptr w) + zlen (wire s) <= mtu c ->
  exists w1 w2, write c (ikcp_encode_seg [] s) w = Ok w1 /\ write c (seg.data s) w1 = Ok w2 /\
    holds c (segs ++ [s]) w2 /\ (seg.data s = [] -> w2 = w1).
Proof.
  intros (_ & _ & Hb) (gs & cur & -> & Eo & Ep & Hf & Hl) Hw. unfold wire in Hw. rewrite length_app in Hw.
  unfold write. rewrite guard_defined_true by lia. cbn [mbind outcome_bind].
  exists (Writer (ptr w ++ ikcp_encode_seg [] s) (out w)).
  exists (Writer ((ptr w ++ ikcp_encode_seg [] s) ++ seg.data s) (out w)). split; [done|]. cbn [ptr out].
  rewrite guard_defined_true by (rewrite length_app; apply Z.leb_le; lia). cbn [mbind outcome_bind]. split; [done|]. split.
  - exists gs, (cur ++ [s]). cbn [out ptr]. rewrite datagram_snoc, <- Ep, <- !app_assoc. unfold wire.
    split_and!; [done | done | done | done |]. rewrite !length_app. lia.
  - intros ->. by rewrite app_nil_r.
Qed.

(** A segment without data, room made for it. *)
Lemma holds_control c segs w s : framed c -> holds c segs w -> seg.data s = [] ->
  exists w', write c (ikcp_encode_seg [] s) (make_room c IKCP_OVERHEAD w) = Ok w' /\ holds c (segs ++ [s]) w'.
Proof.
  intros Hc Hw Hd. unfold IKCP_OVERHEAD. pose proof Hc as (Hm & _).
  destruct (holds_room c segs w 24 Hw ltac:(lia)) as (Hw1 & Hl).
  destruct (holds_write c segs (make_room c 24 w) s Hc Hw1) as (w1 & w2 & E1 & _ & Hw2 & E2).
  { rewrite length_wire. unfold seg.len. rewrite Hd. simpl. lia. }
  exists w1. split; [done|]. by rewrite <- (E2 Hd).
Qed.

(** ** The specification *)

Fixpoint pairs (l : list Z) : list (Z * Z) :=
  match l with a :: b :: l' => (a, b) :: pairs l' | _ => [] end.

(** The acknowledgements owed. *)
Definition owed (r : receiver) : list (Z * Z) := pairs (take (Z.to_nat (2 * ackcount r)) (acklist r)).

Definition ack_segments (k : kcp) : list seg.t :=
  map (fun p => flush_seg k IKCP_CMD_ACK (fst p) (snd p)) (owed (rx k)).

Definition probe_segments (k : kcp) : list seg.t :=
  let t := update_probe (rmt_wnd (cc k)) (clk k) in
  let '(sn, ts) := List.last (owed (rx k)) (0, 0) in
  (if negb (Z.land (probe t) IKCP_ASK_SEND =? 0) then [flush_seg k IKCP_CMD_WASK sn ts] else []) ++
  (if negb (Z.land (probe t) IKCP_ASK_TELL =? 0) then [flush_seg k IKCP_CMD_WINS sn ts] else []).

(** The sender after the window has admitted what it can. *)
Definition admitted (k : kcp) : sender :=
  admit_loop k (ikcp_wnd_unused (cfg k) (rx k)) (send_window k) (snd_queue (tx k)) (tx k).

(** What becomes of a segment of [snd_buf], and what is sent of it. *)
Definition flushed (k : kcp) (s : seg.t) : seg.t :=
  match due (cfg k) (current (clk k)) (resent_of (cfg k)) s with
  | NotNow => s
  | why => resend (cfg k) (current (clk k)) (rx_rto (rtt k)) (rtomin_of k) (ikcp_wnd_unused (cfg k) (rx k))
             (rcv_nxt (rx k)) why s
  end.
Definition is_due (k : kcp) (s : seg.t) : bool :=
  match due (cfg k) (current (clk k)) (resent_of (cfg k)) s with NotNow => false | _ => true end.

Definition data_segments (k : kcp) (buf : list seg.t) : list seg.t :=
  flat_map (fun s => if is_due k s then [flushed k s] else []) buf.

Definition flush_segments (k : kcp) : list seg.t :=
  ack_segments k ++ probe_segments k ++ data_segments k (snd_buf (admitted k)).

(** ** The control segments *)

Lemma ack_get_spec r i a b l : receiver_ok r -> 0 <= i -> i < ackcount r ->
  drop (Z.to_nat (2 * i)) (take (Z.to_nat (2 * ackcount r)) (acklist r)) = a :: b :: l ->
  ikcp_ack_get r i = Ok (a, b).
Proof.
  intros Hr Hi Hlt E. pose proof (ro_acks r Hr). pose proof (ro_count r Hr).
  unfold ikcp_ack_get. rewrite mread_ok by lia. cbn [mbind outcome_bind].
  rewrite skipn_firstn_comm in E. unfold slice. change (Z.to_nat 2) with 2%nat.
  destruct (drop (Z.to_nat (2 * i)) (acklist r)) as [|x [|y l']] eqn:Ed.
  - by rewrite take_nil in E.
  - destruct (Z.to_nat (2 * ackcount r) - Z.to_nat (2 * i))%nat as [|[|n]]; done.
  - destruct (Z.to_nat (2 * ackcount r) - Z.to_nat (2 * i))%nat as [|[|n]]; try done.
    cbn [take] in E. injection E as -> -> _. done.
Qed.

Lemma last_cons_default {A} (x d : A) l : List.last (x :: l) d = List.last l x.
Proof.
  revert x d. induction l as [|y l IH]; intros x d; [done|].
  change (List.last (x :: y :: l) d) with (List.last (y :: l) d). by rewrite (IH y d), (IH y x).
Qed.

Lemma flush_acks_spec todo i k sn ts w segs : framed (cfg k) -> receiver_ok (rx k) -> 0 <= i ->
  i + Z.of_nat todo = ackcount (rx k) -> holds (cfg k) segs w ->
  let l := pairs (drop (Z.to_nat (2 * i)) (take (Z.to_nat (2 * ackcount (rx k))) (acklist (rx k)))) in
  exists w', flush_acks todo i k sn ts w = Ok (fst (List.last l (sn, ts)), snd (List.last l (sn, ts)), w') /\
    holds (cfg k) (segs ++ map (fun p => flush_seg k IKCP_CMD_ACK (fst p) (snd p)) l) w'.
Proof.
  intros Hc Hr. revert i sn ts w segs. induction todo as [|todo IH]; intros i sn ts w segs Hi Ht Hw l.
  { assert (l = []) as -> by (unfold l; rewrite drop_ge; [done | rewrite length_take; lia]).
    exists w. cbn [flush_acks map List.last]. by rewrite app_nil_r. }
  cbn [flush_acks]. pose proof (ro_acks _ Hr) as Hl. pose proof (ro_count _ Hr) as Hcnt.
  set (d := drop (Z.to_nat (2 * i)) (take (Z.to_nat (2 * ackcount (rx k))) (acklist (rx k)))) in *.
  assert (length d = S (S (2 * todo)))%nat as Hd by (unfold d; rewrite length_drop, length_take; lia).
  assert (drop 2 d = drop (Z.to_nat (2 * (i + 1))) (take (Z.to_nat (2 * ackcount (rx k))) (acklist (rx k)))) as Hd2
    by (unfold d; rewrite drop_drop; f_equal; lia).
  destruct d as [|a [|b d']] eqn:Ed; try done. cbn [drop] in Hd2.
  rewrite (ack_get_spec (rx k) i a b d' Hr Hi ltac:(lia) Ed). cbn [mbind outcome_bind].
  destruct (holds_control (cfg k) segs w (flush_seg k IKCP_CMD_ACK a b) Hc Hw eq_refl) as (w1 & -> & Hw1).
  cbn [mbind outcome_bind].
  destruct (IH (i + 1) a b w1 _ ltac:(lia) ltac:(lia) Hw1) as (w2 & E2 & Hw2). rewrite <- Hd2 in E2, Hw2.
  exists w2. unfold l. cbn [pairs map]. rewrite last_cons_default, E2. split; [done|].
  by rewrite <- app_assoc in Hw2.
Qed.

Lemma flush_control_spec k : framed (cfg k) -> receiver_ok (rx k) ->
  exists w, flush_control k = Ok (with_probe 0 (update_probe (rmt_wnd (cc k)) (clk k)), w) /\
    holds (cfg k) (ack_segments k ++ probe_segments k) w.
Proof.
  intros Hc Hr. unfold flush_control. pose proof (ro_count _ Hr) as Hcnt.
  destruct (flush_acks_spec (Z.to_nat (ackcount (rx k))) 0 k 0 0 (Writer [] []) [] Hc Hr) as (w & E & Hw);
    [lia | lia | by apply holds_nil|].
  change (Z.to_nat (2 * 0)) with 0%nat in E, Hw. rewrite drop_0 in E, Hw. fold (owed (rx k)) in E, Hw.
  rewrite E. cbn [mbind outcome_bind]. unfold probe_segments.
  destruct (List.last (owed (rx k)) (0, 0)) as [sn ts]. cbn [fst snd].
  fold (ack_segments k) in Hw. rewrite app_nil_l in Hw.
  set (t := update_probe (rmt_wnd (cc k)) (clk k)).
  assert (forall (b : bool) segs w cmd, holds (cfg k) segs w -> exists w',
    (if b then write_seg (cfg k) (flush_seg k cmd sn ts) w else Ok w) = Ok w' /\
    holds (cfg k) (segs ++ if b then [flush_seg k cmd sn ts] else []) w') as Hstep.
  { intros b segs w0 cmd Hw0. destruct b; [|exists w0; by rewrite app_nil_r]. unfold write_seg.
    by apply holds_control. }
  destruct (Hstep (negb (Z.land (probe t) IKCP_ASK_SEND =? 0)) _ _ IKCP_CMD_WASK Hw) as (w1 & -> & Hw1).
  cbn [mbind outcome_bind].
  destruct (Hstep (negb (Z.land (probe t) IKCP_ASK_TELL =? 0)) _ _ IKCP_CMD_WINS Hw1) as (w2 & -> & Hw2).
  cbn [mbind outcome_bind]. exists w2. split; [done|]. by rewrite <- app_assoc in Hw2.
Qed.

(** ** The data *)

Lemma flush_one_spec k wnd s f segs : framed (cfg k) -> holds (cfg k) segs (fw f) -> seg.len s <= mss (cfg k) ->
  wnd = ikcp_wnd_unused (cfg k) (rx k) ->
  exists f', flush_one k (resent_of (cfg k)) (rtomin_of k) wnd s f = Ok (flushed k s, f') /\
    holds (cfg k) (segs ++ if is_due k s then [flushed k s] else []) (fw f').
Proof.
  intros Hc Hw Hs ->. unfold flush_one, flushed, is_due.
  assert (forall why, exists f',
    (let s := resend (cfg k) (current (clk k)) (rx_rto (rtt k)) (rtomin_of k) (ikcp_wnd_unused (cfg k) (rx k))
                (rcv_nxt (rx k)) why s in
     let w := make_room (cfg k) (IKCP_OVERHEAD + seg.len s) (fw f) in
     let* w := write (cfg k) (ikcp_encode_seg [] s) w in
     let* w := write (cfg k) (seg.data s) w in Ok w) = Ok f' /\
    holds (cfg k) (segs ++ [resend (cfg k) (current (clk k)) (rx_rto (rtt k)) (rtomin_of k)
       (ikcp_wnd_unused (cfg k) (rx k)) (rcv_nxt (rx k)) why s]) f') as Hsend.
  { intros why. set (s' := resend _ _ _ _ _ _ why s).
    assert (seg.len s' = seg.len s) as El by (unfold s'; by destruct why). cbv zeta. rewrite El.
    pose proof Hc as (Hm & Hm2 & _). unfold IKCP_OVERHEAD in *.
    destruct (holds_room _ _ _ (24 + seg.len s) Hw) as (Hw1 & Hl); [unfold seg.len in *; lia|].
    destruct (holds_write _ _ _ s' Hc Hw1) as (w1 & w2 & E1 & E2 & Hw2 & _); [rewrite length_wire; lia|].
    exists w2. rewrite E1. cbn [mbind outcome_bind]. rewrite E2. by split. }
  destruct (due _ _ _ s) eqn:Ed; [exists f; by rewrite app_nil_r | | |].
  all: match goal with |- context [resend _ _ _ _ _ _ ?why _] => destruct (Hsend why) as (w & Ew & Hw') end.
  all: match type of Hw' with holds _ (_ ++ [?x]) _ => set (s' := x) in * end; cbv zeta in Ew |- *.
  all: destruct (write _ (ikcp_encode_seg [] s') _) as [w1|]; cbn [mbind outcome_bind] in Ew |- *; [|done].
  all: destruct (write _ (seg.data s') w1) as [w2|]; cbn [mbind outcome_bind] in Ew |- *; [|done].
  all: injection Ew as ->; eexists; split; [reflexivity | done].
Qed.

Lemma flush_data_spec k wnd buf f segs : framed (cfg k) -> holds (cfg k) segs (fw f) -> sized (cfg k) buf ->
  wnd = ikcp_wnd_unused (cfg k) (rx k) ->
  exists f', flush_data k (resent_of (cfg k)) (rtomin_of k) wnd buf f = Ok (map (flushed k) buf, f') /\
    holds (cfg k) (segs ++ data_segments k buf) (fw f').
Proof.
  intros Hc Hw Hs Hwnd. revert f segs Hw. induction Hs as [|s buf Hs Hbuf IH]; intros f segs Hw.
  { exists f. cbn. by rewrite app_nil_r. }
  cbn [flush_data]. destruct (flush_one_spec k wnd s f segs Hc Hw Hs Hwnd) as (f1 & -> & Hw1).
  cbn [mbind outcome_bind]. destruct (IH f1 _ Hw1) as (f2 & -> & Hw2). cbn [mbind outcome_bind].
  exists f2. split; [done|]. by rewrite <- app_assoc in Hw2.
Qed.

(** ** The window *)

(** A queued segment, as it enters [snd_buf]. *)
Definition admit_seg (k : kcp) (wnd sn : Z) (q : seg.t) : seg.t :=
  seg.Mk (conv (cfg k)) IKCP_CMD_PUSH (seg.frg q) wnd (current (clk k)) sn (rcv_nxt (rx k))
    (current (clk k)) (u32 (rx_rto (rtt k))) 0 0 (seg.data q).

Fixpoint admit_all (k : kcp) (wnd sn : Z) (qs : list seg.t) : list seg.t :=
  match qs with [] => [] | q :: qs' => admit_seg k wnd sn q :: admit_all k wnd (u32 (sn + 1)) qs' end.

(** How many segments are sent and not acknowledged. *)
Definition in_flight (s : sender) : Z := offset (snd_una s) (snd_nxt s).

Lemma in_flight_range s : 0 <= in_flight s.
Proof. apply offset_range. Qed.

Lemma send_window_range k : wf k -> 0 <= send_window k <= snd_wnd (cfg k).
Proof.
  intros ((_ & Hs & _) & _ & _ & _ & Hc & Hr). unfold send_window, imin_.
  destruct (snd_wnd (cfg k) <=? rmt_wnd (cc k)) eqn:E; split_ifs; lia.
Qed.

Lemma itimediff_window s w : sender_ok s -> 0 <= w < 2 ^ 31 ->
  itimediff (snd_nxt s) (u32 (snd_una s + w)) = in_flight s - w.
Proof.
  intros [Hu Hn Hg _ _ _ _] Hw. pose proof (offset_add (snd_una s) w ltac:(lia)) as E.
  rewrite (itimediff_offset (snd_una s)); rewrite ?E; [done | done | lia].
Qed.

(** Admitting one segment. *)
Lemma admit_one_ok k wnd q qs s : sender_ok s -> snd_queue s = q :: qs -> in_flight s + 1 < 2 ^ 31 ->
  let s' := Sender (snd_una s) (u32 (snd_nxt s + 1)) (snd_buf s ++ [admit_seg k wnd (snd_nxt s) q]) qs
              (u32 (nsnd_buf s + 1)) (u32 (nsnd_que s - 1)) in
  sender_ok s' /\ in_flight s' = in_flight s + 1.
Proof.
  intros Hs Eq Hf s'. pose proof (sender_pre_length s (sender_ok_pre s Hs)) as Hlen. destruct Hs as [Hu Hn Hg Hb Hh Hc Hq].
  pose proof (in_flight_range s) as H0.
  assert (in_flight s' = in_flight s + 1) as Ef.
  { unfold s'. unfold in_flight in *. simpl. rewrite (offset_inv (snd_una s) (snd_nxt s)) at 1 by lia.
    replace (u32 (u32 (snd_una s + offset (snd_una s) (snd_nxt s)) + 1))
      with (u32 (snd_una s + (offset (snd_una s) (snd_nxt s) + 1))).
    - apply offset_add. lia.
    - unfold wrap. rewrite Zplus_mod_idemp_l. f_equal. lia. }
  split; [|done]. unfold in_flight in Ef. constructor; simpl in *; [exact Hu | apply u32_range | unfold in_flight in *; lia | | | |].
  - unfold in_flight in H0. rewrite Ef. apply ascending_snoc. simpl. split_and!; [done | lia..].
  - by destruct (snd_buf s).
  - rewrite length_app, u32_small by lia. simpl. lia.
  - rewrite Hq, Eq. cbn [length]. unfold wrap. rewrite Zminus_mod_idemp_l. f_equal. lia.
Qed.

Lemma admit_loop_spec k wnd w queue s : sender_ok s -> queue = snd_queue s -> 0 <= w < 2 ^ 31 ->
  let s' := admit_loop k wnd w queue s in
  sender_ok s' /\ snd_una s' = snd_una s /\ in_flight s' <= Z.max (in_flight s) w /\
  (snd_queue s' = [] \/ w <= in_flight s') /\
  exists qs, queue = qs ++ snd_queue s' /\ snd_buf s' = snd_buf s ++ admit_all k wnd (snd_nxt s) qs /\
    in_flight s' = in_flight s + zlen qs /\ snd_nxt s' = u32 (snd_nxt s + zlen qs).
Proof.
  intros Hs Eq Hw. revert s Hs Eq. induction queue as [|q qs IH]; intros s Hs Eq; cbn [admit_loop];
    rewrite (itimediff_window s w Hs Hw); pose proof (so_nxt s Hs) as Hn.
  { assert (admit_loop k wnd w [] s = s) as _ by (cbn [admit_loop]; by destruct (_ <? 0)).
    assert ((if in_flight s - w <? 0 then s else s) = s) as -> by by destruct (_ <? 0).
    split_and!; [done | done | lia | by left |]. exists [].
    cbn [app admit_all length]. rewrite app_nil_r, !Z.add_0_r, u32_small by lia. by rewrite <- Eq. }
  destruct (in_flight s - w <? 0) eqn:E; to_prop.
  2: { split_and!; [done | done | lia | right; lia |]. exists []. cbn [app admit_all length].
       rewrite app_nil_r, !Z.add_0_r, u32_small by lia. by rewrite <- Eq. }
  fold (admit_seg k wnd (snd_nxt s) q).
  destruct (admit_one_ok k wnd q qs s Hs (eq_sym Eq) ltac:(lia)) as (Hs1 & Ef1).
  set (s1 := Sender _ _ _ _ _ _) in *.
  destruct (IH s1 Hs1 eq_refl) as (Hs' & Hu & Hf & Hend & (qs' & E1 & E2 & E3 & E4)).
  split_and!; [done | done | lia | done|]. exists (q :: qs'). cbn [app admit_all length].
  rewrite E2, E3, E4, Ef1, <- E1. unfold s1. cbn [snd_buf snd_nxt]. rewrite <- app_assoc.
  split_and!; [done | done | lia |].
  unfold wrap. rewrite Zplus_mod_idemp_l. f_equal. lia.
Qed.

Lemma admitted_spec k : wf k ->
  sender_ok (admitted k) /\ snd_una (admitted k) = snd_una (tx k) /\
  in_flight (admitted k) <= Z.max (in_flight (tx k)) (send_window k) /\
  (snd_queue (admitted k) = [] \/ send_window k <= in_flight (admitted k)) /\
  exists qs, snd_queue (tx k) = qs ++ snd_queue (admitted k) /\
    snd_buf (admitted k) = snd_buf (tx k) ++ admit_all k (ikcp_wnd_unused (cfg k) (rx k)) (snd_nxt (tx k)) qs /\
    in_flight (admitted k) = in_flight (tx k) + zlen qs /\
    snd_nxt (admitted k) = u32 (snd_nxt (tx k) + zlen qs).
Proof.
  intros Hk. pose proof (send_window_range k Hk). destruct Hk as ((_ & ? & _) & Hs & _).
  apply admit_loop_spec; [done | done | lia].
Qed.

Lemma admit_all_payload k wnd sn qs : map payload (admit_all k wnd sn qs) = map payload qs.
Proof. revert sn. induction qs as [|q qs IH]; intros sn; [done|]. cbn [admit_all map]. by rewrite IH. Qed.

Lemma sized_payload c l l' : map payload l = map payload l' -> sized c l -> sized c l'.
Proof.
  unfold sized. revert l'. induction l as [|s l IH]; intros [|s' l']; try done. cbn [map].
  intros [= E1 E2 E3] H. apply list.Forall_cons in H as [H1 H2]. constructor; [|by apply IH].
  unfold seg.len in *. congruence.
Qed.

(** ** [ikcp_flush] *)

Lemma flushed_sn k s : seg.sn (flushed k s) = seg.sn s.
Proof. unfold flushed. by destruct (due _ _ _ s). Qed.

Lemma flushed_payload k s : payload (flushed k s) = payload s.
Proof. unfold flushed. by destruct (due _ _ _ s). Qed.

Lemma flush_window_ok mss inflight resent w change lost c : 0 < mss -> cc_ok c ->
  cc_ok (flush_window mss inflight resent w change lost c).
Proof.
  intros Hm [H1 H2]. unfold flush_window, cc_ok.
  assert (forall d, 0 <= cwnd d < 2 ^ 32 -> rmt_wnd d = rmt_wnd c ->
    let e := if cwnd d <? 1 then Congestion 1 (ssthresh d) mss (rmt_wnd d) else d in
    0 <= cwnd e < 2 ^ 32 /\ 0 <= rmt_wnd e < 2 ^ 32) as Hend.
  { intros d Hd Er. destruct (cwnd d <? 1); simpl; rewrite ?Er; split; done || lia. }
  apply Hend; destruct lost, change; cbn [cwnd rmt_wnd]; try done; try lia; apply u32_range.
Qed.

(** The end of the last datagram. *)
Lemma holds_end c segs w : holds c segs w -> exists gs, concat gs = segs /\ Forall (fits c) gs /\
  (if 0 <? zlen (ptr w) then ikcp_output (ptr w) w else out w) = map datagram gs.
Proof.
  intros (gs & cur & -> & Eo & Ep & Hf & Hl). destruct (0 <? zlen (ptr w)) eqn:E; to_prop.
  - exists (gs ++ [cur]). unfold ikcp_output. replace (zlen (ptr w) =? 0) with false by lia.
    rewrite concat_snoc, map_app, Eo, Ep. split_and!; [done | | done].
    apply Forall_app_2; [done|]. constructor; [|constructor]. unfold fits. rewrite <- Ep. lia.
  - exists gs. split_and!; [|done | done]. destruct cur as [|s cur]; [by rewrite app_nil_r|].
    exfalso. rewrite Ep in E. unfold datagram in E. cbn [map concat] in E. rewrite length_app in E.
    pose proof (length_wire s). unfold seg.len in *. lia.
Qed.

Definition acks_sent (r : receiver) : receiver :=
  Receiver (rcv_nxt r) (rcv_buf r) (rcv_queue r) (nrcv_buf r) (nrcv_que r) (acklist r) 0 (ackblock r).

Lemma acks_sent_ok r : receiver_ok r -> receiver_ok (acks_sent r).
Proof. intros []. constructor; simpl; try done. lia. Qed.

(** All that is queued or sent fits a datagram. *)
Definition all_sized (k : kcp) : Prop := sized (cfg k) (snd_buf (tx k)) /\ sized (cfg k) (snd_queue (tx k)).

(** The sender after a flush. *)
Definition flushed_tx (k : kcp) : sender :=
  with_buf (map (flushed k) (snd_buf (admitted k))) (nsnd_buf (admitted k)) (admitted k).

Lemma admitted_sized k : wf k -> all_sized k ->
  sized (cfg k) (snd_buf (admitted k)) /\ sized (cfg k) (snd_queue (admitted k)).
Proof.
  intros Hk [Hb Hq]. destruct (admitted_spec k Hk) as (_ & _ & _ & _ & (qs & E1 & E2 & _)).
  rewrite E1 in Hq. unfold sized in Hq. apply Forall_app in Hq as [Hq1 Hq2]. rewrite E2. split; [|done].
  apply Forall_app_2; [done|]. by eapply sized_payload; [symmetry; apply admit_all_payload|].
Qed.

Lemma flushed_tx_ok k : wf k -> sender_ok (flushed_tx k).
Proof.
  intros Hk. destruct (admitted_spec k Hk) as (Hs & _). apply same_numbers_ok; [|done].
  rewrite map_map. apply map_ext. intros s. apply flushed_sn.
Qed.

(** Everything [ikcp_flush] does. *)
Lemma flush_cases k : wf k -> framed (cfg k) -> all_sized k -> updated (clk k) <> 0 ->
  exists k' gs, ikcp_flush k = Ok (k', map datagram gs) /\ concat gs = flush_segments k /\ Forall (fits (cfg k)) gs /\
    wf k' /\ all_sized k' /\ cfg k' = cfg k /\ rtt k' = rtt k /\ tx k' = flushed_tx k /\
    rx k' = acks_sent (rx k) /\ current (clk k') = current (clk k) /\ updated (clk k') = updated (clk k) /\
    rmt_wnd (cc k') = rmt_wnd (cc k) /\ clk k' = with_probe 0 (update_probe (rmt_wnd (cc k)) (clk k)).
Proof.
  intros Hk Hfr Hsz Hu. pose proof Hk as (Hc & Hs & Hr & Ht & Hw). pose proof (admitted_sized k Hk Hsz) as (Hsb & Hsq).
  unfold ikcp_flush. rewrite (proj2 (Z.eqb_neq _ _) Hu). cbn [negb].
  destruct (flush_control_spec k Hfr Hr) as (w & -> & Hw1). cbn [mbind outcome_bind]. fold (admitted k).
  destruct (flush_data_spec k _ _ (Flushing w (stats k) 0 false) _ Hfr Hw1 Hsb eq_refl) as (f & -> & Hf).
  cbn [mbind outcome_bind]. destruct (holds_end _ _ _ Hf) as (gs & Eg & Hgs & ->).
  eexists _, gs. split; [reflexivity|]. rewrite <- app_assoc in Eg. split; [done|]. split; [done|].
  split. { apply wf_intro; simpl; [done | by apply flushed_tx_ok | by apply acks_sent_ok | done |].
    apply flush_window_ok; [destruct Hc; lia | done]. }
  split. { split; simpl; [|done]. eapply sized_payload; [|exact Hsb]. rewrite map_map. apply map_ext.
    intros s. symmetry. apply flushed_payload. }
  assert (forall t, updated (update_probe (rmt_wnd (cc k)) t) = updated t /\
    current (update_probe (rmt_wnd (cc k)) t) = current t) as Hp.
  { intros t. unfold update_probe. destruct (_ =? 0); [|done]. destruct (_ =? 0); [done|]. by destruct (_ <=? _). }
  cbn [cfg rtt tx rx clk cc]. unfold with_probe at 1 2. cbn [current updated].
  destruct (Hp (clk k)) as [-> ->]. split_and!; try done.
  unfold flush_window. by repeat match goal with |- context [if ?b then _ else _] => destruct b end.
Qed.

(** ** [ikcp_update] and [ikcp_check] *)

Definition with_times (now flush_at : Z) (k : kcp) : kcp :=
  let t := clk k in
  with_clk (Timer now flush_at (if updated t =? 0 then 1 else updated t) (ts_probe t) (probe_wait t) (probe t)) k.

(** When the next flush is due, as seen at [now]: a clock that jumped by more than
    ten seconds makes it due at once. *)
Definition flush_time (k : kcp) (now : Z) : Z :=
  let at' := if updated (clk k) =? 0 then now else ts_flush (clk k) in
  if (10000 <=? itimediff now at') || (itimediff now at' <? -10000) then now else at'.

Definition next_flush (k : kcp) (now : Z) : Z :=
  let at' := u32 (flush_time k now + interval (cfg k)) in
  if 0 <=? itimediff now at' then u32 (now + interval (cfg k)) else at'.

Lemma itimediff_self n : itimediff n n = 0.
Proof. unfold itimediff. by rewrite Z.sub_diag. Qed.

Lemma ikcp_update_eq k now : ikcp_update k now =
  if 0 <=? itimediff now (flush_time k now) then ikcp_flush (with_times now (next_flush k now) k)
  else Ok (with_times now (flush_time k now) k, []).
Proof.
  unfold ikcp_update, next_flush, flush_time, with_times. cbv zeta.
  destruct (_ || _); cbv beta iota; [by rewrite itimediff_self | done].
Qed.

Lemma with_times_wf now at' k : wf k -> wf (with_times now at' k).
Proof. by intros (? & ? & ? & ? & ?). Qed.

Lemma with_times_updated now at' k : updated (clk (with_times now at' k)) <> 0.
Proof. simpl. destruct (updated (clk k) =? 0) eqn:E; to_prop; done. Qed.

(** Everything [ikcp_update] does: a flush, or only the time. *)
Lemma update_cases k now : wf k -> framed (cfg k) -> all_sized k ->
  (0 <= itimediff now (flush_time k now) /\ ikcp_update k now = ikcp_flush (with_times now (next_flush k now) k)) \/
  (itimediff now (flush_time k now) < 0 /\ ikcp_update k now = Ok (with_times now (flush_time k now) k, [])).
Proof. intros _ _ _. rewrite ikcp_update_eq. destruct (_ <=? _) eqn:E; to_prop; [by left | by right]. Qed.

Lemma check_loop_bound now buf m r : check_loop now buf m = Some r -> 0 < m -> 0 < r <= m.
Proof.
  revert m. induction buf as [|s buf IH]; intros m; cbn [check_loop]; [intros [= ->]; lia|].
  destruct (_ <=? 0) eqn:E; to_prop; [done|]. intros H Hm.
  apply IH in H; [revert H|]; split_ifs; lia.
Qed.

Lemma check_loop_le now buf m r : check_loop now buf m = Some r -> r <= m.
Proof.
  revert m. induction buf as [|s buf IH]; intros m; cbn [check_loop]; [intros [= ->]; lia|].
  destruct (_ <=? 0) eqn:E; to_prop; [done|]. intros H. apply IH in H. revert H. split_ifs; lia.
Qed.

Lemma check_loop_least now buf m r s :
  check_loop now buf m = Some r -> In s buf -> r <= itimediff (seg.resendts s) now.
Proof.
  revert m. induction buf as [|p buf IH]; intros m; [done|]. cbn [check_loop].
  destruct (_ <=? 0) eqn:E; to_prop; [done|]. intros H [->|Hin]; [|by eapply IH].
  assert (r <= (if itimediff (seg.resendts s) now <? m then itimediff (seg.resendts s) now else m)).
  { eapply check_loop_le; exact H. }
  destruct (itimediff (seg.resendts s) now <? m) eqn:E1; to_prop; lia.
Qed.

(** ** The claims *)

(** C17. A flush sends exactly what is to be sent: every acknowledgement owed, the
    window probe and the window report that are due, then every segment of the
    buffer, newly admitted ones included, that was never sent, has timed out or was
    skipped often enough, in that order, framed in datagrams of at most [mtu] bytes;
    the segments sent are updated in place and nothing else of the queues changes. *)
Theorem flush_refines_spec k : wf k -> framed (cfg k) -> all_sized k -> updated (clk k) <> 0 ->
  exists k' gs, ikcp_flush k = Ok (k', map datagram gs) /\
    concat gs = flush_segments k /\ Forall (fits (cfg k)) gs /\
    snd_buf (tx k') = map (flushed k) (snd_buf (admitted k)) /\
    snd_queue (tx k') = snd_queue (admitted k) /\
    map payload (snd_buf (tx k')) ++ map payload (snd_queue (tx k'))
      = map payload (snd_buf (tx k)) ++ map payload (snd_queue (tx k)) /\
    ackcount (rx k') = 0 /\ rcv_queue (rx k') = rcv_queue (rx k) /\ rcv_buf (rx k') = rcv_buf (rx k).
Proof.
  intros Hk Hfr Hsz Hu. destruct (flush_cases k Hk Hfr Hsz Hu) as (k' & gs & E & Eg & Hg & _ & _ & _ & _ & Et & Er & _).
  exists k', gs. rewrite Et, Er. split_and!; try done. simpl. rewrite map_map.
  rewrite (map_ext _ payload) by apply flushed_payload.
  destruct (admitted_spec k Hk) as (_ & _ & _ & _ & (qs & E1 & E2 & _)).
  by rewrite E2, E1, !map_app, admit_all_payload, app_assoc.
Qed.

(** A sender with one message queued, its clock running. *)
Definition ready (k : kcp) : kcp := with_times 0 100 k.
Definition sample_sender : kcp :=
  match ikcp_send (ready (ikcp_create 7)) [1; 2; 3] 3 with Ok (_, k) => with_cc (Congestion 1 2 0 128) k | Err _ => ikcp_create 7 end.

Lemma sample_sender_ok : wf sample_sender /\ framed (cfg sample_sender) /\ all_sized sample_sender /\
  updated (clk sample_sender) <> 0.
Proof.
  assert (sample_sender = with_cc (Congestion 1 2 0 128)
    (with_tx (Sender 0 0 [] [seg_of_data 0 [1; 2; 3]] 0 1) (ready (ikcp_create 7)))) as -> by reflexivity.
  pose proof (create_wf 7) as (Hc & Hs & Hr & Ht & Hw).
  split; [|split; [|split]]; [| repeat split; done | split; [constructor|] | done].
  - apply wf_intro; try done; split; try done.
  - constructor; [|constructor]. vm_compute. discriminate.
Qed.

Lemma flush_refines_spec_witness : exists k' gs, ikcp_flush sample_sender = Ok (k', map datagram gs) /\
    concat gs = flush_segments sample_sender /\ Forall (fits (cfg sample_sender)) gs /\
    snd_buf (tx k') = map (flushed sample_sender) (snd_buf (admitted sample_sender)) /\
    snd_queue (tx k') = snd_queue (admitted sample_sender) /\
    map payload (snd_buf (tx k')) ++ map payload (snd_queue (tx k'))
      = map payload (snd_buf (tx sample_sender)) ++ map payload (snd_queue (tx sample_sender)) /\
    ackcount (rx k') = 0 /\ rcv_queue (rx k') = rcv_queue (rx sample_sender) /\
    rcv_buf (rx k') = rcv_buf (rx sample_sender).
Proof.
  destruct sample_sender_ok as (H1 & H2 & H3 & H4). exact (flush_refines_spec sample_sender H1 H2 H3 H4).
Defined.

(** C25. No segment is forgotten: whatever is in the buffer when a flush runs and was
    not sent yet, or whose time of retransmission has come, is in one of the datagrams
    sent, with its number and its data, and is due again later. *)
Theorem flush_sends_due k k' out s : wf k -> framed (cfg k) -> all_sized k -> updated (clk k) <> 0 ->
  ikcp_flush k = Ok (k', out) -> In s (snd_buf (admitted k)) ->
  seg.xmit s = 0 \/ 0 <= itimediff (current (clk k)) (seg.resendts s) ->
  exists g s', In (datagram g) out /\ In s' g /\ In s' (snd_buf (tx k')) /\
    seg.sn s' = seg.sn s /\ payload s' = payload s /\ seg.conv s' = seg.conv s /\ seg.cmd s' = seg.cmd s /\
    seg.ts s' = current (clk k) /\ seg.una s' = rcv_nxt (rx k) /\ seg.xmit s' = u32 (seg.xmit s + 1).
Proof.
  intros Hk Hfr Hsz Hu E Hin Hdue.
  destruct (flush_cases k Hk Hfr Hsz Hu) as (k1 & gs & E1 & Eg & _ & _ & _ & _ & _ & Etx & _).
  rewrite E in E1. injection E1 as <- ->.
  assert (due (cfg k) (current (clk k)) (resent_of (cfg k)) s = First \/
          due (cfg k) (current (clk k)) (resent_of (cfg k)) s = Timeout) as Hd.
  { unfold due. destruct (seg.xmit s =? 0) eqn:E0; to_prop; [by left|].
    destruct Hdue as [|Ht]; [done|]. right. by rewrite (proj2 (Z.leb_le _ _) Ht). }
  assert (In (flushed k s) (flush_segments k)) as Hin'.
  { unfold flush_segments. apply in_app_iff. right. apply in_app_iff. right. unfold data_segments.
    apply in_flat_map. exists s. split; [done|]. unfold is_due. destruct Hd as [-> | ->]; by left. }
  rewrite <- Eg in Hin'. apply in_concat in Hin' as (g & Hg & Hsg).
  exists g, (flushed k s). split; [by apply in_map|]. split; [done|]. split.
  { rewrite Etx. by apply in_map. }
  rewrite flushed_sn, flushed_payload. unfold flushed. by destruct Hd as [-> | ->].
Qed.

Lemma flush_sends_due_witness : exists k' out s,
  exists g s', In (datagram g) out /\ In s' g /\ In s' (snd_buf (tx k')) /\
    seg.sn s' = seg.sn s /\ payload s' = payload s /\ seg.conv s' = seg.conv s /\ seg.cmd s' = seg.cmd s /\
    seg.ts s' = current (clk sample_sender) /\ seg.una s' = rcv_nxt (rx sample_sender) /\
    seg.xmit s' = u32 (seg.xmit s + 1).
Proof.
  destruct (ikcp_flush sample_sender) as [[k' out]|f] eqn:E; [|vm_compute in E; discriminate E].
  destruct (snd_buf (admitted sample_sender)) as [|s l] eqn:Es; [vm_compute in Es; discriminate Es|].
  exists k', out, s. destruct sample_sender_ok as (H1 & H2 & H3 & H4).
  apply (flush_sends_due sample_sender k' out s H1 H2 H3 H4 E); [rewrite Es; by left|].
  left. vm_compute in Es. by injection Es as <- _.
Defined.

(** C24. A flush never puts more segments in flight than the window allows: what is
    unacknowledged afterwards is at most what was already, or the least of the
    sender's, the receiver's and (unless disabled) the congestion window; and unless
    the queue is empty the window is used up. *)
Theorem in_flight_bounded k k' out : wf k -> framed (cfg k) -> all_sized k -> updated (clk k) <> 0 ->
  ikcp_flush k = Ok (k', out) ->
  zlen (snd_buf (tx k')) <= in_flight (tx k') <= Z.max (in_flight (tx k)) (send_window k) /\
  (snd_queue (tx k') = [] \/ send_window k <= in_flight (tx k')).
Proof.
  intros Hk Hfr Hsz Hu E. destruct (flush_cases k Hk Hfr Hsz Hu) as (k1 & gs & E1 & _ & _ & _ & _ & _ & _ & Etx & _).
  rewrite E in E1. injection E1 as <- _. destruct (admitted_spec k Hk) as (Ha & Eu & Hmax & Hend & _).
  rewrite Etx. change (in_flight (flushed_tx k)) with (in_flight (admitted k)). simpl. rewrite length_map.
  pose proof (ascending_length _ _ _ _ (proj1 (offset_range _ _)) (so_buf _ Ha)) as Hl.
  unfold in_flight in *. split; [lia | done].
Qed.

Lemma in_flight_bounded_witness : exists k' out, ikcp_flush sample_sender = Ok (k', out) /\
  zlen (snd_buf (tx k')) <= in_flight (tx k') <= Z.max (in_flight (tx sample_sender)) (send_window sample_sender) /\
  (snd_queue (tx k') = [] \/ send_window sample_sender <= in_flight (tx k')).
Proof.
  destruct (ikcp_flush sample_sender) as [[k' out]|f] eqn:E; [|vm_compute in E; discriminate E].
  exists k', out. split; [done|]. destruct sample_sender_ok as (H1 & H2 & H3 & H4).
  apply (in_flight_bounded sample_sender k' out H1 H2 H3 H4 E).
Defined.

(** [ikcp_check] is never late: until the time it returns, which is at most one
    interval ahead, [ikcp_update] only notes the time and sends nothing. *)
Theorem check_never_late k now d : wf k -> updated (clk k) <> 0 -> 0 <= now < 2 ^ 32 ->
  0 <= d < offset now (ikcp_check k now) ->
  offset now (ikcp_check k now) <= interval (cfg k) /\
  ikcp_update k (u32 (now + d)) = Ok (with_times (u32 (now + d)) (ts_flush (clk k)) k, []).
Proof.
  intros ((_ & _ & _ & Hi & _) & _) Hu Hn. unfold ikcp_check. rewrite (proj2 (Z.eqb_neq _ _) Hu).
  set (F := ts_flush (clk k)). destruct ((10000 <=? itimediff now F) || (itimediff now F <? -10000)) eqn:Ej.
  { rewrite itimediff_self. cbn [Z.leb]. rewrite offset_self. lia. }
  to_prop. destruct (0 <=? itimediff now F) eqn:E0; to_prop; [rewrite offset_self; lia|].
  assert (itimediff F now = - itimediff now F) as En.
  { revert H0 E0. unfold itimediff, swrap. Z.to_euclidean_division_equations. lia. }
  destruct (check_loop _ _ _) as [r|] eqn:Er; [|rewrite offset_self; lia].
  apply check_loop_bound in Er; [|lia].
  set (m := if r <? itimediff F now then r else itimediff F now).
  assert (0 < m <= itimediff F now) as Hm by (unfold m; split_ifs; lia). clearbody m.
  rewrite (u32_small m) by lia. set (m' := if interval (cfg k) <=? m then interval (cfg k) else m).
  assert (0 < m' <= m /\ m' <= interval (cfg k)) as Hm' by (unfold m'; split_ifs; lia). clearbody m'.
  rewrite offset_add by lia. intros Hd. split; [lia|].
  assert (itimediff (u32 (now + d)) F = d + itimediff now F) as Ed.
  { revert H0 E0 En Hm Hm' Hd. unfold itimediff, wrap, swrap. clear. Z.to_euclidean_division_equations. lia. }
  assert (flush_time k (u32 (now + d)) = F) as Ef.
  { unfold flush_time. rewrite (proj2 (Z.eqb_neq _ _) Hu). fold F. rewrite Ed.
    assert ((10000 <=? d + itimediff now F) || (d + itimediff now F <? -10000) = false) as -> by lia. done. }
  rewrite ikcp_update_eq, Ef, Ed. by replace (0 <=? d + itimediff now F) with false by lia.
Qed.

Lemma check_never_late_witness :
  let k := ready (ikcp_create 7) in
  0 <= 42 < offset 50 (ikcp_check k 50) /\ ikcp_update k (u32 (50 + 42)) = Ok (with_times (u32 (50 + 42)) 100 k, []).
Proof.
  split; [vm_compute; split; congruence|].
  apply (check_never_late (ready (ikcp_create 7)) 50 42); [apply with_times_wf, create_wf | done | lia | vm_compute; split; congruence].
Defined.
