(* ===== verification/KcpApi.v ===== *)
(** * KCP: the interface, and what every call keeps

    A call of the library with its arguments is a value of [call], [run] is what it
    does.  [good] holds of a new control block and is kept by every call whose
    arguments are valid; such a call neither fails an assertion nor leaves its
    memory. *)

From Stdlib Require Import ZArith Lia Bool.
From stdpp Require Import base tactics option list numbers.
From S2P Require Import Prelude KcpWire Kcp KcpInv KcpInput KcpUser KcpFlush.

#[local] Open Scope Z_scope.

Inductive call :=
| Send (buffer : list Z) (len : Z)
| Recv (buffer : list Z) (len : Z)
| Input (data : list Z)
| Update (now : Z)
| Flush
| SetMtu (mtu : Z)
| Interval (interval : Z)
| NoDelay (nodelay interval resend nc : Z)
| WndSize (sndwnd rcvwnd : Z)
| SetStream (stream : Z).

(** The result of a call, the bytes it received, the datagrams it sent. *)
Record reply := Reply { code : Z; got : list Z; sent : list (list Z) }.

Definition run (c : call) (k : kcp) : outcome (reply * kcp) :=
  let set '((n, k) : Z * kcp) := Ok (Reply n [] [], k) in
  match c with
  | Send buffer len => let* (n, k) := ikcp_send k buffer len in Ok (Reply n [] [], k)
  | Recv buffer len =>
      let* (n, b, k) := ikcp_recv k (Some buffer) len in
      Ok (Reply n (take (Z.to_nat n) (default [] b)) [], k)
  | Input data => let* (n, k) := ikcp_input k data in Ok (Reply n [] [], k)
  | Update now => let* (k, out) := ikcp_update k now in Ok (Reply 0 [] out, k)
  | Flush => let* (k, out) := ikcp_flush k in Ok (Reply 0 [] out, k)
  | SetMtu mtu => set (ikcp_setmtu k mtu)
  | Interval interval => set (ikcp_interval k interval)
  | NoDelay nodelay interval resend nc => set (ikcp_nodelay k nodelay interval resend nc)
  | WndSize sndwnd rcvwnd => set (ikcp_wndsize k sndwnd rcvwnd)
  | SetStream stream => set (0, set_stream stream k)
  end.

Definition good (k : kcp) : Prop := wf k /\ framed (cfg k) /\ all_sized k.

(** The arguments are in their types and describe memory that is there; a new MTU
    leaves room for what is queued; there is less waiting than an int counts. *)
Definition valid (k : kcp) (c : call) : Prop :=
  match c with
  | Send buffer len => len <= zlen buffer /\ len < 2 ^ 31
  | Recv buffer len => - 2 ^ 31 < len < 2 ^ 31 /\ Z.abs len <= zlen buffer /\ readable (rx k)
  | Input data => Forall is_byte data /\ ack_room k data
  | SetMtu m => m < 2 ^ 30 /\ Forall (fun s => seg.len s <= m - IKCP_OVERHEAD) (snd_buf (tx k) ++ snd_queue (tx k))
  | WndSize s r => s < 2 ^ 31 /\ r < 2 ^ 31
  | _ => True
  end.

(** The only call that can go wrong: an acknowledgement from days ago. *)
Definition stale (k : kcp) (c : call) : Prop :=
  match c with
  | Input data => ~ (calm (rtt k) /\ Forall (fun s => fresh (current (clk k)) (fst s)) (handled k data))
  | _ => False
  end.

Lemma create_good cv : good (ikcp_create cv).
Proof. split; [apply create_wf|]. split; [repeat split; done|]. split; constructor. Qed.

(** A change of the settings. *)
Lemma with_cfg_good k c : good k -> config_ok c -> framed c -> mss (cfg k) <= mss c -> good (with_cfg c k).
Proof.
  intros ((_ & Hs & Hr & Ht & Hw) & _ & Hb & Hq) Hc Hf Hm.
  split; [by apply wf_intro|]. split; [done|].
  split; simpl; (eapply list.Forall_impl; [eassumption|]); simpl; intros; lia.
Qed.

Lemma clamp_interval_range i : 10 <= clamp_interval i <= 5000.
Proof. unfold clamp_interval. split_ifs; lia. Qed.

Lemma setmtu_good k m : good k -> valid k (SetMtu m) -> good (snd (ikcp_setmtu k m)).
Proof.
  intros ((Hc & Hs & Hr & Ht & Hw) & Hf & Hb & Hq) (Hm & Hl). unfold ikcp_setmtu, IKCP_OVERHEAD.
  destruct ((m <? 50) || (m <? 24)) eqn:E; [by split|]. to_prop. apply Forall_app in Hl as [Hl1 Hl2].
  destruct Hc as (Hc1 & Hc2 & Hc3 & Hc4 & Hc5).
  assert (u32 (m - 24) = m - 24) as Em by (apply u32_small; lia).
  split. { apply wf_intro; try done. unfold config_ok. simpl. rewrite Em. split_and!; lia || done. }
  split. { unfold framed, IKCP_OVERHEAD. simpl. rewrite Em, (u32_small (m + 24)), u32_small by lia. split_and!; lia. }
  split; unfold sized; simpl; rewrite Em; done.
Qed.

Lemma recv_good k b len : good k -> valid k (Recv b len) ->
  exists n b' k', ikcp_recv k (Some b) len = Ok (n, Some b', k') /\ good k'.
Proof.
  intros (Hk & Hf & Hz) (Hl & Hb & Hr). destruct (recv_cases k b len Hk Hr Hl Hb) as (n & b' & k' & E & H).
  exists n, b', k'. split; [done|]. destruct (_ && _); [|by destruct H as (_ & _ & ->)].
  destruct H as (_ & _ & Ec & Et & Er & Ecc & _ & _ & Erx). destruct Hk as (Hc & Hs & Hrx & Ht & Hw).
  split; [|split].
  - apply wf_intro; rewrite ?Ec, ?Et, ?Er, ?Ecc, ?Erx; try done. destruct Hc as (_ & _ & Hwnd & _).
    apply (move_ready_ok (rcv_wnd (cfg k)) (popped (len <? 0) (rx k))); [by apply popped_ok | lia].
  - by rewrite Ec.
  - unfold all_sized. by rewrite Ec, Et.
Qed.

Lemma send_good k buffer len : good k -> valid k (Send buffer len) ->
  exists n k', ikcp_send k buffer len = Ok (n, k') /\ good k'.
Proof.
  intros (Hk & Hf & Hb & Hq) (Hl & Hl31). destruct (send_cases k buffer len Hk Hl Hl31) as (n & s' & E & Hs & _ & _ & Hsz & _).
  exists n, (with_tx s' k). split; [done|]. destruct Hk as (Hc & Hs0 & Hr & Ht & Hw).
  split; [apply wf_intro; try done; by eapply queued_ok|]. split; [done|].
  split; simpl; [by rewrite (q_buf _ _ Hs) | by apply Hsz].
Qed.

Lemma input_good k data : good k -> valid k (Input data) ->
  match ikcp_input k data with Ok (_, k') => good k' | Err f => f = UndefinedBehaviour /\ stale k (Input data) end.
Proof.
  intros (Hk & Hf & Hb & Hq) (Hby & Hroom). pose proof (input_cases k data Hk Hby Hroom) as H.
  destruct (ikcp_input k data) as [[c k']|f] eqn:E; [|done]. destruct H as (_ & Hk' & Ec & _).
  destruct (input_kept (fun s => seg.len s <= mss (cfg k)) k data c k' Hby ltac:(done) E) as (_ & Eq & Hb').
  split; [done|]. split; [by rewrite Ec|]. split; rewrite Ec; [by apply Hb' | by rewrite Eq].
Qed.

Lemma flush_good k : good k -> exists k' gs, ikcp_flush k = Ok (k', map datagram gs) /\ good k' /\ Forall (fits (cfg k)) gs.
Proof.
  intros (Hk & Hf & Hz). destruct (decide (updated (clk k) = 0)) as [Eu|Hu].
  { exists k, []. unfold ikcp_flush. by rewrite Eu. }
  destruct (flush_cases k Hk Hf Hz Hu) as (k' & gs & E & _ & Hg & Hk' & Hz' & Ec & _).
  exists k', gs. split; [done|]. split; [|done]. split; [done|]. split; [by rewrite Ec | done].
Qed.

Lemma with_times_good now at' k : good k -> good (with_times now at' k).
Proof. intros (Hk & Hf & Hz). split; [by apply with_times_wf | done]. Qed.

Lemma update_good k now : good k ->
  exists k' gs, ikcp_update k now = Ok (k', map datagram gs) /\ good k' /\ Forall (fits (cfg k)) gs.
Proof.
  intros Hk. destruct (update_cases k now) as [(_ & ->) | (_ & ->)]; try apply Hk.
  - apply (flush_good (with_times now (next_flush k now) k)). by apply with_times_good.
  - eexists _, []. split; [reflexivity|]. split; [by apply with_times_good | done].
Qed.

Lemma settings_good k c : good k -> valid k c ->
  match c with
  | Interval i => good (snd (ikcp_interval k i))
  | NoDelay a b r n => good (snd (ikcp_nodelay k a b r n))
  | WndSize s r => good (snd (ikcp_wndsize k s r))
  | SetStream b => good (set_stream b k)
  | _ => True
  end.
Proof.
  intros Hk. pose proof Hk as ((Hc & _) & Hf & _). pose proof Hc as (Hc1 & Hc2 & Hc3 & Hc4 & Hc5).
  pose proof clamp_interval_range as Hi.
  destruct c as [| | | | | | i|a b r n|s r|b]; try done; intros Hv.
  - pose proof (Hi i). apply with_cfg_good; [done | unfold config_ok; simpl; lia | done | simpl; lia].
  - pose proof (Hi b). unfold ikcp_nodelay, rto_floor, IKCP_RTO_NDL, IKCP_RTO_MIN in *. cbn [snd].
    destruct (0 <=? a), (0 <=? b); try destruct (negb (a =? 0));
      (apply with_cfg_good; [done | unfold config_ok, rto_floor, IKCP_RTO_NDL, IKCP_RTO_MIN; simpl; lia | done | simpl; lia]).
  - destruct Hv. apply with_cfg_good; [done | | done | simpl; lia].
    unfold config_ok, imax_, IKCP_WND_RCV. simpl. split_ifs; lia.
Qed.

Lemma run_good k c : good k -> valid k c ->
  match run c k with
  | Ok (_, k') => good k'
  | Err f => f = UndefinedBehaviour /\ stale k c
  end.
Proof.
  intros Hk Hv. pose proof (settings_good k c Hk Hv) as Hset. destruct c as [b l|b l|d|t| |m|i|a b r n|s r|b]; cbn [run].
  - destruct (send_good k b l Hk Hv) as (n & k' & -> & H). exact H.
  - destruct (recv_good k b l Hk Hv) as (n & b' & k' & -> & H). exact H.
  - pose proof (input_good k d Hk Hv) as H. destruct (ikcp_input k d) as [[n k']|f]; exact H.
  - destruct (update_good k t Hk) as (k' & gs & -> & H & _). exact H.
  - destruct (flush_good k Hk) as (k' & gs & -> & H & _). exact H.
  - pose proof (setmtu_good k m Hk Hv) as H. destruct (ikcp_setmtu k m). exact H.
  - exact Hset.
  - unfold ikcp_nodelay in *. destruct (if 0 <=? a then _ else _). exact Hset.
  - exact Hset.
  - exact Hset.
Qed.

(** ** The claims *)

(** C14. Every call of the library with valid arguments, on any state that such calls
    can lead to, returns and leaves the state well formed: the counters are the
    lengths of the queues, the numbers in both buffers ascend within half the number
    space, the acknowledgements fit their block, the timeout is in bounds.  The one
    exception is [ikcp_input] of an acknowledgement whose time is days off, which
    overflows an int. *)
Theorem kcp_calls_safe k c : good k -> valid k c ->
  match run c k with
  | Ok (_, k') => good k'
  | Err f => f = UndefinedBehaviour /\ stale k c
  end.
Proof. exact (run_good k c). Qed.

Lemma kcp_calls_safe_witness :
  good (ikcp_create 7) /\ valid (ikcp_create 7) (Send [1; 2; 3] 3) /\
  match run (Send [1; 2; 3] 3) (ikcp_create 7) with
  | Ok (_, k') => good k'
  | Err f => f = UndefinedBehaviour /\ stale (ikcp_create 7) (Send [1; 2; 3] 3)
  end.
Proof.
  assert (good (ikcp_create 7)) as H1 by apply create_good.
  assert (valid (ikcp_create 7) (Send [1; 2; 3] 3)) as H2 by (split; simpl; lia).
  split; [done|]. split; [done|]. exact (kcp_calls_safe _ _ H1 H2).
Defined.

(** What the validity of [SetMtu] is for: with a smaller MTU set while a larger segment
    is queued, the next flush writes past the new buffer. *)
Lemma shrunk_mtu_overruns :
  match ikcp_send (with_cc (Congestion 1 2 0 128) (with_times 0 100 (ikcp_create 7))) (replicate 1000 1) 1000 with
  | Ok (n, k) => n = 1000 /\ ikcp_flush (snd (ikcp_setmtu k 50)) = Err UndefinedBehaviour
  | Err _ => False
  end.
Proof. vm_compute. split; reflexivity. Qed.

(** C35. A flush fits its datagrams in the MTU: on every good state it succeeds, never
    writing past the buffer, and each datagram it sends has at least one byte and at
    most [mtu]; the same goes for an update at any time. *)
Theorem datagrams_fit_mtu k now : good k ->
  (exists k' out, ikcp_flush k = Ok (k', out) /\ good k' /\ Forall (fun d => 0 < zlen d <= mtu (cfg k)) out) /\
  (exists k' out, ikcp_update k now = Ok (k', out) /\ good k' /\ Forall (fun d => 0 < zlen d <= mtu (cfg k)) out).
Proof.
  intros Hk. assert (forall gs, Forall (fits (cfg k)) gs -> Forall (fun d => 0 < zlen d <= mtu (cfg k)) (map datagram gs)) as Hd.
  { intros gs. induction 1; constructor; done. }
  split.
  - destruct (flush_good k Hk) as (k' & gs & E & Hk' & Hf). exists k', (map datagram gs). auto.
  - destruct (update_good k now Hk) as (k' & gs & E & Hk' & Hf). exists k', (map datagram gs). auto.
Qed.

Lemma datagrams_fit_mtu_witness : exists k' out, ikcp_flush (ready (ikcp_create 7)) = Ok (k', out) /\ good k' /\
  Forall (fun d => 0 < zlen d <= 1400) out.
Proof. exact (proj1 (datagrams_fit_mtu (ready (ikcp_create 7)) 0 (with_times_good 0 100 _ (create_good 7)))). Defined.
