(* ===== verification/KcpNet.v ===== *)
(** * Two KCP end points and a network

    One end point sends, the other receives, over a network that loses, repeats and
    reorders datagrams: it keeps every datagram ever sent and may hand over any of
    them at any time.  What comes back to the sender is arbitrary bytes.  Both users
    call what they like.  Then what the receiving user has got is a prefix of what the
    sending user was told was accepted, in bytes, and in message mode message by
    message.

    The specification is a log: the payloads of the segments in the order of their
    numbers.  The states agree with it by [sends], [genuine] and [receives]. *)

From Stdlib Require Import ZArith Lia Bool.
From stdpp Require Import base tactics option list numbers.
From S2P Require Import Prelude KcpWire Kcp KcpInv KcpInput KcpUser KcpFlush KcpApi.

#[local] Open Scope Z_scope.

(** ** The log *)

Abbreviation log := (list (Z * list Z)).

(** The segment has its place in the log. *)
Definition logged (l : log) (s : seg.t) : Prop := 0 <= seg.sn s /\ l !! Z.to_nat (seg.sn s) = Some (payload s).

(** A segment that the sender may have sent. *)
Definition genuine (l : log) (s : seg.t) : Prop :=
  (seg.data s = [] /\ (seg.cmd s = IKCP_CMD_ACK \/ seg.cmd s = IKCP_CMD_WASK \/ seg.cmd s = IKCP_CMD_WINS)) \/
  (seg.cmd s = IKCP_CMD_PUSH /\ logged l s /\ 0 <= seg.frg s < IKCP_WND_RCV /\ seg.len s < 2 ^ 31).

Definition genuine_datagram (l : log) (d : list Z) : Prop := exists g, d = datagram g /\ Forall (genuine l) g.

Lemma logged_app l l' s : logged l s -> logged (l ++ l') s.
Proof. intros [H1 H2]. split; [done|]. by apply lookup_app_l_Some. Qed.

Lemma genuine_app l l' s : genuine l s -> genuine (l ++ l') s.
Proof. intros [H | (? & ? & ?)]; [by left | right]. auto using logged_app. Qed.

Lemma genuine_datagram_app l l' d : genuine_datagram l d -> genuine_datagram (l ++ l') d.
Proof. intros (g & -> & H). exists g. split; [done|]. eapply list.Forall_impl; [exact H|]. intros s. apply genuine_app. Qed.

Lemma logged_bound l s : logged l s -> seg.sn s < zlen l.
Proof. intros [H1 H2]. apply lookup_lt_Some in H2. lia. Qed.

(** ** Sending

    The numbered payloads are the log; the queue follows it. *)

Record sends (l : log) (k : kcp) : Prop := {
  se_nxt : snd_nxt (tx k) = zlen l;
  se_max : zlen l < 2 ^ 31;
  se_buf : Forall (fun s => logged l s /\ seg.cmd s = IKCP_CMD_PUSH) (snd_buf (tx k));
  se_done : complete (l ++ map payload (snd_queue (tx k)));
  se_num : numbered (map fst l ++ map seg.frg (snd_queue (tx k)));
  se_rng : Forall (fun f => 0 <= f < IKCP_WND_RCV) (map fst l ++ map seg.frg (snd_queue (tx k)))
}.

(** All that the user has given to the sender. *)
Definition given (l : log) (k : kcp) : log := l ++ map payload (snd_queue (tx k)).

Lemma map_fst_payload q : map fst (map payload q) = map seg.frg q.
Proof. rewrite map_map. by apply map_ext. Qed.

Lemma admit_all_logged k wnd qs l : zlen l + zlen qs < 2 ^ 31 ->
  Forall (fun s => logged (l ++ map payload qs) s /\ seg.cmd s = IKCP_CMD_PUSH) (admit_all k wnd (zlen l) qs).
Proof.
  revert l. induction qs as [|q qs IH]; intros l H; [constructor|]. cbn [admit_all map length] in *. constructor.
  - split; [|done]. split; [simpl; lia|]. cbn [seg.sn admit_seg]. rewrite Nat2Z.id.
    rewrite lookup_app_r by lia. by rewrite Nat.sub_diag.
  - specialize (IH (l ++ [payload q])). rewrite length_app in IH. cbn [length] in IH.
    rewrite <- app_assoc in IH. cbn [app] in IH. rewrite u32_small by lia.
    replace (zlen l + 1) with (Z.of_nat (length l + 1)) by lia. apply IH. lia.
Qed.

(** A flush numbers segments and sends only genuine ones. *)
Lemma flush_numbers l k k' out : good k -> sends l k -> updated (clk k) <> 0 -> ikcp_flush k = Ok (k', out) ->
  snd_nxt (tx k') < 2 ^ 31 ->
  exists l', sends (l ++ l') k' /\ given (l ++ l') k' = given l k /\ Forall (genuine (l ++ l')) (flush_segments k).
Proof.
  intros (Hk & Hfr & Hsz) [Hn Hm Hb Hd Hnum Hr] Hu E Hlt.
  destruct (flush_cases k Hk Hfr Hsz Hu) as (k1 & gs & E1 & Eg & _ & Hk1 & Hsz1 & Ec1 & _ & Et & _).
  rewrite E in E1. injection E1 as <- ->.
  destruct (admitted_spec k Hk) as (Ha & _ & _ & _ & (qs & Eq & Eb & Ef & Enx)).
  assert (snd_nxt (tx k') = u32 (zlen l + zlen qs)) as Enx' by (rewrite Et; simpl; by rewrite Enx, Hn).
  pose proof (so_gap _ Ha) as Hgap. fold (in_flight (admitted k)) in Hgap. pose proof (in_flight_range (tx k)).
  rewrite u32_small in Enx' by lia.
  assert (map payload (snd_queue (tx k)) = map payload qs ++ map payload (snd_queue (tx k'))) as Eqp
    by (rewrite Et; simpl; by rewrite Eq at 1; rewrite map_app).
  assert (Forall (fun s => logged (l ++ map payload qs) s /\ seg.cmd s = IKCP_CMD_PUSH) (snd_buf (admitted k))) as Hbuf.
  { rewrite Eb. apply Forall_app_2.
    - eapply list.Forall_impl; [exact Hb|]. intros s [? ?]. auto using logged_app.
    - rewrite Hn. apply admit_all_logged. lia. }
  assert (map seg.frg (snd_queue (tx k)) = map fst (map payload qs) ++ map seg.frg (snd_queue (tx k'))) as Efr.
  { rewrite <- !map_fst_payload, Eqp, map_app. done. }
  exists (map payload qs). split; [|split].
  - constructor.
    + rewrite Enx', length_app, length_map. lia.
    + rewrite length_app, length_map. lia.
    + rewrite Et. simpl. apply list.Forall_forall. intros s' Hin. apply list_elem_of_In in Hin.
      apply in_map_iff in Hin as (s & <- & Hin). apply list_elem_of_In in Hin.
      pose proof (proj1 (list.Forall_forall _ _) Hbuf s Hin) as [[H1 H2] H3]. unfold logged.
      rewrite flushed_sn, flushed_payload. split; [done|]. unfold flushed. by destruct (due _ _ _ s).
    + by rewrite <- app_assoc, <- Eqp.
    + by rewrite map_app, <- app_assoc, <- Efr.
    + by rewrite map_app, <- app_assoc, <- Efr.
  - unfold given. by rewrite <- app_assoc, <- Eqp.
  - apply list.Forall_forall. intros s Hin. apply list_elem_of_In in Hin.
    unfold flush_segments in Hin. apply in_app_iff in Hin as [Hin | Hin].
    { unfold ack_segments in Hin. apply in_map_iff in Hin as (p & <- & _). left. split; [done | by left]. }
    apply in_app_iff in Hin as [Hin | Hin].
    { left. unfold probe_segments in Hin. destruct (List.last _ _) as [sn ts]. apply in_app_iff in Hin.
      destruct Hin as [Hin | Hin]; (destruct (negb _); [|done]); destruct Hin as [<- | []]; (split; [done|]); [right; by left | right; by right]. }
    right. unfold data_segments in Hin. apply in_flat_map in Hin as (s0 & Hs0 & Hin).
    destruct (is_due k s0); [|done]. destruct Hin as [<- | []].
    apply list_elem_of_In in Hs0. pose proof (proj1 (list.Forall_forall _ _) Hbuf s0 Hs0) as [[H1 H2] H3].
    pose proof (admitted_sized k Hk Hsz) as [Hsb _]. pose proof (proj1 (list.Forall_forall _ _) Hsb s0 Hs0) as Hlen.
    destruct Hk as ((Hmss & _) & _). simpl in Hlen.
    unfold logged, seg.len. pose proof (flushed_payload k s0) as Ep. unfold payload in Ep. injection Ep as Ep1 Ep2.
    rewrite flushed_sn, flushed_payload, Ep1, Ep2. split; [unfold flushed; by destruct (due _ _ _ s0)|].
    split; [done|]. split; [|unfold seg.len in Hlen; lia].
    apply (f_equal (fmap fst)) in H2. rewrite <- list_lookup_fmap in H2. simpl in H2.
    assert (Forall (fun f => 0 <= f < IKCP_WND_RCV) (map fst (l ++ map payload qs))) as Hr2.
    { rewrite map_app. rewrite Efr, app_assoc in Hr. by apply Forall_app in Hr as [Hr _]. }
    pose proof (proj1 (list.Forall_lookup _ _) Hr2 _ _ H2) as Hf. exact Hf.
Qed.

Lemma flush_sends l k k' out : good k -> sends l k -> ikcp_flush k = Ok (k', out) -> snd_nxt (tx k') < 2 ^ 31 ->
  exists l', sends (l ++ l') k' /\ given (l ++ l') k' = given l k /\ Forall (genuine_datagram (l ++ l')) out.
Proof.
  intros Hg Hs E Hlt. destruct (decide (updated (clk k) = 0)) as [Eu|Hu].
  { exists []. unfold ikcp_flush in E. rewrite Eu in E. injection E as <- <-. rewrite app_nil_r. by split_and!. }
  destruct (flush_numbers l k k' out Hg Hs Hu E Hlt) as (l' & H1 & H2 & H3). exists l'. split; [done|]. split; [done|].
  destruct Hg as (Hk & Hfr & Hsz). destruct (flush_cases k Hk Hfr Hsz Hu) as (k1 & gs & E1 & Eg & _).
  rewrite E in E1. injection E1 as <- ->. rewrite <- Eg in H3. clear -H3. induction gs as [|g gs IH]; [constructor|].
  cbn [concat] in H3. apply Forall_app in H3 as [H1 H2]. constructor; [by exists g | auto].
Qed.

(** A sender whose queue, buffer and next number are the same. *)
Lemma sends_same l k k' : sends l k -> snd_nxt (tx k') = snd_nxt (tx k) -> snd_queue (tx k') = snd_queue (tx k) ->
  (Forall (fun s => logged l s /\ seg.cmd s = IKCP_CMD_PUSH) (snd_buf (tx k)) ->
   Forall (fun s => logged l s /\ seg.cmd s = IKCP_CMD_PUSH) (snd_buf (tx k'))) ->
  sends l k' /\ given l k' = given l k.
Proof.
  intros [Hn Hm Hb Hd Hnum Hr] E1 E2 E3. unfold given. rewrite E2. split; [|done].
  constructor; rewrite ?E1, ?E2; auto.
Qed.

Lemma sends_tx l k k' : sends l k -> tx k' = tx k -> sends l k' /\ given l k' = given l k.
Proof. intros H E. apply sends_same; rewrite ?E; done. Qed.

Lemma update_sends l k now k' out : good k -> sends l k -> ikcp_update k now = Ok (k', out) -> snd_nxt (tx k') < 2 ^ 31 ->
  exists l', sends (l ++ l') k' /\ given (l ++ l') k' = given l k /\ Forall (genuine_datagram (l ++ l')) out.
Proof.
  intros Hg Hs E Hlt. destruct (update_cases k now) as [(_ & Eu) | (_ & Eu)]; try apply Hg; rewrite Eu in E.
  - destruct (sends_tx l k (with_times now (next_flush k now) k) Hs eq_refl) as (Hs1 & <-).
    eapply flush_sends; [by apply with_times_good | done | exact E | done].
  - injection E as <- <-. exists []. rewrite app_nil_r. split_and!; [|done | constructor].
    by apply (sends_tx l k).
Qed.

(** What the user sends is appended to what was given. *)
Lemma send_sends l k buffer len n k' : good k -> valid k (Send buffer len) -> sends l k ->
  ikcp_send k buffer len = Ok (n, k') ->
  sends l k' /\ cfg k' = cfg k /\ (n < 0 -> given l k' = given l k) /\
  bytes_of (given l k') = bytes_of (given l k) ++ take (Z.to_nat n) buffer /\
  (stream (cfg k) = 0 -> 0 <= n -> cut [] (given l k') = cut [] (given l k) ++ [take (Z.to_nat n) buffer]).
Proof.
  intros (Hk & _) (Hl & Hl31) [Hn Hm Hb Hd Hnum Hr] E.
  destruct (send_cases k buffer len Hk Hl Hl31) as (n' & s' & E' & Hq & Hmax & Hneg & _ & Happ & Hcode & Hmsg).
  rewrite E in E'. injection E' as <- ->. unfold given in *. cbn [tx with_tx cfg].
  assert (complete (map payload (snd_queue (tx k)))) as Hcq.
  { unfold complete in *. rewrite last_app in Hd. by destruct (list.last (map payload (snd_queue (tx k)))). }
  destruct (Happ Hcq) as (Hc' & Hby & new & Ef & Hnew & Hrng).
  assert (complete (l ++ map payload (snd_queue s'))) as Hd'.
  { destruct (list.last (map payload (snd_queue s'))) as [[f d]|] eqn:El.
    - unfold complete in *. rewrite last_app, El. by rewrite El in Hc'.
    - apply list.last_None, map_eq_nil in El. rewrite El in Ef |- *. symmetry in Ef.
      apply app_eq_nil in Ef as [Ef _]. apply map_eq_nil in Ef. by rewrite Ef in Hd. }
  split; [|split; [done|split; [|split]]].
  - constructor; cbn [tx with_tx]; rewrite ?(q_nxt _ _ Hq), ?(q_buf _ _ Hq); try done; rewrite Ef, app_assoc.
    + apply numbered_app; [done | | done]. unfold complete in Hd. rewrite <- map_fst_payload, <- map_app, list.fmap_last.
      by destruct (list.last (l ++ map payload (snd_queue (tx k)))) as [[]|].
    + by apply Forall_app_2.
  - intros H. by rewrite (Hneg H).
  - by rewrite !bytes_of_app, Hby, app_assoc.
  - intros Hs0 H0. destruct (Hmsg Hs0 H0) as (-> & m & Hm0 & _ & Em & Eq). rewrite Eq, map_app, app_assoc.
    rewrite cut_app_nil by done. f_equal. rewrite cut_frags.
    + f_equal. apply concat_chunks. rewrite length_take. destruct Hk as (Hc & _). pose proof Hc as (Hm1 & _).
      pose proof (fragments_ceil (cfg k) len Hc) as Hf. destruct (decide (len = 0)) as [->|]; [lia|].
      destruct Hf as [Hf1 Hf2]; [lia|]. nia.
    + intros E0. apply (f_equal length) in E0. rewrite length_chunks in E0. simpl in E0. lia.
Qed.

(** ** Receiving

    [d] is the part of the log that the user has taken out; the queue continues it
    and the buffer holds segments at their places. *)

Record receives (l d : log) (r : receiver) : Prop := {
  re_queue : exists rest, l = d ++ map payload (rcv_queue r) ++ rest;
  re_nxt : rcv_nxt r = zlen d + zlen (rcv_queue r);
  re_buf : Forall (logged l) (rcv_buf r)
}.

Lemma receives_app l l' d r : receives l d r -> receives (l ++ l') d r.
Proof.
  intros [(rest & E) Hn Hb]. constructor; [|done|].
  - exists (rest ++ l'). by rewrite E, <- !app_assoc.
  - eapply list.Forall_impl; [exact Hb|]. intros s. apply logged_app.
Qed.

Lemma receives_same l d r r' : rcv_queue r' = rcv_queue r -> rcv_nxt r' = rcv_nxt r -> rcv_buf r' = rcv_buf r ->
  receives l d r -> receives l d r'.
Proof. intros E1 E2 E3 [H1 H2 H3]. constructor; by rewrite ?E1, ?E2, ?E3. Qed.

(** Moving segments up keeps the agreement: the next number is the next in the log. *)
Lemma move_ready_receives l d wnd r : zlen l < 2 ^ 31 -> receives l d r -> receives l d (move_ready wnd (rcv_buf r) r).
Proof.
  intros Hl H. remember (rcv_buf r) as buf eqn:E. revert r E H.
  induction buf as [|s buf IH]; intros r E H; cbn [move_ready]; [done|].
  destruct ((seg.sn s =? rcv_nxt r) && (nrcv_que r <? wnd)) eqn:Ec; [|done]. to_prop. apply IH; [done|].
  destruct H as [(rest & El) Hn Hb]. rewrite <- E in Hb. apply list.Forall_cons in Hb as [[Hs0 Hs] Hb].
  apply lookup_lt_Some in Hs as Hlt.
  constructor; cbn [rcv_queue rcv_nxt rcv_buf]; [| |done].
  - rewrite El, app_assoc in Hs. rewrite lookup_app_r in Hs by (rewrite length_app, length_map; lia).
    rewrite length_app, length_map in Hs. replace (Z.to_nat (seg.sn s) - _)%nat with 0%nat in Hs by lia.
    destruct rest as [|p rest]; [done|]. injection Hs as ->. exists rest.
    rewrite El, map_app. cbn [map]. by rewrite <- !app_assoc.
  - rewrite length_app, u32_small by lia. cbn [length]. lia.
Qed.

Lemma parse_data_receives l d c r new : zlen l < 2 ^ 31 -> receives l d r -> logged l new ->
  receives l d (ikcp_parse_data c r new).
Proof.
  intros Hl H Hnew. unfold ikcp_parse_data. destruct (_ || _); [done|].
  destruct (insert_back (rev (rcv_buf r)) new) as [rbuf|] eqn:E; [|by apply move_ready_receives].
  match goal with |- receives _ _ (move_ready _ _ ?r') => apply (move_ready_receives _ _ _ r'); [done|] end.
  destruct H as [H1 H2 H3]. constructor; try done. cbn [rcv_buf].
  apply Forall_rev. eapply insert_back_forall; [exact E | done|]. by apply Forall_rev.
Qed.

(** A received segment that carries data from the log. *)
Definition from_log (l : log) (s : header * list Z) : Prop :=
  h_cmd (fst s) = IKCP_CMD_PUSH -> 0 <= h_sn (fst s) /\ l !! Z.to_nat (h_sn (fst s)) = Some (h_frg (fst s), snd s).

Lemma input_segment_receives l d k ack h p k' ack' : zlen l < 2 ^ 31 -> receives l d (rx k) -> from_log l (h, p) ->
  input_segment k ack h p = Ok (k', ack') -> receives l d (rx k').
Proof.
  intros Hl H Hs. unfold input_segment. destruct (h_cmd h =? IKCP_CMD_ACK).
  { intros (t & _ & E)%outcome_bind_inv. by injection E as <- <-. }
  destruct (h_cmd h =? IKCP_CMD_PUSH) eqn:Ep; to_prop.
  2: { destruct (h_cmd h =? IKCP_CMD_WASK); intros E; by injection E as <- <-. }
  destruct (_ <? 0); [|intros E; by injection E as <- <-].
  intros (r & Er & E)%outcome_bind_inv. cbn [rx with_tx with_cc] in Er. apply ack_push_same in Er as (E1 & E2 & E3).
  pose proof (receives_same l d _ _ E1 E2 E3 H) as Hr.
  destruct (_ <=? _); injection E as <- <-; [|done]. cbn [rx with_rx cfg]. by apply parse_data_receives; [| | apply Hs].
Qed.

Lemma handle_all_receives l d segs k ack k' ack' : zlen l < 2 ^ 31 -> receives l d (rx k) -> Forall (from_log l) segs ->
  handle_all k ack segs = Ok (k', ack') -> receives l d (rx k').
Proof.
  intros Hl. revert k ack. induction segs as [|[h p] segs IH]; intros k ack Hr Hs; cbn [handle_all]; [by intros [= <- _]|].
  apply list.Forall_cons in Hs as [Hs1 Hs]. intros ([k1 ack1] & E & H)%outcome_bind_inv.
  eapply IH; [|exact Hs | exact H]. by eapply input_segment_receives.
Qed.

(** ** The wire between the two *)

Lemma decode_wire s rest : exists h, decode_header (wire s ++ rest) = Ok (h, seg.data s ++ rest) /\
  h_cmd h = seg.cmd s mod 256 /\ h_frg h = seg.frg s mod 256 /\ h_sn h = seg.sn s mod 2 ^ 32 /\
  h_len h = seg.len s mod 2 ^ 32.
Proof.
  unfold wire, ikcp_encode_seg, encode_header, ikcp_encode32u, ikcp_encode16u, ikcp_encode8u.
  rewrite app_nil_l, <- !app_assoc. unfold decode_header, decode_rest, ikcp_decode32u, ikcp_decode16u, ikcp_decode8u.
  do 8 (rewrite ikcp_decode_bytes; cbn [mbind outcome_bind]).
  eexists. split; [reflexivity|]. cbn [h_cmd h_frg h_sn h_len header_of]. by split_and!.
Qed.

(** What is decoded of a genuine segment. *)
Lemma decode_genuine l s rest : zlen l < 2 ^ 31 -> genuine l s ->
  exists h, decode_header (wire s ++ rest) = Ok (h, seg.data s ++ rest) /\ h_len h = seg.len s /\ from_log l (h, seg.data s).
Proof.
  intros Hl Hs. destruct (decode_wire s rest) as (h & E & Hc & Hf & Hsn & Hlen). exists h. split; [done|].
  unfold from_log. cbn [fst snd]. destruct Hs as [[Hd Hcmd] | (Hcmd & Hlog & Hfrg & Hln)].
  - split; [rewrite Hlen; unfold seg.len; by rewrite Hd|]. rewrite Hc. by destruct Hcmd as [-> | [-> | ->]].
  - pose proof (logged_bound l s Hlog) as Hb. destruct Hlog as [H0 Hlog]. unfold IKCP_WND_RCV in Hfrg.
    assert (0 <= seg.len s) by (unfold seg.len; lia).
    rewrite Hlen, Hsn, Hf, !Z.mod_small by lia. by split_and!.
Qed.

(** Parsing a genuine datagram finds genuine segments only. *)
Lemma parse_genuine l fuel cv g code segs : zlen l < 2 ^ 31 -> Forall (genuine l) g ->
  parse fuel cv (datagram g) = Ok (code, segs) -> Forall (from_log l) segs.
Proof.
  intros Hl Hg. revert fuel code segs. induction Hg as [|s g Hs Hg IH]; intros fuel code segs.
  { destruct fuel; [done|]. cbn. by intros [= <- <-]. }
  destruct fuel as [|fuel]; [done|]. unfold datagram. cbn [map concat]. fold (datagram g). cbn [parse].
  destruct (_ <? _); [by intros [= <- <-]|].
  destruct (decode_genuine l s (datagram g) Hl Hs) as (h & E & Hlen & Hlog). unfold decode_header in E.
  destruct (ikcp_decode32u _) as [[c rest]|]; cbn [mbind outcome_bind] in E |- *; [|done].
  destruct (negb _); [by intros [= <- <-]|]. rewrite E. cbn [mbind outcome_bind].
  destruct (_ || _); [by intros [= <- <-]|]. destruct (negb _); [by intros [= <- <-]|].
  rewrite Hlen. unfold seg.len. rewrite mread_ok by (rewrite ?length_app; lia). cbn [mbind outcome_bind].
  unfold slice. change (Z.to_nat 0) with 0%nat. rewrite drop_0, Nat2Z.id, take_app_length, drop_app_length.
  destruct (parse fuel cv (datagram g)) as [[code' segs']|] eqn:Ep; cbn [mbind outcome_bind]; [|done].
  intros [= <- <-]. constructor; [done|]. by eapply IH.
Qed.

Lemma input_receives l d k data code k' : zlen l < 2 ^ 31 -> receives l d (rx k) -> Forall is_byte data ->
  genuine_datagram l data -> ikcp_input k data = Ok (code, k') -> receives l d (rx k').
Proof.
  intros Hl Hr Hb (g & -> & Hg). unfold ikcp_input. destruct (_ <? _); [by intros [= <- <-]|].
  destruct (parse_total (S (length (datagram g))) (conv (cfg k)) (datagram g) ltac:(lia) Hb) as (c & segs & Ep & _).
  pose proof (parse_genuine _ _ _ _ _ _ Hl Hg Ep) as Hs.
  rewrite (input_loop_parse _ _ _ _ _ _ Ep), outcome_bind_assoc.
  intros ([k1 ack] & E & H)%outcome_bind_inv. pose proof (handle_all_receives _ _ _ _ _ _ _ Hl Hr Hs E) as H1.
  cbn [mbind outcome_bind] in H. destruct (c <? 0); [by injection H as <- <-|].
  destruct (0 <? _); injection H as <- <-; by destruct ack.
Qed.

(** ** The user of the receiver *)

(** A queue that starts a message and has [frg] more segments holds a whole message. *)
Lemma take_msg_numbered q f : numbered (map seg.frg q) -> list.head (map seg.frg q) = Some f -> 0 <= f < zlen q ->
  exists m, map payload q = m ++ map payload (snd (take_msg q)) /\ complete m /\ m <> [] /\
    (forall acc, cut acc m = [acc ++ fst (take_msg q)]) /\ zlen q = zlen m + zlen (snd (take_msg q)).
Proof.
  revert f. induction q as [|s q IH]; intros f Hn Hh Hf; [done|]. cbn [map] in Hn, Hh. injection Hh as <-.
  cbn [take_msg]. destruct (seg.frg s =? 0) eqn:E0; to_prop.
  { exists [payload s]. cbn [fst snd map]. split; [done|]. split; [unfold complete; simpl; by rewrite E0|].
    split; [done|]. split; [|cbn [length]; lia]. intros acc. unfold payload. cbn [cut]. by rewrite E0. }
  destruct Hn as [Hnext Hn]. destruct q as [|s' q]; [cbn [length] in Hf; lia|].
  cbn [map] in Hnext. destruct Hnext as [|Hnext]; [done|].
  destruct (IH (seg.frg s') Hn eq_refl) as (m & Em & Hc & Hm & Hcut & Hlen); [cbn [length] in *; lia|].
  destruct (take_msg (s' :: q)) as [d rest]. cbn [fst snd] in *. exists (payload s :: m).
  rewrite <- (app_comm_cons m). split; [cbn [map] in *; by rewrite Em|].
  split; [unfold complete in *; by destruct m|]. split; [done|]. split; [|cbn [length] in *; lia].
  intros acc. unfold payload. cbn [cut]. rewrite (proj2 (Z.eqb_neq _ _) E0), Hcut. by rewrite app_assoc.
Qed.

(** Taking out a message moves the boundary of the log by that message. *)
Lemma recv_receives l d k b len n b' k' : good k -> valid k (Recv b len) -> zlen l < 2 ^ 31 ->
  receives l d (rx k) -> complete d -> numbered (map fst l) -> Forall (fun f => 0 <= f < IKCP_WND_RCV) (map fst l) ->
  ikcp_recv k (Some b) len = Ok (n, Some b', k') ->
  exists m, receives l (d ++ m) (rx k') /\ complete (d ++ m) /\
    cut [] (d ++ m) = cut [] d ++ (if (0 <=? len) && (0 <=? n) then [take (Z.to_nat n) b'] else []).
Proof.
  intros (Hk & _) (Hl & Hb & Hrd) Hlog Hr Hd Hnum Hrng E.
  destruct (recv_cases k b len Hk Hrd Hl Hb) as (n1 & b1 & k1 & E1 & H). rewrite E in E1. injection E1 as <- <- <-.
  destruct (whole (rx k) && (zlen (fst (take_msg (rcv_queue (rx k)))) <=? Z.abs len)) eqn:Ew.
  2: { destruct H as (Hn & -> & ->). exists []. rewrite app_nil_r. split; [done|]. split; [done|].
       assert (n < 0) by (destruct (rcv_queue (rx k)); [lia|]; destruct (whole (rx k)); lia).
       rewrite (proj2 (Z.leb_gt 0 n)) by done. by rewrite andb_false_r, app_nil_r. }
  apply andb_true_iff in Ew as [Ew El]. to_prop. destruct H as (-> & -> & _ & _ & _ & _ & _ & _ & ->).
  assert (0 <= zlen (fst (take_msg (rcv_queue (rx k))))) as Hn0 by lia. rewrite (proj2 (Z.leb_le _ _) Hn0), andb_true_r.
  pose proof Hr as [(rest & Erest) Hnxt Hbuf].
  destruct (len <? 0) eqn:Elen; to_prop.
  { exists []. rewrite app_nil_r. split; [|split; [done|]].
    - apply (move_ready_receives l d _ (popped true (rx k))); [done|]. constructor; [by exists rest | done | done].
    - rewrite (proj2 (Z.leb_gt 0 len)) by done. by rewrite app_nil_r. }
  rewrite (proj2 (Z.leb_le 0 len)) by done.
  rewrite Erest, map_app, map_app, map_fst_payload in Hnum, Hrng. apply numbered_app_r, numbered_app_l in Hnum.
  apply Forall_app in Hrng as [_ Hrng]. apply Forall_app in Hrng as [Hrng _].
  destruct Hk as (_ & _ & Hrx & _). pose proof (proj1 (ro_nque _ Hrx)) as Hq. unfold whole in Ew.
  destruct (rcv_queue (rx k)) as [|s q] eqn:Eq; [done|].
  assert (0 <= seg.frg s < zlen (s :: q)) as Hf.
  { cbn [map] in Hrng. apply list.Forall_cons in Hrng as [Hf _]. unfold IKCP_WND_RCV in Hf. cbn [length] in *.
    apply orb_true_iff in Ew as [Ew | Ew]; to_prop; [lia|]. rewrite u32_small in Ew by lia. lia. }
  destruct (take_msg_numbered (s :: q) (seg.frg s) Hnum eq_refl Hf) as (m & Em & Hc & Hm & Hcut & Hlen).
  exists m. split; [|split].
  - apply (move_ready_receives l (d ++ m) _ (popped false (rx k))); [done|]. unfold popped. rewrite Eq.
    constructor; cbn [rcv_queue rcv_nxt rcv_buf]; [| rewrite Hnxt, length_app; lia | done].
    exists rest. by rewrite Erest, Em, <- !app_assoc.
  - by apply complete_app.
  - rewrite cut_app_nil, Hcut by done. f_equal. f_equal.
    pose proof (slice_splice_same b 0 (fst (take_msg (s :: q))) ltac:(lia) ltac:(lia)) as Hs. unfold slice in Hs.
    change (Z.to_nat 0) with 0%nat in Hs. by rewrite drop_0 in Hs.
Qed.

(** ** One call on either side *)

Definition is_set_stream (c : call) : bool := match c with SetStream _ => true | _ => false end.

(** What a call adds to what the sending user had accepted. *)
Definition accepted_by (c : call) (rep : reply) : list (list Z) :=
  match c with
  | Send buffer _ => if 0 <=? code rep then [take (Z.to_nat (code rep)) buffer] else []
  | _ => []
  end.

(** What a call adds to what the receiving user has; a peek adds nothing. *)
Definition delivered_by (c : call) (rep : reply) : list (list Z) :=
  match c with
  | Recv _ len => if (0 <=? len) && (0 <=? code rep) then [got rep] else []
  | _ => []
  end.

Lemma set_tx_rx k c rep k' : run c k = Ok (rep, k') ->
  match c with
  | SetMtu _ | Interval _ | NoDelay _ _ _ _ | WndSize _ _ =>
      tx k' = tx k /\ rx k' = rx k /\ stream (cfg k') = stream (cfg k) /\ sent rep = []
  | SetStream _ => tx k' = tx k /\ rx k' = rx k /\ sent rep = []
  | _ => True
  end.
Proof.
  destruct c as [| | | | |m|i|a b r n|s r|b]; cbn [run]; try done.
  - unfold ikcp_setmtu. destruct (_ || _); by intros [= <- <-].
  - by intros [= <- <-].
  - unfold ikcp_nodelay. destruct (if 0 <=? a then _ else _). by intros [= <- <-].
  - by intros [= <- <-].
  - by intros [= <- <-].
Qed.

Lemma flush_cfg k k' out : good k -> ikcp_flush k = Ok (k', out) ->
  cfg k' = cfg k /\ rcv_queue (rx k') = rcv_queue (rx k) /\ rcv_nxt (rx k') = rcv_nxt (rx k) /\ rcv_buf (rx k') = rcv_buf (rx k).
Proof.
  intros (Hk & Hf & Hz) E. destruct (decide (updated (clk k) = 0)) as [Eu|Hu].
  { unfold ikcp_flush in E. rewrite Eu in E. by injection E as <- <-. }
  destruct (flush_cases k Hk Hf Hz Hu) as (k1 & gs & E1 & _ & _ & _ & _ & Ec & _ & _ & Er & _).
  rewrite E in E1. injection E1 as <- _. rewrite Ec, Er. by split_and!.
Qed.

Lemma update_cfg k now k' out : good k -> ikcp_update k now = Ok (k', out) ->
  cfg k' = cfg k /\ rcv_queue (rx k') = rcv_queue (rx k) /\ rcv_nxt (rx k') = rcv_nxt (rx k) /\ rcv_buf (rx k') = rcv_buf (rx k).
Proof.
  intros Hg E. destruct (update_cases k now) as [(_ & Eu) | (_ & Eu)]; try apply Hg; rewrite Eu in E.
  - apply (flush_cfg (with_times now (next_flush k now) k)) in E; [done | by apply with_times_good].
  - by injection E as <- <-.
Qed.

Lemma input_cfg k data n k' : good k -> valid k (Input data) -> ikcp_input k data = Ok (n, k') -> cfg k' = cfg k.
Proof.
  intros (Hk & _) (Hb & Hr) E. pose proof (input_cases k data Hk Hb Hr) as H. rewrite E in H. by destruct H as (_ & _ & H & _).
Qed.

Lemma recv_tx k b len n b' k' : good k -> valid k (Recv b len) -> ikcp_recv k (Some b) len = Ok (n, b', k') ->
  tx k' = tx k /\ cfg k' = cfg k.
Proof.
  intros (Hk & _) (Hl & Hb & Hr) E. destruct (recv_cases k b len Hk Hr Hl Hb) as (n1 & b1 & k1 & E1 & H).
  rewrite E in E1. injection E1 as <- -> <-. destruct (_ && _); [by destruct H as (_ & _ & ? & ? & _) | by destruct H as (_ & _ & ->)].
Qed.

(** The call extended the log [l], sent what is in it, and the user was told of just
    what was added. *)
Definition extends (l : log) (k : kcp) (c : call) (rep : reply) (k' : kcp) : Prop :=
  exists l', sends (l ++ l') k' /\ Forall (genuine_datagram (l ++ l')) (sent rep) /\
    bytes_of (given (l ++ l') k') = bytes_of (given l k) ++ concat (accepted_by c rep) /\
    (is_set_stream c = false -> stream (cfg k') = stream (cfg k)) /\
    (stream (cfg k) = 0 -> cut [] (given (l ++ l') k') = cut [] (given l k) ++ accepted_by c rep).

(** A call of the sending user extends the log. *)
Lemma sender_call l k c rep k' : good k -> valid k c -> sends l k -> run c k = Ok (rep, k') -> snd_nxt (tx k') < 2 ^ 31 ->
  extends l k c rep k'.
Proof.
  intros Hg Hv Hs E Hlt.
  assert (forall l', sends (l ++ l') k' -> given (l ++ l') k' = given l k -> Forall (genuine_datagram (l ++ l')) (sent rep) ->
    accepted_by c rep = [] -> (is_set_stream c = false -> stream (cfg k') = stream (cfg k)) ->
    extends l k c rep k') as Hmore.
  { intros l' H1 H2 H3 H4 H5. exists l'. rewrite H2, H4. cbn [concat]. rewrite !app_nil_r. by split_and!. }
  assert (tx k' = tx k -> sent rep = [] -> accepted_by c rep = [] -> (is_set_stream c = false -> stream (cfg k') = stream (cfg k)) ->
    extends l k c rep k') as Hsame.
  { intros E1 E2 E3 E4. destruct (sends_tx l k k' Hs E1) as (H1 & H2). apply (Hmore []); rewrite ?app_nil_r, ?E2; done. }
  pose proof (set_tx_rx k c rep k' E) as Hset.
  destruct c as [b len|b len|data|now| |m|i|a b r n|s r|b].
  - cbn [run] in E. apply outcome_bind_inv in E as ([n k1] & E & H). injection H as <- <-. unfold extends. cbn [accepted_by code sent].
    destruct (send_sends l k b len n k1 Hg Hv Hs E) as (H1 & H2 & H3 & H4 & H5).
    exists []. rewrite app_nil_r. split; [done|]. split; [done|].
    destruct (0 <=? n) eqn:En; to_prop; cbn [concat]; rewrite ?app_nil_r.
    + split; [done|]. split; [by rewrite H2 | auto].
    + rewrite (H3 En). by rewrite H2.
  - cbn [run] in E. apply outcome_bind_inv in E as ([[n b'] k1] & E & H). injection H as <- <-.
    destruct (recv_tx k b len n b' k1 Hg Hv E) as (H1 & H2). apply Hsame; [done | done | done | by rewrite H2].
  - cbn [run] in E. apply outcome_bind_inv in E as ([n k1] & E & H). injection H as <- <-.
    pose proof (input_cfg k data n k1 Hg Hv E) as Ec. destruct Hv as [Hb _].
    destruct (input_kept (fun s => logged l s /\ seg.cmd s = IKCP_CMD_PUSH) k data n k1 Hb ltac:(done) E) as (H1 & H2 & H3).
    destruct (sends_same l k k1 Hs H1 H2 H3) as (H4 & H5). apply (Hmore []); rewrite ?app_nil_r; try done. by rewrite Ec.
  - cbn [run] in E. apply outcome_bind_inv in E as ([k1 out] & E & H). injection H as <- <-.
    destruct (update_sends l k now k1 out Hg Hs E Hlt) as (l' & H1 & H2 & H3). apply (Hmore l'); try done.
    by destruct (update_cfg k now k1 out Hg E) as (-> & _).
  - cbn [run] in E. apply outcome_bind_inv in E as ([k1 out] & E & H). injection H as <- <-.
    destruct (flush_sends l k k1 out Hg Hs E Hlt) as (l' & H1 & H2 & H3). apply (Hmore l'); try done.
    by destruct (flush_cfg k k1 out Hg E) as (-> & _).
  - destruct Hset as (H1 & _ & H2 & H3). by apply Hsame.
  - destruct Hset as (H1 & _ & H2 & H3). by apply Hsame.
  - destruct Hset as (H1 & _ & H2 & H3). by apply Hsame.
  - destruct Hset as (H1 & _ & H2 & H3). by apply Hsame.
  - destruct Hset as (H1 & _ & H3). by apply Hsame.
Qed.

(** A call of the receiving user moves the boundary. *)
Lemma receiver_call l d k c rep k' : good k -> valid k c -> zlen l < 2 ^ 31 -> receives l d (rx k) -> complete d ->
  numbered (map fst l) -> Forall (fun f => 0 <= f < IKCP_WND_RCV) (map fst l) ->
  (forall data, c = Input data -> genuine_datagram l data) -> run c k = Ok (rep, k') ->
  exists m, receives l (d ++ m) (rx k') /\ complete (d ++ m) /\ cut [] (d ++ m) = cut [] d ++ delivered_by c rep.
Proof.
  intros Hg Hv Hl Hr Hd Hnum Hrng Hin E.
  assert (receives l d (rx k') -> delivered_by c rep = [] ->
    exists m, receives l (d ++ m) (rx k') /\ complete (d ++ m) /\ cut [] (d ++ m) = cut [] d ++ delivered_by c rep) as Hsame.
  { intros H1 H2. exists []. by rewrite H2, !app_nil_r. }
  pose proof (set_tx_rx k c rep k' E) as Hset.
  destruct c as [b len|b len|data|now| |m|i|a b r n|s r|b].
  - cbn [run] in E. apply outcome_bind_inv in E as ([n k1] & E & H). injection H as <- <-.
    destruct Hg as (Hk & _), Hv as (Hv1 & Hv2). destruct (send_cases k b len Hk Hv1 Hv2) as (n' & s' & E' & _).
    rewrite E in E'. injection E' as <- ->. by apply Hsame.
  - cbn [run] in E. apply outcome_bind_inv in E as ([[n b'] k1] & E & H). injection H as <- <-.
    destruct (recv_good k b len Hg Hv) as (n2 & b2 & k2 & E2 & _). rewrite E in E2. injection E2 as <- -> <-.
    destruct (recv_receives l d k b len n b2 k1 Hg Hv Hl Hr Hd Hnum Hrng E) as (m & H1 & H2 & H3).
    exists m. split; [done|]. split; [done|]. exact H3.
  - cbn [run] in E. apply outcome_bind_inv in E as ([n k1] & E & H). injection H as <- <-. apply Hsame; [|done].
    destruct Hv as [Hb _]. by eapply input_receives; [done | done | exact Hb | apply Hin | exact E].
  - cbn [run] in E. apply outcome_bind_inv in E as ([k1 out] & E & H). injection H as <- <-.
    destruct (update_cfg k now k1 out Hg E) as (_ & H1 & H2 & H3). apply Hsame; [by eapply receives_same | done].
  - cbn [run] in E. apply outcome_bind_inv in E as ([k1 out] & E & H). injection H as <- <-.
    destruct (flush_cfg k k1 out Hg E) as (_ & H1 & H2 & H3). apply Hsame; [by eapply receives_same | done].
  - destruct Hset as (_ & H1 & _). apply Hsame; [by rewrite H1 | done].
  - destruct Hset as (_ & H1 & _). apply Hsame; [by rewrite H1 | done].
  - destruct Hset as (_ & H1 & _). apply Hsame; [by rewrite H1 | done].
  - destruct Hset as (_ & H1 & _). apply Hsame; [by rewrite H1 | done].
  - destruct Hset as (_ & H1 & _). apply Hsame; [by rewrite H1 | done].
Qed.

(** ** The system *)

(** The network keeps all that was ever sent; what the users have seen is recorded. *)
Record net := Net {
  sndr : kcp; rcvr : kcp;
  flying : list (list Z);
  accepted : list (list Z); delivered : list (list Z)
}.

(** [messages]: the sender stays in message mode.  Fewer than 2^31 segments are
    numbered.  Every datagram is handed to the receiver any number of times, at any
    time, or never. *)
Inductive net_step (messages : bool) : net -> net -> Prop :=
| sender_calls n c rep k' :
    valid (sndr n) c -> messages && is_set_stream c = false ->
    run c (sndr n) = Ok (rep, k') -> snd_nxt (tx k') < 2 ^ 31 ->
    net_step messages n
      (Net k' (rcvr n) (flying n ++ sent rep) (accepted n ++ accepted_by c rep) (delivered n))
| receiver_calls n c rep k' :
    valid (rcvr n) c -> (forall data, c = Input data -> In data (flying n)) ->
    run c (rcvr n) = Ok (rep, k') ->
    net_step messages n (Net (sndr n) k' (flying n) (accepted n) (delivered n ++ delivered_by c rep)).

Definition net_start (messages : bool) (cv cv' : Z) : net :=
  Net (if messages then message_mode cv else ikcp_create cv) (ikcp_create cv') [] [] [].

Record net_ok (messages : bool) (n : net) : Prop := {
  no_sndr : good (sndr n);
  no_rcvr : good (rcvr n);
  no_log : exists l d, sends l (sndr n) /\ receives l d (rx (rcvr n)) /\ complete d /\
    Forall (genuine_datagram l) (flying n) /\ delivered n = cut [] d /\
    concat (accepted n) = bytes_of (given l (sndr n)) /\
    (messages = true -> stream (cfg (sndr n)) = 0 /\ accepted n = cut [] (given l (sndr n)))
}.

Lemma run_keeps_good k c rep k' : good k -> valid k c -> run c k = Ok (rep, k') -> good k'.
Proof. intros Hg Hv E. pose proof (run_good k c Hg Hv) as H. by rewrite E in H. Qed.

Lemma net_start_ok messages cv cv' : net_ok messages (net_start messages cv cv').
Proof.
  constructor; [destruct messages; apply create_good | apply create_good|].
  exists [], []. split_and!; try done.
  - destruct messages; by constructor.
  - constructor; [by exists [] | done | done].
  - by destruct messages.
  - intros ->. done.
Qed.

Lemma net_step_ok messages : preserved (net_step messages) (net_ok messages).
Proof.
  intros n n' [Hgs Hgr (l & d & Hs & Hr & Hd & Hf & Edel & Eacc & Hmm)] Hstep.
  destruct Hstep as [n c rep k' Hv Hmode E Hlt | n c rep k' Hv Hin E]; cbn [sndr rcvr flying accepted delivered] in *.
  - destruct (sender_call l _ c rep k' Hgs Hv Hs E Hlt) as (l' & Hs' & Hout & Hby & Hst & Hcut).
    constructor; cbn [sndr rcvr flying accepted delivered]; [exact (run_keeps_good _ c rep k' Hgs Hv E) | done|].
    exists (l ++ l'), d. split_and!; [done | by apply receives_app | done | | done | | ].
    + apply Forall_app_2; [|done]. eapply list.Forall_impl; [exact Hf|]. intros x. apply genuine_datagram_app.
    + by rewrite concat_app, Eacc, Hby.
    + intros Em. destruct (Hmm Em) as (H1 & H2). rewrite Em in Hmode. rewrite (Hst Hmode). split; [done|].
      by rewrite H2, Hcut.
  - destruct Hs as [Hn Hm Hb Hdn Hnum Hrng].
    destruct (receiver_call l d _ c rep k' Hgr Hv Hm Hr Hd) as (m & Hr' & Hd' & Hcut).
    { by eapply numbered_app_l. } { by apply Forall_app in Hrng as [H _]. }
    { intros data Ed. apply (proj1 (list.Forall_forall _ _) Hf). apply list_elem_of_In. by apply Hin. } { done. }
    constructor; cbn [sndr rcvr flying accepted delivered]; [done | exact (run_keeps_good _ c rep k' Hgr Hv E)|].
    exists l, (d ++ m). split_and!; try done. by rewrite Edel, Hcut.
Qed.

Lemma net_reachable_ok messages cv cv' n :
  reaches (net_step messages) (net_start messages cv cv') n -> net_ok messages n.
Proof. intros H. eapply reaches_invariant; [apply net_step_ok | apply net_start_ok | exact H]. Qed.

(** The boundary of the log splits what was given. *)
Lemma given_split l d k r : receives l d r -> exists rest, given l k = d ++ rest.
Proof. intros [(rest & E) _ _]. unfold given. rewrite E, <- app_assoc. by eexists. Qed.

(** ** Executing the system

    A schedule of the system, run step by step; [None] if a step is not possible. *)

Inductive event := BySender (c : call) | ByReceiver (c : call) | Arrives (i : nat).

#[global] Instance valid_dec k c : Decision (valid k c).
Proof. destruct c; cbn [valid]; unfold readable, ack_room; apply _. Defined.

Definition receive (c : call) (n : net) : option net :=
  if decide (valid (rcvr n) c) then
    match run c (rcvr n) with
    | Ok (rep, k') => Some (Net (sndr n) k' (flying n) (accepted n) (delivered n ++ delivered_by c rep))
    | Err _ => None
    end
  else None.

Definition play (messages : bool) (e : event) (n : net) : option net :=
  match e with
  | BySender c =>
      if decide (valid (sndr n) c /\ messages && is_set_stream c = false) then
        match run c (sndr n) with
        | Ok (rep, k') =>
            if decide (snd_nxt (tx k') < 2 ^ 31) then
              Some (Net k' (rcvr n) (flying n ++ sent rep) (accepted n ++ accepted_by c rep) (delivered n))
            else None
        | Err _ => None
        end
      else None
  | ByReceiver (Input _) => None
  | ByReceiver c => receive c n
  | Arrives i => match flying n !! i with Some d => receive (Input d) n | None => None end
  end.

Fixpoint play_all (messages : bool) (es : list event) (n : net) : option net :=
  match es with [] => Some n | e :: es' => mbind (play_all messages es') (play messages e n) end.

Lemma receive_step messages c n n' : (forall data, c = Input data -> In data (flying n)) ->
  receive c n = Some n' -> net_step messages n n'.
Proof.
  unfold receive. intros Hin. destruct (decide _); [|done].
  destruct (run c (rcvr n)) as [[rep k']|] eqn:E; [|done]. intros [= <-]. by apply receiver_calls.
Qed.

Lemma play_step messages e n n' : play messages e n = Some n' -> net_step messages n n'.
Proof.
  destruct e as [c|c|i]; cbn [play].
  - destruct (decide _) as [[Hv Hm]|]; [|done]. destruct (run c (sndr n)) as [[rep k']|] eqn:E; [|done].
    destruct (decide _); [|done]. intros [= <-]. by apply sender_calls.
  - destruct c; try done; by apply receive_step.
  - destruct (flying n !! i) as [d|] eqn:Ed; [|done]. apply receive_step.
    intros data [= <-]. by eapply list_elem_of_In, list_elem_of_lookup_2.
Qed.

Lemma play_all_reaches messages es n0 n n' : play_all messages es n = Some n' -> reaches (net_step messages) n0 n ->
  reaches (net_step messages) n0 n'.
Proof.
  revert n. induction es as [|e es IH]; intros n; cbn [play_all]; [by intros [= <-]|].
  destruct (play messages e n) as [n1|] eqn:E; [|done]. cbn [mbind option_bind]. intros H Hr.
  apply (IH n1 H). apply (reaches_step _ _ n); [done | exact (play_step _ _ _ _ E)].
Qed.

(** The first datagram arrives twice, and what comes back to the sender is noise; the
    second message is still queued at the end. *)
Definition sample_schedule : list event :=
  [BySender (Send [1; 2; 3] 3); BySender (Update 0); BySender (Send [4] 1); BySender (Update 100);
   Arrives 0; Arrives 0; BySender (Input [255; 0; 7]); ByReceiver (Recv (replicate 10 0) 10)].

Definition sample_net (messages : bool) : net :=
  default (net_start messages 7 7) (play_all messages sample_schedule (net_start messages 7 7)).

Lemma sample_reached messages : reaches (net_step messages) (net_start messages 7 7) (sample_net messages).
Proof.
  unfold sample_net. destruct (play_all messages sample_schedule (net_start messages 7 7)) as [n|] eqn:E;
    [|constructor]. simpl. eapply play_all_reaches; [exact E | constructor].
Qed.

(** ** The claims *)

(** C1. Reliable delivery, in bytes: however the network loses, repeats and reorders
    datagrams, whatever bytes come back to the sender and whatever both users call,
    what the receiving user has got is a prefix of what the sending user was told had
    been accepted, as long as fewer than 2^31 segments are numbered. *)
Theorem kcp_delivers_prefix cv cv' n : reaches (net_step false) (net_start false cv cv') n ->
  concat (delivered n) `prefix_of` concat (accepted n).
Proof.
  intros H. destruct (net_reachable_ok _ _ _ _ H) as [_ _ (l & d & Hs & Hr & Hd & _ & -> & -> & _)].
  destruct (given_split l d (sndr n) _ Hr) as (rest & ->).
  rewrite concat_cut_nil, bytes_of_app by done. by eexists.
Qed.

(** C2. In message mode the messages themselves are delivered: what the receiving
    user has got is the first of the messages sent, each whole, none twice, in
    order. *)
Theorem kcp_delivers_messages cv cv' n : reaches (net_step true) (net_start true cv cv') n ->
  delivered n `prefix_of` accepted n.
Proof.
  intros H. destruct (net_reachable_ok _ _ _ _ H) as [_ _ (l & d & Hs & Hr & Hd & _ & -> & _ & Hmm)].
  destruct (Hmm eq_refl) as (_ & ->). destruct (given_split l d (sndr n) _ Hr) as (rest & ->).
  rewrite cut_app_nil by done. by eexists.
Qed.

Lemma kcp_delivers_prefix_witness :
  delivered (sample_net false) = [[1; 2; 3; 4]] /\ accepted (sample_net false) = [[1; 2; 3]; [4]] /\
  concat (delivered (sample_net false)) `prefix_of` concat (accepted (sample_net false)).
Proof.
  split; [vm_compute; reflexivity|]. split; [vm_compute; reflexivity|].
  exact (kcp_delivers_prefix 7 7 (sample_net false) (sample_reached false)).
Defined.

Lemma kcp_delivers_messages_witness :
  delivered (sample_net true) = [[1; 2; 3]] /\ accepted (sample_net true) = [[1; 2; 3]; [4]] /\
  delivered (sample_net true) `prefix_of` accepted (sample_net true).
Proof.
  split; [vm_compute; reflexivity|]. split; [vm_compute; reflexivity|].
  exact (kcp_delivers_messages 7 7 (sample_net true) (sample_reached true)).
Defined.
