(* ===== verification/KcpRound.v ===== *)
(** * KCP: progress

    What arrives is delivered: once every segment up to some number has arrived, in
    whatever order and however often, they are all in the queue ([progress]).  And one
    round without loss moves everything that was sent and empties the sender's buffer
    ([lossless_round]). *)

From Stdlib Require Import ZArith Lia Bool.
From stdpp Require Import base tactics option list numbers.
From S2P Require Import Prelude KcpWire Kcp KcpInv KcpInput KcpUser KcpFlush KcpApi.

#[local] Open Scope Z_scope.

(** ** A datagram is parsed into its segments *)

Definition wire_header (s : seg.t) : header :=
  Header (seg.conv s mod 2 ^ 32) (seg.cmd s mod 256) (seg.frg s mod 256) (seg.wnd s mod 65536) (seg.ts s mod 2 ^ 32)
    (seg.sn s mod 2 ^ 32) (seg.una s mod 2 ^ 32) (seg.len s mod 2 ^ 32).

Definition arrival (s : seg.t) : header * list Z := (wire_header s, seg.data s).

Lemma decode_wire_header s rest : decode_header (wire s ++ rest) = Ok (wire_header s, seg.data s ++ rest).
Proof.
  unfold wire, ikcp_encode_seg, encode_header, ikcp_encode32u, ikcp_encode16u, ikcp_encode8u.
  rewrite app_nil_l, <- !app_assoc. unfold decode_header, decode_rest, ikcp_decode32u, ikcp_decode16u, ikcp_decode8u.
  do 8 (rewrite ikcp_decode_bytes; cbn [mbind outcome_bind]). reflexivity.
Qed.

(** The receiver will accept the segment as one of its conversation. *)
Definition addressed (cv : Z) (s : seg.t) : Prop :=
  seg.conv s mod 2 ^ 32 = cv /\ known_cmd (seg.cmd s) = true /\ seg.len s < 2 ^ 31.

Lemma known_cmd_byte c : known_cmd c = true -> c mod 256 = c.
Proof.
  unfold known_cmd, IKCP_CMD_PUSH, IKCP_CMD_ACK, IKCP_CMD_WASK, IKCP_CMD_WINS. intros H. apply Z.mod_small. lia.
Qed.

Lemma parse_datagram cv g fuel : Forall (addressed cv) g -> (length g < fuel)%nat ->
  parse fuel cv (datagram g) = Ok (0, map arrival g).
Proof.
  intros Hg. revert fuel. induction Hg as [|s g (Hc & Hk & Hl) Hg IH]; intros fuel Hf.
  { destruct fuel; [simpl in Hf; lia|]. reflexivity. }
  destruct fuel as [|fuel]; [lia|]. unfold datagram. cbn [map concat length] in *. fold (datagram g). cbn [parse].
  assert (0 <= seg.len s) by (unfold seg.len; lia).
  assert ((zlen (wire s ++ datagram g) <? IKCP_OVERHEAD) = false) as ->.
  { apply Z.ltb_ge. rewrite length_app. pose proof (length_wire s). unfold IKCP_OVERHEAD. lia. }
  pose proof (decode_wire_header s (datagram g)) as E. unfold decode_header in E.
  destruct (ikcp_decode32u _) as [[c rest]|] eqn:E32; cbn [mbind outcome_bind] in E |- *; [|done].
  assert (c = cv) as ->.
  { unfold decode_rest in E. repeat (apply outcome_bind_inv in E as ([? ?] & _ & E)). injection E as E _ _ _ _ _ _ _. congruence. }
  rewrite Z.eqb_refl. cbn [negb]. rewrite E. cbn [mbind outcome_bind h_len h_cmd wire_header].
  rewrite (Z.mod_small (seg.len s)) by lia.
  assert ((zlen (seg.data s ++ datagram g) <? seg.len s) = false) as ->
    by (apply Z.ltb_ge; rewrite length_app; unfold seg.len; lia).
  rewrite (i32_small (seg.len s)) by lia. rewrite (proj2 (Z.ltb_ge (seg.len s) 0)) by lia.
  rewrite (known_cmd_byte _ Hk), Hk. cbn [orb negb]. unfold seg.len. rewrite mread_ok by (rewrite ?length_app; lia).
  cbn [mbind outcome_bind]. unfold slice. change (Z.to_nat 0) with 0%nat.
  rewrite drop_0, Nat2Z.id, take_app_length, drop_app_length, IH by lia. reflexivity.
Qed.

Lemma length_datagram g : (24 * length g <= length (datagram g))%nat.
Proof.
  induction g as [|s g IH]; [done|]. unfold datagram in *. cbn [map concat length]. rewrite length_app.
  pose proof (length_wire s). unfold seg.len in *. lia.
Qed.

Lemma handled_datagram k g : Forall (addressed (conv (cfg k))) g -> handled k (datagram g) = map arrival g.
Proof. intros Hg. unfold handled. rewrite parse_datagram; [done | done|]. pose proof (length_datagram g). lia. Qed.

(** [ikcp_input] of a datagram that is not empty. *)
Lemma input_datagram k g : Forall (addressed (conv (cfg k))) g -> g <> [] ->
  ikcp_input k (datagram g) =
    (let* (k1, ack) := handle_all k None (map arrival g) in
     let k1 := match ack with Some maxack => with_tx (ikcp_parse_fastack (tx k1) maxack) k1 | None => k1 end in
     let k1 :=
       if 0 <? itimediff (snd_una (tx k1)) (snd_una (tx k)) then with_cc (grow_window (mss (cfg k1)) (cc k1)) k1 else k1 in
     Ok (0, k1)).
Proof.
  intros Hg Hn. unfold ikcp_input. pose proof (length_datagram g) as Hl.
  assert ((zlen (datagram g) <? IKCP_OVERHEAD) = false) as ->.
  { apply Z.ltb_ge. unfold IKCP_OVERHEAD. destruct g; [done|]. cbn [length] in Hl. lia. }
  rewrite (input_loop_parse _ _ _ _ 0 (map arrival g)) by (apply parse_datagram; [done | lia]).
  rewrite outcome_bind_assoc. destruct (handle_all k None (map arrival g)) as [[k1 ack]|]; reflexivity.
Qed.

(** ** The receiving half

    A number is behind when it is before [rcv_nxt]; a segment that has arrived is
    behind or in the buffer; and nothing that could move up is left in the buffer
    unless the queue is full. *)

Definition arrived (b : Z) (r : receiver) (j : Z) : Prop :=
  j < offset b (rcv_nxt r) \/ In (u32 (b + j)) (map seg.sn (rcv_buf r)).

Definition settled (wnd : Z) (r : receiver) : Prop :=
  match rcv_buf r with s :: _ => seg.sn s <> rcv_nxt r | [] => True end \/ wnd <= nrcv_que r.

Lemma move_ready_settled wnd r : settled wnd (move_ready wnd (rcv_buf r) r).
Proof.
  remember (rcv_buf r) as buf eqn:E. revert r E. induction buf as [|s buf IH]; intros r E; cbn [move_ready].
  { left. by rewrite <- E. }
  destruct ((seg.sn s =? rcv_nxt r) && (nrcv_que r <? wnd)) eqn:Ec; to_prop.
  - by match goal with |- settled _ (move_ready _ _ ?r') => apply (IH r') end.
  - unfold settled. rewrite <- E. destruct Ec; to_prop; [by left | by right].
Qed.

(** The queue has grown by as much as [rcv_nxt] has moved from [b], and not past the
    window. *)
Definition tracks (b n0 wnd : Z) (r : receiver) : Prop :=
  nrcv_que r = n0 + offset b (rcv_nxt r) /\ nrcv_que r <= Z.max n0 wnd.

Lemma offset_succ b n : 0 <= b < 2 ^ 32 -> 0 <= n < 2 ^ 32 -> offset b n < 2 ^ 32 - 1 ->
  offset b (u32 (n + 1)) = offset b n + 1.
Proof.
  intros Hb Hn Ho. pose proof (offset_range b n). rewrite (offset_inv b n) at 1 by lia.
  replace (u32 (u32 (b + offset b n) + 1)) with (u32 (b + (offset b n + 1))).
  - apply offset_add. lia.
  - unfold wrap. rewrite Zplus_mod_idemp_l. f_equal. lia.
Qed.

Lemma move_ready_arrived b n0 wnd r : receiver_ok r -> 0 <= b < 2 ^ 32 -> 0 <= n0 -> Z.max n0 wnd < 2 ^ 31 ->
  tracks b n0 wnd r ->
  tracks b n0 wnd (move_ready wnd (rcv_buf r) r) /\
  (forall j, 0 <= j < 2 ^ 31 -> arrived b r j -> arrived b (move_ready wnd (rcv_buf r) r) j).
Proof.
  intros Hr Hb Hn0 Hw. pose proof (ro_nxt _ Hr) as Hnx. clear Hr. revert Hnx. remember (rcv_buf r) as buf eqn:E. revert r E.
  induction buf as [|s buf IH]; intros r E Hnx Ht; cbn [move_ready]; [done|].
  destruct ((seg.sn s =? rcv_nxt r) && (nrcv_que r <? wnd)) eqn:Ec; [|done]. to_prop.
  match goal with |- tracks _ _ _ (move_ready _ _ ?r') /\ _ => set (r1 := r') end.
  pose proof (offset_range b (rcv_nxt r)) as Ho. destruct Ht as (Ht1 & Ht2).
  assert (offset b (rcv_nxt r1) = offset b (rcv_nxt r) + 1) as Eo by (apply offset_succ; lia).
  assert (tracks b n0 wnd r1) as Ht'.
  { unfold tracks. rewrite Eo. unfold r1. cbn [nrcv_que]. rewrite u32_small by lia. lia. }
  destruct (IH r1 eq_refl ltac:(apply u32_range) Ht') as (H1 & H2). split; [done|].
  intros j Hj Ha. apply H2; [done|]. unfold arrived in *. rewrite Eo. destruct Ha as [Ha | Ha]; [left; lia|].
  rewrite <- E in Ha. destruct Ha as [Ha | Ha]; [|by right]. left.
  replace (rcv_nxt r) with (seg.sn s) by done. rewrite Ha, offset_add by lia. lia.
Qed.

(** A segment within the window is not turned away. *)
Lemma in_window b nxt j wnd : 0 <= b < 2 ^ 32 -> 0 <= nxt < 2 ^ 32 -> 0 <= wnd < 2 ^ 31 ->
  0 <= offset b nxt <= j -> j - offset b nxt < wnd -> j < 2 ^ 31 ->
  0 <= itimediff (u32 (b + j)) nxt /\ itimediff (u32 (b + j)) (u32 (nxt + wnd)) < 0.
Proof.
  intros Hb Hn Hw Ho Hj Hj31. assert (offset nxt (u32 (b + j)) = j - offset b nxt) as E.
  { rewrite (offset_inv b nxt) at 1 by lia. rewrite offset_shift; rewrite offset_add by lia; lia. }
  rewrite (itimediff_offset nxt) by (rewrite ?E, ?offset_self; lia). rewrite offset_self, E. split; [lia|].
  pose proof (offset_add nxt wnd ltac:(lia)) as Ew. rewrite (itimediff_offset nxt) by lia. lia.
Qed.

Lemma insert_back_in rbuf new rbuf' s : insert_back rbuf new = Some rbuf' -> In s (new :: rbuf) -> In s rbuf'.
Proof.
  revert rbuf'. induction rbuf as [|p rbuf IH]; intros rbuf'; cbn [insert_back]; [by intros [= <-]|].
  destruct (_ =? _); [done|]. destruct (0 <? _); [by intros [= <-]|].
  destruct (insert_back rbuf new) as [b|]; [|done]. intros [= <-] H. cbn [option_map]. simpl in *.
  destruct H as [H | [H | H]]; [right; apply IH; auto | by left | right; apply IH; auto].
Qed.

Lemma parse_data_arrived b n0 c r new : receiver_ok r -> 0 <= b < 2 ^ 32 -> 0 <= n0 -> 0 < rcv_wnd c -> Z.max n0 (rcv_wnd c) < 2 ^ 31 ->
  tracks b n0 (rcv_wnd c) r -> settled (rcv_wnd c) r -> 0 <= seg.sn new < 2 ^ 32 ->
  let r' := ikcp_parse_data c r new in
  tracks b n0 (rcv_wnd c) r' /\ settled (rcv_wnd c) r' /\
  (forall j, 0 <= j < 2 ^ 31 -> arrived b r j -> arrived b r' j) /\
  (forall j, 0 <= j -> n0 + j < rcv_wnd c -> seg.sn new = u32 (b + j) -> arrived b r' j).
Proof.
  intros Hr Hb Hn0 Hw Hmax Ht Hset Hsn r'. unfold r', ikcp_parse_data. pose proof (ro_nxt _ Hr) as Hnx.
  pose proof (offset_range b (rcv_nxt r)) as Ho.
  destruct ((0 <=? itimediff (seg.sn new) (u32 (rcv_nxt r + rcv_wnd c))) || (itimediff (seg.sn new) (rcv_nxt r) <? 0)) eqn:Ec.
  { split; [done|]. split; [done|]. split; [done|]. intros j Hj Hjw Es. left.
    destruct (Z_lt_le_dec j (offset b (rcv_nxt r))) as [|Hge]; [done|]. exfalso.
    destruct (in_window b (rcv_nxt r) j (rcv_wnd c)) as [H1 H2]; [lia..|]. rewrite <- Es in H1, H2. lia. }
  to_prop. pose proof (i32_range (seg.sn new - rcv_nxt r)) as Hi. fold (itimediff (seg.sn new) (rcv_nxt r)) in Hi.
  assert (offset (rcv_nxt r) (seg.sn new) < 2 ^ 31) as Hos by (rewrite itimediff_base; lia).
  pose proof (offset_range (rcv_nxt r) (seg.sn new)) as Hos0.
  pose proof (insert_back_spec (rcv_nxt r) 0 (2 ^ 31) (rev (rcv_buf r)) new
    ltac:(rewrite rev_involutive; apply (ro_buf _ Hr)) ltac:(lia) Hsn ltac:(lia)) as Hspec.
  set (r1 := match insert_back _ _ with Some rbuf => _ | None => r end).
  assert (receiver_ok r1 /\ tracks b n0 (rcv_wnd c) r1 /\ rcv_nxt r1 = rcv_nxt r /\
    (forall j, arrived b r j -> arrived b r1 j) /\ In (seg.sn new) (map seg.sn (rcv_buf r1))) as (Hr1 & Ht1 & En & Ha1 & Hin).
  { unfold r1. destruct (insert_back (rev (rcv_buf r)) new) as [rbuf|] eqn:Ei.
    - destruct Hspec as (Hasc & Hp). pose proof (Permutation_length Hp) as Hlen. cbn [length] in Hlen. rewrite length_rev in Hlen.
      pose proof (ascending_length (rcv_nxt r) 0 (2 ^ 31) _ ltac:(lia) (ro_buf _ Hr)) as Hl.
      assert (forall s, In s (new :: rcv_buf r) -> In s (rev rbuf)) as Hsub.
      { intros s Hs. apply in_rev. rewrite rev_involutive. eapply insert_back_in; [exact Ei|].
        destruct Hs as [-> | Hs]; [by left | right; by apply in_rev in Hs]. }
      split; [|split; [done|split; [done|split]]].
      + destruct Hr. constructor; simpl; try done. rewrite length_rev, u32_small by lia. lia.
      + intros j [Hj|Hj]; [by left | right]. cbn [rcv_buf]. apply in_map_iff in Hj as (s & <- & Hs).
        apply in_map. apply Hsub. by right.
      + cbn [rcv_buf]. apply in_map. apply Hsub. by left.
    - split; [done|]. split; [done|]. split; [done|]. split; [done|].
      apply list_elem_of_In, in_map_iff in Hspec as (s & <- & Hs). apply in_map. by apply in_rev. }
  clearbody r1.
  destruct (move_ready_arrived b n0 (rcv_wnd c) r1 Hr1 Hb Hn0 Hmax Ht1) as (Ht2 & Ha2).
  split; [done|]. split; [apply move_ready_settled|]. split; [auto|].
  intros j Hj Hjw Es. apply Ha2; [lia|]. right. by rewrite <- Es.
Qed.

(** Once the first [m] numbers have arrived, and there is room, they are delivered. *)
Lemma arrived_delivered b n0 wnd r m : receiver_ok r -> 0 <= b < 2 ^ 32 -> 0 <= n0 -> wnd < 2 ^ 31 -> n0 + m <= wnd ->
  tracks b n0 wnd r -> settled wnd r -> (forall j, 0 <= j < m -> arrived b r j) -> m <= offset b (rcv_nxt r).
Proof.
  intros Hr Hb Hn0 Hw Hm (Ht1 & Ht2) Hset Ha. pose proof (offset_range b (rcv_nxt r)) as Ho.
  destruct (Z_lt_le_dec (offset b (rcv_nxt r)) m) as [Hlt|]; [|done]. exfalso.
  destruct (Ha (offset b (rcv_nxt r))) as [H|H]; [lia | lia |].
  rewrite <- offset_inv in H by apply (ro_nxt _ Hr). pose proof (ro_buf _ Hr) as Hasc.
  destruct Hset as [Hs | Hs]; [|lia]. destruct (rcv_buf r) as [|s buf]; [done|].
  destruct Hasc as (_ & Hos & Hasc). destruct H as [H|H]; [done|].
  assert (forall lo, 0 < lo -> ascending (rcv_nxt r) lo (2 ^ 31) buf -> ~ In (rcv_nxt r) (map seg.sn buf)) as Hno.
  { clear. induction buf as [|p buf IH]; intros lo Hlo; [by intros _ []|]. intros (_ & Ho & Ha) [H|H].
    - rewrite H, offset_self in Ho. lia.
    - eapply IH; [|exact Ha | exact H]. lia. }
  eapply Hno; [|exact Hasc | exact H]. lia.
Qed.

(** ** The acknowledgements owed *)

Lemma pairs_app n l a b : length l = (2 * n)%nat -> pairs (l ++ [a; b]) = pairs l ++ [(a, b)].
Proof.
  revert l. induction n as [|n IH]; intros l Hl; [by destruct l|].
  destruct l as [|x [|y l]]; [done | simpl in Hl; lia |]. cbn [app pairs]. f_equal. apply IH. simpl in Hl. lia.
Qed.

Lemma ack_push_owed r sn ts r' : receiver_ok r -> ackcount r < 2 ^ 31 -> ikcp_ack_push r sn ts = Ok r' ->
  receiver_ok r' /\ ackcount r' = ackcount r + 1 /\ rcv_nxt r' = rcv_nxt r /\ rcv_buf r' = rcv_buf r /\
  nrcv_que r' = nrcv_que r /\ owed r' = owed r ++ [(sn, ts)].
Proof.
  intros Hr Hc E. destruct (ack_push_ok r sn ts Hr Hc) as (r1 & E1 & Hr1 & H1 & H2 & H3 & _ & H4 & _ & H5).
  rewrite E in E1. injection E1 as <-. split_and!; try done. unfold owed. rewrite H5.
  apply (pairs_app (Z.to_nat (ackcount r))). pose proof (ro_acks _ Hr). pose proof (ro_count _ Hr).
  rewrite length_take. lia.
Qed.

Lemma recv_rest_owed r r' : recv_rest r r' -> owed r' = owed r /\ ackcount r' = ackcount r.
Proof. intros (E1 & E2 & _). unfold owed. by rewrite E1, E2. Qed.

(** ** Taking segments in *)

Section Taking.
(** The number and the length of the queue at the start. *)
Context (b n0 : Z) (Hb : 0 <= b < 2 ^ 32) (Hn0 : 0 <= n0).

Record advancing (k : kcp) : Prop := {
  ad_wf : wf k;
  ad_room : Z.max n0 (rcv_wnd (cfg k)) < 2 ^ 31;
  ad_track : tracks b n0 (rcv_wnd (cfg k)) (rx k);
  ad_set : settled (rcv_wnd (cfg k)) (rx k)
}.

(** [k'] has taken in the segments [segs], none an acknowledgement. *)
Record took (segs : list (header * list Z)) (k k' : kcp) : Prop := {
  tk_adv : advancing k';
  tk_cfg : cfg k' = cfg k;
  tk_upd : updated (clk k') = updated (clk k);
  tk_cur : current (clk k') = current (clk k);
  tk_rtt : rtt k' = rtt k;
  tk_cnt : ackcount (rx k') <= ackcount (rx k) + zlen segs;
  tk_old : forall j, 0 <= j < 2 ^ 31 -> arrived b (rx k) j -> arrived b (rx k') j;
  tk_new : forall s j, In s segs -> h_cmd (fst s) = IKCP_CMD_PUSH -> h_sn (fst s) = u32 (b + j) ->
    0 <= j -> n0 + j < rcv_wnd (cfg k) -> arrived b (rx k') j;
  tk_owed : exists new, owed (rx k') = owed (rx k) ++ new /\
    Forall (fun p => exists s, In s segs /\ h_cmd (fst s) = IKCP_CMD_PUSH /\ snd p = h_ts (fst s)) new /\
    (new = [] -> rcv_nxt (rx k') = rcv_nxt (rx k));
  tk_tx : sender_kept (fun _ => False) (tx k) (tx k')
}.

Lemma took_nil k : advancing k -> took [] k k.
Proof.
  intros H. constructor; try done; [simpl; lia|]. exists []. rewrite app_nil_r. by split_and!.
Qed.

Lemma took_trans segs1 segs2 k1 k2 k3 : took segs1 k1 k2 -> took segs2 k2 k3 -> took (segs1 ++ segs2) k1 k3.
Proof.
  intros [A1 C1 U1 Cu1 R1 N1 O1 W1 (new1 & E1 & F1 & G1) T1] [A2 C2 U2 Cu2 R2 N2 O2 W2 (new2 & E2 & F2 & G2) T2].
  constructor; try congruence; try done.
  - rewrite length_app. lia.
  - auto.
  - intros s j Hin Hp Hs Hj Hw. apply in_app_iff in Hin as [Hin | Hin].
    + apply O2; [|by eapply W1]. pose proof (ad_room _ A2) as Hrm. rewrite C2, C1 in Hrm. lia.
    + rewrite <- C1 in Hw. by eapply W2.
  - exists (new1 ++ new2). rewrite E2, E1, <- app_assoc. split; [done|]. split.
    + apply Forall_app_2; (eapply list.Forall_impl; [eassumption|]); intros p (s & Hs & Hp); exists s; rewrite in_app_iff; auto.
    + intros H. apply app_eq_nil in H as [H1 H2]. rewrite G2, G1; done.
  - by eapply sender_kept_trans.
Qed.

(** One segment. *)
Lemma input_segment_took k ack h p : advancing k -> header_ok h -> h_cmd h <> IKCP_CMD_ACK -> ackcount (rx k) < 2 ^ 31 ->
  exists k' ack', input_segment k ack h p = Ok (k', ack') /\ took [(h, p)] k k' /\ (ack = None -> ack' = None).
Proof.
  intros [Hk Hroom Htr Hset] Hh Hna Hcnt. pose proof (input_segment_ok k ack h p Hk Hh Hcnt) as Hok.
  pose proof Hh as (_ & _ & _ & _ & _ & Hsn & _). pose proof Hk as (Hc & _ & Hr & _). pose proof Hc as (_ & _ & Hrw & _).
  pose proof (input_segment_kept (fun _ => False) k ack h p) as Hkept.
  pose proof (input_segment_cfg k ack h p) as Hcfg.
  unfold input_segment in *. rewrite (proj2 (Z.eqb_neq _ _) Hna) in *.
  assert (forall k' : kcp, wf k' -> rx k' = rx k -> cfg k' = cfg k -> updated (clk k') = updated (clk k) ->
    current (clk k') = current (clk k) -> rtt k' = rtt k -> sender_kept (fun _ => False) (tx k) (tx k') ->
    (h_cmd h = IKCP_CMD_PUSH -> forall j, h_sn h = u32 (b + j) -> 0 <= j -> n0 + j < rcv_wnd (cfg k) -> arrived b (rx k) j) ->
    took [(h, p)] k k') as Hsame.
  { intros k' Hk' Erx Ec Eu Ecu Er Htx Hnew. constructor; try done; rewrite ?Erx; try done.
    - constructor; rewrite ?Ec, ?Erx; done.
    - cbn [length]. lia.
    - intros s j [<- | []] Hp Hs Hj Hw. by apply Hnew.
    - exists []. rewrite app_nil_r. by split_and!. }
  destruct (h_cmd h =? IKCP_CMD_PUSH) eqn:Ep; to_prop.
  2: { destruct (h_cmd h =? IKCP_CMD_WASK); (eexists _, ack; split; [reflexivity|]; split; [|done]);
         destruct Hok as (Hk' & _); (apply Hsame; try done; by eapply Hkept). }
  cbn [rx cfg with_tx with_cc] in *.
  destruct (itimediff (h_sn h) (u32 (rcv_nxt (rx k) + rcv_wnd (cfg k))) <? 0) eqn:E1; to_prop.
  2: { eexists _, ack. split; [reflexivity|]. split; [|done]. destruct Hok as (Hk' & _).
       apply Hsame; try done; [by eapply Hkept|]. intros _ j Hs Hj Hw. left.
       destruct (Z_lt_le_dec j (offset b (rcv_nxt (rx k)))) as [|Hge]; [done|]. exfalso.
       pose proof (offset_range b (rcv_nxt (rx k))).
       destruct (in_window b (rcv_nxt (rx k)) j (rcv_wnd (cfg k))) as [_ H2]; [lia | apply (ro_nxt _ Hr) | lia.. |].
       rewrite <- Hs in H2. lia. }
  destruct (ack_push_ok (rx k) (h_sn h) (h_ts h) Hr Hcnt) as (r & Er & _). rewrite Er in *. cbn [mbind outcome_bind] in *.
  destruct (ack_push_owed _ _ _ _ Hr Hcnt Er) as (Hr' & Ecnt & Enx & Ebuf & Eque & Eowed).
  assert (tracks b n0 (rcv_wnd (cfg k)) r) as Htr' by (unfold tracks; by rewrite Eque, Enx).
  assert (settled (rcv_wnd (cfg k)) r) as Hset' by (unfold settled; by rewrite Eque, Enx, Ebuf).
  assert (forall j, arrived b (rx k) j -> arrived b r j) as Harr by (intros j; unfold arrived; by rewrite Enx, Ebuf).
  destruct (0 <=? itimediff (h_sn h) (rcv_nxt r)) eqn:E2; to_prop.
  - set (new := seg.Mk _ _ _ _ _ _ _ _ _ _ _ _) in *.
    destruct (parse_data_arrived b n0 (cfg k) r new Hr' Hb Hn0 ltac:(lia) Hroom Htr' Hset' Hsn) as (T1 & T2 & T3 & T4).
    destruct (parse_data_ok (cfg k) r new Hr' Hrw Hsn) as (_ & Hrest). destruct (recv_rest_owed _ _ Hrest) as (Eo & Ea).
    eexists _, ack. split; [reflexivity|]. split; [|done]. destruct Hok as (Hk' & _).
    constructor; cbn [rx cfg with_rx clk rtt with_tx with_cc]; try done.
    + cbn [length]. lia.
    + auto.
    + intros s j [<- | []] _ Hs Hj Hw. by apply T4.
    + exists [(h_sn h, h_ts h)]. rewrite Eo, Eowed. split; [done|]. split; [|done].
      constructor; [|constructor]. exists (h, p). by split; [left|].
    + by eapply Hkept.
  - eexists _, ack. split; [reflexivity|]. split; [|done]. destruct Hok as (Hk' & _).
    constructor; cbn [rx cfg with_rx clk rtt with_tx with_cc]; try done.
    + cbn [length]. lia.
    + auto.
    + intros s j [<- | []] _ Hs Hj Hw. cbn [fst] in Hs. apply Harr. left.
      destruct (Z_lt_le_dec j (offset b (rcv_nxt (rx k)))) as [|Hge]; [done|]. exfalso.
      pose proof (offset_range b (rcv_nxt (rx k))).
      destruct (in_window b (rcv_nxt (rx k)) j (rcv_wnd (cfg k))) as [H1 _]; [lia | apply (ro_nxt _ Hr) | lia.. |].
      rewrite <- Hs, <- Enx in H1. lia.
    + exists [(h_sn h, h_ts h)]. rewrite Eowed. split; [done|]. split; [|done].
      constructor; [|constructor]. exists (h, p). by split; [left|].
    + by eapply Hkept.
Qed.

Lemma handle_all_took segs k : advancing k -> Forall (fun s => header_ok (fst s) /\ h_cmd (fst s) <> IKCP_CMD_ACK) segs ->
  ackcount (rx k) + zlen segs <= 2 ^ 31 ->
  exists k', handle_all k None segs = Ok (k', None) /\ took segs k k'.
Proof.
  intros Ha Hs. revert k Ha. induction Hs as [|[h p] segs [Hh Hna] Hs IH]; intros k Ha Hc; cbn [handle_all].
  { exists k. split; [done | by apply took_nil]. }
  cbn [length] in Hc. destruct (input_segment_took k None h p Ha Hh Hna ltac:(lia)) as (k1 & ack1 & E & Ht & Hack).
  rewrite E, (Hack eq_refl). cbn [mbind outcome_bind]. pose proof (tk_cnt _ _ _ Ht) as Hcnt. cbn [length] in Hcnt.
  destruct (IH k1 (tk_adv _ _ _ Ht) ltac:(lia)) as (k2 & -> & Ht2). exists k2. split; [done|].
  by apply (took_trans [(h, p)] segs k k1 k2).
Qed.

End Taking.

(** ** Nothing past the last number *)

Definition bounded (b m : Z) (r : receiver) : Prop :=
  offset b (rcv_nxt r) <= m /\ Forall (fun s => offset b (seg.sn s) < m) (rcv_buf r).

Lemma move_ready_bounded b m wnd r : 0 <= b < 2 ^ 32 -> m < 2 ^ 31 -> 0 <= rcv_nxt r < 2 ^ 32 ->
  bounded b m r -> bounded b m (move_ready wnd (rcv_buf r) r).
Proof.
  intros Hb Hm. remember (rcv_buf r) as buf eqn:E. revert r E.
  induction buf as [|s buf IH]; intros r E Hn H; cbn [move_ready]; [done|].
  destruct ((seg.sn s =? rcv_nxt r) && (nrcv_que r <? wnd)) eqn:Ec; [|done]. to_prop.
  destruct H as [Ho Hf]. rewrite <- E in Hf. apply list.Forall_cons in Hf as [Hs Hf]. pose proof (offset_range b (rcv_nxt r)).
  apply IH; [done | apply u32_range |]. split; cbn [rcv_nxt rcv_buf]; [|done].
  rewrite offset_succ; [|done|done|lia]. replace (rcv_nxt r) with (seg.sn s) by done. lia.
Qed.

(** A number is in the range or, sent again, behind it. *)
Definition placed (b m sn : Z) : Prop := offset b sn < m \/ 2 ^ 32 - offset b sn + m <= 2 ^ 31.

Lemma behind_negative b m sn n : 0 <= offset b n <= m -> 0 < 2 ^ 32 - offset b sn + m <= 2 ^ 31 -> itimediff sn n < 0.
Proof. unfold offset, itimediff, wrap, swrap. Z.to_euclidean_division_equations. lia. Qed.

Lemma parse_data_bounded b m c r new : 0 <= b < 2 ^ 32 -> 0 <= m < 2 ^ 31 -> 0 <= rcv_nxt r < 2 ^ 32 ->
  bounded b m r -> placed b m (seg.sn new) -> bounded b m (ikcp_parse_data c r new).
Proof.
  intros Hb Hm Hn H Hnew. unfold ikcp_parse_data.
  destruct ((0 <=? itimediff (seg.sn new) (u32 (rcv_nxt r + rcv_wnd c))) || (itimediff (seg.sn new) (rcv_nxt r) <? 0)) eqn:Ec; [done|].
  to_prop. pose proof H as [Hb1 Hb2]. pose proof (offset_range b (rcv_nxt r)). pose proof (offset_range b (seg.sn new)).
  destruct Hnew as [Hnew | Hnew]; [|pose proof (behind_negative b m (seg.sn new) (rcv_nxt r) ltac:(lia) ltac:(lia)); lia].
  destruct (insert_back (rev (rcv_buf r)) new) as [rbuf|] eqn:E; [|apply move_ready_bounded; done || lia].
  match goal with |- bounded _ _ (move_ready _ _ ?r') => apply (move_ready_bounded _ _ _ r'); [done | lia | done|] end.
  split; [done|]. cbn [rcv_buf]. apply Forall_rev.
  eapply insert_back_forall; [exact E | done | by apply Forall_rev].
Qed.

Lemma input_segment_bounded b m k ack h p k' ack' : 0 <= b < 2 ^ 32 -> 0 <= m < 2 ^ 31 -> wf k -> bounded b m (rx k) ->
  (h_cmd h = IKCP_CMD_PUSH -> placed b m (h_sn h)) -> input_segment k ack h p = Ok (k', ack') -> bounded b m (rx k').
Proof.
  intros Hb Hm (_ & _ & Hr & _) H Hs. unfold input_segment. destruct (h_cmd h =? IKCP_CMD_ACK).
  { intros (t & _ & E)%outcome_bind_inv. by injection E as <- <-. }
  destruct (h_cmd h =? IKCP_CMD_PUSH) eqn:Ep; to_prop.
  2: { destruct (h_cmd h =? IKCP_CMD_WASK); intros E; by injection E as <- <-. }
  destruct (_ <? 0); [|intros E; by injection E as <- <-].
  intros (r & Er & E)%outcome_bind_inv. cbn [rx with_tx with_cc] in Er. apply ack_push_same in Er as (_ & E2 & E3).
  assert (bounded b m r) as Hr' by (destruct H as [H1 H2]; split; by rewrite ?E2, ?E3).
  destruct (_ <=? _); injection E as <- <-; [|done]. cbn [rx with_rx cfg].
  apply parse_data_bounded; [done | done | rewrite E2; apply (ro_nxt _ Hr) | done | by apply Hs].
Qed.

(** ** Whole datagrams *)

(** [ikcp_input] of each datagram in turn. *)
Fixpoint inputs (k : kcp) (ds : list (list Z)) : outcome kcp :=
  match ds with
  | [] => Ok k
  | d :: ds' => let* (_, k) := ikcp_input k d in inputs k ds'
  end.

Lemma wire_header_ok s : header_ok (wire_header s).
Proof. unfold header_ok, wire_header. cbn. split_and!; (apply Z.mod_pos_bound; lia). Qed.

(** A segment of a datagram that carries no acknowledgement. *)
Definition carried (cv b m : Z) (s : seg.t) : Prop :=
  addressed cv s /\ seg.cmd s <> IKCP_CMD_ACK /\ (seg.cmd s = IKCP_CMD_PUSH -> placed b m (seg.sn s mod 2 ^ 32)).

Lemma handle_all_bounded b n0 m g k k' : 0 <= b < 2 ^ 32 -> 0 <= n0 -> 0 <= m < 2 ^ 31 -> advancing b n0 k -> bounded b m (rx k) ->
  Forall (carried (conv (cfg k)) b m) g -> ackcount (rx k) + zlen g <= 2 ^ 31 ->
  handle_all k None (map arrival g) = Ok (k', None) -> bounded b m (rx k').
Proof.
  intros Hb Hn0 Hm Ha H Hg. revert k Ha H Hg. induction g as [|s g IH]; intros k Ha H Hg Hc; cbn [map handle_all].
  { by intros [= <-]. }
  apply list.Forall_cons in Hg as [(Hs1 & Hs2 & Hs3) Hg]. cbn [length] in Hc. destruct Hs1 as (Hcv & Hk & Hl).
  pose proof (known_cmd_byte _ Hk) as Hcmd. unfold arrival at 1.
  destruct (input_segment_took b n0 Hb Hn0 k None (wire_header s) (seg.data s) Ha (wire_header_ok s))
    as (k1 & ack1 & E & Ht & Hack); [cbn [h_cmd wire_header]; by rewrite Hcmd | lia |].
  rewrite E, (Hack eq_refl). cbn [mbind outcome_bind]. pose proof (tk_cnt _ _ _ _ _ Ht) as Hcnt. cbn [length] in Hcnt.
  pose proof (tk_cfg _ _ _ _ _ Ht) as Ec. apply IH; [apply Ht | | by rewrite Ec | lia].
  eapply input_segment_bounded; [done | done | apply Ha | done | | exact E].
  cbn [h_cmd h_sn wire_header]. by rewrite Hcmd.
Qed.

Lemma took_cc b n0 segs k k1 c : took b n0 segs k k1 -> cc_ok c -> took b n0 segs k (with_cc c k1).
Proof.
  intros [[(H1 & H2 & H3 & H4 & _) A2 A3 A4] T2 T3 T4 T5 T6 T7 T8 T9 T10] Hc. constructor; try done.
Qed.

Lemma inputs_took b n0 m gs k : 0 <= b < 2 ^ 32 -> 0 <= n0 -> 0 <= m < 2 ^ 31 -> advancing b n0 k -> bounded b m (rx k) ->
  Forall (fun g => g <> [] /\ Forall (carried (conv (cfg k)) b m) g) gs ->
  ackcount (rx k) + zlen (concat gs) <= 2 ^ 31 ->
  exists k', inputs k (map datagram gs) = Ok k' /\ took b n0 (map arrival (concat gs)) k k' /\ bounded b m (rx k').
Proof.
  intros Hb Hn0 Hm. revert k. induction gs as [|g gs IH]; intros k Ha H Hgs Hc.
  { exists k. split; [done|]. split; [by apply took_nil | done]. }
  apply list.Forall_cons in Hgs as [(Hg0 & Hg) Hgs]. cbn [concat] in Hc. rewrite length_app in Hc.
  assert (Forall (addressed (conv (cfg k))) g) as Hga by (eapply list.Forall_impl; [exact Hg | by intros s []]).
  destruct (handle_all_took b n0 Hb Hn0 (map arrival g) k Ha) as (k1 & E & Ht).
  { apply list.Forall_forall. intros x Hx. apply list_elem_of_In, in_map_iff in Hx as (s & <- & Hs).
    split; [apply wire_header_ok|]. apply list_elem_of_In in Hs.
    destruct (proj1 (list.Forall_forall _ _) Hg s Hs) as ((_ & Hk & _) & Hna & _).
    cbn [fst arrival h_cmd wire_header]. by rewrite known_cmd_byte. }
  { rewrite length_map. lia. }
  assert (bounded b m (rx k1)) as Hb1 by (eapply (handle_all_bounded b n0); [done | done | done | exact Ha | done | exact Hg | lia | exact E]).
  cbn [map inputs]. rewrite (input_datagram k g Hga Hg0), E. cbn [mbind outcome_bind].
  set (k2 := if _ <? _ then _ else k1).
  assert (took b n0 (map arrival g) k k2 /\ rx k2 = rx k1) as (Ht2 & Er).
  { unfold k2. destruct (_ <? _); [|done]. split; [|done]. apply took_cc; [done|].
    destruct (ad_wf _ _ _ (tk_adv _ _ _ _ _ Ht)) as ((? & _) & _ & _ & _ & Hcc). apply grow_window_ok; [lia | done]. }
  clearbody k2. pose proof (tk_cnt _ _ _ _ _ Ht2) as Hcnt. rewrite length_map in Hcnt. pose proof (tk_cfg _ _ _ _ _ Ht2) as Ec.
  destruct (IH k2) as (k3 & E3 & Ht3 & Hb3); [apply Ht2 | by rewrite Er | by rewrite Ec | lia |].
  exists k3. split; [done|]. split; [|done]. cbn [concat]. rewrite map_app. by eapply took_trans.
Qed.

(** ** The acknowledging half *)

(** A [una] that covers all that was sent empties the buffer. *)
Lemma after_una_clears s : sender_ok s -> snd_buf (after_una s (snd_nxt s)) = [] /\ snd_nxt (after_una s (snd_nxt s)) = snd_nxt s.
Proof.
  intros [Hu Hn Hg Hb Hh Hc Hq]. unfold after_una, ikcp_parse_una.
  assert (forall lo n, 0 <= lo -> ascending (snd_una s) lo (offset (snd_una s) (snd_nxt s)) (snd_buf s) ->
    fst (una_loop (snd_nxt s) (snd_buf s) n) = []) as Hloop.
  { clear Hb Hh Hc. induction (snd_buf s) as [|p buf IH]; intros lo n Hlo; [done|]. intros (Hs & Ho & Ha). cbn [una_loop].
    rewrite (itimediff_offset (snd_una s)) by lia.
    assert ((0 <? offset (snd_una s) (snd_nxt s) - offset (snd_una s) (seg.sn p)) = true) as -> by (apply Z.ltb_lt; lia).
    eapply (IH (offset (snd_una s) (seg.sn p) + 1)); [lia | done]. }
  specialize (Hloop 0 (nsnd_buf s) ltac:(lia) Hb).
  destruct (una_loop (snd_nxt s) (snd_buf s) (nsnd_buf s)) as [buf n]. simpl in Hloop. subst buf.
  by unfold ikcp_shrink_buf.
Qed.

Lemma kept_empty s s' : sender_kept (fun _ => False) s s' -> snd_buf s = [] -> snd_buf s' = [] /\ snd_nxt s' = snd_nxt s.
Proof.
  intros (E & _ & Hf) Hs. split; [|done]. rewrite Hs in Hf. specialize (Hf (Forall_nil _ )).
  destruct (snd_buf s') as [|p l]; [done|]. by apply list.Forall_cons in Hf as [[] _].
Qed.

(** Handling such headers keeps everything in order and leaves nothing to send. *)
Lemma handle_all_clears g k ack : wf k -> calm (rtt k) ->
  Forall (fun s => addressed (conv (cfg k)) s /\ seg.una s mod 2 ^ 32 = snd_nxt (tx k) /\ fresh (current (clk k)) (wire_header s)) g ->
  ackcount (rx k) + zlen g <= 2 ^ 31 -> g <> [] \/ snd_buf (tx k) = [] ->
  exists k' ack', handle_all k ack (map arrival g) = Ok (k', ack') /\ wf k' /\ calm (rtt k') /\ cfg k' = cfg k /\
    current (clk k') = current (clk k) /\ ackcount (rx k') <= ackcount (rx k) + zlen g /\
    snd_buf (tx k') = [] /\ snd_nxt (tx k') = snd_nxt (tx k).
Proof.
  revert k ack. induction g as [|s g IH]; intros k ack Hk Hcalm Hg Hc Hne; cbn [map handle_all].
  { destruct Hne as [|Hne]; [done|]. exists k, ack. cbn [length]. rewrite Z.add_0_r. by split_and!. }
  apply list.Forall_cons in Hg as [(Had & Hu & Hfr) Hg]. cbn [length] in *. unfold arrival at 1.
  pose proof (input_segment_ok k ack (wire_header s) (seg.data s) Hk (wire_header_ok s) ltac:(lia)) as Hok.
  destruct (input_segment k ack (wire_header s) (seg.data s)) as [[k1 ack1]|f] eqn:E; [|by destruct Hok as (_ & []); split].
  destruct Hok as (Hk1 & Hcnt & Hcalm1). cbn [mbind outcome_bind].
  pose proof (input_segment_cfg _ _ _ _ _ _ E) as (Ec & _ & Ecu).
  apply (input_segment_after_una (fun _ => False)) in E. cbn [h_una wire_header] in E. rewrite Hu in E.
  destruct (after_una_clears (tx k)) as (Hb0 & Hn0); [apply Hk|]. apply kept_empty in E as (Hb1 & Hn1); [|done].
  rewrite Hn0 in Hn1.
  destruct (IH k1 ack1) as (k2 & ack2 & E2 & Hk2 & Hcalm2 & Ec2 & Ecu2 & Hcnt2 & Hb2 & Hn2);
    [done | by apply Hcalm1 | by rewrite Ec, Hn1, Ecu | lia | by right |].
  exists k2, ack2. split_and!; try done; try congruence. lia.
Qed.

Lemma inputs_clears gs k : wf k -> calm (rtt k) ->
  Forall (fun g => g <> [] /\ Forall (fun s => addressed (conv (cfg k)) s /\ seg.una s mod 2 ^ 32 = snd_nxt (tx k) /\
    fresh (current (clk k)) (wire_header s)) g) gs ->
  ackcount (rx k) + zlen (concat gs) <= 2 ^ 31 -> gs <> [] \/ snd_buf (tx k) = [] ->
  exists k', inputs k (map datagram gs) = Ok k' /\ wf k' /\ snd_buf (tx k') = [] /\ snd_nxt (tx k') = snd_nxt (tx k).
Proof.
  revert k. induction gs as [|g gs IH]; intros k Hk Hcalm Hgs Hc Hne.
  { destruct Hne as [|Hne]; [done|]. by exists k. }
  apply list.Forall_cons in Hgs as [(Hg0 & Hg) Hgs]. cbn [concat] in Hc. rewrite length_app in Hc.
  assert (Forall (addressed (conv (cfg k))) g) as Hga by (eapply list.Forall_impl; [exact Hg | by intros s []]).
  destruct (handle_all_clears g k None Hk Hcalm Hg ltac:(lia) (or_introl Hg0))
    as (k1 & ack & E & Hk1 & Hcalm1 & Ec1 & Ecu1 & Hcnt1 & Hb1 & Hn1).
  cbn [map inputs]. rewrite (input_datagram k g Hga Hg0), E. cbn [mbind outcome_bind].
  set (k2 := match ack with Some maxack => _ | None => k1 end).
  assert (wf k2 /\ rtt k2 = rtt k1 /\ cfg k2 = cfg k1 /\ clk k2 = clk k1 /\ rx k2 = rx k1 /\
    snd_buf (tx k2) = [] /\ snd_nxt (tx k2) = snd_nxt (tx k1)) as (Hk2 & Et2 & Ec2 & Ecl2 & Er2 & Hb2 & Hn2).
  { unfold k2. destruct ack as [mx|]; [|by split_and!].
    destruct (kept_empty (tx k1) (ikcp_parse_fastack (tx k1) mx)) as (H1 & H2); [by apply parse_fastack_kept | done|].
    split; [|by split_and!]. destruct Hk1 as (? & ? & ? & ? & ?). apply wf_intro; simpl; auto with cxx. }
  clearbody k2. set (k3 := if _ <? _ then _ else k2).
  assert (wf k3 /\ rtt k3 = rtt k2 /\ cfg k3 = cfg k2 /\ clk k3 = clk k2 /\ rx k3 = rx k2 /\ tx k3 = tx k2)
    as (Hk3 & Et3 & Ec3 & Ecl3 & Er3 & Etx3).
  { unfold k3. destruct (_ <? _); [|by split_and!]. split; [|by split_and!].
    destruct Hk2 as ((? & ?) & ? & ? & ? & ?). apply wf_intro; try done. apply grow_window_ok; [simpl; lia | done]. }
  clearbody k3.
  destruct (IH k3) as (k4 & E4 & Hk4 & Hb4 & Hn4).
  - done.
  - by rewrite Et3, Et2.
  - by rewrite Ec3, Ec2, Ec1, Ecl3, Ecl2, Ecu1, Etx3, Hn2, Hn1.
  - rewrite Er3, Er2. lia.
  - right. by rewrite Etx3.
  - exists k4. split_and!; try done. by rewrite Hn4, Etx3, Hn2, Hn1.
Qed.

(** ** One round without loss *)

(** What the receiver still lacks. *)
Definition lacking (a b : kcp) : Z := offset (rcv_nxt (rx b)) (snd_nxt (admitted a)).

(** Two end points at the start of a round: the sender has a segment for every number
    the receiver lacks and it is due; the receiver has room for them and nothing to
    send itself. *)
Record coupled (a b : kcp) : Prop := {
  cp_a : good a;
  cp_b : good b;
  cp_conv : conv (cfg b) = conv (cfg a) /\ 0 <= conv (cfg a) < 2 ^ 32;
  cp_run : updated (clk a) <> 0 /\ updated (clk b) <> 0;
  cp_now : 0 <= current (clk a) < 2 ^ 32;
  cp_calm : calm (rtt a);
  cp_acks : ackcount (rx a) = 0 /\ ackcount (rx b) = 0;
  cp_idle : snd_buf (tx b) = [] /\ snd_queue (tx b) = [];
  cp_ours : Forall (fun s => seg.conv s = conv (cfg a) /\ seg.cmd s = IKCP_CMD_PUSH) (snd_buf (tx a));
  cp_settled : settled (rcv_wnd (cfg b)) (rx b);
  cp_lacks : 0 < lacking a b;
  cp_room : nrcv_que (rx b) + lacking a b <= rcv_wnd (cfg b) <= 2 ^ 30;
  cp_small : in_flight (admitted a) <= 2 ^ 30;
  cp_below : Forall (fun s => offset (rcv_nxt (rx b)) (seg.sn s) < lacking a b) (rcv_buf (rx b));
  cp_between : offset (snd_una (tx a)) (rcv_nxt (rx b)) <= in_flight (admitted a);
  cp_has : forall j, 0 <= j < lacking a b ->
    arrived (rcv_nxt (rx b)) (rx b) j \/
    exists s, In s (snd_buf (admitted a)) /\ seg.sn s = u32 (rcv_nxt (rx b) + j) /\ is_due a s = true
}.

Lemma ascending_in b lo hi buf s : In s buf -> ascending b lo hi buf -> 0 <= seg.sn s < 2 ^ 32 /\ offset b (seg.sn s) < hi.
Proof.
  revert lo. induction buf as [|p buf IH]; intros lo; [done|].
  intros [-> | Hin] (Hs & Ho & Ha); [lia | by eapply IH].
Qed.

Lemma data_segments_in k buf s : In s (data_segments k buf) <-> exists p, In p buf /\ is_due k p = true /\ s = flushed k p.
Proof.
  unfold data_segments. rewrite in_flat_map. split.
  - intros (p & Hp & Hs). destruct (is_due k p) eqn:E; [|done]. destruct Hs as [<- | []]. by exists p.
  - intros (p & Hp & E & ->). exists p. split; [done|]. rewrite E. by left.
Qed.

Lemma length_data_segments k buf : (length (data_segments k buf) <= length buf)%nat.
Proof.
  induction buf as [|s buf IH]; [done|]. unfold data_segments in *. cbn [flat_map]. rewrite length_app.
  destruct (is_due k s); cbn [length]; lia.
Qed.

Lemma probe_segments_control k : (length (probe_segments k) <= 2)%nat /\
  Forall (fun s => seg.conv s = conv (cfg k) /\ seg.data s = [] /\ seg.una s = rcv_nxt (rx k) /\
    (seg.cmd s = IKCP_CMD_WASK \/ seg.cmd s = IKCP_CMD_WINS)) (probe_segments k).
Proof.
  unfold probe_segments. destruct (List.last _ _) as [sn ts].
  split; [destruct (negb _), (negb _); simpl; lia|].
  apply Forall_app_2; (destruct (negb _); [|constructor]); (constructor; [|constructor]); simpl; auto 6.
Qed.

Lemma in_concat_forall {A} (P : A -> Prop) (ls : list (list A)) : Forall P (concat ls) -> Forall (Forall P) ls.
Proof.
  induction ls as [|l ls IH]; [constructor|]. cbn [concat]. intros H. apply Forall_app in H as [H1 H2].
  constructor; auto.
Qed.

Lemma concat_perm {A} (l1 l2 : list (list A)) : Permutation l1 l2 -> Permutation (concat l1) (concat l2).
Proof.
  induction 1 as [|l l1 l2 _ IH|l l' l1|l1 l2 l3 _ IH1 _ IH2]; cbn [concat].
  - done.
  - by apply Permutation_app_head.
  - rewrite !app_assoc. apply Permutation_app_tail, Permutation_app_comm.
  - by etrans.
Qed.

Lemma fits_nonempty c g : fits c g -> g <> [].
Proof. intros [H _] ->. cbn in H. lia. Qed.

Lemma admitted_ours a : wf a ->
  Forall (fun s => seg.conv s = conv (cfg a) /\ seg.cmd s = IKCP_CMD_PUSH) (snd_buf (tx a)) ->
  Forall (fun s => seg.conv s = conv (cfg a) /\ seg.cmd s = IKCP_CMD_PUSH) (snd_buf (admitted a)).
Proof.
  intros Ha H. destruct (admitted_spec a Ha) as (_ & _ & _ & _ & (qs & _ & -> & _)).
  apply Forall_app_2; [done|]. generalize (snd_nxt (tx a)). clear.
  induction qs as [|q qs IH]; intros n; constructor; [done | apply IH].
Qed.

(** A data segment as it is sent. *)
Lemma flushed_ours a p : wf a ->
  Forall (fun s => seg.conv s = conv (cfg a) /\ seg.cmd s = IKCP_CMD_PUSH) (snd_buf (tx a)) -> In p (snd_buf (admitted a)) ->
  seg.conv (flushed a p) = conv (cfg a) /\ seg.cmd (flushed a p) = IKCP_CMD_PUSH /\ seg.len (flushed a p) = seg.len p /\
  (is_due a p = true -> seg.ts (flushed a p) = current (clk a)).
Proof.
  intros Ha H Hin. apply list_elem_of_In in Hin. destruct (proj1 (list.Forall_forall _ _) (admitted_ours a Ha H) p Hin) as [H1 H2].
  unfold flushed, is_due. by destruct (due _ _ _ p).
Qed.

(** Every segment the sender flushes is one the receiver will take. *)
Lemma flush_carried a b : coupled a b ->
  Forall (carried (conv (cfg b)) (rcv_nxt (rx b)) (lacking a b)) (flush_segments a) /\
  zlen (flush_segments a) <= 2 + in_flight (admitted a).
Proof.
  intros H. destruct (cp_conv _ _ H) as (Ec & Hcv). destruct (cp_a _ _ H) as (Ha & Hfr & Hsz).
  pose proof (admitted_spec a Ha) as (Hok & Eu & _).
  pose proof (admitted_sized a Ha Hsz) as (Hsb & _). pose proof (cp_small _ _ H) as Hsm.
  assert (owed (rx a) = []) as Eo by (unfold owed; by rewrite (proj1 (cp_acks _ _ H))).
  destruct (probe_segments_control a) as (Hpl & Hp). pose proof (cp_b _ _ H) as ((_ & _ & Hrb & _) & _).
  split.
  - unfold flush_segments, ack_segments. rewrite Eo. cbn [map app]. apply Forall_app_2.
    + eapply list.Forall_impl; [exact Hp|]. intros s (H1 & H2 & _ & H3).
      split; [split_and!|]; [by rewrite H1, Ec, Z.mod_small | by destruct H3 as [-> | ->] | unfold seg.len; by rewrite H2 |].
      destruct H3 as [-> | ->]; done.
    + apply list.Forall_forall. intros s Hs. apply list_elem_of_In, data_segments_in in Hs as (p & Hp' & _ & ->).
      destruct (flushed_ours a p Ha (cp_ours _ _ H) Hp') as (E1 & E2 & E3 & _). apply list_elem_of_In in Hp'.
      pose proof (proj1 (list.Forall_forall _ _) Hsb p Hp') as Hlen. simpl in Hlen. pose proof Ha as ((Hms & _) & _).
      split; [split_and!|]; [by rewrite E1, Ec, Z.mod_small | by rewrite E2 | rewrite E3; lia |].
      rewrite E2. split; [done|]. intros _. rewrite flushed_sn.
      (* the number, seen from [rcv_nxt] *)
      assert (0 <= seg.sn p < 2 ^ 32 /\ offset (snd_una (tx a)) (seg.sn p) < in_flight (admitted a)) as (Hsn & Hoff).
      { pose proof (so_buf _ Hok) as Hasc. unfold in_flight. rewrite Eu in *.
        apply (ascending_in _ 0 _ (snd_buf (admitted a))); [by apply list_elem_of_In | done]. }
      rewrite Z.mod_small by lia. unfold placed.
      pose proof (cp_between _ _ H) as Hbt. unfold lacking.
      assert (offset (rcv_nxt (rx b)) (snd_nxt (admitted a)) = in_flight (admitted a) - offset (snd_una (tx a)) (rcv_nxt (rx b))) as El.
      { unfold in_flight in *. rewrite Eu in *. rewrite (offset_inv (snd_una (tx a)) (rcv_nxt (rx b))) at 1 by apply (ro_nxt _ Hrb).
        apply offset_shift. pose proof (offset_range (snd_una (tx a)) (rcv_nxt (rx b))). lia. }
      rewrite El. pose proof (offset_range (snd_una (tx a)) (rcv_nxt (rx b))) as Hr1.
      pose proof (offset_range (snd_una (tx a)) (seg.sn p)) as Hr2. revert Hoff Hbt Hr1 Hr2 Hsm. generalize (in_flight (admitted a)). clear.
      unfold offset, wrap. intros f. Z.to_euclidean_division_equations. lia.
  - unfold flush_segments, ack_segments. rewrite Eo. cbn [map app]. rewrite length_app.
    pose proof (length_data_segments a (snd_buf (admitted a))).
    pose proof (ascending_length _ _ _ _ (proj1 (offset_range _ _)) (so_buf _ Hok)) as Hl. unfold in_flight. lia.
Qed.

Lemma length_owed r : receiver_ok r -> zlen (owed r) = ackcount r.
Proof.
  intros Hr. pose proof (ro_acks _ Hr). pose proof (ro_count _ Hr). unfold owed.
  assert (forall n l, length l = (2 * n)%nat -> length (pairs l) = n) as Hp.
  { clear. induction n as [|n IH]; intros l Hl; [by destruct l|].
    destruct l as [|x [|y l]]; simpl in Hl; [lia..|]. cbn [pairs length]. rewrite IH; lia. }
  rewrite (Hp (Z.to_nat (ackcount r))); [lia|]. rewrite length_take. lia.
Qed.

(** What the sender's flush sends gets the receiver all it lacked. *)
Lemma round_delivers a b gs : coupled a b -> Permutation (concat gs) (flush_segments a) -> Forall (fun g => g <> []) gs ->
  exists b', inputs b (map datagram gs) = Ok b' /\
    took (rcv_nxt (rx b)) (nrcv_que (rx b)) (map arrival (concat gs)) b b' /\
    rcv_nxt (rx b') = snd_nxt (admitted a) /\ nrcv_que (rx b') = nrcv_que (rx b) + lacking a b.
Proof.
  intros H Hp Hne. destruct (flush_carried a b H) as (Hcar & Hlen). pose proof (cp_b _ _ H) as (Hb & _).
  pose proof Hb as (_ & _ & Hrb & _). pose proof (ro_nxt _ Hrb) as Hnx. pose proof (ro_nque _ Hrb) as (Hq0 & Hq1).
  pose proof (cp_room _ _ H) as Hroom. pose proof (cp_small _ _ H) as Hsm. pose proof (cp_lacks _ _ H) as Hlk.
  pose proof (admitted_spec a (proj1 (cp_a _ _ H))) as (Hok & _).
  assert (advancing (rcv_nxt (rx b)) (nrcv_que (rx b)) b) as Hadv.
  { constructor; [done | lia | split; [rewrite offset_self; lia | lia] | apply (cp_settled _ _ H)]. }
  destruct (inputs_took (rcv_nxt (rx b)) (nrcv_que (rx b)) (lacking a b) gs b) as (b' & E & Ht & Hbd); try done; try lia.
  { split; [rewrite offset_self; lia | apply (cp_below _ _ H)]. }
  { assert (Forall (carried (conv (cfg b)) (rcv_nxt (rx b)) (lacking a b)) (concat gs)) as Hc by (by rewrite Hp).
    apply in_concat_forall in Hc. apply list.Forall_forall. intros g Hg.
    split; [exact (proj1 (list.Forall_forall _ _) Hne g Hg) | exact (proj1 (list.Forall_forall _ _) Hc g Hg)]. }
  { rewrite (Permutation_length Hp), (proj2 (cp_acks _ _ H)). lia. }
  exists b'. split; [done|]. split; [done|].
  pose proof (tk_adv _ _ _ _ _ Ht) as [Hb' _ Htr Hset]. pose proof Hb' as (_ & _ & Hrb' & _).
  rewrite (tk_cfg _ _ _ _ _ Ht) in Htr, Hset.
  assert (lacking a b <= offset (rcv_nxt (rx b)) (rcv_nxt (rx b'))) as Hge.
  { apply (arrived_delivered _ (nrcv_que (rx b)) (rcv_wnd (cfg b)) (rx b')); try done; try lia.
    intros j Hj. destruct (cp_has _ _ H j Hj) as [Harr | (s & Hs & Hsn & Hdue)].
    - apply (tk_old _ _ _ _ _ Ht); [lia | done].
    - apply (tk_new _ _ _ _ _ Ht (arrival (flushed a s))); [| | | lia | lia].
      + apply in_map. apply (Permutation_in _ (Permutation_sym Hp)). unfold flush_segments. rewrite !in_app_iff. right. right.
        apply data_segments_in. by exists s.
      + cbn [fst arrival h_cmd wire_header].
        destruct (flushed_ours a s (proj1 (cp_a _ _ H)) (cp_ours _ _ H) Hs) as (_ & -> & _). done.
      + cbn [fst arrival h_sn wire_header]. rewrite flushed_sn, Hsn. apply Z.mod_small. apply u32_range. }
  assert (offset (rcv_nxt (rx b)) (rcv_nxt (rx b')) = lacking a b) as Eo by (destruct Hbd; lia).
  split; [|destruct Htr; lia].
  rewrite (offset_inv (rcv_nxt (rx b)) (rcv_nxt (rx b'))), Eo by apply (ro_nxt _ Hrb'). unfold lacking.
  by rewrite <- offset_inv by apply (so_nxt _ Hok).
Qed.

(** The receiver's answer to a round, if it has nothing to send itself. *)
Lemma round_answers b b' segs T : good b -> updated (clk b) <> 0 -> snd_buf (tx b) = [] -> snd_queue (tx b) = [] ->
  ackcount (rx b) = 0 -> took (rcv_nxt (rx b)) (nrcv_que (rx b)) segs b b' -> zlen segs <= 2 ^ 31 ->
  rcv_nxt (rx b') <> rcv_nxt (rx b) -> 0 <= conv (cfg b) < 2 ^ 32 ->
  (forall s, In s segs -> h_cmd (fst s) = IKCP_CMD_PUSH -> h_ts (fst s) = T) ->
  exists b2 gs, ikcp_flush b' = Ok (b2, map datagram gs) /\ gs <> [] /\ Forall (fun g => g <> []) gs /\
    zlen (concat gs) <= zlen segs + 2 /\
    Forall (fun s => addressed (conv (cfg b)) s /\ seg.una s mod 2 ^ 32 = rcv_nxt (rx b') /\
      (seg.cmd s = IKCP_CMD_ACK -> seg.ts s = T)) (concat gs).
Proof.
  intros (_ & Hfr & _) Hu Hsb Hsq Hac Ht Hn Hmoved Hcv Hts.
  pose proof (ad_wf _ _ _ (tk_adv _ _ _ _ _ Ht)) as Hk. pose proof Hk as (_ & Hs & Hr & _).
  destruct (tk_tx _ _ _ _ _ Ht) as (_ & Eq & Eb). rewrite Hsq in Eq.
  assert (snd_buf (tx b') = []) as Eb'.
  { rewrite Hsb in Eb. specialize (Eb (Forall_nil _)). destruct (snd_buf (tx b')); [done|]. by apply list.Forall_cons in Eb as [[] _]. }
  assert (all_sized b') as Hz by (split; [rewrite Eb' | rewrite Eq]; constructor).
  destruct (flush_cases b' Hk) as (b2 & gs & E & Eg & Hf & _); [by rewrite (tk_cfg _ _ _ _ _ Ht) | done | by rewrite (tk_upd _ _ _ _ _ Ht) |].
  exists b2, gs. split; [done|].
  destruct (admitted_spec b' Hk) as (_ & _ & _ & _ & (qs & E1 & E2 & _)). rewrite Eq in E1.
  symmetry in E1. apply app_eq_nil in E1 as [-> _]. cbn [admit_all] in E2. rewrite app_nil_r, Eb' in E2.
  unfold flush_segments in Eg. rewrite E2, app_nil_r in Eg. unfold data_segments in Eg. cbn [flat_map] in Eg.
  destruct (tk_owed _ _ _ _ _ Ht) as (new & Eo & Hnew & Hno). unfold owed at 2 in Eo. rewrite Hac in Eo. cbn [app] in Eo.
  change (Z.to_nat (2 * 0)) with 0%nat in Eo. rewrite take_0 in Eo. cbn [pairs app] in Eo. subst new.
  destruct (probe_segments_control b') as (Hpl & Hp). pose proof (length_owed _ Hr) as Hlo.
  pose proof (tk_cnt _ _ _ _ _ Ht) as Hcnt. rewrite (tk_cfg _ _ _ _ _ Ht) in Hp. pose proof (ro_nxt _ Hr) as Hnx.
  split_and!.
  - intros ->. cbn [concat] in Eg. symmetry in Eg. unfold ack_segments in Eg. apply app_eq_nil in Eg as [Eg _].
    apply map_eq_nil in Eg. by apply Hmoved, Hno.
  - eapply list.Forall_impl; [exact Hf|]. intros g. apply fits_nonempty.
  - rewrite Eg, length_app. unfold ack_segments. rewrite length_map. lia.
  - rewrite Eg. apply Forall_app_2.
    + unfold ack_segments. apply list.Forall_forall. intros s Hin. apply list_elem_of_In, in_map_iff in Hin as (p & <- & Hin).
      apply list_elem_of_In in Hin. destruct (proj1 (list.Forall_forall _ _) Hnew p Hin) as (x & Hx & Hpush & Ep).
      unfold flush_seg, addressed. cbn [seg.conv seg.cmd seg.una seg.ts]. rewrite (tk_cfg _ _ _ _ _ Ht).
      split; [split_and!; [by rewrite Z.mod_small | done | done]|]. split; [by rewrite Z.mod_small|].
      intros _. rewrite Ep. by apply Hts.
    + eapply list.Forall_impl; [exact Hp|]. intros s (H1 & H2 & H3 & H4).
      split; [split_and!; [by rewrite H1, Z.mod_small | by destruct H4 as [-> | ->] | unfold seg.len; by rewrite H2]|].
      rewrite H3, Z.mod_small by lia. split; [done|]. destruct H4 as [-> | ->]; done.
Qed.

(** ** The claim *)


Lemma sample_coupled : coupled sample_sender (ready (ikcp_create 7)).
Proof.
  destruct sample_sender_ok as (H1 & H2 & H3 & H4).
  assert (lacking sample_sender (ready (ikcp_create 7)) = 1) as El by (vm_compute; reflexivity).
  assert (in_flight (admitted sample_sender) = 1) as Ei by (vm_compute; reflexivity).
  constructor; rewrite ?El, ?Ei.
  - done.
  - apply with_times_good, create_good.
  - split; [reflexivity | vm_compute; split; congruence].
  - split; [exact H4 | discriminate].
  - vm_compute. split; congruence.
  - vm_compute. repeat split; congruence.
  - split; reflexivity.
  - split; reflexivity.
  - constructor.
  - by left.
  - lia.
  - vm_compute. split; congruence.
  - lia.
  - constructor.
  - vm_compute. congruence.
  - intros j Hj. right. replace j with 0 by lia.
    destruct (snd_buf (admitted sample_sender)) as [|s l] eqn:E; [vm_compute in E; discriminate E|].
    exists s. vm_compute in E. injection E as <- <-. split; [by left | by split].
Qed.

