(* ===== verification/KcpLink.v ===== *)
(** * The simulated network of the KCP test

    io/kcp/test.h: a generator of random numbers that draws without replacement
    (Module Random), and a link that drops and delays the packets of two directions
    (Module LatencySimulator).  [rand] and the clock are the environment's. *)

From Stdlib Require Import ZArith Lia Bool.
From stdpp Require Import base tactics option list numbers.
From S2P Require Import Prelude.

#[local] Open Scope Z_scope.

(** ** Random *)

Module Random.

Record t := Mk { size : Z; seeds : list Z }.

Definition Random (size : Z) : t := Mk 0 (replicate (Z.to_nat size) 0).

Section Draw.
Context {R : Type} (rand : R -> Z * R).

(** [for ( i = 0; i < seeds.size(); i++ ) seeds[i] = i] and [size = seeds.size()]. *)
Definition refill (g : t) : t :=
  Mk (i32 (zlen (seeds g))) (imap (fun i _ => Z.of_nat i) (seeds g)).

Definition random (g : t) (r : R) : outcome (Z * t * R) :=
  if zlen (seeds g) =? 0 then Ok (0, g, r)
  else
    let g := if size g =? 0 then refill g else g in
    let (v, r) := rand r in
    guard_defined (negb (size g =? 0)) ;;*
    let i := Z.rem v (size g) in
    let* x := array_at (seeds g) i in
    let* size := int_of (size g - 1) in
    let* last := array_at (seeds g) size in
    let* seeds := array_set (seeds g) i last in
    Ok (x, Mk size seeds, r).

(** The results of calls one after the other, whatever [rand] is used for between them. *)
Inductive drawn : t -> list Z -> t -> Prop :=
| drawn_nil g : drawn g [] g
| drawn_cons g r x g1 r1 xs g2 :
    random g r = Ok (x, g1, r1) -> drawn g1 xs g2 -> drawn g (x :: xs) g2.

(** What is left of the round. *)
Definition left (g : t) : list Z := take (Z.to_nat (size g)) (seeds g).

Definition ok (n : nat) (g : t) : Prop := length (seeds g) = n /\ 0 <= size g <= Z.of_nat n.

Lemma imap_index (l : list Z) : imap (fun i _ => Z.of_nat i) l = seqZ 0 (zlen l).
Proof.
  apply list_eq. intros i. rewrite list_lookup_imap. destruct (l !! i) as [x|] eqn:E.
  - apply lookup_lt_Some in E. symmetry. apply lookup_seqZ. lia.
  - apply lookup_ge_None in E. symmetry. apply lookup_seqZ_ge. lia.
Qed.

Hypothesis rand_nonneg : forall r, 0 <= fst (rand r).

(** A call inside a round takes one of the numbers left. *)
Lemma random_inside n g r : ok n g -> 0 < size g -> Z.of_nat n < 2 ^ 31 ->
  exists x g' r', random g r = Ok (x, g', r') /\ ok n g' /\ size g' = size g - 1 /\ left g ≡ₚ x :: left g'.
Proof.
  intros [Hl Hs] Hp Hn. unfold random. rewrite Hl.
  cbv zeta. replace (Z.of_nat n =? 0) with false by lia. replace (size g =? 0) with false by lia. cbv iota.
  replace (size g =? 0) with false by lia.
  pose proof (rand_nonneg r) as Hv. destruct (rand r) as [v r']. simpl in Hv.
  pose proof (Z.rem_bound_pos v (size g) Hv ltac:(lia)) as Hi. set (i := Z.rem v (size g)) in *.
  destruct (lookup_lt_is_Some_2 (seeds g) (Z.to_nat i)) as [x Hx]; [lia|].
  destruct (lookup_lt_is_Some_2 (seeds g) (Z.to_nat (size g - 1))) as [b Hb]; [lia|].
  cbn [negb guard_defined]. rewrite outcome_bind_ok, (array_at_lookup _ i x), outcome_bind_ok by (done || lia).
  rewrite int_of_ok, outcome_bind_ok, (array_at_lookup _ (size g - 1) b), outcome_bind_ok by (done || lia).
  rewrite array_set_insert, outcome_bind_ok by lia.
  eexists _, _, _. split; [reflexivity|]. split; [split; simpl; [by rewrite length_insert | lia]|]. split; [done|].
  unfold left. simpl. replace (Z.to_nat (size g)) with (S (Z.to_nat (size g - 1))) by lia.
  rewrite (take_swap_last _ _ (Z.to_nat i) x b), take_insert_ge by (done || lia). done.
Qed.

(** At the end of a round the next call starts another. *)
Lemma random_refill n g r : ok n g -> size g = 0 -> (0 < n)%nat -> Z.of_nat n < 2 ^ 31 ->
  ok n (refill g) /\ size (refill g) = Z.of_nat n /\ left (refill g) = seqZ 0 (Z.of_nat n) /\ random g r = random (refill g) r.
Proof.
  intros [Hl Hs] H0 Hn Hn31.
  assert (i32 (zlen (seeds g)) = Z.of_nat n) as Ei by (rewrite Hl; apply i32_small; lia).
  assert (size (refill g) = Z.of_nat n) as Es by exact Ei.
  assert (length (seeds (refill g)) = n) as El by (simpl; by rewrite length_imap).
  split; [split; [done | lia]|]. split; [done|]. split.
  - unfold left. rewrite Es. rewrite take_ge by (rewrite El; lia). simpl. by rewrite imap_index, Hl.
  - unfold random. rewrite El, Hl, Es, H0. replace (Z.of_nat n =? 0) with false by lia. done.
Qed.

(** As many calls as are left in the round return what is left, in some order. *)
Lemma drawn_left n g xs g' : drawn g xs g' -> ok n g -> size g = zlen xs -> Z.of_nat n < 2 ^ 31 ->
  ok n g' /\ size g' = 0 /\ xs ≡ₚ left g.
Proof.
  intros H. induction H as [g | g r x g1 r1 xs g2 E H IH]; intros Hg Hs Hn.
  { split_and!; try done. unfold left. by rewrite Hs. }
  cbn [length] in Hs. destruct (random_inside n g r Hg) as (x' & g1' & r1' & E' & Hg1 & Hs1 & Hp); [lia | done|].
  rewrite E in E'. injection E' as <- <- <-. destruct (IH Hg1 ltac:(lia) Hn) as (H1 & H2 & H3).
  split; [done|]. split; [done|]. by rewrite H3, Hp.
Qed.

(** A whole round returns each number once. *)
Lemma drawn_round n g xs g' : drawn g xs g' -> ok n g -> size g = 0 -> length xs = n -> (0 < n)%nat -> Z.of_nat n < 2 ^ 31 ->
  ok n g' /\ size g' = 0 /\ xs ≡ₚ seqZ 0 (Z.of_nat n).
Proof.
  intros H Hg H0 Hl Hn Hn31. destruct H as [g | g r x g1 r1 xs g2 E H]; [simpl in Hl; lia|].
  destruct (random_refill n g r Hg H0 Hn Hn31) as (Hg1 & Hs1 & Hl1 & E1). rewrite <- Hl1.
  apply (drawn_left n); [| done | by rewrite Hs1, <- Hl | done]. apply (drawn_cons _ r _ g1 r1); [by rewrite <- E1 | done].
Qed.

Lemma drawn_snoc g xs g1 x g2 r1 r2 : drawn g xs g1 -> random g1 r1 = Ok (x, g2, r2) -> drawn g (xs ++ [x]) g2.
Proof.
  intros H E. induction H as [g | g r y ga ra ys gb E1 H IH]; cbn [app].
  - eapply drawn_cons; [exact E | constructor].
  - eapply drawn_cons; [exact E1 | by apply IH].
Qed.

Lemma drawn_app_inv g xs ys g' : drawn g (xs ++ ys) g' -> exists g1, drawn g xs g1 /\ drawn g1 ys g'.
Proof.
  revert g. induction xs as [|x xs IH]; intros g H; cbn [app] in H.
  - exists g. split; [constructor | done].
  - inversion H as [|? r ? g1 r1 ? ? E H1]; subst. destruct (IH g1 H1) as (g2 & H2 & H3).
    exists g2. split; [by eapply drawn_cons | done].
Qed.

(** The numbers below [bound]. *)
Definition below (bound : Z) (xs : list Z) : Z := zlen (filter (fun x => x < bound) xs).

Lemma below_app bound xs ys : below bound (xs ++ ys) = below bound xs + below bound ys.
Proof. unfold below. rewrite list.filter_app, length_app. lia. Qed.

Lemma below_all bound xs : Forall (fun x => x < bound) xs -> below bound xs = zlen xs.
Proof.
  unfold below. induction 1 as [|x xs Hx _ IH]; [done|]. rewrite list.filter_cons, decide_True by done. simpl. lia.
Qed.

Lemma below_none bound xs : Forall (fun x => bound <= x) xs -> below bound xs = 0.
Proof.
  unfold below. induction 1 as [|x xs Hx _ IH]; [done|]. rewrite list.filter_cons, decide_False by lia. done.
Qed.

Lemma below_seq bound n : 0 <= bound <= n -> below bound (seqZ 0 n) = bound.
Proof.
  intros H. replace n with (bound + (n - bound)) by lia. rewrite seqZ_app, below_app by lia.
  rewrite below_all, below_none, length_seqZ; [lia | |];
    apply list.Forall_forall; intros x Hx; apply elem_of_seqZ in Hx; lia.
Qed.

(** Of the numbers of whole rounds, as many are below a bound as the bound says. *)
Lemma drawn_below n k bound g xs g' : drawn g xs g' -> ok n g -> size g = 0 -> length xs = (n * k)%nat ->
  (0 < n)%nat -> Z.of_nat n < 2 ^ 31 -> 0 <= bound <= Z.of_nat n -> below bound xs = Z.of_nat k * bound.
Proof.
  intros H Hg H0 Hl Hn Hn31 Hb. revert g xs H Hg H0 Hl. induction k as [|k IH]; intros g xs H Hg H0 Hl.
  { destruct xs; [done | simpl in Hl; lia]. }
  rewrite <- (take_drop n xs) in H |- *. apply drawn_app_inv in H as (g1 & H1 & H2).
  assert (length (take n xs) = n) as Hl1 by (rewrite length_take; lia).
  destruct (drawn_round n g _ g1 H1 Hg H0 Hl1 Hn Hn31) as (Hg1 & Hs1 & Hp).
  rewrite below_app, (IH g1 _ H2 Hg1 Hs1) by (rewrite length_drop; lia).
  unfold below at 1. rewrite Hp. fold (below bound (seqZ 0 (Z.of_nat n))). rewrite below_seq by lia. lia.
Qed.
End Draw.
End Random.

(** ** LatencySimulator *)

Module LatencySimulator.

(** A DelayPacket: its bytes, and the time at which it may be received. *)
Record packet := Packet { ptr : list Z; ts : Z }.

(** The members that the simulator has for each direction: [tx1], [p12] and [r12] for
    what peer 0 sends, [tx2], [p21] and [r21] for what peer 1 sends. *)
Record direction := Direction { tx : Z; line : list packet; rng : Random.t }.

Record t := Mk {
  current : Z; lostrate : Z; rttmin : Z; rttmax : Z; nmax : Z; d12 : direction; d21 : direction
}.

(** [iclock()] at the time of the call is [now]. *)
Definition LatencySimulator (lostrate rttmin rttmax nmax now : Z) : t :=
  let d := Direction 0 [] (Random.Random 100) in
  Mk now (Z.quot lostrate 2) (Z.quot rttmin 2) (Z.quot rttmax 2) nmax d d.

Definition clear (s : t) : t :=
  let emptied d := Direction (tx d) [] (rng d) in
  Mk (current s) (lostrate s) (rttmin s) (rttmax s) (nmax s) (emptied (d12 s)) (emptied (d21 s)).

(** The direction in which [peer] sends. *)
Definition from (peer : Z) (s : t) : direction := if peer =? 0 then d12 s else d21 s.

Definition with_from (peer now : Z) (d : direction) (s : t) : t :=
  if peer =? 0 then Mk now (lostrate s) (rttmin s) (rttmax s) (nmax s) d (d21 s)
  else Mk now (lostrate s) (rttmin s) (rttmax s) (nmax s) (d12 s) d.

Section Link.
Context {R : Type} (rand : R -> Z * R).

Definition send (peer : Z) (data : list Z) (size now : Z) (s : t) (r : R) : outcome (t * R) :=
  let d := from peer s in
  let* sent := int_of (tx d + 1) in
  let* (x, g, r) := Random.random rand (rng d) r in
  let unsent := with_from peer (current s) (Direction sent (line d) g) s in
  if x <? lostrate s then Ok (unsent, r)
  else if nmax s <=? zlen (line d) then Ok (unsent, r)
  else
    let* bytes := mread data 0 size in
    let delay := u32 (rttmin s) in
    let* (delay, r) :=
      (if rttmin s <? rttmax s then
         let* range := int_of (rttmax s - rttmin s) in
         let (v, r) := rand r in Ok (u32 (delay + Z.rem v range), r)
       else Ok (delay, r)) in
    Ok (with_from peer now (Direction sent (line d ++ [Packet bytes (u32 (now + delay))]) g) s, r).

(** The result, and [data] with the packet stored in it. *)
Definition recv (peer : Z) (data : list Z) (maxsize now : Z) (s : t) : outcome (Z * list Z * t) :=
  let other := if peer =? 0 then 1 else 0 in
  let d := from other s in
  match line d with
  | [] => Ok (-1, data, s)
  | pkt :: rest =>
      let looked := with_from other now d s in
      if now <? ts pkt then Ok (-2, data, looked)
      else if maxsize <? zlen (ptr pkt) then Ok (-3, data, looked)
      else
        let* data := mwrite data 0 (ptr pkt) in
        Ok (zlen (ptr pkt), data, with_from other now (Direction (tx d) rest (rng d)) s)
  end.

(** ** What it promises

    A call of the simulator, and what it does to a direction as the users see it. *)

Inductive op :=
| Send (peer : Z) (data : list Z) (size now : Z)
| Recv (peer : Z) (data : list Z) (maxsize now : Z).

(** The packets given to the direction of [peer] and taken from it. *)
Record traffic := Traffic { sent : list (list Z); got : list (list Z) }.

Definition seen (peer : Z) (o : op) (code : Z) (data : list Z) : traffic :=
  match o with
  | Send p d size _ => Traffic (if Bool.eqb (p =? 0) (peer =? 0) then [take (Z.to_nat size) d] else []) []
  | Recv p _ _ _ => Traffic [] (if negb (Bool.eqb (p =? 0) (peer =? 0)) && (0 <=? code) then [take (Z.to_nat code) data] else [])
  end.

(** The result of a call and the memory it was given. *)
Definition run_op (o : op) (s : t) (r : R) : outcome (Z * list Z * t * R) :=
  match o with
  | Send peer data size now => let* (s, r) := send peer data size now s r in Ok (0, data, s, r)
  | Recv peer data maxsize now => let* (n, b, s) := recv peer data maxsize now s in Ok (n, b, s, r)
  end.

(** A sequence of calls, with the traffic of both directions: peer 0's and peer 1's. *)
Fixpoint run_ops (os : list op) (s : t) (r : R) (v0 v1 : traffic) : outcome (t * traffic * traffic) :=
  match os with
  | [] => Ok (s, v0, v1)
  | o :: os' =>
      let* (n, b, s, r) := run_op o s r in
      let add peer v := Traffic (sent v ++ sent (seen peer o n b)) (got v ++ got (seen peer o n b)) in
      run_ops os' s r (add 0 v0) (add 1 v1)
  end.

(** The memory a call is given is there. *)
Definition op_ok (o : op) : Prop :=
  match o with
  | Send _ data size _ => 0 <= size <= zlen data
  | Recv _ data maxsize _ => maxsize <= zlen data
  end.

Definition direction_ok (d : direction) : Prop := Random.ok 100 (rng d) /\ 0 <= tx d.

Definition settings_ok (s : t) : Prop := - 2 ^ 30 <= rttmin s < 2 ^ 30 /\ - 2 ^ 30 <= rttmax s < 2 ^ 30.

Lemma new_link_ok lost rmin rmax nmax now : - 2 ^ 31 <= rmin < 2 ^ 31 -> - 2 ^ 31 <= rmax < 2 ^ 31 ->
  settings_ok (LatencySimulator lost rmin rmax nmax now).
Proof. intros H1 H2. unfold settings_ok. simpl. Z.to_euclidean_division_equations. lia. Qed.

Hypothesis rand_nonneg : forall r, 0 <= fst (rand r).

(** Whatever the state of a generator in order, a call succeeds and keeps it so. *)
Lemma random_total g r : Random.ok 100 g -> exists x g' r', Random.random rand g r = Ok (x, g', r') /\ Random.ok 100 g'.
Proof.
  intros Hg. destruct (decide (Random.size g = 0)) as [H0|Hs].
  - destruct (Random.random_refill rand 100 g r Hg H0) as (Hg1 & Hs1 & _ & ->); [lia | lia |].
    destruct (Random.random_inside rand rand_nonneg 100 (Random.refill g) r Hg1) as (x & g' & r' & E & Hg' & _); [lia | lia |].
    by exists x, g', r'.
  - destruct (Random.random_inside rand rand_nonneg 100 g r Hg) as (x & g' & r' & E & Hg' & _);
      [destruct Hg; lia | lia |]. by exists x, g', r'.
Qed.

(** A send counts a packet, draws a number and queues the packet or drops it. *)
Lemma link_sends peer data size now s r :
  0 <= size <= zlen data -> settings_ok s -> direction_ok (from peer s) -> tx (from peer s) + 1 < 2 ^ 31 ->
  exists x g r1 l s' r', Random.random rand (rng (from peer s)) r = Ok (x, g, r1) /\ Random.ok 100 g /\
    send peer data size now s r = Ok (s', r') /\
    from peer s' = Direction (tx (from peer s) + 1) (line (from peer s) ++ l) g /\
    map ptr l = (if (x <? lostrate s) || (nmax s <=? zlen (line (from peer s))) then [] else [take (Z.to_nat size) data]) /\
    (forall p, (p =? 0) <> (peer =? 0) -> from p s' = from p s) /\
    lostrate s' = lostrate s /\ nmax s' = nmax s /\ settings_ok s'.
Proof.
  intros Hsz Hset [Hg Htx] Hlt. destruct (random_total _ r Hg) as (x & g & r1 & E & Hg').
  assert (forall l now', forall s', s' = with_from peer now' (Direction (tx (from peer s) + 1) (line (from peer s) ++ l) g) s ->
    from peer s' = Direction (tx (from peer s) + 1) (line (from peer s) ++ l) g /\
    (forall p, (p =? 0) <> (peer =? 0) -> from p s' = from p s) /\
    lostrate s' = lostrate s /\ nmax s' = nmax s /\ settings_ok s') as Hwith.
  { intros l now' s' ->. unfold from, with_from. destruct (peer =? 0) eqn:Ep; split_and!; try done;
      intros p Hp; by destruct (p =? 0). }
  unfold send. cbv zeta. rewrite (int_of_ok (tx (from peer s) + 1)) by lia.
  rewrite outcome_bind_ok, E, outcome_bind_ok.
  exists x, g, r1. destruct (x <? lostrate s) eqn:Ex; [|destruct (nmax s <=? _) eqn:En]; cbn [orb].
  - eexists [], _, r1. destruct (Hwith [] (current s) _ eq_refl) as (H1 & H2 & H3 & H4 & H5). rewrite app_nil_r in *. by split_and!.
  - eexists [], _, r1. destruct (Hwith [] (current s) _ eq_refl) as (H1 & H2 & H3 & H4 & H5). rewrite app_nil_r in *. by split_and!.
  - rewrite mread_ok, outcome_bind_ok by lia. destruct Hset as [Hs1 Hs2].
    destruct (rttmin s <? rttmax s) eqn:Er; to_prop.
    + rewrite int_of_ok, outcome_bind_ok by lia. destruct (rand r1) as [v r2]. rewrite outcome_bind_ok.
      destruct (Hwith [Packet (slice data 0 size) (u32 (now + u32 (u32 (rttmin s) + Z.rem v (rttmax s - rttmin s))))] now _ eq_refl)
        as (H1 & H2 & H3 & H4 & H5). eexists _, _, r2. by split_and!.
    + rewrite outcome_bind_ok. destruct (Hwith [Packet (slice data 0 size) (u32 (now + u32 (rttmin s)))] now _ eq_refl)
        as (H1 & H2 & H3 & H4 & H5). eexists _, _, r1. by split_and!.
Qed.

(** A receive takes the first packet of the other peer's direction, when its time has
    come and it fits, and nothing otherwise. *)
Lemma link_receives peer data maxsize now s : maxsize <= zlen data ->
  exists n b s', recv peer data maxsize now s = Ok (n, b, s') /\
    lostrate s' = lostrate s /\ nmax s' = nmax s /\ (settings_ok s -> settings_ok s') /\
    (forall p, (p =? 0) = (peer =? 0) -> from p s' = from p s) /\
    (forall p, (p =? 0) <> (peer =? 0) ->
       rng (from p s') = rng (from p s) /\ tx (from p s') = tx (from p s) /\
       map ptr (line (from p s)) = (if 0 <=? n then [take (Z.to_nat n) b] else []) ++ map ptr (line (from p s'))).
Proof.
  intros Hmax. set (other := if peer =? 0 then 1 else 0).
  assert (forall p, (p =? 0) <> (peer =? 0) -> from p s = from other s) as Hother.
  { intros p Hp. unfold from, other. by destruct (peer =? 0), (p =? 0). }
  assert (forall d s', s' = with_from other now d s ->
    lostrate s' = lostrate s /\ nmax s' = nmax s /\ (settings_ok s -> settings_ok s') /\
    (forall p, (p =? 0) = (peer =? 0) -> from p s' = from p s) /\ (forall p, (p =? 0) <> (peer =? 0) -> from p s' = d)) as Hwith.
  { intros d s' ->. unfold from, with_from, other. destruct (peer =? 0) eqn:Ep; split_and!; try done;
      intros p Hp; by destruct (p =? 0). }
  unfold recv. fold other. destruct (line (from other s)) as [|pkt rest] eqn:El.
  { eexists _, _, s. split; [reflexivity|]. by split_and!. }
  destruct (now <? ts pkt); [|destruct (maxsize <? zlen (ptr pkt)) eqn:Em; to_prop].
  - eexists _, _, _. split; [reflexivity|]. destruct (Hwith (from other s) _ eq_refl) as (H1 & H2 & H3 & H4 & H5).
    split_and!; try done. intros p Hp. by rewrite (H5 p Hp), (Hother p Hp).
  - eexists _, _, _. split; [reflexivity|]. destruct (Hwith (from other s) _ eq_refl) as (H1 & H2 & H3 & H4 & H5).
    split_and!; try done. intros p Hp. by rewrite (H5 p Hp), (Hother p Hp).
  - rewrite mwrite_ok, outcome_bind_ok by lia. eexists _, _, _. split; [reflexivity|].
    destruct (Hwith (Direction (tx (from other s)) rest (rng (from other s))) _ eq_refl) as (H1 & H2 & H3 & H4 & H5).
    split_and!; try done. intros p Hp. rewrite (H5 p Hp), (Hother p Hp), El. cbn [rng tx line map].
    split; [done|]. split; [done|]. replace (0 <=? zlen (ptr pkt)) with true by lia. cbn [app]. f_equal.
    unfold splice. rewrite Nat2Z.id. cbn [Z.to_nat]. rewrite take_0. cbn [app]. by rewrite take_app_length.
Qed.

(** What a call does to each direction. *)
Definition kept_order (o : op) (n : Z) (b : list Z) (s s' : t) : Prop :=
  forall p, direction_ok (from p s') /\ tx (from p s') <= tx (from p s) + 1 /\
    got (seen p o n b) ++ map ptr (line (from p s')) `sublist_of` map ptr (line (from p s)) ++ sent (seen p o n b).

Lemma run_op_ok o s r : op_ok o -> settings_ok s -> (forall p, direction_ok (from p s) /\ tx (from p s) + 1 < 2 ^ 31) ->
  exists n b s' r', run_op o s r = Ok (n, b, s', r') /\ settings_ok s' /\ kept_order o n b s s'.
Proof.
  intros Ho Hs Hd. destruct o as [peer data size now | peer data maxsize now]; cbn [op_ok run_op] in *.
  - destruct (Hd peer) as [Hd1 Hd2].
    destruct (link_sends peer data size now s r Ho Hs Hd1 Hd2) as (x & g & r1 & l & s' & r' & _ & Hg & E & Ef & El & Hp & _ & _ & Hs').
    exists 0, data, s', r'. rewrite E, outcome_bind_ok. split; [done|]. split; [done|].
    intros p. cbn [seen sent got app]. destruct (decide ((p =? 0) = (peer =? 0))) as [Ep|Ep].
    + assert (forall s0, from p s0 = from peer s0) as Eq by (intros s0; unfold from; by rewrite Ep).
      rewrite !Eq, Ef, Ep, Bool.eqb_reflx. cbn [line tx]. destruct Hd1 as [_ Ht]. split; [by split; simpl; [|lia]|].
      split; [lia|]. rewrite map_app, El. destruct (_ || _); [|done]. rewrite app_nil_r. by apply sublist_inserts_r.
    + rewrite (Hp p Ep). replace (Bool.eqb (peer =? 0) (p =? 0)) with false by (by destruct (peer =? 0), (p =? 0)).
      rewrite app_nil_r. split; [apply Hd|]. split; [lia | done].
  - destruct (link_receives peer data maxsize now s Ho) as (n & b & s' & E & _ & _ & Hs' & Hsame & Hother).
    exists n, b, s', r. rewrite E, outcome_bind_ok. split; [done|]. split; [by apply Hs'|].
    intros p. cbn [seen sent got]. rewrite app_nil_r. destruct (decide ((p =? 0) = (peer =? 0))) as [Ep|Ep].
    + rewrite (Hsame p Ep), Ep, Bool.eqb_reflx. split; [apply Hd|]. split; [lia | done].
    + destruct (Hother p Ep) as (E1 & E2 & E3). unfold direction_ok. rewrite E1, E2, E3.
      replace (Bool.eqb (peer =? 0) (p =? 0)) with false by (by destruct (peer =? 0), (p =? 0)).
      split; [apply Hd|]. split; [lia | done].
Qed.

Definition in_transit (peer : Z) (s : t) : list (list Z) := map ptr (line (from peer s)).

Lemma run_ops_ok os s r v0 v1 : Forall op_ok os -> settings_ok s ->
  (forall p, direction_ok (from p s) /\ tx (from p s) + zlen os < 2 ^ 31) ->
  got v0 ++ in_transit 0 s `sublist_of` sent v0 -> got v1 ++ in_transit 1 s `sublist_of` sent v1 ->
  exists s' v0' v1', run_ops os s r v0 v1 = Ok (s', v0', v1') /\
    got v0' ++ in_transit 0 s' `sublist_of` sent v0' /\ got v1' ++ in_transit 1 s' `sublist_of` sent v1'.
Proof.
  revert s r v0 v1. induction os as [|o os IH]; intros s r v0 v1 Ho Hs Hd H0 H1; cbn [run_ops length] in *.
  { by exists s, v0, v1. }
  inversion Ho as [|? ? Ho1 Ho2]; subst.
  destruct (run_op_ok o s r Ho1 Hs) as (n & b & s' & r' & E & Hs' & Hk).
  { intros p. destruct (Hd p). split; [done | lia]. }
  rewrite E, outcome_bind_ok. cbv zeta. apply IH; try done.
  - intros p. destruct (Hk p) as (H2 & H3 & _). destruct (Hd p) as [_ H4]. split; [done | lia].
  - destruct (Hk 0) as (_ & _ & H2). cbn [got sent]. rewrite <- app_assoc. etrans; [by apply sublist_app|].
    fold (in_transit 0 s). rewrite app_assoc. by apply sublist_app.
  - destruct (Hk 1) as (_ & _ & H2). cbn [got sent]. rewrite <- app_assoc. etrans; [by apply sublist_app|].
    fold (in_transit 1 s). rewrite app_assoc. by apply sublist_app.
Qed.

(** The packets neither received nor in transit are those for which a number below
    [lostrate] was drawn, one number for each packet sent. *)
Definition counted (p : Z) (s : t) (v : traffic) : Prop :=
  exists xs, Random.drawn rand (Random.Random 100) xs (rng (from p s)) /\ length xs = length (sent v) /\
    zlen (got v) + zlen (line (from p s)) + Random.below (lostrate s) xs = zlen (sent v).

Definition add (p : Z) (o : op) (n : Z) (b : list Z) (v : traffic) : traffic :=
  Traffic (sent v ++ sent (seen p o n b)) (got v ++ got (seen p o n b)).

Lemma counted_same p s s' v : from p s' = from p s -> lostrate s' = lostrate s -> counted p s v -> counted p s' v.
Proof. intros E1 E2 (xs & H). exists xs. by rewrite E1, E2. Qed.

Lemma add_nothing p o n b v : seen p o n b = Traffic [] [] -> add p o n b v = v.
Proof. intros E. unfold add. rewrite E. cbn [sent got]. rewrite !app_nil_r. by destruct v. Qed.

Lemma run_op_counted o s r n b s' r' : op_ok o -> settings_ok s -> (forall p, direction_ok (from p s) /\ tx (from p s) + 1 < 2 ^ 31) ->
  run_op o s r = Ok (n, b, s', r') ->
  lostrate s' = lostrate s /\ nmax s' = nmax s /\
  forall p v, counted p s v -> zlen (sent v) < nmax s -> counted p s' (add p o n b v).
Proof.
  intros Ho Hs Hd E. destruct o as [peer data size now | peer data maxsize now]; cbn [op_ok run_op] in *.
  - destruct (Hd peer) as [Hd1 Hd2].
    destruct (link_sends peer data size now s r Ho Hs Hd1 Hd2) as (x & g & r1 & l & s1 & r2 & Ex & _ & E1 & Ef & El & Hp & E2 & E3 & _).
    rewrite E1, outcome_bind_ok in E. injection E as <- <- <- <-. split; [done|]. split; [done|].
    intros p v Hc Hlt. destruct (decide ((p =? 0) = (peer =? 0))) as [Ep|Ep].
    + assert (forall s0, from p s0 = from peer s0) as Eq by (intros s0; unfold from; by rewrite Ep).
      destruct Hc as (xs & H1 & H2 & H3). rewrite Eq in H1, H3. exists (xs ++ [x]). rewrite !Eq, Ef, E2.
      cbn [rng line seen sent got add]. rewrite Ep, Bool.eqb_reflx, app_nil_r, Random.below_app, !length_app, H2. cbn [length].
      split; [by eapply Random.drawn_snoc|]. split; [lia|].
      assert (zlen l + Random.below (lostrate s) [x] = 1); [|lia].
      rewrite <- (length_map ptr l), El. assert (0 <= Random.below (lostrate s) xs) by (unfold Random.below; lia).
      replace (nmax s <=? zlen (line (from peer s))) with false by lia. rewrite orb_false_r.
      destruct (x <? lostrate s) eqn:Ell; to_prop.
      * rewrite Random.below_all by (repeat constructor; lia). done.
      * rewrite Random.below_none by (repeat constructor; lia). done.
    + rewrite add_nothing by (cbn [seen]; by destruct (p =? 0), (peer =? 0)). apply (counted_same p s); auto.
  - destruct (link_receives peer data maxsize now s Ho) as (n1 & b1 & s1 & E1 & E2 & E3 & _ & Hsame & Hother).
    rewrite E1, outcome_bind_ok in E. injection E as <- <- <- <-. split; [done|]. split; [done|].
    intros p v Hc _. destruct (decide ((p =? 0) = (peer =? 0))) as [Ep|Ep].
    + rewrite add_nothing by (cbn [seen]; by rewrite Ep, Bool.eqb_reflx). apply (counted_same p s); auto.
    + destruct (Hother p Ep) as (E4 & _ & E5). destruct Hc as (xs & H1 & H2 & H3). exists xs.
      rewrite E4, E2. cbn [seen sent got add]. rewrite app_nil_r, length_app. split; [done|]. split; [done|].
      apply (f_equal length) in E5. rewrite length_app, !length_map in E5.
      replace (Bool.eqb (peer =? 0) (p =? 0)) with false by (by destruct (peer =? 0), (p =? 0)). cbn [negb andb].
      destruct (0 <=? n1); cbn [length] in *; lia.
Qed.

Lemma run_ops_counted os s r v0 v1 s' v0' v1' : Forall op_ok os -> settings_ok s ->
  (forall p, direction_ok (from p s) /\ tx (from p s) + zlen os < 2 ^ 31) ->
  zlen (sent v0) + zlen os <= nmax s -> zlen (sent v1) + zlen os <= nmax s ->
  counted 0 s v0 -> counted 1 s v1 -> run_ops os s r v0 v1 = Ok (s', v0', v1') ->
  lostrate s' = lostrate s /\ counted 0 s' v0' /\ counted 1 s' v1'.
Proof.
  revert s r v0 v1. induction os as [|o os IH]; intros s r v0 v1 Ho Hs Hd Hn0 Hn1 H0 H1 E; cbn [run_ops length] in *.
  { by injection E as <- <- <-. }
  inversion Ho as [|? ? Ho1 Ho2]; subst.
  assert (forall p, direction_ok (from p s) /\ tx (from p s) + 1 < 2 ^ 31) as Hd1.
  { intros p. destruct (Hd p). split; [done | lia]. }
  destruct (run_op_ok o s r Ho1 Hs Hd1) as (n & b & s1 & r1 & E1 & Hs1 & Hk).
  destruct (run_op_counted o s r n b s1 r1 Ho1 Hs Hd1 E1) as (El & En & Hc).
  rewrite E1, outcome_bind_ok in E. fold (add 0 o n b v0) (add 1 o n b v1) in E.
  assert (forall p v, zlen (sent (add p o n b v)) <= zlen (sent v) + 1) as Hadd.
  { intros p v. unfold add. cbn [sent]. rewrite length_app.
    destruct o; cbn [seen sent]; [destruct (Bool.eqb _ _)|]; cbn [length]; lia. }
  destruct (IH s1 r1 (add 0 o n b v0) (add 1 o n b v1)) as (H2 & H3); try done.
  - intros p. destruct (Hk p) as (H2 & H3 & _). destruct (Hd p) as [_ H4]. split; [done | lia].
  - pose proof (Hadd 0 v0). lia.
  - pose proof (Hadd 1 v1). lia.
  - apply Hc; [done | lia].
  - apply Hc; [done | lia].
  - split; [congruence | done].
Qed.
End Link.

Definition nothing : traffic := Traffic [] [].

(** ** The claims *)

(** Each direction of the link is a queue that may lose packets: whatever is sent and
    received on a new link, the calls succeed, and what was received in a direction,
    followed by what is in transit, is what was sent with some packets left out, in
    order and unchanged. *)
Theorem link_is_fifo {R} (rand : R -> Z * R) (Hrand : forall r, 0 <= fst (rand r)) os lost rmin rmax nmax now r :
  Forall op_ok os -> - 2 ^ 31 <= rmin < 2 ^ 31 -> - 2 ^ 31 <= rmax < 2 ^ 31 -> zlen os < 2 ^ 31 ->
  exists s v0 v1, run_ops rand os (LatencySimulator lost rmin rmax nmax now) r nothing nothing = Ok (s, v0, v1) /\
    got v0 ++ in_transit 0 s `sublist_of` sent v0 /\ got v1 ++ in_transit 1 s `sublist_of` sent v1.
Proof.
  intros Ho H1 H2 Hn. apply run_ops_ok; try done; [by apply new_link_ok|].
  intros p. assert (from p (LatencySimulator lost rmin rmax nmax now) = Direction 0 [] (Random.Random 100)) as ->
    by (unfold from; by destruct (p =? 0)). split; [split; [split|]; simpl; lia|]. simpl. lia.
Qed.

(** Of every hundred packets sent in a direction exactly [lostrate / 2] are lost,
    whatever [rand] returns, as long as the queues are not full: the numbers are drawn
    without replacement. *)
Theorem lost_share {R} (rand : R -> Z * R) (Hrand : forall r, 0 <= fst (rand r)) os lost rmin rmax nmax now r s v0 v1 (k : nat) :
  Forall op_ok os -> - 2 ^ 31 <= rmin < 2 ^ 31 -> - 2 ^ 31 <= rmax < 2 ^ 31 -> zlen os < 2 ^ 31 -> zlen os <= nmax ->
  0 <= lost <= 200 ->
  run_ops rand os (LatencySimulator lost rmin rmax nmax now) r nothing nothing = Ok (s, v0, v1) ->
  (length (sent v0) = (100 * k)%nat -> zlen (got v0) + zlen (in_transit 0 s) = Z.of_nat k * (100 - lost / 2)) /\
  (length (sent v1) = (100 * k)%nat -> zlen (got v1) + zlen (in_transit 1 s) = Z.of_nat k * (100 - lost / 2)).
Proof.
  intros Ho H1 H2 Hn Hmax Hl E.
  assert (forall p, from p (LatencySimulator lost rmin rmax nmax now) = Direction 0 [] (Random.Random 100)) as Ef
    by (intros p; unfold from; by destruct (p =? 0)).
  assert (Random.ok 100 (Random.Random 100)) as Hg by (split; simpl; lia).
  assert (forall p, counted rand p (LatencySimulator lost rmin rmax nmax now) nothing) as Hc.
  { intros p. exists []. rewrite Ef. split; [constructor | done]. }
  destruct (run_ops_counted rand Hrand os (LatencySimulator lost rmin rmax nmax now) r nothing nothing s v0 v1 Ho) as (El & Hc0 & Hc1 ); try done.
  { by apply new_link_ok. }
  { intros p. rewrite Ef. split; [by split|]. simpl. lia. }
  simpl in El. rewrite <- Z.quot_div_nonneg by lia.
  assert (forall p v, counted rand p s v -> length (sent v) = (100 * k)%nat ->
    zlen (got v) + zlen (in_transit p s) = Z.of_nat k * (100 - Z.quot lost 2)) as Hcount.
  { intros p v (xs & Hd & Hlen & Hsum) Hk. unfold in_transit. rewrite length_map. rewrite Hk in Hlen, Hsum.
    rewrite (Random.drawn_below rand Hrand 100 k _ _ _ _ Hd Hg) in Hsum; [lia | done | done | lia | lia |].
    rewrite El. Z.to_euclidean_division_equations. lia. }
  split; intros Hk; by apply Hcount.
Qed.

(** A generator to execute the simulator with. *)
Definition counter (r : Z) : Z * Z := (Z.abs r, 3 * r + 1).

Lemma counter_nonneg r : 0 <= fst (counter r).
Proof. simpl. lia. Qed.

Definition sample_calls : list op :=
  [Send 0 [1; 2] 2 1000; Send 0 [3] 1 1000; Recv 1 (replicate 8 0) 8 1010; Recv 1 (replicate 8 0) 8 1100;
   Send 1 [4] 1 1100; Recv 1 (replicate 8 0) 8 1200].

Lemma link_is_fifo_witness : exists s v0 v1,
  run_ops counter sample_calls (LatencySimulator 10 60 125 1000 1000) 5 nothing nothing = Ok (s, v0, v1) /\
  got v0 ++ in_transit 0 s `sublist_of` sent v0 /\ got v1 ++ in_transit 1 s `sublist_of` sent v1.
Proof.
  apply (link_is_fifo counter counter_nonneg); [repeat constructor; vm_compute; congruence | lia | lia | simpl; lia].
Defined.

Lemma lost_share_witness : match
  run_ops counter (replicate 100 (Send 0 [1] 1 1000)) (LatencySimulator 10 60 125 1000 1000) 5 nothing nothing with
  | Ok (s, v0, _) => zlen (got v0) + zlen (in_transit 0 s) = 1 * (100 - 10 / 2)
  | Err _ => False
  end.
Proof.
  destruct (run_ops counter (replicate 100 (Send 0 [1] 1 1000)) (LatencySimulator 10 60 125 1000 1000) 5 nothing nothing)
    as [[[s v0] v1]|f] eqn:E; [|vm_compute in E; discriminate E].
  apply (lost_share counter counter_nonneg (replicate 100 (Send 0 [1] 1 1000)) 10 60 125 1000 1000 5 s v0 v1 1);
    [apply Forall_replicate; simpl; lia | lia | lia | simpl; lia | simpl; lia | lia | exact E |].
  vm_compute in E. injection E as _ <- _. reflexivity.
Defined.
End LatencySimulator.
