(* ===== verification/KcpApp.v ===== *)
(** * The programs on top of KCP

    io/kcp/src, io/kcp/client and io/kcp/server, built without USE_TCP: the settings
    of a mode (Module util), the UDP socket (Module UdpSocket), a server's connection
    that echoes what it receives (Module Connection), the table of connections (Module
    Server), and the client that sends numbered packets and checks the echoes (Module
    Client).

    The clock, the random numbers and what arrives on a socket are the environment's:
    [clock] is [now_ms], [random lo hi] the function of random_util.h that is a
    std::uniform_int_distribution, and a datagram that arrives is an argument of the
    step that looks for one.  Left out: what is printed, the global counters of packets
    and bytes, [finished_cnt]. *)

From Stdlib Require Import ZArith Lia Bool String.
From stdpp Require Import base tactics option list numbers gmap strings.
From S2P Require Import Prelude KcpWire Kcp.

#[local] Open Scope Z_scope.

Definition BUFFER_SIZE : Z := 1024 * 8.
Definition RECV_BUF_SIZE : Z := 1024 * 4.
Definition conv : Z := 74565.

Definition zeros (n : Z) : list Z := replicate (Z.to_nat n) 0.

(** A uint32 of a buffer of chars, on a little-endian machine. *)
Definition load32 (mem : list Z) (o : Z) : outcome Z := let* bs := mread mem o 4 in Ok (le_value bs).
Definition store32 (mem : list Z) (o v : Z) : outcome (list Z) := mwrite mem o (le_bytes 4 (u32 v)).

Module util.

Definition iclock (ms : Z) : Z := i32 (Z.land ms 4294967295).

Definition get_mode_name (mode : Z) : outcome string :=
  cxx_assert ((0 <=? mode) && (mode <? 3)) ;;* array_at ["DEFAULT"; "NORMAL"; "FAST"]%string mode.

Definition ikcp_set_mode (k : kcp) (mode : Z) : outcome kcp :=
  cxx_assert ((0 <=? mode) && (mode <? 3)) ;;*
  let k := snd (ikcp_wndsize k 128 128) in
  Ok (snd (if mode =? 1 then ikcp_nodelay k 0 10 0 1
           else if mode =? 2 then ikcp_nodelay k 2 10 2 1
           else ikcp_nodelay k 0 10 0 0)).
End util.

Section Environment.
Context {R : Type} (clock : R -> Z * R) (random : Z -> Z -> R -> Z * R).

Definition iclock (r : R) : Z * R := let (ms, r) := clock r in (util.iclock ms, r).

(** [random_string]: a string of one letter; its length is converted to size_t. *)
Definition random_string (beg end_ : Z) (r : R) : outcome (list Z * R) :=
  let (sz, r) := random beg end_ r in
  let (c, r) := random 0 26 r in
  if 2 ^ 63 <=? u64 sz then Err Thrown else Ok (replicate (Z.to_nat sz) (u8 (c + 97)), r).

Definition rand_str (max : Z) (r : R) : outcome (list Z * R) :=
  random_string (i32 (u64 (u64 max - 500))) (i32 (u64 max)) r.
End Environment.

Module UdpSocket.

(** [m_recvSize] has no value until [recv] sets it. *)
Record t := Mk { lost_rate : Z; m_recvBuffer : list Z; m_recvSize : option Z }.

Definition UdpSocket : t := Mk 0 (zeros RECV_BUF_SIZE) None.

Definition setLostrate (rate : Z) (s : t) : t := Mk rate (m_recvBuffer s) (m_recvSize s).

(** The datagrams handed to sendto. *)
Definition send {R} (random : Z -> Z -> R -> Z * R) (bytes : list Z) (s : t) (r : R) : list (list Z) * R :=
  let (x, r) := random 0 100 r in
  (if x <? lost_rate s then [] else [bytes], r).

(** What recvfrom stores and returns: a datagram is cut to the buffer; [None]: there is
    none. *)
Definition recvfrom (arrived : option (list Z)) : Z * list Z :=
  match arrived with
  | Some d =>
      let got := take (Z.to_nat RECV_BUF_SIZE) d in
      (zlen got, got ++ zeros (RECV_BUF_SIZE - zlen got))
  | None => (-1, zeros RECV_BUF_SIZE)
  end.

Definition recv (arrived : option (list Z)) (s : t) : Z * t :=
  let (n, buffer) := recvfrom arrived in (n, Mk (lost_rate s) buffer (Some n)).

(** The overload that stores the address of the sender. *)
Definition recv_from (arrived : option (list Z)) (s : t) : Z * t :=
  let (n, buffer) := recvfrom arrived in (n, Mk (lost_rate s) buffer (m_recvSize s)).

(** Reading a member without a value is undefined. *)
Definition getRecvSize (s : t) : outcome Z :=
  match m_recvSize s with Some n => Ok (u32 n) | None => Err UndefinedBehaviour end.
End UdpSocket.

(** [kcp_output], the output callback, on the datagrams of a flush; [user]: the socket
    it was given, if any. *)
Fixpoint kcp_outputs {R} (random : Z -> Z -> R -> Z * R) (user : option UdpSocket.t) (out : list (list Z)) (r : R)
    : list (list Z) * R :=
  match user, out with
  | Some s, d :: out' =>
      let (sent, r) := UdpSocket.send random d s r in
      let (rest, r) := kcp_outputs random user out' r in (sent ++ rest, r)
  | _, _ => ([], r)
  end.

Module Connection.

(** [socket] is its own socket (CON_CLIENT), [fd] the server's that was passed. *)
Record t := Mk { socket : option UdpSocket.t; fd : option UdpSocket.t; kcp : Kcp.kcp; md : Z; show_data : bool }.

Definition with_kcp (k : Kcp.kcp) (c : t) : t := Mk (socket c) (fd c) k (md c) (show_data c).
Definition with_socket (s : UdpSocket.t) (c : t) : t := Mk (Some s) (fd c) (kcp c) (md c) (show_data c).

(** Binding and connecting the socket succeed. *)
Definition Connection (con_client : bool) (conv : Z) (user : option UdpSocket.t) : t :=
  Mk (if con_client then Some UdpSocket.UdpSocket else None) user (ikcp_create conv) 0 false.

Definition setmode (mode : Z) (c : t) : outcome t :=
  let* k := util.ikcp_set_mode (kcp c) mode in Ok (Mk (socket c) (fd c) k mode (show_data c)).

Definition set_show (b : bool) (c : t) : t := Mk (socket c) (fd c) (kcp c) (md c) b.

(** What the output callback of its control block is given. *)
Definition user (c : t) : option UdpSocket.t :=
  match socket c with Some s => Some s | None => fd c end.

Section Steps.
Context {R : Type} (clock : R -> Z * R) (random : Z -> Z -> R -> Z * R).

(** Both printfs call methods of [socket], and the first prints [buff] from its ninth
    char to a NUL. *)
Definition recv_data (data : list Z) (len : Z) (c : t) (r : R) : outcome (t * list (list Z) * R) :=
  let* data := mread data 0 len in
  let* (_, k) := ikcp_input (kcp c) data in
  let* (rc, buff, k) := ikcp_recv k (Some (zeros BUFFER_SIZE)) BUFFER_SIZE in
  let buff := default [] buff in
  if rc <? 0 then Ok (with_kcp k c, [], r)
  else
    let* _sn := load32 buff 0 in
    guard_defined (match socket c with Some _ => true | None => false end) ;;*
    guard_defined (negb (show_data c) || existsb (Z.eqb 0) (drop 8 buff)) ;;*
    let* (_, k) := ikcp_send k buff rc in
    let (now, r) := iclock clock r in
    let* (k, out) := ikcp_update k (u32 now) in
    let (sent, r) := kcp_outputs random (user c) out r in
    Ok (with_kcp k c, sent, r).

Definition update (arrived : option (list Z)) (c : t) (r : R) : outcome (t * list (list Z) * R) :=
  let (now, r) := iclock clock r in
  let* (k, out) := ikcp_update (kcp c) (u32 now) in
  let (sent, r) := kcp_outputs random (user c) out r in
  let c := with_kcp k c in
  match socket c with
  | Some s =>
      let (n, s) := UdpSocket.recv arrived s in
      let c := with_socket s c in
      if 0 <? n then
        let* size := UdpSocket.getRecvSize s in
        let* (c, more, r) := recv_data (UdpSocket.m_recvBuffer s) size c r in Ok (c, sent ++ more, r)
      else Ok (c, sent, r)
  | None => Ok (c, sent, r)
  end.
End Steps.
End Connection.

Module Server.

Definition ConnID : Type := string * Z.

(** [con_client]: whether CON_CLIENT is defined; then [listen] is the one socket,
    otherwise there are [fds]. *)
Record t := Mk {
  con_client : bool; listen : option UdpSocket.t; connections : gmap ConnID Connection.t; kcp : Kcp.kcp;
  fds : list UdpSocket.t; md : Z; show : bool; lost_rate : Z
}.

Definition FD_PER_THREAD : Z := 4.

(** Binding the sockets succeeds. *)
Definition Server (con_client : bool) (conv : Z) : t :=
  let k := snd (ikcp_wndsize (ikcp_create conv) 128 128) in
  Mk con_client (if con_client then Some UdpSocket.UdpSocket else None) ∅ (snd (ikcp_nodelay k 0 10 0 0))
    (if con_client then [] else replicate (Z.to_nat FD_PER_THREAD) UdpSocket.UdpSocket) 0 false 0.

Definition setmode (mode : Z) (s : t) : outcome t :=
  let* k := util.ikcp_set_mode (kcp s) mode in
  Ok (Mk (con_client s) (listen s) (connections s) k (fds s) mode (show s) (lost_rate s)).

Definition setlostrate (lostrate : Z) (s : t) : t :=
  Mk (con_client s) (listen s) (connections s) (kcp s) (fds s) (md s) (show s) (Z.quot lostrate 2).

Definition show_data (b : bool) (s : t) : t :=
  Mk (con_client s) (listen s) (connections s) (kcp s) (fds s) (md s) b (lost_rate s).

Definition with_connections (m : gmap ConnID Connection.t) (s : t) : t :=
  Mk (con_client s) (listen s) m (kcp s) (fds s) (md s) (show s) (lost_rate s).
Definition with_listen (l : UdpSocket.t) (k : Kcp.kcp) (s : t) : t :=
  Mk (con_client s) (Some l) (connections s) k (fds s) (md s) (show s) (lost_rate s).
Definition with_fd (i : nat) (f : UdpSocket.t) (s : t) : t :=
  Mk (con_client s) (listen s) (connections s) (kcp s) (<[i := f]> (fds s)) (md s) (show s) (lost_rate s).

(** The connection of an address, a new one if there is none. *)
Definition findConn (id : ConnID) (user : option UdpSocket.t) (s : t) : outcome (Connection.t * t) :=
  match connections s !! id with
  | Some conn => Ok (conn, s)
  | None =>
      let conn := Connection.Connection (con_client s) conv user in
      let* conn := Connection.setmode (md s) conn in
      let conn := Connection.set_show (show s) conn in
      Ok (conn, with_connections (<[id := conn]> (connections s)) s)
  end.

Section Steps.
Context {R : Type} (clock : R -> Z * R) (random : Z -> Z -> R -> Z * R).

(** A round of the loop of [accept], on what arrives at the listening socket. *)
Definition accept (arrived : option (ConnID * list Z)) (s : t) (r : R) : outcome (t * list (list Z) * R) :=
  match listen s with
  | None => Err UndefinedBehaviour
  | Some l =>
      let (now, r) := iclock clock r in
      let* (k, out) := ikcp_update (kcp s) (u32 now) in
      let (sent, r) := kcp_outputs random (Some l) out r in
      let (n, l) := UdpSocket.recv (snd <$> arrived) l in
      let s := with_listen l k s in
      match arrived with
      | Some (id, _) =>
          if n <=? 0 then Ok (s, sent, r)
          else
            let* (conn, s) := findConn id None s in
            let* size := UdpSocket.getRecvSize l in
            let* (conn, more, r) := Connection.recv_data clock random (UdpSocket.m_recvBuffer l) size conn r in
            Ok (with_connections (<[id := conn]> (connections s)) s, sent ++ more, r)
      | None => Ok (s, sent, r)
      end
  end.

(** A round of [run], on one of its connections. *)
Definition run (id : ConnID) (arrived : option (list Z)) (s : t) (r : R) : outcome (t * list (list Z) * R) :=
  match connections s !! id with
  | None => Ok (s, [], r)
  | Some conn =>
      let* (conn, sent, r) := Connection.update clock random arrived conn r in
      Ok (with_connections (<[id := conn]> (connections s)) s, sent, r)
  end.

(** A round of [recv], on one of its sockets. *)
Definition recv (i : nat) (arrived : option (ConnID * list Z)) (s : t) (r : R) : outcome (t * list (list Z) * R) :=
  match fds s !! i with
  | None => Ok (s, [], r)
  | Some f =>
      let (n, f) := UdpSocket.recv_from (snd <$> arrived) f in
      let s := with_fd i f s in
      match arrived with
      | Some (id, _) =>
          if n <=? 0 then Ok (s, [], r)
          else
            let* (conn, s) := findConn id (Some f) s in
            let* size := UdpSocket.getRecvSize f in
            let* (conn, more, r) := Connection.recv_data clock random (UdpSocket.m_recvBuffer f) size conn r in
            Ok (with_connections (<[id := conn]> (connections s)) s, more, r)
      | None => Ok (s, [], r)
      end
  end.
End Steps.
End Server.

Module Client.

(** The settings of the program, and what [recv] keeps of the echoes. *)
Record settings := Settings { md : Z; str_max_len : Z; auto_test : bool; test_count : Z; lost_rate : Z; add_delay : bool }.

Record reader := Reader {
  m_readBuffer : list Z; m_recvBytes : Z; next : Z; sumrtt : Z; count : Z; maxrtt : Z; is_running : bool
}.

Record t := Mk {
  socket : UdpSocket.t; kcp : Kcp.kcp; set : settings; rd : reader; sn : Z; is_first : bool
}.

Definition with_kcp (k : Kcp.kcp) (c : t) : t := Mk (socket c) k (set c) (rd c) (sn c) (is_first c).
Definition with_set (p : settings) (c : t) : t := Mk (socket c) (kcp c) p (rd c) (sn c) (is_first c).
Definition with_rd (d : reader) (c : t) : t := Mk (socket c) (kcp c) (set c) d (sn c) (is_first c).
Definition with_socket (s : UdpSocket.t) (c : t) : t := Mk s (kcp c) (set c) (rd c) (sn c) (is_first c).

Definition new_reader : reader := Reader [] 0 0 0 0 0 true.

(** Connecting the socket succeeds; [max_len]: [str_max_len] is not initialised. *)
Definition Client (conv max_len : Z) : t :=
  Mk UdpSocket.UdpSocket (ikcp_create conv) (Settings 0 max_len false 10 0 false) new_reader 0 true.

Definition setmode (mode : Z) (c : t) : outcome t :=
  let* k := util.ikcp_set_mode (kcp c) mode in
  let p := set c in
  Ok (with_set (Settings mode (str_max_len p) (auto_test p) (test_count p) (lost_rate p) (add_delay p)) (with_kcp k c)).

Definition setauto (auto : bool) (test_times max_len : Z) (c : t) : t :=
  let p := set c in with_set (Settings (md p) max_len auto (u32 test_times) (lost_rate p) (add_delay p)) c.

Definition setlostrate (lostrate : Z) (c : t) : t :=
  let p := set c in
  with_socket (UdpSocket.setLostrate (Z.quot lostrate 2) (socket c))
    (with_set (Settings (md p) (str_max_len p) (auto_test p) (test_count p) lostrate (add_delay p)) c).

Definition set_delay (delay : bool) (c : t) : t :=
  let p := set c in
  with_set (Settings (md p) (str_max_len p) (auto_test p) (test_count p) (lost_rate p) delay) c.

Definition terminate (c : t) : t :=
  let d := rd c in
  with_rd (Reader (m_readBuffer d) (m_recvBytes d) (next d) (sumrtt d) (count d) (maxrtt d) false) c.

Section Steps.
Context {R : Type} (clock : R -> Z * R) (random : Z -> Z -> R -> Z * R).

(** The packet [send] builds on its stack. *)
Definition packet (sn now : Z) (data : list Z) (len : Z) : outcome (list Z) :=
  let* buff := store32 (zeros BUFFER_SIZE) 0 sn in
  let* buff := store32 buff 4 now in
  let* buff := store32 buff 8 len in
  let* bytes := mread data 0 len in
  mwrite buff 12 bytes.

Definition send (data : list Z) (len : Z) (c : t) (r : R) : outcome (t * list (list Z) * R) :=
  let (now, r) := iclock clock r in
  let* buff := packet (sn c) now data len in
  let* (_, k) := ikcp_send (kcp c) buff (i32 (len + 12)) in
  let (now, r) := iclock clock r in
  let* (k, out) := ikcp_update k (u32 now) in
  let (sent, r) := kcp_outputs random (Some (socket c)) out r in
  Ok (Mk (socket c) k (set c) (rd c) (u32 (sn c + 1)) (is_first c), sent, r).

(** What [recv] does with one packet at [ptr_]. *)
Definition take_packet (test_count : Z) (delay : bool) (sn_ ts_ sz_ : Z) (d : reader) (r : R) : reader * R :=
  let (now, r) := iclock clock r in
  let rtt_ := u32 (now - ts_) in
  let (rtt_, r) := if delay then let (x, r) := random 60 125 r in (u32 (rtt_ + x), r) else (rtt_, r) in
  let running := (sn_ =? next d) && is_running d in
  let next' := u32 (next d + 1) in
  (Reader (m_readBuffer d) (u32 (m_recvBytes d - sz_)) next' (u32 (sumrtt d + rtt_)) (u32 (count d + 1))
     (if maxrtt d <? rtt_ then rtt_ else maxrtt d) (running && negb (test_count <=? next')), r).

(** The loop of [recv]: [ptr_] is an index in [m_readBuffer], which ends in a NUL. *)
Fixpoint recv_loop (fuel : nat) (p : settings) (ptr_ ret : Z) (d : reader) (r : R) : outcome (Z * reader * R) :=
  match fuel with
  | O => Err OutOfFuel
  | S fuel' =>
      if 0 <? m_recvBytes d then
        let mem := m_readBuffer d ++ [0] in
        let* sn_ := load32 mem ptr_ in
        let* ts_ := load32 mem (ptr_ + 4) in
        let* size := load32 mem (ptr_ + 8) in
        let sz_ := u32 (size + 12) in
        if m_recvBytes d <? sz_ then Ok (ret, d, r)
        else
          let (d, r) := take_packet (test_count p) (add_delay p) sn_ ts_ sz_ d r in
          recv_loop fuel' p (ptr_ + sz_) sn_ d r
      else Ok (ret, d, r)
  end.

(** [data] is not NULL.  The [substr] at the end has no effect. *)
Definition recv (fuel : nat) (data : list Z) (p : settings) (d : reader) (r : R) : outcome (Z * reader * R) :=
  let d :=
    if 0 <? zlen data then
      Reader (m_readBuffer d ++ data) (u32 (m_recvBytes d + zlen data)) (next d) (sumrtt d) (count d) (maxrtt d) (is_running d)
    else d in
  let* (ret, d, r) := recv_loop fuel p 0 0 d r in
  if m_recvBytes d =? 0 then
    Ok (ret, Reader [] 0 (next d) (sumrtt d) (count d) (maxrtt d) (is_running d), r)
  else Ok (ret, d, r).

Definition auto_send (c : t) (r : R) : outcome (t * list (list Z) * R) :=
  let* (text, r) := rand_str random (str_max_len (set c)) r in
  match text with [] => Ok (c, [], r) | _ => send text (zlen text) c r end.

(** The end of [one_loop], with the message received: the packets in it are read, and
    the next is sent when the last one has come back. *)
Definition read_and_send (fuel : nat) (bytes : list Z) (c : t) (r : R) : outcome (t * list (list Z) * R) :=
  let* (current_sn, d, r) := recv fuel bytes (set c) (rd c) r in
  let c := with_rd d c in
  if auto_test (set c) && negb (is_first c) && (u32 (current_sn + 1) =? sn c) && (sn c <? test_count (set c))
  then auto_send c r else Ok (c, [], r).

(** A round of [loop], with what arrives at the socket. *)
Definition one_loop (fuel : nat) (arrived : option (list Z)) (c : t) (r : R) : outcome (t * list (list Z) * R) :=
  let (now, r) := iclock clock r in
  let* (k, out) := ikcp_update (kcp c) (u32 now) in
  let (sent1, r) := kcp_outputs random (Some (socket c)) out r in
  let c := with_kcp k c in
  let* (c, sent2, r) :=
    (if auto_test (set c) && is_first c then
       let* (c, sent, r) := auto_send c r in Ok (Mk (socket c) (kcp c) (set c) (rd c) (sn c) false, sent, r)
     else Ok (c, [], r)) in
  let (n, s) := UdpSocket.recv arrived (socket c) in
  let c := with_socket s c in
  if n <? 0 then Ok (c, sent1 ++ sent2, r)
  else
    let* size := UdpSocket.getRecvSize s in
    let* data := mread (UdpSocket.m_recvBuffer s) 0 size in
    let* (_, k) := ikcp_input (kcp c) data in
    let* (rc, buff, k) := ikcp_recv k (Some (zeros BUFFER_SIZE)) BUFFER_SIZE in
    let c := with_kcp k c in
    if rc <? 0 then Ok (c, sent1 ++ sent2, r)
    else
      let* bytes := mread (default [] buff) 0 rc in
      let* (c, sent3, r) := read_and_send fuel bytes c r in Ok (c, sent1 ++ sent2 ++ sent3, r).
End Steps.
End Client.

(** ** What the client reads *)

Module Packets.
Import Client.

(** A packet as [Client::send] builds it. *)
Definition test_packet (sn ts : Z) (text : list Z) : list Z :=
  le_bytes 4 sn ++ le_bytes 4 ts ++ le_bytes 4 (zlen text) ++ text.

Lemma length_test_packet sn ts text : zlen (test_packet sn ts text) = 12 + zlen text.
Proof. unfold test_packet. rewrite !length_app, !length_le_bytes. lia. Qed.

(** A store right after what is stored. *)
Lemma store_next (z bs more : list Z) o : o = zlen bs -> o + zlen more <= zlen z ->
  mwrite (splice z 0 bs) o more = Ok (splice z 0 (bs ++ more)).
Proof.
  intros -> Hl. rewrite mwrite_ok by (rewrite ?length_splice; lia).
  pose proof (splice_splice z 0 bs more) as H. rewrite Z.add_0_l in H. by rewrite H by lia.
Qed.

Lemma packet_ok sn now text : 0 <= sn < 2 ^ 32 -> zlen text + 12 <= BUFFER_SIZE ->
  exists buff, packet sn now text (zlen text) = Ok buff /\ zlen buff = BUFFER_SIZE /\
    take (Z.to_nat (zlen text + 12)) buff = test_packet sn (u32 now) text.
Proof.
  intros Hs Ht. unfold packet, store32. assert (zlen (zeros BUFFER_SIZE) = BUFFER_SIZE) as Hz by (unfold zeros; by rewrite length_replicate).
  generalize dependent (zeros BUFFER_SIZE). intros z Hz. unfold BUFFER_SIZE in *.
  rewrite (u32_small sn), (u32_small (zlen text)) by lia.
  assert (forall v, zlen (le_bytes 4 v) = 4) as Hle by (intros; by rewrite length_le_bytes).
  rewrite mwrite_ok, outcome_bind_ok by (rewrite ?Hle; lia).
  rewrite store_next, outcome_bind_ok by (rewrite ?Hle; lia).
  rewrite store_next, outcome_bind_ok by (rewrite ?length_app, ?Nat2Z.inj_add, ?Hle; lia).
  rewrite mread_ok, outcome_bind_ok by lia. unfold slice. rewrite Nat2Z.id, drop_0, firstn_all.
  rewrite store_next by (rewrite ?length_app, ?Nat2Z.inj_add, ?Hle; lia). rewrite <- !app_assoc.
  fold (test_packet sn (u32 now) text). pose proof (length_test_packet sn (u32 now) text) as Hl.
  eexists. split; [reflexivity|]. split; [by rewrite length_splice by lia|].
  unfold splice. rewrite take_0. cbn [app]. replace (Z.to_nat (zlen text + 12)) with (length (test_packet sn (u32 now) text)) by lia.
  by rewrite take_app_length.
Qed.

Lemma load32_at (pre post : list Z) v : 0 <= v < 2 ^ 32 -> load32 (pre ++ le_bytes 4 v ++ post) (zlen pre) = Ok v.
Proof.
  intros Hv. unfold load32. rewrite mread_ok by (rewrite ?length_app, ?length_le_bytes; lia). rewrite outcome_bind_ok.
  unfold slice. rewrite Nat2Z.id, drop_app_length. change (Z.to_nat 4) with 4%nat.
  rewrite take_app_length' by (by rewrite length_le_bytes). by rewrite le_value_small.
Qed.

(** The three words of a packet's header. *)
Lemma load_header (pre post : list Z) sn ts text : 0 <= sn < 2 ^ 32 -> 0 <= ts < 2 ^ 32 -> zlen text < 2 ^ 32 ->
  let mem := pre ++ test_packet sn ts text ++ post in
  load32 mem (zlen pre) = Ok sn /\ load32 mem (zlen pre + 4) = Ok ts /\ load32 mem (zlen pre + 8) = Ok (zlen text).
Proof.
  intros H1 H2 H3 mem. unfold mem, test_packet. rewrite <- !app_assoc. split; [by apply load32_at|].
  assert (forall n v, zlen (le_bytes n v) = Z.of_nat n) as Hle by (intros; by rewrite length_le_bytes).
  split.
  - replace (zlen pre + 4) with (zlen (pre ++ le_bytes 4 sn)) by (rewrite length_app, length_le_bytes; lia).
    rewrite (app_assoc pre). by apply load32_at.
  - replace (zlen pre + 8) with (zlen ((pre ++ le_bytes 4 sn) ++ le_bytes 4 ts)) by (rewrite !length_app, !length_le_bytes; lia).
    rewrite (app_assoc pre), (app_assoc (pre ++ _)). apply load32_at. lia.
Qed.

(** A packet, its sequence number, its time and its text. *)
Abbreviation numbered_text := (Z * Z * list Z)%type.
Definition encode (q : numbered_text) : list Z := test_packet q.1.1 q.1.2 q.2.
Definition packet_fits (q : numbered_text) : Prop := 0 <= q.1.1 < 2 ^ 32 /\ 0 <= q.1.2 < 2 ^ 32 /\ zlen q.2 + 12 < 2 ^ 32.

(** Whether the client still runs after packets with these numbers: they are the next
    ones, and the last of the test is not among them. *)
Fixpoint runs_on (test_count next : Z) (running : bool) (sns : list Z) : bool :=
  match sns with
  | [] => running
  | sn :: sns' =>
      runs_on test_count (u32 (next + 1)) ((sn =? next) && running && negb (test_count <=? u32 (next + 1))) sns'
  end.

Section Reading.
Context {R : Type} (clock : R -> Z * R) (random : Z -> Z -> R -> Z * R).

Lemma take_packet_spec tc delay sn_ ts_ sz_ d r : exists d' r', take_packet clock random tc delay sn_ ts_ sz_ d r = (d', r') /\
  m_readBuffer d' = m_readBuffer d /\ m_recvBytes d' = u32 (m_recvBytes d - sz_) /\ next d' = u32 (next d + 1) /\
  count d' = u32 (count d + 1) /\
  is_running d' = (sn_ =? next d) && is_running d && negb (tc <=? u32 (next d + 1)).
Proof.
  unfold take_packet. destruct (iclock clock r) as [now r1].
  destruct delay; [destruct (random 60 125 r1) as [x r2]|]; eexists _, _; by split_and!.
Qed.

Lemma recv_loop_packets p pre qs fuel ret d r : Forall packet_fits qs -> (length qs < fuel)%nat ->
  m_readBuffer d = pre ++ concat (map encode qs) -> m_recvBytes d = zlen (concat (map encode qs)) -> m_recvBytes d < 2 ^ 32 ->
  exists d' r', recv_loop clock random fuel p (zlen pre) ret d r = Ok (List.last (map (fun q => q.1.1) qs) ret, d', r') /\
    m_recvBytes d' = 0 /\ next d' = fold_left (fun n _ => u32 (n + 1)) qs (next d) /\
    count d' = fold_left (fun n _ => u32 (n + 1)) qs (count d) /\
    is_running d' = runs_on (test_count p) (next d) (is_running d) (map (fun q => q.1.1) qs).
Proof.
  revert pre fuel ret d r. induction qs as [|[[sn ts] text] qs IH]; intros pre fuel ret d r Hq Hf Hb Hn Hlt;
    (destruct fuel as [|fuel]; [simpl in Hf; lia|]); cbn [recv_loop].
  { rewrite Hn. exists d, r. by split_and!. }
  apply list.Forall_cons in Hq as [(H1 & H2 & H3) Hq]. cbn [fst snd] in H1, H2, H3.
  cbn [map concat] in Hb, Hn. unfold encode at 1 in Hb. unfold encode at 1 in Hn. cbn [fst snd] in Hb, Hn.
  assert (zlen text < 2 ^ 32) as H4 by lia.
  destruct (load_header pre (concat (map encode qs) ++ [0]) sn ts text H1 H2 H4) as (L1 & L2 & L3).
  assert (m_readBuffer d ++ [0] = pre ++ test_packet sn ts text ++ concat (map encode qs) ++ [0]) as Em
    by (rewrite Hb, <- !app_assoc; done).
  rewrite length_app in Hn. pose proof (length_test_packet sn ts text) as Hl.
  replace (0 <? m_recvBytes d) with true by lia. rewrite Em, L1, outcome_bind_ok, L2, outcome_bind_ok, L3, outcome_bind_ok.
  rewrite u32_small by lia. replace (m_recvBytes d <? zlen text + 12) with false by lia.
  destruct (take_packet_spec (test_count p) (add_delay p) sn ts (zlen text + 12) d r) as (d1 & r1 & -> & E1 & E2 & E3 & E4 & E5).
  destruct (IH (pre ++ test_packet sn ts text) fuel sn d1 r1) as (d' & r' & E & E6 & E7 & E8 & E9); try done.
  - cbn [length] in Hf. lia.
  - by rewrite E1, Hb, <- app_assoc.
  - rewrite E2, u32_small; lia.
  - rewrite E2, u32_small; lia.
  - rewrite length_app, Nat2Z.inj_add, Hl in E. replace (zlen pre + (zlen text + 12)) with (zlen pre + (12 + zlen text)) by lia.
    exists d', r'. split.
    { rewrite E. cbn [map fst]. f_equal. f_equal. f_equal.
      generalize (map (fun q : numbered_text => q.1.1) qs). clear. intros l. revert sn. by induction l as [|x [|y l] IH]. }
    split; [done|]. cbn [fold_left map fst runs_on]. by rewrite E7, E8, E9, E3, E4, E5.
Qed.

(** What [recv] does with whole packets, when nothing was left before. *)
Lemma recv_packets fuel p qs d r : Forall packet_fits qs -> qs <> [] -> (length qs < fuel)%nat ->
  m_readBuffer d = [] -> m_recvBytes d = 0 -> zlen (concat (map encode qs)) < 2 ^ 32 ->
  exists d' r', recv clock random fuel (concat (map encode qs)) p d r = Ok (List.last (map (fun q => q.1.1) qs) 0, d', r') /\
    m_readBuffer d' = [] /\ m_recvBytes d' = 0 /\ next d' = fold_left (fun n _ => u32 (n + 1)) qs (next d) /\
    count d' = fold_left (fun n _ => u32 (n + 1)) qs (count d) /\
    is_running d' = runs_on (test_count p) (next d) (is_running d) (map (fun q => q.1.1) qs).
Proof.
  intros Hq Hne Hf Hb Hn Hlt. unfold recv. rewrite Hb, Hn, Z.add_0_l, u32_small by lia. cbn [app].
  assert (0 < zlen (concat (map encode qs))) as Hpos.
  { destruct qs as [|q qs]; [done|]. cbn [map concat]. rewrite length_app. unfold encode. pose proof (length_test_packet q.1.1 q.1.2 q.2). lia. }
  replace (0 <? _) with true by lia.
  set (d0 := Reader (concat (map encode qs)) _ _ _ _ _ _).
  destruct (recv_loop_packets p [] qs fuel 0 d0 r Hq Hf eq_refl eq_refl Hlt) as (d' & r' & E & E1 & E2 & E3 & E4).
  change (zlen []) with 0 in E. rewrite E, outcome_bind_ok, E1. eexists _, r'. split; [reflexivity|]. by split_and!.
Qed.
End Reading.

Lemma fold_count {A} (l : list A) n : 0 <= n -> n + zlen l < 2 ^ 32 -> fold_left (fun n _ => u32 (n + 1)) l n = n + zlen l.
Proof.
  revert n. induction l as [|x l IH]; intros n H0 H; cbn [fold_left length] in *; [lia|].
  rewrite u32_small, IH by lia. lia.
Qed.

Lemma runs_on_in_order tc n k b : 0 <= n -> n + Z.of_nat k < 2 ^ 32 ->
  runs_on tc n b (seqZ n (Z.of_nat k)) = b && ((Z.of_nat k =? 0) || (n + Z.of_nat k <? tc)).
Proof.
  revert n b. induction k as [|k IH]; intros n b H0 H; [by rewrite andb_true_r|].
  rewrite (seqZ_cons n) by lia. cbn [runs_on]. rewrite Z.eqb_refl, u32_small by lia.
  replace (Z.pred (Z.of_nat (S k))) with (Z.of_nat k) by lia. replace (Z.succ n) with (n + 1) by lia.
  rewrite IH by lia. cbn [andb]. destruct b; cbn [andb]; [|done].
  destruct (tc <=? n + 1) eqn:E1, (Z.of_nat k =? 0) eqn:E2, (n + 1 + Z.of_nat k <? tc) eqn:E3,
    (Z.of_nat (S k) =? 0) eqn:E4, (n + Z.of_nat (S k) <? tc) eqn:E5; to_prop; done || lia.
Qed.

Lemma last_seqZ n k x : 0 < k -> List.last (seqZ n k) x = n + k - 1.
Proof.
  intros H. replace k with (k - 1 + 1) at 1 by lia. rewrite seqZ_app by lia.
  assert (seqZ (n + (k - 1)) 1 = [n + (k - 1)]) as -> by reflexivity. rewrite List.last_last. lia.
Qed.

(** The example of two packets, the second cut in two. *)
Definition two_packets : list numbered_text := [((0, 0), [104; 105]); ((1, 0), [104; 111])].
Definition cut_packets (n : nat) : list Z * list Z :=
  let bytes := concat (map encode two_packets) in (take n bytes, drop n bytes).
Definition ten_tests : settings := Settings 0 2000 true 10 0 false.
Definition still (r : unit) : Z * unit := (0, r).
Definition least (lo hi : Z) (r : unit) : Z * unit := (lo, r).

(** The rest of the buffer is not moved up: the bytes that arrive next are read
    together with what was read before, and the client stops, although every byte was
    right. *)
Lemma client_rereads : match recv still least 5 (fst (cut_packets 27)) ten_tests new_reader tt with
  | Ok (_, d, r) => is_running d = true /\ next d = 1 /\
      match recv still least 5 (snd (cut_packets 27)) ten_tests d r with
      | Ok (_, d', _) => is_running d' = false
      | Err _ => False
      end
  | Err _ => False
  end.
Proof. vm_compute. repeat split. Qed.

(** Fewer than eleven bytes are read past their end. *)
Lemma short_chunk_overruns : recv still least 5 [1; 0; 0; 0; 7] ten_tests new_reader tt = Err UndefinedBehaviour.
Proof. reflexivity. Qed.

(** A size that wraps around to nothing is taken forever. *)
Lemma wrapped_size_loops {R} (clock : R -> Z * R) (random : Z -> Z -> R -> Z * R) fuel p ret d r :
  m_readBuffer d = le_bytes 4 0 ++ le_bytes 4 0 ++ le_bytes 4 (2 ^ 32 - 12) -> m_recvBytes d = 12 ->
  recv_loop clock random fuel p 0 ret d r = Err OutOfFuel.
Proof.
  revert ret d r. induction fuel as [|fuel IH]; intros ret d r Hb Hn; [done|]. cbn [recv_loop]. rewrite Hn, Hb.
  change (load32 _ 0) with (Ok 0). change (load32 _ (0 + 4)) with (Ok 0). change (load32 _ (0 + 8)) with (Ok (2 ^ 32 - 12)).
  cbn [Z.ltb Z.compare]. rewrite !outcome_bind_ok. change (u32 (2 ^ 32 - 12 + 12)) with 0. cbn [Z.ltb Z.compare].
  destruct (take_packet_spec clock random (test_count p) (add_delay p) 0 0 0 d r) as (d' & r' & -> & E1 & E2 & _).
  apply IH; [by rewrite E1 | by rewrite E2, Hn].
Qed.
End Packets.

Lemma find_conn_total id u s : 0 <= Server.md s < 3 -> exists c s', Server.findConn id u s = Ok (c, s').
Proof.
  intros Hm. unfold Server.findConn. destruct (Server.connections s !! id) as [c0|]; [by eexists _, _|].
  unfold Connection.setmode, util.ikcp_set_mode. rewrite cxx_assert_true by lia. by eexists _, _.
Qed.

(** ** The claims *)

(** Echoes that arrive packet by packet are read one after the other: when the
    numbers are the next ones, none is lost or read twice, nothing stays in the buffer,
    and the client goes on unless the test is over. *)
Theorem client_reads_packets {R} (clock : R -> Z * R) (random : Z -> Z -> R -> Z * R) fuel p (qs : list (Z * Z * list Z)) d r :
  Forall Packets.packet_fits qs -> qs <> [] -> (length qs < fuel)%nat ->
  Client.m_readBuffer d = [] -> Client.m_recvBytes d = 0 -> zlen (concat (map Packets.encode qs)) < 2 ^ 32 ->
  0 <= Client.next d -> Client.next d + zlen qs < 2 ^ 32 -> map (fun q => q.1.1) qs = seqZ (Client.next d) (zlen qs) ->
  exists d' r', Client.recv clock random fuel (concat (map Packets.encode qs)) p d r = Ok (Client.next d + zlen qs - 1, d', r') /\
    Client.m_readBuffer d' = [] /\ Client.m_recvBytes d' = 0 /\ Client.next d' = Client.next d + zlen qs /\
    Client.is_running d' = Client.is_running d && (Client.next d + zlen qs <? Client.test_count p).
Proof.
  intros Hq Hne Hf Hb Hn Hlt H0 Hnx Hsn.
  destruct (Packets.recv_packets clock random fuel p qs d r Hq Hne Hf Hb Hn Hlt) as (d' & r' & E & E1 & E2 & E3 & _ & E5).
  assert (0 < zlen qs) as Hpos by (destruct qs; [done | simpl; lia]).
  exists d', r'. rewrite E, Hsn, Packets.last_seqZ by done. split; [done|]. split; [done|]. split; [done|].
  rewrite E3, E5, Hsn, Packets.runs_on_in_order, Packets.fold_count by done. split; [done|].
  by replace (zlen qs =? 0) with false by lia.
Qed.

Lemma client_reads_packets_witness : exists d' r',
  Client.recv Packets.still Packets.least 5 (concat (map Packets.encode Packets.two_packets)) Packets.ten_tests Client.new_reader tt
    = Ok (1, d', r') /\
  Client.m_readBuffer d' = [] /\ Client.m_recvBytes d' = 0 /\ Client.next d' = 2 /\ Client.is_running d' = true && (2 <? 10).
Proof.
  apply (client_reads_packets Packets.still Packets.least 5 Packets.ten_tests Packets.two_packets Client.new_reader tt);
    try reflexivity; try done.
  - repeat constructor; simpl; lia.
  - simpl. lia.
Defined.

(** The table of connections holds one connection for each address: looking an
    address up returns its connection, made in the server's mode if there was none,
    keeps all the others, and finds the same one the next time. *)
Theorem find_conn_one_each id u u' s : 0 <= Server.md s < 3 ->
  exists c s', Server.findConn id u s = Ok (c, s') /\ Server.connections s' !! id = Some c /\
    (forall id', id' <> id -> Server.connections s' !! id' = Server.connections s !! id') /\
    Server.findConn id u' s' = Ok (c, s') /\
    match Server.connections s !! id with
    | Some c0 => c = c0 /\ s' = s
    | None => Connection.md c = Server.md s /\ Connection.kcp c = snd (ikcp_nodelay (snd (ikcp_wndsize (ikcp_create conv) 128 128))
        (if Server.md s =? 2 then 2 else 0) 10 (if Server.md s =? 2 then 2 else 0) (if Server.md s =? 0 then 0 else 1))
    end.
Proof.
  intros Hm. unfold Server.findConn. destruct (Server.connections s !! id) as [c0|] eqn:E.
  { exists c0, s. rewrite E. by split_and!. }
  unfold Connection.setmode, util.ikcp_set_mode. rewrite cxx_assert_true by lia. rewrite !outcome_bind_ok.
  eexists _, _. split; [reflexivity|]. cbn [Server.connections Server.with_connections]. rewrite lookup_insert_eq.
  split_and!; try done.
  - intros id' Hne. by rewrite lookup_insert_ne.
  - cbn [Connection.set_show Connection.kcp]. assert (Server.md s = 0 \/ Server.md s = 1 \/ Server.md s = 2) as [-> | [-> | ->]] by lia; done.
Qed.

Lemma find_conn_one_each_witness : exists c s',
  Server.findConn ("10.0.0.1"%string, 9527) None (Server.Server true conv) = Ok (c, s') /\
  Server.connections s' !! ("10.0.0.1"%string, 9527) = Some c /\
  (forall id', id' <> ("10.0.0.1"%string, 9527) -> Server.connections s' !! id' = Server.connections (Server.Server true conv) !! id').
Proof.
  destruct (find_conn_one_each ("10.0.0.1"%string, 9527) None None (Server.Server true conv)) as (c & s' & H1 & H2 & H3 & _);
    [simpl; lia|]. exists c, s'. auto.
Defined.

(** Without CON_CLIENT, as the Makefile builds it, the server reads the size of what it
    received from a member that nothing has set. *)
Lemma server_reads_no_size {R} (clock : R -> Z * R) (random : Z -> Z -> R -> Z * R) i id d s f r :
  0 <= Server.md s < 3 -> Server.fds s !! i = Some f -> UdpSocket.m_recvSize f = None -> 0 < zlen d ->
  Server.recv clock random i (Some (id, d)) s r = Err UndefinedBehaviour.
Proof.
  intros Hm Hf Hs Hd. unfold Server.recv. rewrite Hf. unfold UdpSocket.recv_from, UdpSocket.recvfrom. cbn [fmap option_fmap option_map snd].
  assert ((zlen (take (Z.to_nat RECV_BUF_SIZE) d) <=? 0) = false) as ->
    by (apply Z.leb_gt; rewrite length_take; unfold RECV_BUF_SIZE; lia).
  match goal with |- context [Server.findConn id ?u ?s'] => destruct (find_conn_total id u s' Hm) as (c & s1 & ->) end.
  rewrite outcome_bind_ok. unfold UdpSocket.getRecvSize. cbn [UdpSocket.m_recvSize]. by rewrite Hs.
Qed.
