(* ===== verification/KcpEcho.v ===== *)
(** * The echo test

    A client of KcpApp in its automatic test sends a numbered packet, waits for the
    echo of the server's connection and sends the next.  As long as a packet fits one
    segment the test can only end by being finished: whatever the network loses, repeats and reorders,
    each packet the client reads is the next it sent.  A packet that takes several
    segments can make it fail, even over a perfect network. *)

From Stdlib Require Import ZArith Lia Bool.
From stdpp Require Import base tactics option list numbers.
From S2P Require Import Prelude KcpWire Kcp KcpInv KcpInput KcpUser KcpFlush KcpApi KcpNet KcpApp.

#[local] Open Scope Z_scope.

(** ** An end point that sends and receives whole packets

    Packets as segments of their own: the log of a sender whose packets are not cut. *)

Definition whole_log (ps : list (list Z)) : log := map (pair 0) ps.

Lemma length_whole_log ps : length (whole_log ps) = length ps.
Proof. apply length_map. Qed.

Lemma whole_log_app ps qs : whole_log (ps ++ qs) = whole_log ps ++ whole_log qs.
Proof. apply map_app. Qed.

Lemma cut_whole_log ps : cut [] (whole_log ps) = ps.
Proof. induction ps as [|p ps IH]; [done|]. cbn [whole_log map cut]. rewrite Z.eqb_refl. cbn [app]. by f_equal. Qed.

Lemma complete_whole_log ps : complete (whole_log ps).
Proof. unfold complete, whole_log. rewrite list.fmap_last. by destruct (list.last ps). Qed.

Lemma numbered_whole_log ps : numbered (map fst (whole_log ps)).
Proof. induction ps as [|p [|q ps] IH]; [done | done |]. cbn [whole_log map fst numbered] in *. split; [by left | exact IH]. Qed.

Lemma range_whole_log ps : Forall (fun f => 0 <= f < IKCP_WND_RCV) (map fst (whole_log ps)).
Proof. induction ps; constructor; [done | done]. Qed.

(** A prefix of the log is the log of a prefix. *)
Lemma prefix_whole_log l ps : l `prefix_of` whole_log ps -> l = whole_log (take (length l) ps).
Proof.
  intros (rest & E). unfold whole_log. rewrite <- firstn_map. fold (whole_log ps). rewrite E.
  by rewrite take_app_length.
Qed.

(** The default segment size, in stream mode. *)
Definition streaming (k : kcp) : Prop := stream (cfg k) <> 0 /\ mss (cfg k) = 1376 /\ mtu (cfg k) = 1400.

(** The end point was given [gv] to send, has numbered [lo] of it, and its user has
    taken [tk] of what the other has numbered, [li]. *)
Record endpoint (gv : list (list Z)) (lo li : log) (tk : list (list Z)) (k : kcp) : Prop := {
  ep_good : good k;
  ep_mode : streaming k;
  ep_sends : sends lo k;
  ep_given : given lo k = whole_log gv;
  ep_receives : receives li (whole_log tk) (rx k)
}.

Lemma endpoint_more gv lo li li' tk k : endpoint gv lo li tk k -> endpoint gv lo (li ++ li') tk k.
Proof. intros []. constructor; try done. by apply receives_app. Qed.

(** Less is numbered than given, so numbers do not wrap. *)
Lemma flush_nxt l k k' out : good k -> sends l k -> zlen (given l k) < 2 ^ 31 -> ikcp_flush k = Ok (k', out) ->
  snd_nxt (tx k') < 2 ^ 31.
Proof.
  intros (Hk & Hfr & Hsz) [Hn Hm _ _ _ _] Hlt E. destruct (decide (updated (clk k) = 0)) as [Eu|Hu].
  { unfold ikcp_flush in E. rewrite Eu in E. injection E as <- <-. lia. }
  destruct (flush_cases k Hk Hfr Hsz Hu) as (k1 & gs & E1 & _ & _ & _ & _ & _ & _ & Et & _).
  rewrite E in E1. injection E1 as <- ->.
  destruct (admitted_spec k Hk) as (_ & _ & _ & _ & (qs & Eq & _ & _ & Enx)).
  rewrite Et. cbn [flushed_tx snd_nxt with_buf]. rewrite Enx, Hn.
  unfold given in Hlt. rewrite Eq, length_app, length_map, length_app in Hlt. rewrite u32_small; lia.
Qed.

Lemma update_nxt l k now k' out : good k -> sends l k -> zlen (given l k) < 2 ^ 31 -> ikcp_update k now = Ok (k', out) ->
  snd_nxt (tx k') < 2 ^ 31.
Proof.
  intros Hg Hs Hlt E. destruct (update_cases k now) as [(_ & Eu) | (_ & Eu)]; try apply Hg; rewrite Eu in E.
  - destruct (sends_tx l k (with_times now (next_flush k now) k) Hs eq_refl) as (Hs1 & Eg).
    eapply flush_nxt; [by apply with_times_good | exact Hs1 | by rewrite Eg | exact E].
  - injection E as <- _. cbn [tx with_times]. destruct Hs. cbn. lia.
Qed.

Lemma update_acks k now k' out : good k -> ikcp_update k now = Ok (k', out) -> ackcount (rx k') <= ackcount (rx k).
Proof.
  intros Hg E. pose proof Hg as (Hk & Hfr & Hsz). pose proof Hk as (_ & _ & Hrx & _).
  assert (0 <= ackcount (rx k)) as H0 by (destruct Hrx; lia).
  destruct (update_cases k now) as [(_ & Eu) | (_ & Eu)]; try apply Hg; rewrite Eu in E.
  - destruct (decide (updated (clk (with_times now (next_flush k now) k)) = 0)) as [Hu|Hu].
    { unfold ikcp_flush in E. rewrite Hu in E. injection E as <- _. done. }
    destruct (flush_cases (with_times now (next_flush k now) k)) as (k1 & gs & E1 & _ & _ & _ & _ & _ & _ & _ & Er & _);
      try done.
    rewrite E in E1. injection E1 as <- _. rewrite Er. done.
  - injection E as <- _. done.
Qed.

Lemma endpoint_update gv lo li tk k now : endpoint gv lo li tk k -> zlen gv < 2 ^ 31 ->
  exists k' out lo', ikcp_update k now = Ok (k', out) /\ endpoint gv (lo ++ lo') li tk k' /\
    Forall (genuine_datagram (lo ++ lo')) out /\ Forall (fun d => zlen d <= 1400) out /\ ackcount (rx k') <= ackcount (rx k).
Proof.
  intros [Hg (Hm1 & Hm2 & Hm3) Hs Eg Hr] Hlt. destruct (update_good k now Hg) as (k' & gs & E & Hg' & Hfit).
  assert (zlen (given lo k) < 2 ^ 31) as Hlt' by (rewrite Eg, length_whole_log; lia).
  pose proof (update_nxt lo k now k' _ Hg Hs Hlt' E) as Hnx.
  destruct (update_sends lo k now k' _ Hg Hs E Hnx) as (lo' & Hs' & Eg' & Hgen).
  destruct (update_cfg k now k' _ Hg E) as (Ec & E1 & E2 & E3).
  exists k', (map datagram gs), lo'. split; [done|]. split.
  { constructor; [done | by unfold streaming; rewrite Ec | done | by rewrite Eg' | by eapply receives_same]. }
  split; [done|]. split; [|by eapply update_acks]. rewrite <- Hm3. clear -Hfit. induction Hfit as [|g gs H _ IH]; constructor; [apply H | done].
Qed.

Lemma endpoint_input gv lo li tk k d : endpoint gv lo li tk k -> zlen li < 2 ^ 31 -> Forall is_byte d ->
  genuine_datagram li d -> ack_room k d ->
  match ikcp_input k d with
  | Ok (_, k') => endpoint gv lo li tk k'
  | Err f => f = UndefinedBehaviour /\ stale k (Input d)
  end.
Proof.
  intros [Hg Hm Hs Eg Hr] Hlt Hb Hgen Hroom. pose proof (input_good k d Hg (conj Hb Hroom)) as H.
  destruct (ikcp_input k d) as [[n k']|f] eqn:E; [|done].
  pose proof (input_cfg k d n k' Hg (conj Hb Hroom) E) as Ec.
  destruct (input_kept (fun s => logged lo s /\ seg.cmd s = IKCP_CMD_PUSH) k d n k' Hb ltac:(done) E) as (H1 & H2 & H3).
  destruct (sends_same lo k k' Hs H1 H2 H3) as (H4 & H5).
  constructor; [done | by unfold streaming; rewrite Ec | done | by rewrite H5 | by eapply input_receives].
Qed.

Definition packets_fit (ps : list (list Z)) : Prop := Forall (fun p => 0 < zlen p <= 1376) ps.

(** What is left to read of a log is at most what was given and not taken. *)
Lemma endpoint_readable gv lo li ps n k : endpoint gv lo li (take n ps) k -> li `prefix_of` whole_log ps ->
  packets_fit ps -> (length ps <= S n)%nat -> readable (rx k).
Proof.
  intros [_ _ _ _ [(rest & E) _ _]] Hpre Hfit Hn. unfold readable.
  destruct Hpre as (rest' & E'). pose proof (whole_log_app (take n ps) (drop n ps)) as Es.
  rewrite take_drop in Es. rewrite E, Es, <- !app_assoc in E'. apply app_inv_head in E'.
  assert (Forall (fun p => 0 < zlen p <= 1376) (drop n ps)) as Hd by (by apply Forall_drop).
  assert (length (drop n ps) <= 1)%nat as Hl by (rewrite length_drop; lia).
  destruct (drop n ps) as [|p [|]]; [| |simpl in Hl; lia].
  - symmetry in E'. apply app_eq_nil in E' as [-> _]. done.
  - apply list.Forall_cons in Hd as [Hp _]. destruct (map payload (rcv_queue (rx k))) as [|x q]; [done|].
    cbn [map app] in E'. injection E' as <- E'. symmetry in E'. apply app_eq_nil in E' as [-> _].
    unfold bytes_of. cbn [map snd concat]. rewrite app_nil_r. lia.
Qed.

Lemma move_ready_acks wnd buf r : ackcount (move_ready wnd buf r) = ackcount r.
Proof.
  revert r. induction buf as [|s buf IH]; intros r; cbn [move_ready]; [done|].
  destruct ((seg.sn s =? rcv_nxt r) && (nrcv_que r <? wnd)); [|done]. etrans; [apply IH | done].
Qed.

(** Taking a message out: nothing, or the next packet, whole. *)
Lemma endpoint_recv gv lo li ps n k : endpoint gv lo li (take n ps) k -> li `prefix_of` whole_log ps ->
  packets_fit ps -> (n <= length ps <= S n)%nat -> zlen ps < 2 ^ 31 ->
  exists m b k', ikcp_recv k (Some (zeros BUFFER_SIZE)) BUFFER_SIZE = Ok (m, Some b, k') /\ zlen b = BUFFER_SIZE /\
    ackcount (rx k') <= ackcount (rx k) /\
    ((m < 0 /\ endpoint gv lo li (take n ps) k') \/
     (exists p, ps !! n = Some p /\ m = zlen p /\ take (Z.to_nat m) b = p /\ endpoint gv lo li (take (S n) ps) k')).
Proof.
  intros H Hpre Hfit Hn Hlt. pose proof (endpoint_readable _ _ _ _ _ _ H Hpre Hfit ltac:(lia)) as Hread.
  destruct H as [Hg Hm Hs Eg Hr].
  assert (zlen (zeros BUFFER_SIZE) = BUFFER_SIZE) as Hz by (unfold zeros; by rewrite length_replicate).
  assert (valid k (Recv (zeros BUFFER_SIZE) BUFFER_SIZE)) as Hv.
  { split; [done|]. split; [by rewrite Hz | done]. }
  destruct (recv_good k _ _ Hg Hv) as (m & b & k' & E & Hg').
  destruct (recv_tx k _ _ _ _ _ Hg Hv E) as (Et & Ec).
  assert (zlen li < 2 ^ 31) as Hli by (apply prefix_length in Hpre; rewrite length_whole_log in Hpre; lia).
  assert (numbered (map fst li) /\ Forall (fun f => 0 <= f < IKCP_WND_RCV) (map fst li)) as [Hnum Hrng].
  { rewrite (prefix_whole_log _ _ Hpre). split; [apply numbered_whole_log | apply range_whole_log]. }
  destruct (recv_receives li (whole_log (take n ps)) k _ _ _ _ _ Hg Hv Hli Hr (complete_whole_log _) Hnum Hrng E)
    as (d & Hr' & _ & Hcut).
  assert (whole_log (take n ps) ++ d `prefix_of` whole_log ps) as Hpd.
  { etrans; [|exact Hpre]. destruct Hr' as [(rest & ->) _ _]. by eexists. }
  apply prefix_whole_log in Hpd. set (j := length _) in Hpd. rewrite Hpd, !cut_whole_log in Hcut. rewrite Hpd in Hr'.
  assert (forall tk, tk = take j ps -> endpoint gv lo li tk k') as Hend.
  { intros tk ->. constructor; [done | by unfold streaming; rewrite Ec | by apply (sends_tx lo k) |
      by rewrite (proj2 (sends_tx lo k k' Hs Et)) | done]. }
  exists m, b, k'. split; [done|].
  destruct Hg as (Hk & _). destruct (recv_cases k (zeros BUFFER_SIZE) BUFFER_SIZE Hk Hread ltac:(done) ltac:(by rewrite Hz))
    as (m1 & b1 & k1 & E1 & Hcases). rewrite E in E1. injection E1 as <- <- <-.
  assert (zlen b = BUFFER_SIZE /\ m <= BUFFER_SIZE /\ ackcount (rx k') <= ackcount (rx k)) as (Hb & Hmb & Hack).
  { destruct (KcpUser.whole (rx k) && _) eqn:Ew.
    - apply andb_true_iff in Ew as [_ Ew]. to_prop. destruct Hcases as (-> & -> & _ & _ & _ & _ & _ & _ & ->).
      split; [by rewrite length_splice, Hz by (rewrite ?Hz; lia)|]. split; [lia|].
      by rewrite move_ready_acks.
    - destruct Hcases as (-> & -> & ->). split; [done|]. split; [|lia].
      destruct (rcv_queue (rx k)); [done|]. by destruct (KcpUser.whole (rx k)). }
  split; [done|]. split; [done|]. change (0 <=? BUFFER_SIZE) with true in Hcut. cbn [andb] in Hcut.
  destruct (0 <=? m) eqn:Em; to_prop.
  - right. assert (ps !! n = Some (take (Z.to_nat m) b)) as Hnth.
    { assert (take j ps !! n = Some (take (Z.to_nat m) b)) as Hj.
      { rewrite Hcut, lookup_app_r; rewrite length_take; [|lia]. by replace (n - n `min` length ps)%nat with 0%nat by lia. }
      rewrite lookup_take in Hj. by destruct (decide _). }
    exists (take (Z.to_nat m) b). split; [done|]. split; [rewrite length_take; lia|]. split; [done|].
    apply Hend. rewrite Hcut. by apply take_S_r.
  - left. split; [done|]. apply Hend. by rewrite Hcut, app_nil_r.
Qed.

(** All that was given is numbered, so nothing is queued. *)
Lemma endpoint_idle gv lo li tk k : endpoint gv lo li tk k -> (length gv <= length lo)%nat -> snd_queue (tx k) = [].
Proof.
  intros [_ _ _ E _] Hl. apply (f_equal length) in E. unfold given in E.
  rewrite length_app, length_map, length_whole_log in E. destruct (snd_queue (tx k)); [done | cbn [length] in E; lia].
Qed.

(** A packet that fits is then a segment of its own. *)
Lemma endpoint_send gv lo li tk k buf len : endpoint gv lo li tk k -> snd_queue (tx k) = [] ->
  0 < len <= 1376 -> len <= zlen buf ->
  exists k', ikcp_send k buf len = Ok (len, k') /\ endpoint (gv ++ [take (Z.to_nat len) buf]) lo li tk k' /\ rx k' = rx k.
Proof.
  intros [Hg Hm Hs Eg Hr] Hq Hl Hb. pose proof Hm as (Hm1 & Hm2 & _).
  assert (valid k (Send buf len)) as Hv by (split; [done | lia]).
  destruct (send_good k buf len Hg Hv) as (n & k' & E & Hg').
  destruct (send_sends lo k buf len n k' Hg Hv Hs E) as (Hs' & Ec & _).
  assert (exists s, n = len /\ k' = with_tx s k /\ snd_queue s = [seg_of_data 0 (take (Z.to_nat len) buf)]) as (s & -> & -> & Es).
  { revert E. unfold ikcp_send, send_extend, fragments. rewrite Hq, Hm2. cbn [list.last].
    rewrite (proj2 (Z.eqb_neq _ _) Hm1). cbn [negb andb Z.ltb Z.compare cxx_assert]. rewrite outcome_bind_ok.
    replace (len <? 0) with false by lia. rewrite outcome_bind_ok. replace (len <=? 0) with false by lia.
    replace (len <=? 1376) with true by lia. change (Z.to_nat (if 1 =? 0 then 1 else 1)) with 1%nat.
    change (IKCP_WND_RCV <=? 1) with false. cbn [send_fragments].
    rewrite Hm2. replace (1376 <? len) with false by lia. rewrite mread_ok, outcome_bind_ok by lia. rewrite outcome_bind_ok.
    rewrite (proj2 (Z.eqb_neq _ _) Hm1). intros [= <- <-]. eexists. split; [done|]. split; [reflexivity|].
    cbn [snd_queue]. rewrite Hq. unfold slice. cbn [Z.to_nat]. by rewrite drop_0. }
  exists (with_tx s k). split; [done|]. split; [|done]. constructor; try done.
  rewrite whole_log_app, <- Eg. unfold given. cbn [tx with_tx]. rewrite Es, Hq. cbn [map app]. by rewrite app_nil_r.
Qed.

(** ** The two programs *)

Import Packets.

Section Echo.
Context {R : Type} (clock : R -> Z * R) (random : Z -> Z -> R -> Z * R).
Context (tests max_len : Z) (fuel : nat).

(** What the programs and the network consist of: every datagram that was sent may
    still arrive. *)
Record world := World { cl : Client.t; sv : Connection.t; to_sv : list (list Z); to_cl : list (list Z) }.

(** A datagram that was sent arrives, or none; what is acknowledged fits its counter. *)
Definition arrives (air : list (list Z)) (k : kcp) (a : option (list Z)) : Prop :=
  match a with
  | None => True
  | Some d => In d air /\ Forall is_byte d /\ ackcount (rx k) + 64 <= 2 ^ 31
  end.

Inductive world_step : world -> world -> Prop :=
| client_loops w a r c out r' :
    arrives (to_cl w) (Client.kcp (cl w)) a -> Client.one_loop clock random fuel a (cl w) r = Ok (c, out, r') ->
    world_step w (World c (sv w) (to_sv w ++ out) (to_cl w))
| server_updates w a r c out r' :
    arrives (to_sv w) (Connection.kcp (sv w)) a -> Connection.update clock random a (sv w) r = Ok (c, out, r') ->
    world_step w (World (cl w) c (to_sv w) (to_cl w ++ out))
| server_accepts w d r c out r' :
    arrives (to_sv w) (Connection.kcp (sv w)) (Some d) ->
    Connection.recv_data clock random (snd (UdpSocket.recvfrom (Some d))) (zlen d) (sv w) r = Ok (c, out, r') ->
    world_step w (World (cl w) c (to_sv w) (to_cl w ++ out)).

Definition world_start (mode mode' : Z) : outcome world :=
  let* c := Client.setmode mode (Client.Client KcpApp.conv max_len) in
  let* s := Connection.setmode mode' (Connection.Connection true KcpApp.conv None) in
  Ok (World (Client.setauto true tests max_len c) s [] []).

(** The [i]-th packet of the test. *)
Definition is_test (i : nat) (p : list Z) : Prop :=
  exists ts text, p = test_packet (Z.of_nat i) ts text /\ 0 <= ts < 2 ^ 32 /\ 0 < zlen text <= 1364.

Definition are_tests (ps : list (list Z)) : Prop := forall i p, ps !! i = Some p -> is_test i p.

Definition on_air (l : log) (ds : list (list Z)) : Prop := Forall (fun d => genuine_datagram l d /\ zlen d <= 1400) ds.

(** The client has read [nD] of the packets [ps] it sent. *)
Record client_ok (ps : list (list Z)) (nD : nat) (lc ls : log) (c : Client.t) : Prop := {
  co_end : endpoint ps lc ls (take nD ps) (Client.kcp c);
  co_auto : Client.auto_test (Client.set c) = true;
  co_tests : Client.test_count (Client.set c) = tests;
  co_len : Client.str_max_len (Client.set c) = max_len;
  co_buffer : Client.m_readBuffer (Client.rd c) = [];
  co_bytes : Client.m_recvBytes (Client.rd c) = 0;
  co_next : Client.next (Client.rd c) = Z.of_nat nD;
  co_running : Client.is_running (Client.rd c) = (Z.of_nat nD <? tests);
  co_sn : Client.sn c = zlen ps;
  co_first : Client.is_first c = true -> ps = [];
  co_max : zlen ps <= tests
}.

(** The connection has echoed [nS] of them. *)
Record server_ok (ps : list (list Z)) (nS : nat) (lc ls : log) (s : Connection.t) : Prop := {
  so_end : endpoint (take nS ps) ls lc (take nS ps) (Connection.kcp s);
  so_socket : exists u, Connection.socket s = Some u;
  so_quiet : Connection.show_data s = false
}.

(** At most one packet is under way. *)
Definition under_way (ps : list (list Z)) (nS nD : nat) : Prop :=
  (nD <= nS)%nat /\ (nS <= length ps)%nat /\ (length ps <= S nD)%nat.

Definition world_ok (w : world) : Prop :=
  exists ps nS nD lc ls, are_tests ps /\ under_way ps nS nD /\ client_ok ps nD lc ls (cl w) /\ server_ok ps nS lc ls (sv w) /\
    on_air lc (to_sv w) /\ on_air ls (to_cl w).

Hypothesis random_range : forall lo hi r, lo <= hi -> lo <= fst (random lo hi r) <= hi.
Hypothesis few_tests : 0 < tests < 2 ^ 31.
Hypothesis short_texts : 500 <= max_len <= 1364.
Hypothesis enough_fuel : (2 <= fuel)%nat.

Lemma are_tests_fit ps : are_tests ps -> packets_fit ps.
Proof.
  intros H. apply list.Forall_forall. intros p Hp. apply list_elem_of_lookup in Hp as [i Hi].
  destruct (H i p Hi) as (ts & text & -> & _ & Ht). rewrite length_test_packet. lia.
Qed.

Lemma are_tests_snoc ps p : are_tests ps -> is_test (length ps) p -> are_tests (ps ++ [p]).
Proof.
  intros H Hp i q Hi. apply lookup_app_Some in Hi as [Hi | [Hi Hq]]; [by apply H|].
  destruct (i - length ps)%nat as [|n] eqn:E; [|by destruct n]. injection Hq as <-. by replace i with (length ps) by lia.
Qed.

Lemma on_air_app l l' ds : on_air l ds -> on_air (l ++ l') ds.
Proof. intros H. eapply list.Forall_impl; [exact H|]. intros d [H1 H2]. split; [by apply genuine_datagram_app | done]. Qed.

(** The socket sends a part of what it is given. *)
Lemma outputs_on_air l s out r : on_air l out -> on_air l (fst (kcp_outputs random (Some s) out r)).
Proof.
  revert r. induction out as [|d out IH]; intros r H; cbn [kcp_outputs]; [constructor|].
  apply list.Forall_cons in H as [Hd H]. unfold UdpSocket.send. destruct (random 0 100 r) as [x r1].
  specialize (IH r1 H). destruct (kcp_outputs random (Some s) out r1) as [rest r2]. cbn [fst] in *.
  destruct (_ <? _); cbn [app]; [done | by constructor].
Qed.

Lemma read_arrived d : zlen d <= 1400 -> mread (snd (UdpSocket.recvfrom (Some d))) 0 (zlen d) = Ok d.
Proof.
  intros H. unfold UdpSocket.recvfrom, RECV_BUF_SIZE. cbn [snd]. rewrite take_ge by lia.
  rewrite mread_ok by (rewrite ?length_app; lia). unfold slice. cbn [Z.to_nat]. by rewrite drop_0, Nat2Z.id, take_app_length.
Qed.

Lemma arrived_room k d : ackcount (rx k) + 64 <= 2 ^ 31 -> zlen d <= 1400 -> ack_room k d.
Proof. intros H1 H2. unfold ack_room. Z.to_euclidean_division_equations. lia. Qed.

Lemma take_take_whole (ps : list (list Z)) lo n : lo `prefix_of` whole_log (take n ps) -> lo `prefix_of` whole_log ps.
Proof. intros H. etrans; [exact H|]. rewrite <- (take_drop n ps) at 2. rewrite whole_log_app. by eexists. Qed.

Lemma endpoint_numbered gv lo li tk k : endpoint gv lo li tk k -> lo `prefix_of` whole_log gv /\ (length tk <= length li)%nat.
Proof.
  intros [_ _ _ Eg [(rest & ->) _ _]]. split; [rewrite <- Eg; by eexists|]. rewrite length_app, length_whole_log. lia.
Qed.

(** Sending the next packet: the text may be empty, then nothing is sent. *)
Lemma auto_send_ok c r ps nD lc ls : client_ok ps nD lc ls c -> are_tests ps -> snd_queue (tx (Client.kcp c)) = [] ->
  zlen ps < tests -> (nD <= length ps)%nat ->
  exists c' out r' qs lo, Client.auto_send clock random c r = Ok (c', out, r') /\
    are_tests (ps ++ qs) /\ (length qs <= 1)%nat /\ on_air (lc ++ lo) out /\
    ackcount (rx (Client.kcp c')) <= ackcount (rx (Client.kcp c)) /\
    (Client.is_first c = false -> client_ok (ps ++ qs) nD (lc ++ lo) ls c') /\
    (ps = [] -> client_ok (ps ++ qs) nD (lc ++ lo) ls
      (Client.Mk (Client.socket c') (Client.kcp c') (Client.set c') (Client.rd c') (Client.sn c') false)).
Proof.
  intros [He Ha Ht Hl Hb Hn Hx Hr Hs Hf Hm] Hp Hq Hlt HnD. unfold Client.auto_send, rand_str, random_string. rewrite Hl.
  rewrite (wrap_small 64 max_len), (wrap_small 64 (max_len - 500)), !i32_small by lia.
  pose proof (random_range (max_len - 500) max_len r ltac:(lia)) as Hsz.
  destruct (random (max_len - 500) max_len r) as [sz r1]. cbn [fst] in Hsz. destruct (random 0 26 r1) as [ch r2].
  rewrite (wrap_small 64 sz) by lia. replace (2 ^ 63 <=? sz) with false by lia. rewrite outcome_bind_ok.
  set (text := replicate (Z.to_nat sz) (u8 (ch + 97))).
  assert (zlen text = sz) as Htext by (unfold text; rewrite length_replicate; lia).
  assert (Client.sn c < 2 ^ 31) as Hsn by lia.
  destruct text as [|b text'] eqn:Etext.
  { eexists c, [], r2, [], []. rewrite !app_nil_r. split; [done|]. split; [done|]. split; [simpl; lia|].
    split; [constructor|]. split; [lia|]. split; [by constructor|]. intros ->. by constructor. }
  rewrite <- Etext. rewrite <- Etext in Htext. assert (0 < sz) as Hpos by (rewrite <- Htext, Etext; simpl; lia).
  clear Etext b text'. clearbody text. subst sz. unfold Client.send. destruct (iclock clock r2) as [now r3].
  destruct (packet_ok (Client.sn c) now text) as (buff & -> & Hbl & Hbt); [lia | unfold BUFFER_SIZE; lia|].
  rewrite outcome_bind_ok, i32_small by lia.
  destruct (endpoint_send _ _ _ _ _ buff (zlen text + 12) He Hq) as (k1 & -> & He1 & Erx);
    [lia | rewrite Hbl; unfold BUFFER_SIZE; lia|].
  rewrite outcome_bind_ok, Hbt in *. set (p := test_packet (Client.sn c) (u32 now) text) in *.
  destruct (iclock clock r3) as [now' r4].
  assert (zlen (ps ++ [p]) < 2 ^ 31) as Hlt' by (rewrite length_app; simpl; lia).
  destruct (endpoint_update _ _ _ _ _ (u32 now') He1 Hlt') as (k2 & out & lo & -> & He2 & Hgen & Hsize & Hack).
  rewrite outcome_bind_ok. pose proof (outputs_on_air (lc ++ lo) (Client.socket c) out r4) as Hout.
  destruct (kcp_outputs random (Some (Client.socket c)) out r4) as [sent r5].
  assert (is_test (length ps) p) as Htest.
  { exists (u32 now), text. unfold p. rewrite Hs. split; [done|]. split; [apply u32_range | lia]. }
  assert (take nD (ps ++ [p]) = take nD ps) as Etake by (by rewrite take_app_le).
  eexists _, sent, r5, [p], lo. split; [reflexivity|]. split; [by apply are_tests_snoc|]. split; [done|].
  split. { apply Hout. by apply list.Forall_and. }
  cbn [Client.kcp Client.socket Client.set Client.rd Client.sn Client.is_first]. split; [by rewrite <- Erx|].
  assert (forall b, (b = true -> ps ++ [p] = []) ->
    client_ok (ps ++ [p]) nD (lc ++ lo) ls (Client.Mk (Client.socket c) k2 (Client.set c) (Client.rd c) (u32 (Client.sn c + 1)) b)) as Hok.
  { intros b Hbf. constructor; cbn [Client.kcp Client.set Client.rd Client.sn Client.is_first]; try done.
    - by rewrite Etake.
    - rewrite u32_small, Hs, length_app by lia. simpl. lia.
    - rewrite length_app. simpl. lia. }
  split; [intros Hfirst; apply Hok; by rewrite Hfirst | intros _; by apply Hok].
Qed.

(** What the client does when it has read the next packet. *)
Lemma read_test nD p d r : is_test nD p -> Client.m_readBuffer d = [] -> Client.m_recvBytes d = 0 ->
  Client.next d = Z.of_nat nD -> Z.of_nat nD < tests -> forall s, Client.test_count s = tests ->
  exists d' r', Client.recv clock random fuel p s d r = Ok (Z.of_nat nD, d', r') /\
    Client.m_readBuffer d' = [] /\ Client.m_recvBytes d' = 0 /\ Client.next d' = Z.of_nat (S nD) /\
    Client.is_running d' = Client.is_running d && (Z.of_nat (S nD) <? tests).
Proof.
  intros (ts & text & -> & Hts & Ht) Hb Hn Hx Hlt s Hs.
  assert (test_packet (Z.of_nat nD) ts text = concat (map encode [((Z.of_nat nD, ts), text)])) as ->
    by (cbn [map concat]; by rewrite app_nil_r).
  destruct (recv_packets clock random fuel s [((Z.of_nat nD, ts), text)] d r) as (d' & r' & E & E1 & E2 & E3 & _ & E5); try done.
  - constructor; [|constructor]. unfold packet_fits. cbn [fst snd]. lia.
  - cbn [map concat]. rewrite app_nil_r. unfold encode. rewrite length_test_packet. cbn [fst snd]. lia.
  - exists d', r'. split; [done|]. split; [done|]. split; [done|]. cbn [fold_left map runs_on fst] in E3, E5.
    rewrite Hx, u32_small in E3, E5 by lia. rewrite Z.eqb_refl, Hs in E5. split; [rewrite E3; lia|]. rewrite E5. cbn [andb].
    f_equal. destruct (tests <=? Z.of_nat nD + 1) eqn:E6, (Z.of_nat (S nD) <? tests) eqn:E7; to_prop; done || lia.
Qed.

Lemma with_kcp_ok ps nD nD' lc lc' ls c k : client_ok ps nD lc ls c -> endpoint ps lc' ls (take nD ps) k -> nD' = nD ->
  client_ok ps nD' lc' ls (Client.with_kcp k c).
Proof. intros [] He ->. by constructor. Qed.

(** The first packet, and what comes before a datagram is looked for. *)
Lemma client_sends_first c r ps nD lc ls : client_ok ps nD lc ls c -> are_tests ps -> (nD <= length ps <= S nD)%nat ->
  exists c' out r' qs lo,
    (if Client.auto_test (Client.set c) && Client.is_first c then
       let* (c, sent, r) := Client.auto_send clock random c r in
       Ok (Client.Mk (Client.socket c) (Client.kcp c) (Client.set c) (Client.rd c) (Client.sn c) false, sent, r)
     else Ok (c, [], r)) = Ok (c', out, r') /\
    client_ok (ps ++ qs) nD (lc ++ lo) ls c' /\ are_tests (ps ++ qs) /\ (length (ps ++ qs) <= S nD)%nat /\
    on_air (lc ++ lo) out /\ ackcount (rx (Client.kcp c')) <= ackcount (rx (Client.kcp c)) /\ Client.is_first c' = false.
Proof.
  intros Hc Hp Hn. rewrite (co_auto _ _ _ _ _ Hc). cbn [andb]. destruct (Client.is_first c) eqn:Ef.
  - pose proof (co_first _ _ _ _ _ Hc Ef) as E0. assert (nD = 0)%nat as -> by (rewrite E0 in Hn; simpl in Hn; lia).
    assert (snd_queue (tx (Client.kcp c)) = []) as Hq.
    { eapply endpoint_idle; [apply (co_end _ _ _ _ _ Hc)|]. rewrite E0. simpl. lia. }
    destruct (auto_send_ok c r ps 0 lc ls Hc Hp Hq) as (c1 & out & r1 & qs & lo & -> & Hp1 & Hl & Hout & Hack & _ & Hok);
      [rewrite E0; simpl; lia | lia |].
    rewrite outcome_bind_ok. eexists _, out, r1, qs, lo. split; [reflexivity|]. split; [by apply Hok|].
    split; [done|]. split; [rewrite E0; simpl; lia|]. by split_and!.
  - exists c, [], r, [], []. rewrite !app_nil_r. split; [done|]. split; [done|]. split; [done|]. split; [lia|].
    split; [constructor|]. split; [lia | done].
Qed.

(** The next packet is read and the one after it sent, unless the test is over. *)
Lemma client_reads_next c k p r ps nD lc ls : client_ok ps nD lc ls c -> are_tests ps -> ps !! nD = Some p ->
  length ps = S nD -> endpoint ps lc ls (take (S nD) ps) k -> (length ps <= length lc)%nat -> Client.is_first c = false ->
  exists c' out r' qs lo, Client.read_and_send clock random fuel p (Client.with_kcp k c) r = Ok (c', out, r') /\
    are_tests (ps ++ qs) /\ (length qs <= 1)%nat /\ client_ok (ps ++ qs) (S nD) (lc ++ lo) ls c' /\ on_air (lc ++ lo) out.
Proof.
  intros [_ X1 X2 X3 X4 X5 X6 X7 X8 X9 X10] Hp Hnth Hlen He Hlc Hfirst. unfold Client.read_and_send, Client.with_kcp.
  cbn [Client.set Client.rd Client.sn Client.is_first Client.kcp Client.socket].
  destruct (read_test nD p (Client.rd c) r (Hp _ _ Hnth) X4 X5 X6 ltac:(lia) (Client.set c) X2) as (d & r1 & -> & Y1 & Y2 & Y3 & Y4).
  rewrite outcome_bind_ok. unfold Client.with_rd. cbn [Client.set Client.rd Client.sn Client.is_first Client.kcp Client.socket].
  set (c1 := Client.Mk _ k _ d _ _).
  assert (client_ok ps (S nD) lc ls c1) as Hc1.
  { constructor; try done. change (Client.is_running d = (Z.of_nat (S nD) <? tests)). rewrite Y4, X7.
    destruct (Z.of_nat nD <? tests) eqn:E1, (Z.of_nat (S nD) <? tests) eqn:E2; to_prop; done || lia. }
  rewrite X1, Hfirst, X8, X2, Hlen, u32_small by lia. cbn [andb negb].
  assert ((Z.of_nat nD + 1 =? Z.of_nat (S nD)) = true) as -> by (apply Z.eqb_eq; lia). cbn [andb].
  destruct (Z.of_nat (S nD) <? tests) eqn:Et; to_prop.
  - assert (snd_queue (tx (Client.kcp c1)) = []) as Hq by (by eapply endpoint_idle; [apply (co_end _ _ _ _ _ Hc1)|]).
    destruct (auto_send_ok c1 r1 ps (S nD) lc ls Hc1 Hp Hq ltac:(lia) ltac:(lia))
      as (c2 & sent & r2 & qs & lo & -> & Hp2 & Hl2 & Hout2 & _ & Hok & _).
    exists c2, sent, r2, qs, lo. split; [done|]. split; [done|]. split; [done|]. split; [by apply Hok | done].
  - exists c1, [], r1, [], []. rewrite !app_nil_r. split; [done|]. split; [done|]. split; [simpl; lia|]. split; [done | constructor].
Qed.

(** A call of the client's loop keeps what holds of it; the only way it can fail is an
    acknowledgement from days ago. *)
Lemma client_step a c r ps nS nD lc ls air : are_tests ps -> under_way ps nS nD -> client_ok ps nD lc ls c ->
  ls `prefix_of` whole_log (take nS ps) -> (nS <= length lc)%nat -> on_air ls air -> arrives air (Client.kcp c) a ->
  match Client.one_loop clock random fuel a c r with
  | Ok (c', out, _) => exists qs lo nD', are_tests (ps ++ qs) /\ under_way (ps ++ qs) nS nD' /\
      client_ok (ps ++ qs) nD' (lc ++ lo) ls c' /\ on_air (lc ++ lo) out
  | Err f => f = UndefinedBehaviour /\ exists d k, a = Some d /\ stale k (Input d)
  end.
Proof.
  intros Hp (Hn1 & Hn2 & Hn3) Hc Hls Hlc Hair Ha. unfold Client.one_loop. destruct (iclock clock r) as [now r1].
  assert (zlen ps < 2 ^ 31) as Hmax by (pose proof (co_max _ _ _ _ _ Hc); lia).
  destruct (endpoint_update _ _ _ _ _ (u32 now) (co_end _ _ _ _ _ Hc) Hmax) as (k1 & out1 & lo1 & -> & He1 & Hg1 & Hs1 & Hack1).
  rewrite outcome_bind_ok. pose proof (outputs_on_air (lc ++ lo1) (Client.socket c) out1 r1) as Hout1.
  destruct (kcp_outputs random (Some (Client.socket c)) out1 r1) as [sent1 r2]. cbn [fst] in Hout1.
  assert (on_air (lc ++ lo1) sent1) as Hsent1 by (apply Hout1; by apply list.Forall_and).
  pose proof (with_kcp_ok _ _ nD _ _ _ _ k1 Hc He1 eq_refl) as Hc1.
  destruct (client_sends_first (Client.with_kcp k1 c) r2 ps nD (lc ++ lo1) ls Hc1 Hp ltac:(lia))
    as (c2 & sent2 & r3 & qs & lo2 & -> & Hc2 & Hp2 & Hn4 & Hsent2 & Hack2 & Hfirst).
  rewrite outcome_bind_ok. rewrite <- (app_assoc lc) in *. set (lo := lo1 ++ lo2) in *. set (ps2 := ps ++ qs) in *.
  assert (on_air (lc ++ lo) (sent1 ++ sent2)) as Hsent.
  { apply Forall_app_2; [|done]. unfold lo. rewrite app_assoc. by apply on_air_app. }
  assert (nS <= length ps2)%nat as Hn5 by (unfold ps2; rewrite length_app; lia).
  assert (under_way ps2 nS nD) as Hu2 by (by split_and!).
  assert (forall s, client_ok ps2 nD (lc ++ lo) ls (Client.with_socket s c2)) as Hc3 by (intros s; destruct Hc2; by constructor).
  destruct a as [d|].
  2: { unfold UdpSocket.recv, UdpSocket.recvfrom. change (-1 <? 0) with true. cbn iota.
       exists qs, lo, nD. split; [done|]. split; [done|]. split; [apply Hc3 | done]. }
  destruct Ha as (Hin & Hbytes & Hroom).
  assert (genuine_datagram ls d /\ zlen d <= 1400) as [Hgen Hlen]
    by (apply list_elem_of_In in Hin; by apply (proj1 (list.Forall_forall _ _) Hair)).
  pose proof (read_arrived d Hlen) as Hread. unfold UdpSocket.recv.
  assert (UdpSocket.recvfrom (Some d) = (zlen d, snd (UdpSocket.recvfrom (Some d)))) as ->.
  { unfold UdpSocket.recvfrom, RECV_BUF_SIZE. cbn [snd]. f_equal. rewrite length_take. lia. }
  cbn [fst snd UdpSocket.getRecvSize UdpSocket.m_recvSize UdpSocket.m_recvBuffer].
  replace (zlen d <? 0) with false by lia. rewrite outcome_bind_ok, u32_small, Hread, outcome_bind_ok by lia.
  cbn [Client.kcp Client.with_socket].
  assert (ls `prefix_of` whole_log ps) as Hls1 by (by eapply take_take_whole).
  assert (ls `prefix_of` whole_log ps2) as Hls2 by (etrans; [exact Hls1|]; unfold ps2; rewrite whole_log_app; by eexists).
  assert (zlen ps2 < 2 ^ 31) as Hmax2 by (pose proof (co_max _ _ _ _ _ Hc2); lia).
  assert (length ls <= nS)%nat as Hlsn.
  { apply prefix_length in Hls. rewrite length_whole_log, length_take in Hls. lia. }
  pose proof (endpoint_input _ _ _ _ _ d (co_end _ _ _ _ _ Hc2) ltac:(lia) Hbytes Hgen) as Hi.
  specialize (Hi ltac:(apply arrived_room; [cbn [Client.kcp Client.with_kcp] in Hack2; lia | done])).
  destruct (ikcp_input (Client.kcp c2) d) as [[n k2]|f]; [|destruct Hi as [-> Hi]; split; [done | by exists d, (Client.kcp c2)]].
  rewrite outcome_bind_ok.
  destruct (endpoint_recv _ _ _ ps2 nD k2 Hi Hls2 (are_tests_fit _ Hp2) ltac:(lia) Hmax2)
    as (m & b & k3 & -> & Hb & _ & Hcase). rewrite outcome_bind_ok.
  destruct Hcase as [[Hm He3] | (p & Hnth & -> & Htake & He3)].
  { replace (m <? 0) with true by lia. exists qs, lo, nD. split; [done|]. split; [done|]. split; [|done].
    eapply with_kcp_ok; [apply Hc3 | exact He3 | done]. }
  assert ((zlen p <? 0) = false) as -> by (apply Z.ltb_ge; lia). pose proof (proj1 (list.Forall_lookup _ _) (are_tests_fit _ Hp2) _ _ Hnth) as Hfit.
  cbn beta in Hfit. change (default [] (Some b)) with b. rewrite mread_ok by (rewrite ?Hb; unfold BUFFER_SIZE; lia).
  rewrite outcome_bind_ok. unfold slice. change (Z.to_nat 0) with 0%nat. rewrite drop_0, Htake.
  pose proof (proj2 (endpoint_numbered _ _ _ _ _ He3)) as Hnum. rewrite length_take in Hnum.
  apply lookup_lt_Some in Hnth as Hlt. assert (length ps2 = S nD) as Hlen2 by lia.
  match goal with |- context [Client.with_kcp k3 ?c3] =>
    destruct (client_reads_next c3 k3 p r3 ps2 nD (lc ++ lo) ls (Hc3 _) Hp2 Hnth Hlen2 He3
      ltac:(rewrite length_app; lia) Hfirst) as (c4 & sent3 & r4 & qs3 & lo3 & -> & Hp4 & Hl4 & Hc4 & Hout4) end.
  rewrite outcome_bind_ok. exists (qs ++ qs3), (lo ++ lo3), (S nD). rewrite !app_assoc. fold ps2.
  split; [done|]. split; [split_and!; rewrite ?length_app; lia|]. split; [done|].
  apply Forall_app_2; [by apply on_air_app | done].
Qed.

(** The connection echoes the next packet, if there is one to take. *)
Lemma server_step d buf c r ps nS nD lc ls air : are_tests ps -> under_way ps nS nD -> server_ok ps nS lc ls c ->
  zlen ps < 2 ^ 31 -> lc `prefix_of` whole_log ps -> (nD <= length ls)%nat -> on_air lc air ->
  arrives air (Connection.kcp c) (Some d) -> mread buf 0 (zlen d) = Ok d ->
  match Connection.recv_data clock random buf (zlen d) c r with
  | Ok (c', out, _) => exists ls' nS', under_way ps nS' nD /\ server_ok ps nS' lc (ls ++ ls') c' /\ on_air (ls ++ ls') out
  | Err f => f = UndefinedBehaviour /\ exists k, stale k (Input d)
  end.
Proof.
  intros Hp (Hn1 & Hn2 & Hn3) [He (u & Hu) Hq] Hmax Hlc Hls Hair (Hin & Hbytes & Hroom) Hread.
  assert (genuine_datagram lc d /\ zlen d <= 1400) as [Hgen Hlen]
    by (apply list_elem_of_In in Hin; by apply (proj1 (list.Forall_forall _ _) Hair)).
  unfold Connection.recv_data. rewrite Hread, outcome_bind_ok.
  assert (zlen lc < 2 ^ 31) as Hlcmax by (apply prefix_length in Hlc; rewrite length_whole_log in Hlc; lia).
  pose proof (endpoint_input _ _ _ _ _ d He Hlcmax Hbytes Hgen (arrived_room _ d Hroom Hlen)) as Hi.
  destruct (ikcp_input (Connection.kcp c) d) as [[n k1]|f]; [|destruct Hi as [-> Hi]; split; [done | by eexists]].
  rewrite outcome_bind_ok. pose proof (are_tests_fit _ Hp) as Hfit.
  destruct (endpoint_recv _ _ _ ps nS k1 Hi Hlc Hfit ltac:(lia) Hmax) as (m & b & k2 & -> & Hb & _ & Hcase).
  rewrite outcome_bind_ok. change (default [] (Some b)) with b.
  destruct Hcase as [[Hm He2] | (p & Hnth & -> & Htake & He2)].
  { replace (m <? 0) with true by lia. exists [], nS. rewrite app_nil_r. split; [done|].
    split; [constructor; [done | by exists u | done] | constructor]. }
  pose proof (proj1 (list.Forall_lookup _ _) Hfit _ _ Hnth) as Hpl. cbn beta in Hpl.
  apply lookup_lt_Some in Hnth as Hlt. assert ((zlen p <? 0) = false) as -> by (apply Z.ltb_ge; lia).
  unfold load32. rewrite mread_ok, !outcome_bind_ok by (rewrite ?Hb; unfold BUFFER_SIZE; lia).
  rewrite Hu, Hq. cbn [negb orb guard_defined]. rewrite !outcome_bind_ok.
  assert (snd_queue (tx k2) = []) as Hidle.
  { eapply endpoint_idle; [exact He2|]. rewrite length_take. lia. }
  destruct (endpoint_send _ _ _ _ _ b (zlen p) He2 Hidle Hpl ltac:(rewrite Hb; unfold BUFFER_SIZE; lia)) as (k3 & -> & He3 & _).
  rewrite outcome_bind_ok, Htake, <- (take_S_r _ _ _ Hnth) in *. destruct (iclock clock r) as [now r1].
  destruct (endpoint_update _ _ _ _ _ (u32 now) He3 ltac:(rewrite length_take; lia)) as (k4 & out & lo & -> & He4 & Hg & Hs & _).
  rewrite outcome_bind_ok. unfold Connection.user. rewrite Hu. pose proof (outputs_on_air (ls ++ lo) u out r1) as Hout.
  destruct (kcp_outputs random (Some u) out r1) as [sent r2]. exists lo, (S nS). split; [split_and!; lia|].
  split; [constructor; [done | by exists u | done]|]. apply Hout. by apply list.Forall_and.
Qed.

Lemma server_update_step a c r ps nS nD lc ls air : are_tests ps -> under_way ps nS nD -> server_ok ps nS lc ls c ->
  zlen ps < 2 ^ 31 -> lc `prefix_of` whole_log ps -> (nD <= length ls)%nat -> on_air lc air -> arrives air (Connection.kcp c) a ->
  match Connection.update clock random a c r with
  | Ok (c', out, _) => exists ls' nS', under_way ps nS' nD /\ server_ok ps nS' lc (ls ++ ls') c' /\ on_air (ls ++ ls') out
  | Err f => f = UndefinedBehaviour /\ exists d k, a = Some d /\ stale k (Input d)
  end.
Proof.
  intros Hp Hu [He (u & Hsock) Hq] Hmax Hlc Hls Hair Ha. unfold Connection.update. destruct (iclock clock r) as [now r1].
  destruct (endpoint_update _ _ _ _ _ (u32 now) He ltac:(rewrite length_take; lia)) as (k1 & out & lo & -> & He1 & Hg & Hs & Hack).
  rewrite outcome_bind_ok. unfold Connection.user. rewrite Hsock. pose proof (outputs_on_air (ls ++ lo) u out r1) as Hout.
  destruct (kcp_outputs random (Some u) out r1) as [sent r2]. cbn [fst] in Hout.
  assert (on_air (ls ++ lo) sent) as Hsent by (apply Hout; by apply list.Forall_and).
  cbn [Connection.socket Connection.with_kcp]. rewrite Hsock.
  assert (forall s, server_ok ps nS lc (ls ++ lo) (Connection.with_socket s (Connection.with_kcp k1 c))) as Hok
    by (intros s; constructor; [done | by exists s | done]).
  destruct a as [d|].
  2: { unfold UdpSocket.recv, UdpSocket.recvfrom. change (0 <? -1) with false. cbn iota. exists lo, nS.
       split; [done|]. split; [apply Hok | done]. }
  pose proof Ha as (Hin & Hbytes & Hroom).
  assert (zlen d <= 1400) as Hlen by (apply list_elem_of_In in Hin; by apply (proj1 (list.Forall_forall _ _) Hair)).
  pose proof (read_arrived d Hlen) as Hread. unfold UdpSocket.recv.
  assert (UdpSocket.recvfrom (Some d) = (zlen d, snd (UdpSocket.recvfrom (Some d)))) as ->.
  { unfold UdpSocket.recvfrom, RECV_BUF_SIZE. cbn [snd]. f_equal. rewrite length_take. lia. }
  cbn [fst snd UdpSocket.getRecvSize UdpSocket.m_recvSize UdpSocket.m_recvBuffer].
  destruct (0 <? zlen d) eqn:Ed; to_prop.
  2: { exists lo, nS. split; [done|]. split; [apply Hok | done]. }
  rewrite outcome_bind_ok, u32_small by lia.
  match goal with |- context [Connection.recv_data _ _ _ _ ?c' _] =>
    pose proof (server_step d (snd (UdpSocket.recvfrom (Some d))) c' r2 ps nS nD lc (ls ++ lo) air Hp Hu (Hok _) Hmax Hlc) as Hstep;
    specialize (Hstep ltac:(rewrite length_app; lia) Hair ltac:(split_and!; [done | done | cbn [Connection.kcp Connection.with_socket Connection.with_kcp]; lia]) Hread);
    destruct (Connection.recv_data clock random (snd (UdpSocket.recvfrom (Some d))) (zlen d) c' r2) as [[[c2 out2] r3]|f] end.
  - rewrite outcome_bind_ok. destruct Hstep as (ls' & nS' & H1 & H2 & H3). exists (lo ++ ls'), nS'. rewrite app_assoc.
    split; [done|]. split; [done|]. apply Forall_app_2; [by apply on_air_app | done].
  - destruct Hstep as (-> & k & Hk). split; [done|]. by exists d, k.
Qed.

Lemma world_step_ok : preserved world_step world_ok.
Proof.
  intros w w' (ps & nS & nD & lc & ls & Hp & Hu & Hc & Hs & Hair1 & Hair2) Hstep.
  pose proof (endpoint_numbered _ _ _ _ _ (co_end _ _ _ _ _ Hc)) as [Hlc Hn1].
  pose proof (endpoint_numbered _ _ _ _ _ (so_end _ _ _ _ _ Hs)) as [Hls Hn2]. rewrite length_take in Hn1, Hn2.
  pose proof Hu as (Hu1 & Hu2 & Hu3).
  assert (zlen ps < 2 ^ 31) as Hmax by (pose proof (co_max _ _ _ _ _ Hc); lia).
  destruct Hstep as [w a r c out r' Ha E | w a r c out r' Ha E | w d r c out r' Ha E]; cbn [cl sv to_sv to_cl].
  - pose proof (client_step a (cl w) r ps nS nD lc ls _ Hp Hu Hc Hls ltac:(lia) Hair2 Ha) as H. rewrite E in H.
    destruct H as (qs & lo & nD' & H1 & H2 & H3 & H4). exists (ps ++ qs), nS, nD', (lc ++ lo), ls.
    split; [done|]. split; [done|]. split; [done|]. split; [|split; [|done]].
    + destruct Hs as [He Hs1 Hs2]. constructor; [|done|done]. rewrite take_app_le by lia. by apply endpoint_more.
    + apply Forall_app_2; [by apply on_air_app | done].
  - pose proof (server_update_step a (sv w) r ps nS nD lc ls _ Hp Hu Hs Hmax Hlc ltac:(lia) Hair1 Ha) as H. rewrite E in H.
    destruct H as (ls' & nS' & H1 & H2 & H3). exists ps, nS', nD, lc, (ls ++ ls').
    split; [done|]. split; [done|]. split; [|split; [done | split; [done|]]].
    + destruct Hc. constructor; try done. by apply endpoint_more.
    + apply Forall_app_2; [by apply on_air_app | done].
  - destruct Ha as (Hin & Hbytes & Hroom).
    assert (zlen d <= 1400) as Hlen by (apply list_elem_of_In in Hin; by apply (proj1 (list.Forall_forall _ _) Hair1)).
    pose proof (server_step d _ (sv w) r ps nS nD lc ls _ Hp Hu Hs Hmax Hlc ltac:(lia) Hair1 (conj Hin (conj Hbytes Hroom)) (read_arrived d Hlen)) as H.
    rewrite E in H. destruct H as (ls' & nS' & H1 & H2 & H3). exists ps, nS', nD, lc, (ls ++ ls').
    split; [done|]. split; [done|]. split; [|split; [done | split; [done|]]].
    + destruct Hc. constructor; try done. by apply endpoint_more.
    + apply Forall_app_2; [by apply on_air_app | done].
Qed.

Lemma set_mode_endpoint k mode : good k -> streaming k -> 0 <= mode < 3 ->
  exists k', util.ikcp_set_mode k mode = Ok k' /\ good k' /\ streaming k' /\ tx k' = tx k /\ rx k' = rx k.
Proof.
  intros Hg Hm Hmode. unfold util.ikcp_set_mode. rewrite cxx_assert_true by lia. rewrite outcome_bind_ok.
  eexists. split; [reflexivity|].
  pose proof (settings_good k (WndSize 128 128) Hg ltac:(split; lia)) as Hg1.
  assert (forall a b c d, good (snd (ikcp_nodelay (snd (ikcp_wndsize k 128 128)) a b c d)) /\
    streaming (snd (ikcp_nodelay (snd (ikcp_wndsize k 128 128)) a b c d)) /\
    tx (snd (ikcp_nodelay (snd (ikcp_wndsize k 128 128)) a b c d)) = tx k /\
    rx (snd (ikcp_nodelay (snd (ikcp_wndsize k 128 128)) a b c d)) = rx k) as H.
  { intros a b c d. split; [exact (settings_good _ (NoDelay a b c d) Hg1 I)|].
    unfold streaming, ikcp_nodelay. destruct (if 0 <=? a then _ else _) as [x y]. done. }
  destruct (mode =? 1); [apply H|]. destruct (mode =? 2); apply H.
Qed.

Lemma create_endpoint mode : 0 <= mode < 3 ->
  exists k, util.ikcp_set_mode (ikcp_create KcpApp.conv) mode = Ok k /\ endpoint [] [] [] [] k.
Proof.
  intros Hm. destruct (set_mode_endpoint (ikcp_create KcpApp.conv) mode (create_good _) ltac:(done) Hm)
    as (k & E & Hg & Hst & Et & Er).
  exists k. split; [done|]. constructor; [done | done | | unfold given; by rewrite Et |].
  - constructor; rewrite ?Et; by constructor.
  - constructor; rewrite Er; [by exists [] | done | by constructor].
Qed.

Lemma world_start_ok mode mode' : 0 <= mode < 3 -> 0 <= mode' < 3 ->
  exists w, world_start mode mode' = Ok w /\ world_ok w.
Proof.
  intros H1 H2. destruct (create_endpoint mode H1) as (k1 & E1 & He1). destruct (create_endpoint mode' H2) as (k2 & E2 & He2).
  unfold world_start, Client.setmode, Connection.setmode. cbn [Client.Client Client.kcp Connection.Connection Connection.kcp].
  rewrite E1, outcome_bind_ok, E2, !outcome_bind_ok. eexists. split; [reflexivity|].
  exists [], 0%nat, 0%nat, [], []. split; [by intros i p|]. split; [split_and!; simpl; lia|].
  split; [|split; [|by split; constructor]].
  - constructor; try done; simpl; [by rewrite u32_small by lia | symmetry; apply Z.ltb_lt; lia | lia].
  - constructor; [done | by eexists | done].
Qed.
End Echo.

(** ** Executing the test *)

Inductive event := Loops (i : option nat) | Accepts (i : nat) | Updates.

Section Play.
Context {R : Type} (clock : R -> Z * R) (random : Z -> Z -> R -> Z * R) (fuel : nat).

(** The [i]-th datagram that was sent, if it may arrive. *)
Definition arrival (air : list (list Z)) (k : kcp) (i : nat) : option (list Z) :=
  match air !! i with
  | Some d => if decide (Forall is_byte d /\ ackcount (rx k) + 64 <= 2 ^ 31) then Some d else None
  | None => None
  end.

Definition play (e : event) (w : world) (r : R) : option (world * R) :=
  match e with
  | Loops i =>
      let a := mbind (arrival (to_cl w) (Client.kcp (cl w))) i in
      match Client.one_loop clock random fuel a (cl w) r with
      | Ok (c, out, r) => Some (World c (sv w) (to_sv w ++ out) (to_cl w), r)
      | Err _ => None
      end
  | Accepts i =>
      match arrival (to_sv w) (Connection.kcp (sv w)) i with
      | Some d =>
          match Connection.recv_data clock random (snd (UdpSocket.recvfrom (Some d))) (zlen d) (sv w) r with
          | Ok (c, out, r) => Some (World (cl w) c (to_sv w) (to_cl w ++ out), r)
          | Err _ => None
          end
      | None => None
      end
  | Updates =>
      match Connection.update clock random None (sv w) r with
      | Ok (c, out, r) => Some (World (cl w) c (to_sv w) (to_cl w ++ out), r)
      | Err _ => None
      end
  end.

Fixpoint play_all (es : list event) (w : world) (r : R) : option world :=
  match es with
  | [] => Some w
  | e :: es' => match play e w r with Some (w', r') => play_all es' w' r' | None => None end
  end.

Lemma arrival_arrives air k i d : arrival air k i = Some d -> arrives air k (Some d).
Proof.
  unfold arrival. destruct (air !! i) as [d'|] eqn:E; [|done]. destruct (decide _) as [[H1 H2]|]; [|done].
  intros [= <-]. split; [by eapply list_elem_of_In, list_elem_of_lookup_2 | done].
Qed.

Lemma test_plays e w r w' r' : play e w r = Some (w', r') -> world_step clock random fuel w w'.
Proof.
  destruct e as [i|i|]; cbn [play].
  - destruct (Client.one_loop _ _ _ _ _ _) as [[[c out] r1]|f] eqn:E; [|done]. intros [= <- <-].
    eapply client_loops; [|exact E]. destruct i as [i|]; [|done]. cbn [mbind option_bind].
    destruct (arrival _ _ i) as [d|] eqn:Ea; [|done]. by apply (arrival_arrives _ _ i).
  - destruct (arrival _ _ i) as [d|] eqn:Ea; [|done].
    destruct (Connection.recv_data _ _ _ _ _ _) as [[[c out] r1]|f] eqn:E; [|done]. intros [= <- <-].
    eapply server_accepts; [by apply (arrival_arrives _ _ i) | exact E].
  - destruct (Connection.update _ _ _ _ _) as [[[c out] r1]|f] eqn:E; [|done]. intros [= <- <-].
    by eapply (server_updates _ _ _ _ None).
Qed.

Lemma test_reaches es w0 w r w' : play_all es w r = Some w' -> reaches (world_step clock random fuel) w0 w ->
  reaches (world_step clock random fuel) w0 w'.
Proof.
  revert w r. induction es as [|e es IH]; intros w r; cbn [play_all]; [by intros [= <-]|].
  destruct (play e w r) as [[w1 r1]|] eqn:E; [|done]. intros H Hr. apply (IH w1 r1 H).
  apply (reaches_step _ _ w); [done | exact (test_plays _ _ _ _ _ E)].
Qed.
End Play.

(** A clock that ticks at every look, and random numbers that are as small as can be. *)
Definition ticking (step r : Z) : Z * Z := (r, r + step).
Definition smallest (lo hi r : Z) : Z * Z := (lo, r).

(** ** The claim *)


(** With packets of 1512 bytes, the default size, the test fails although the network
    delivers every datagram once and in order: when the first segment of the first
    packet is back, the client sends the second packet, because [recv] returns 0 when
    it has read nothing; the server puts the end of the first packet and the start of the second into one
    segment, and the client reads the first packet again. *)
Definition long_events : list event :=
  [Loops None; Loops None; Loops None; Loops None; Accepts 0; Accepts 1; Loops (Some 0%nat); Loops (Some 1%nat);
   Accepts 2; Accepts 3; Accepts 4; Loops (Some 2%nat); Loops (Some 3%nat); Updates; Updates; Updates;
   Loops (Some 4%nat); Loops (Some 5%nat)].

Lemma long_packets_break : match world_start 10 2000 2 2 with
  | Ok w0 =>
      match play_all (ticking 4) smallest 5 long_events w0 1000 with
      | Some w => Client.is_running (Client.rd (cl w)) = false /\ Client.next (Client.rd (cl w)) = 2 /\ Client.sn (cl w) = 2
      | None => False
      end
  | Err _ => False
  end.
Proof. vm_compute. repeat split. Qed.

(** The first datagram is echoed and its echo arrives twice. *)
Definition sample_world : outcome world := world_start 10 510 0 2.
Definition sample_events : list event := [Loops None; Accepts 0; Loops (Some 0%nat); Loops (Some 0%nat); Accepts 1; Loops (Some 1%nat)].

