(* ===== verification/KcpPeer.v ===== *)
(** * One end of a KCP connection in stream mode

    What an end point keeps that exchanges data with another one over a network that
    delivers only what was sent: its part of both logs, and the times.  While the
    clock stays in a span of some hours an acknowledgement is never old, so that,
    other than for any bytes at all ([KcpApi.kcp_calls_safe]), no call can fail:
    [peer_update], [peer_send], [peer_input] and [peer_recv] say that the call
    succeeds and what it does to the logs. *)

From Stdlib Require Import ZArith Lia Bool.
From stdpp Require Import base tactics option list numbers.
From S2P Require Import Prelude KcpWire Kcp KcpInv KcpInput KcpUser KcpFlush KcpApi KcpNet KcpRound KcpEcho.

#[local] Open Scope Z_scope.

(** ** Logs in stream mode: every segment ends a message *)

Definition flat (l : log) : Prop := Forall (fun p => fst p = 0 /\ Forall is_byte (snd p)) l.

Lemma flat_app l1 l2 : flat (l1 ++ l2) <-> flat l1 /\ flat l2.
Proof. apply Forall_app. Qed.

Lemma cut_flat l : flat l -> cut [] l = map snd l.
Proof.
  induction 1 as [|[f d] l [Hf _] _ IH]; [done|]. cbn [fst] in Hf. subst f. cbn [cut map snd app].
  by rewrite Z.eqb_refl, IH.
Qed.

Lemma flat_complete l : flat l -> complete l.
Proof.
  intros H. unfold complete. destruct (list.last l) as [[f d]|] eqn:E; [|done]. apply last_Some_elem_of in E.
  exact (proj1 (proj1 (list.Forall_forall _ _) H _ E)).
Qed.

Lemma flat_fsts l : flat l -> map fst l = replicate (length l) 0.
Proof. induction 1 as [|[f d] l [Hf _] _ IH]; [done|]. cbn [fst] in Hf. subst f. cbn [map fst length replicate]. by rewrite IH. Qed.

Lemma flat_numbered l : flat l -> numbered (map fst l).
Proof.
  intros H. rewrite flat_fsts by done. clear. induction (length l) as [|n IH]; [done|].
  cbn [replicate numbered]. split; [destruct n; [done | by left] | done].
Qed.

Lemma flat_range l : flat l -> Forall (fun f => 0 <= f < IKCP_WND_RCV) (map fst l).
Proof. intros H. rewrite flat_fsts by done. by apply Forall_replicate. Qed.

Lemma flat_lookup l i p : flat l -> l !! i = Some p -> Forall is_byte (snd p).
Proof. intros H E. exact (proj2 (proj1 (list.Forall_lookup _ _) H i p E)). Qed.

(** Bytes in whole segments are bytes. *)
Lemma flat_intro l : Forall (fun p => fst p = 0) l -> Forall is_byte (bytes_of l) -> flat l.
Proof.
  induction 1 as [|[f d] l Hf _ IH]; [constructor|]. unfold bytes_of. cbn [map snd concat]. intros H.
  apply Forall_app in H as [Hd H]. constructor; [done | by apply IH].
Qed.

(** ** Sending *)

Definition all_frg0 (q : list seg.t) : Prop := Forall (fun s => seg.frg s = 0) q.

Lemma extend_length c s buffer len ext b n s' : send_extend c s buffer len = Ok (ext, b, n, s') ->
  length (snd_queue s') = length (snd_queue s) /\ (all_frg0 (snd_queue s) -> all_frg0 (snd_queue s')).
Proof.
  unfold send_extend. destruct (negb _); [|by intros [= <- <- <- <-]].
  destruct (list.last (snd_queue s)) as [old|] eqn:El; [|by intros [= <- <- <- <-]].
  destruct (_ <? mss c); [|by intros [= <- <- <- <-]]. intros (bs & _ & [= <- <- <- <-])%outcome_bind_inv.
  cbn [snd_queue]. apply last_snoc_split in El. rewrite El at 2 3. rewrite !length_app. split; [done|].
  unfold all_frg0. rewrite !Forall_app. intros [H _]. split; [done | by repeat constructor].
Qed.

Lemma frag_list_flat cs : length (frag_list false cs) = length cs /\ all_frg0 (frag_list false cs).
Proof. induction cs as [|d cs [IH1 IH2]]; [by split; [|constructor]|]. cbn [frag_list length]. split; [by rewrite IH1 | by constructor]. Qed.

(** A buffer of the test programs is taken whole, in at most two segments. *)
Lemma send_streams k buffer len : wf k -> streaming k -> 0 <= len <= 2000 -> len <= zlen buffer ->
  exists s', ikcp_send k buffer len = Ok (len, with_tx s' k) /\
    zlen (snd_queue s') <= zlen (snd_queue (tx k)) + 2 /\ (all_frg0 (snd_queue (tx k)) -> all_frg0 (snd_queue s')).
Proof.
  intros (Hc & _) (Hst & Hmss & _) Hlen Hb. unfold ikcp_send. rewrite cxx_assert_true by (rewrite Hmss; done).
  rewrite outcome_bind_ok. replace (len <? 0) with false by lia.
  destruct (send_extend_spec (cfg k) (tx k) buffer len Hc ltac:(lia) ltac:(lia)) as (ext & s1 & E & He & _).
  destruct (extend_length _ _ _ _ _ _ _ _ E) as (Hl1 & Hf1). rewrite E, outcome_bind_ok.
  replace (negb (stream (cfg k) =? 0)) with true by (by rewrite (proj2 (Z.eqb_neq _ _) Hst)). cbn [andb].
  destruct (len - ext <=? 0) eqn:E0; to_prop.
  { exists s1. replace ext with len by lia. split; [done|]. split; [lia | done]. }
  destruct (fragments_ceil (cfg k) (len - ext) Hc ltac:(lia)) as (Hfr & Hfp). rewrite Hmss in Hfr.
  set (n := fragments (cfg k) (len - ext)) in *. assert (n <= 2) as Hn by nia.
  replace (IKCP_WND_RCV <=? n) with false by (unfold IKCP_WND_RCV; lia). replace (n =? 0) with false by lia.
  destruct (send_fragments_spec (Z.to_nat n) (cfg k) s1 (drop (Z.to_nat ext) buffer) (len - ext) ext Hc)
    as (s2 & E2 & Eq & _); [rewrite length_drop; lia | rewrite Hmss; lia |].
  rewrite E2, outcome_bind_ok. replace (ext + (len - ext)) with len by lia. exists s2. split; [done|].
  rewrite Eq, (proj2 (Z.eqb_neq _ _) Hst). unfold all_frg0. rewrite length_app, Forall_app, Hl1.
  destruct (frag_list_flat (chunks (Z.to_nat (mss (cfg k))) (Z.to_nat n) (take (Z.to_nat (len - ext)) (drop (Z.to_nat ext) buffer))))
    as (Hlc & Hfc). rewrite Hlc, length_chunks. split; [lia|]. intros H. split; [by apply Hf1 | done].
Qed.

(** ** Receiving *)

Definition pending (r : receiver) : nat := length (rcv_queue r) + length (rcv_buf r).

Lemma move_ready_pending wnd r : pending (move_ready wnd (rcv_buf r) r) = pending r.
Proof.
  remember (rcv_buf r) as buf eqn:E. revert r E. induction buf as [|s buf IH]; intros r E; cbn [move_ready]; [done|].
  destruct (_ && _); [|done]. rewrite IH by done. unfold pending. cbn [rcv_queue rcv_buf]. rewrite length_app, <- E. cbn [length]. lia.
Qed.

(** A message is a segment. *)
Lemma recv_flat k b n b' k' : wf k -> readable (rx k) -> zlen b = 2000 -> all_frg0 (rcv_queue (rx k)) ->
  ikcp_recv k (Some b) 2000 = Ok (n, Some b', k') ->
  (n < 0 /\ b' = b /\ k' = k) \/
  (0 <= n <= 2000 /\ b' = splice b 0 (take (Z.to_nat n) b') /\ (pending (rx k') < pending (rx k))%nat /\
   cfg k' = cfg k /\ tx k' = tx k /\ rtt k' = rtt k /\ current (clk k') = current (clk k) /\
   owed (rx k') = owed (rx k) /\ ackcount (rx k') = ackcount (rx k)).
Proof.
  intros Hk Hread Hb Hq E. destruct (recv_cases k b 2000 Hk Hread ltac:(lia) ltac:(lia)) as (n1 & b1 & k1 & E1 & H).
  rewrite E in E1. injection E1 as <- <- <-. destruct (KcpUser.whole (rx k) && _) eqn:Ew.
  2: { left. destruct H as (-> & -> & ->). split; [|done]. destruct (rcv_queue (rx k)); [lia|]. by destruct (KcpUser.whole (rx k)). }
  right. apply andb_true_iff in Ew as [Ew El]. to_prop. set (msg := fst (take_msg (rcv_queue (rx k)))) in *.
  destruct H as (-> & Eb & Ec & Et & Er & _ & Ecur & _ & Erx).
  assert (take (Z.to_nat (zlen msg)) b' = msg) as Em.
  { rewrite Eb. pose proof (slice_splice_same b 0 msg ltac:(lia) ltac:(lia)) as Hs. unfold slice in Hs.
    change (Z.to_nat 0) with 0%nat in Hs. by rewrite drop_0 in Hs. }
  rewrite Em. split; [lia|]. split; [done|].
  destruct Hk as ((_ & _ & Hw & _) & _ & Hr & _).
  destruct (move_ready_ok (rcv_wnd (cfg k)) (popped false (rx k)) (popped_ok false _ Hr) ltac:(lia)) as (_ & Hrest).
  cbn [popped rcv_buf] in Hrest. change (2000 <? 0) with false in Erx. rewrite <- Erx in Hrest.
  destruct (recv_rest_owed _ _ Hrest) as (Eo & Ea). split_and!; try done.
  rewrite Erx, (move_ready_pending _ (popped false (rx k))). unfold pending, popped. cbn [rcv_queue rcv_buf].
  unfold KcpUser.whole in Ew. destruct (rcv_queue (rx k)) as [|s q]; [done|]. inversion Hq as [|? ? Hs _]; subst.
  cbn [take_msg]. rewrite Hs, Z.eqb_refl. cbn [snd length]. lia.
Qed.

(** ** The times

    All readings of the clock lie in a span of [SPAN] milliseconds from [T]. *)

Definition SPAN : Z := 20000000.

Section Peer.
Context (T cv : Z).

Definition within (t : Z) : Prop := T <= t < T + SPAN.

Hypothesis span_ok : 0 <= T /\ T + SPAN <= 2 ^ 32 - 20.
Hypothesis conv_ok : 0 <= cv < 2 ^ 32.

Lemma within_range t : within t -> 0 <= t < 2 ^ 32.
Proof. unfold within, SPAN in *. lia. Qed.

Lemma within_diff a b : within a -> within b -> itimediff a b < 2 ^ 28.
Proof. unfold within, SPAN, itimediff in *. intros. rewrite i32_small; lia. Qed.

(** What a segment under way is: one the other end sent, in its span of time. *)
Definition seg_on (l : log) (s : seg.t) : Prop :=
  genuine l s /\ addressed cv s /\ (seg.cmd s = IKCP_CMD_PUSH \/ seg.cmd s = IKCP_CMD_ACK -> within (seg.ts s)).

Record on_wire (l : log) (d : list Z) : Prop := {
  ow_segs : exists g, d = datagram g /\ g <> [] /\ Forall (seg_on l) g;
  ow_size : zlen d <= 1400;
  ow_bytes : Forall is_byte d
}.

Lemma on_wire_app l l' d : on_wire l d -> on_wire (l ++ l') d.
Proof.
  intros [(g & -> & Hne & Hg) H2 H3]. constructor; [|done | done]. exists g. split; [done|]. split; [done|].
  eapply list.Forall_impl; [exact Hg|]. intros s (H1 & H4). split; [by apply genuine_app | done].
Qed.

Lemma on_wire_genuine l d : on_wire l d -> genuine_datagram l d.
Proof. intros [(g & -> & _ & Hg) _ _]. exists g. split; [done|]. by eapply list.Forall_impl; [exact Hg | intros s []]. Qed.

Lemma wire_bytes s : Forall is_byte (seg.data s) -> Forall is_byte (wire s).
Proof. intros H. apply Forall_app_2; [apply encode_header_bytes | done]. Qed.

Lemma genuine_bytes l s : flat l -> genuine l s -> Forall is_byte (seg.data s).
Proof.
  intros Hl [[-> _] | (_ & [_ H] & _)]; [constructor|]. by eapply (flat_lookup l) in H.
Qed.

Lemma datagram_bytes l g : flat l -> Forall (genuine l) g -> Forall is_byte (datagram g).
Proof.
  intros Hl. induction 1 as [|s g Hs _ IH]; [constructor|]. unfold datagram. cbn [map concat].
  apply Forall_app_2; [by eapply wire_bytes, genuine_bytes | done].
Qed.

Definition timed_acks (r : receiver) : Prop := Forall (fun p => within (snd p)) (owed r).

Lemma input_segment_timed k ack h p k' ack' : wf k -> header_ok h -> ackcount (rx k) < 2 ^ 31 ->
  (h_cmd h = IKCP_CMD_PUSH -> within (h_ts h)) -> timed_acks (rx k) ->
  input_segment k ack h p = Ok (k', ack') -> timed_acks (rx k').
Proof.
  intros (Hc & _ & Hr & _) Hh Hcnt Ht Ha. unfold input_segment. destruct (h_cmd h =? IKCP_CMD_ACK).
  { intros (t & _ & E)%outcome_bind_inv. by injection E as <- <-. }
  destruct (h_cmd h =? IKCP_CMD_PUSH) eqn:Ep; to_prop.
  2: { destruct (h_cmd h =? IKCP_CMD_WASK); intros E; by injection E as <- <-. }
  destruct (_ <? 0); [|intros E; by injection E as <- <-].
  intros (r & Er & E)%outcome_bind_inv. cbn [rx with_tx with_cc] in Er.
  destruct (ack_push_owed _ _ _ _ Hr Hcnt Er) as (Hr1 & _ & _ & _ & _ & Eo).
  assert (timed_acks r) as Ht1.
  { unfold timed_acks. rewrite Eo. apply Forall_app_2; [done|]. constructor; [by apply Ht | constructor]. }
  destruct (_ <=? _); injection E as <- <-; [|done]. cbn [rx with_rx cfg with_tx with_cc].
  unfold timed_acks. pose proof Hh as (_ & _ & _ & _ & _ & Hsn & _). pose proof Hc as (_ & _ & Hrw & _).
  match goal with |- context [ikcp_parse_data ?c r ?new] => destruct (parse_data_ok c r new Hr1 Hrw Hsn) as (_ & Hrest) end.
  by rewrite (proj1 (recv_rest_owed _ _ Hrest)).
Qed.

Lemma handle_all_timed segs k ack k' ack' : wf k -> Forall (fun s => header_ok (fst s)) segs ->
  ackcount (rx k) + zlen segs <= 2 ^ 31 -> Forall (fun s => h_cmd (fst s) = IKCP_CMD_PUSH -> within (h_ts (fst s))) segs ->
  timed_acks (rx k) -> handle_all k ack segs = Ok (k', ack') -> timed_acks (rx k').
Proof.
  revert k ack. induction segs as [|[h p] segs IH]; intros k ack Hk Hh Hc Ht Ha; cbn [handle_all]; [by intros [= <- _]|].
  apply list.Forall_cons in Hh as [Hh1 Hh]. apply list.Forall_cons in Ht as [Ht1 Ht]. cbn [length fst] in *.
  intros ([k1 ack1] & E & H)%outcome_bind_inv. pose proof (input_segment_ok k ack h p Hk Hh1 ltac:(lia)) as H1.
  rewrite E in H1. destruct H1 as (Hk1 & Hc1 & _). eapply IH; [exact Hk1 | done | lia | done | | exact H].
  eapply (input_segment_timed k); [done | exact Hh1 | lia | done | done | exact E].
Qed.

Lemma handle_all_current segs k ack k' ack' : handle_all k ack segs = Ok (k', ack') -> current (clk k') = current (clk k).
Proof.
  revert k ack. induction segs as [|[h p] segs IH]; intros k ack; cbn [handle_all]; [by intros [= <- _]|].
  intros ([k1 ack1] & E & H)%outcome_bind_inv. apply input_segment_cfg in E as (_ & _ & <-). by eapply IH.
Qed.

(** ** The end point

    It was given [G] to send and has numbered [lo] of it; the other end has numbered
    [li], of which the user here has taken [tk]. *)
Record peer (G lo li tk : log) (k : kcp) : Prop := {
  pe_good : good k;
  pe_mode : streaming k;
  pe_conv : conv (cfg k) = cv;
  pe_sends : sends lo k;
  pe_given : given lo k = G;
  pe_flat : flat G;
  pe_receives : receives li tk (rx k);
  pe_timed : timed_acks (rx k);
  pe_calm : calm (rtt k);
  pe_ours : Forall (fun s => seg.conv s = conv (cfg k) /\ seg.cmd s = IKCP_CMD_PUSH) (snd_buf (tx k))
}.

Lemma peer_more G lo li li' tk k : peer G lo li tk k -> peer G lo (li ++ li') tk k.
Proof. intros []. constructor; try done. by apply receives_app. Qed.

(** The numbered part of what was given. *)
Lemma peer_log G lo li tk k : peer G lo li tk k -> exists rest, G = lo ++ rest.
Proof. intros []. exists (map payload (snd_queue (tx k))). by rewrite <- pe_given0. Qed.

Lemma peer_log_flat G lo li tk k : peer G lo li tk k -> flat lo /\ zlen lo <= zlen G.
Proof.
  intros H. destruct (peer_log _ _ _ _ _ H) as (rest & E). pose proof (pe_flat _ _ _ _ _ H) as Hf. rewrite E in Hf |- *.
  apply flat_app in Hf as [Hf _]. rewrite length_app. split; [done | lia].
Qed.

(** The numbers of what is in flight differ, so there are no more than were given out. *)
Lemma ascending_offsets b lo hi buf : ascending b lo hi buf -> NoDup (map seg.sn buf) /\ Forall (fun s => lo <= offset b (seg.sn s)) buf.
Proof.
  revert lo. induction buf as [|s buf IH]; intros lo; [by split; [|constructor]; constructor|].
  intros (_ & Ho & Ha). destruct (IH _ Ha) as (Hn & Hf). cbn [map]. split.
  - constructor; [|done]. intros Hin. apply list_elem_of_fmap in Hin as (q & E & Hq).
    pose proof (proj1 (list.Forall_forall _ _) Hf q Hq) as H. cbn beta in H. rewrite <- E in H. lia.
  - constructor; [lia|]. eapply list.Forall_impl; [exact Hf|]. cbn beta. intros. lia.
Qed.

Lemma logged_length l buf : NoDup (map seg.sn buf) -> Forall (logged l) buf -> (length buf <= length l)%nat.
Proof.
  intros Hn Hl. assert (length l = length (seqZ 0 (zlen l))) as -> by (rewrite length_seqZ; lia).
  rewrite <- (length_map seg.sn buf). apply submseteq_length, NoDup_submseteq; [done|]. intros x Hx. apply list_elem_of_fmap in Hx as (s & -> & Hs).
  pose proof (proj1 (list.Forall_forall _ _) Hl s Hs) as [H0 H]. apply lookup_lt_Some in H. apply elem_of_seqZ. lia.
Qed.

Lemma length_concat_groups (gs : list (list seg.t)) c : Forall (fits c) gs -> (length gs <= length (concat gs))%nat.
Proof.
  induction 1 as [|g gs Hg _ IH]; [done|]. cbn [concat length]. rewrite length_app. apply fits_nonempty in Hg.
  destruct g; [done | cbn [length]; lia].
Qed.

(** What a flush sends. *)
Lemma flush_segments_on l k : good k -> conv (cfg k) = cv -> within (current (clk k)) -> timed_acks (rx k) ->
  Forall (fun s => seg.conv s = conv (cfg k) /\ seg.cmd s = IKCP_CMD_PUSH) (snd_buf (tx k)) ->
  Forall (genuine l) (flush_segments k) -> Forall (seg_on l) (flush_segments k).
Proof.
  intros (Hk & _ & Hsz) Hcv Hnow Ht Ho Hg.
  assert (Forall (fun s => addressed cv s /\ (seg.cmd s = IKCP_CMD_PUSH \/ seg.cmd s = IKCP_CMD_ACK -> within (seg.ts s))) (flush_segments k)) as H.
  { unfold flush_segments. apply Forall_app_2; [|apply Forall_app_2].
    - unfold ack_segments. unfold timed_acks in Ht. induction Ht as [|p l' Hp _ IH]; [constructor|].
      cbn [map]. constructor; [|done]. cbn [flush_seg seg.ts seg.cmd]. split; [|done].
      split; [by cbn [flush_seg seg.conv]; rewrite Hcv, Z.mod_small | split; [done | done]].
    - eapply list.Forall_impl; [exact (proj2 (probe_segments_control k))|]. intros s (H1 & H2 & _ & H3).
      split; [split_and!; [by rewrite H1, Hcv, Z.mod_small | by destruct H3 as [-> | ->] | unfold seg.len; by rewrite H2]|].
      by destruct H3 as [-> | ->]; intros [|].
    - apply list.Forall_forall. intros s Hs. apply list_elem_of_In, data_segments_in in Hs as (p & Hp & Hdue & ->).
      destruct (flushed_ours k p Hk Ho Hp) as (E1 & E2 & E3 & E4). pose proof (admitted_sized k Hk Hsz) as (Hsb & _).
      apply list_elem_of_In in Hp. pose proof (proj1 (list.Forall_forall _ _) Hsb p Hp) as Hlen. simpl in Hlen.
      pose proof Hk as ((Hms & _) & _).
      split; [split_and!; [by rewrite E1, Hcv, Z.mod_small | by rewrite E2 | rewrite E3; lia]|].
      intros _. by rewrite E4. }
  apply list.Forall_and in H as [H1 H2]. unfold seg_on. rewrite !list.Forall_and. done.
Qed.

Lemma groups_on_wire l c gs : mtu c = 1400 -> flat l -> Forall (fits c) gs -> Forall (seg_on l) (concat gs) ->
  Forall (on_wire l) (map datagram gs).
Proof.
  intros Hm Hl. induction 1 as [|g gs Hg _ IH]; cbn [concat map]; intros H; [constructor|].
  apply Forall_app in H as [H1 H2]. constructor; [|by apply IH]. constructor.
  - exists g. split; [done|]. split; [by eapply fits_nonempty | done].
  - destruct Hg. lia.
  - apply (datagram_bytes l); [done|]. eapply list.Forall_impl; [exact H1 | by intros s []].
Qed.

(** The flush of an end point. *)
Lemma peer_flush G lo li tk k : peer G lo li tk k -> updated (clk k) <> 0 -> within (current (clk k)) -> zlen G < 2 ^ 31 ->
  exists k' out lo', ikcp_flush k = Ok (k', out) /\ peer G (lo ++ lo') li tk k' /\ current (clk k') = current (clk k) /\
    Forall (on_wire (lo ++ lo')) out /\ zlen out <= ackcount (rx k) + 2 + zlen G /\ ackcount (rx k') = 0.
Proof.
  intros H Hu Hnow HG. pose proof H as [Hg Hm Hcv Hs Eg Hf Hr Ht Hc Ho]. pose proof Hg as (Hk & Hfr & Hsz).
  destruct (flush_cases k Hk Hfr Hsz Hu) as (k' & gs & E & Egs & Hfit & Hk' & Hsz' & Ec & Ert & Et & Er & Ecur & _).
  assert (snd_nxt (tx k') < 2 ^ 31) as Hnx by (eapply flush_nxt; [exact Hg | exact Hs | by rewrite Eg | exact E]).
  destruct (flush_numbers lo k k' _ Hg Hs Hu E Hnx) as (lo' & Hs' & Eg' & Hgen).
  assert (peer G (lo ++ lo') li tk k') as Hp.
  { constructor; rewrite ?Ec, ?Ert, ?Er; try done.
    - split; [done|]. by rewrite Ec.
    - unfold streaming. by rewrite Ec.
    - by rewrite Eg'.
    - by apply (receives_same li tk (rx k)).
    - unfold timed_acks, owed. by cbn.
    - rewrite Et. cbn [flushed_tx snd_buf with_buf]. apply list.Forall_forall. intros s Hin.
      apply list_elem_of_fmap in Hin as (p & -> & Hp). apply list_elem_of_In in Hp.
      by destruct (flushed_ours k p Hk Ho Hp) as (E1 & E2 & _). }
  exists k', (map datagram gs), lo'. split; [done|]. split; [done|]. split; [done|].
  pose proof (peer_log_flat _ _ _ _ _ Hp) as (Hfl & Hll).
  split; [|split; [|by rewrite Er]].
  - eapply groups_on_wire; [by apply Hm | done | exact Hfit|]. rewrite Egs. by apply flush_segments_on.
  - rewrite length_map. pose proof (length_concat_groups gs _ Hfit) as Hl. rewrite Egs in Hl.
    unfold flush_segments, ack_segments in Hl. rewrite !length_app, length_map in Hl.
    pose proof Hk as (_ & _ & Hrx & _). pose proof (length_owed _ Hrx). pose proof (proj1 (probe_segments_control k)).
    pose proof (length_data_segments k (snd_buf (admitted k))).
    destruct (admitted_spec k Hk) as (Ha & _). destruct (ascending_offsets _ _ _ _ (so_buf _ Ha)) as (Hnd & _).
    assert (length (snd_buf (admitted k)) <= length (lo ++ lo'))%nat as Hb.
    { pose proof (se_buf _ _ Hs') as Hlog. rewrite Et in Hlog. cbn [flushed_tx snd_buf with_buf] in Hlog.
      rewrite <- (length_map (flushed k)). apply logged_length; [|by eapply list.Forall_impl; [exact Hlog | intros s []]].
      rewrite map_map. erewrite map_ext; [exact Hnd|]. intros s. apply flushed_sn. }
    lia.
Qed.

Lemma peer_with_times G lo li tk k now at' : peer G lo li tk k -> peer G lo li tk (with_times now at' k).
Proof.
  intros []. constructor; try done. by apply (sends_tx lo k).
Qed.

Lemma peer_update G lo li tk k now : peer G lo li tk k -> within now -> zlen G < 2 ^ 31 ->
  exists k' out lo', ikcp_update k now = Ok (k', out) /\ peer G (lo ++ lo') li tk k' /\ current (clk k') = now /\
    Forall (on_wire (lo ++ lo')) out /\ zlen out <= ackcount (rx k) + 2 + zlen G /\ ackcount (rx k') <= ackcount (rx k).
Proof.
  intros H Hnow HG. pose proof (pe_good _ _ _ _ _ H) as (Hk & Hfr & Hsz).
  assert (0 <= ackcount (rx k)) as H0 by (destruct Hk as (_ & _ & [] & _); lia).
  destruct (update_cases k now Hk Hfr Hsz) as [(_ & ->) | (_ & ->)].
  - pose proof (peer_with_times _ _ _ _ _ now (next_flush k now) H) as H1.
    destruct (peer_flush _ _ _ _ _ H1) as (k' & out & lo' & E & Hp & Ecur & Hout & Hlen & Hack); try done.
    { unfold with_times. cbn [clk with_clk updated]. by destruct (updated (clk k) =? 0) eqn:E; to_prop. }
    exists k', out, lo'. split_and!; try done. rewrite Hack. cbn [rx with_times with_clk] in *. lia.
  - eexists _, [], []. split; [reflexivity|]. rewrite app_nil_r. split; [by apply peer_with_times|].
    split; [done|]. split; [constructor|]. split; [cbn [length]; lia | done].
Qed.

Lemma peer_send G lo li tk k buf len : peer G lo li tk k -> 0 <= len <= 2000 -> len <= zlen buf -> Forall is_byte buf ->
  exists k' G', ikcp_send k buf len = Ok (len, k') /\ peer G' lo li tk k' /\ rx k' = rx k /\ clk k' = clk k /\
    bytes_of G' = bytes_of G ++ take (Z.to_nat len) buf /\ zlen G' <= zlen G + 2.
Proof.
  intros [Hg Hm Hcv Hs Eg Hf Hr Ht Hc Ho] Hlen Hb Hby. pose proof Hg as (Hk & _).
  assert (valid k (Send buf len)) as Hv by (split; [done | lia]).
  destruct (send_streams k buf len Hk Hm Hlen Hb) as (s' & E & Hl & Hfrg).
  destruct (send_good k buf len Hg Hv) as (n & k1 & E1 & Hg1). rewrite E in E1. injection E1 as <- <-.
  destruct (send_sends lo k buf len len _ Hg Hv Hs E) as (Hs1 & _ & _ & Hbytes & _).
  destruct (send_cases k buf len Hk Hb ltac:(lia)) as (n & s1 & E1 & Hq & _). rewrite E in E1. injection E1 as <- <-.
  exists (with_tx s' k), (given lo (with_tx s' k)). split; [done|]. rewrite Eg in Hbytes.
  assert (flat (given lo (with_tx s' k))) as Hf'.
  { apply flat_intro.
    - rewrite <- Eg in Hf. unfold given in *. apply flat_app in Hf as [Hf1 Hf2]. apply Forall_app_2.
      + by eapply list.Forall_impl; [exact Hf1 | intros p []].
      + cbn [tx with_tx]. apply Forall_map, Hfrg. unfold flat in Hf2. rewrite Forall_map in Hf2.
        by eapply list.Forall_impl; [exact Hf2 | intros s []].
    - rewrite Hbytes. apply Forall_app_2; [|by apply Forall_take]. clear -Hf. induction Hf as [|p G [_ Hp] _ IH]; [constructor|].
      unfold bytes_of. cbn [map concat]. by apply Forall_app_2. }
  split; [|split; [done | split; [done | split; [done|]]]].
  - constructor; try done. cbn [tx with_tx cfg]. by rewrite (q_buf _ _ Hq).
  - rewrite <- Eg. unfold given. cbn [tx with_tx]. rewrite !length_app, !length_map. lia.
Qed.

(** A datagram of the other end is taken in. *)
Lemma peer_input G lo li tk k d : peer G lo li tk k -> on_wire li d -> zlen li < 2 ^ 31 -> within (current (clk k)) ->
  ackcount (rx k) + 58 <= 2 ^ 31 ->
  exists n k', ikcp_input k d = Ok (n, k') /\ peer G lo li tk k' /\ current (clk k') = current (clk k) /\
    ackcount (rx k') <= ackcount (rx k) + 58.
Proof.
  intros [Hg Hm Hcv Hs Eg Hf Hr Ht Hc Ho] Hd Hli Hnow Hroom. pose proof Hg as (Hk & _).
  pose proof (on_wire_genuine _ _ Hd) as Hgen. destruct Hd as [(g & Ed & Hne & Hseg) Hsize Hby].
  assert (zlen d / 24 <= 58) as H58 by (Z.to_euclidean_division_equations; lia).
  assert (ack_room k d) as Hack by (unfold ack_room; lia).
  assert (Forall (addressed (conv (cfg k))) g) as Haddr by (rewrite Hcv; eapply list.Forall_impl; [exact Hseg | by intros s (_ & ? & _)]).
  assert (Forall (fun s => fresh (current (clk k)) (fst s)) (handled k d)) as Hfresh.
  { rewrite Ed, handled_datagram by done. apply Forall_map. eapply list.Forall_impl; [exact Hseg|].
    intros s (_ & (_ & Hcmd & _) & Hts) Eack. cbn [fst KcpRound.arrival wire_header h_cmd h_ts] in *.
    rewrite (known_cmd_byte _ Hcmd) in Eack. assert (within (seg.ts s)) as Hw by auto.
    pose proof (within_range _ Hw). rewrite Z.mod_small by lia. by apply within_diff. }
  pose proof (input_cases k d Hk Hby Hack) as H. pose proof (input_good k d Hg (conj Hby Hack)) as Hg'.
  destruct (ikcp_input k d) as [[n k']|f] eqn:E; [|destruct H as [_ H]; by destruct (H (conj Hc Hfresh))].
  destruct H as (_ & _ & Ec & Ha & Hcalm).
  destruct (input_kept (fun s => logged lo s /\ seg.cmd s = IKCP_CMD_PUSH) k d n k' Hby ltac:(done) E) as (H1 & H2 & H3).
  destruct (input_kept (fun s => seg.conv s = conv (cfg k) /\ seg.cmd s = IKCP_CMD_PUSH) k d n k' Hby ltac:(done) E) as (_ & _ & H4).
  destruct (sends_same lo k k' Hs H1 H2 H3) as (H5 & H6).
  assert (timed_acks (rx k') /\ current (clk k') = current (clk k)) as (Ht' & Ecur).
  { rewrite Ed, input_datagram in E by done. apply outcome_bind_inv in E as ([k1 ack] & E1 & E2).
    assert (Forall (fun s => header_ok (fst s)) (map KcpRound.arrival g)) as Hh
      by (apply Forall_map; eapply list.Forall_impl; [exact Hseg | intros; apply wire_header_ok]).
    assert (timed_acks (rx k1)) as H7.
    { eapply (handle_all_timed (map KcpRound.arrival g) k); [done | done | | | done | exact E1].
      - rewrite length_map. pose proof (length_datagram g) as Hl. rewrite <- Ed in Hl. lia.
      - apply Forall_map. eapply list.Forall_impl; [exact Hseg|].
        intros s (_ & (_ & Hcmd & _) & Hts) Ep. cbn [fst KcpRound.arrival wire_header h_cmd h_ts] in *.
        rewrite (known_cmd_byte _ Hcmd) in Ep. assert (within (seg.ts s)) as Hw by auto.
        pose proof (within_range _ Hw). by rewrite Z.mod_small by lia. }
    apply handle_all_current in E1. cbv zeta in E2. injection E2 as _ <-.
    by destruct ack, (_ <? _). }
  exists n, k'. split; [done|]. split; [|split; [done | lia]].
  constructor; rewrite ?Ec; try done; [by unfold streaming; rewrite Ec | by rewrite H6 | by eapply input_receives | by apply Hcalm | by apply H4].
Qed.

(** The user takes a segment out, or there is none. *)
Lemma peer_recv G lo li tk k b : peer G lo li tk k -> flat li -> zlen (bytes_of li) < 2 ^ 31 -> zlen li < 2 ^ 31 -> zlen b = 2000 ->
  Forall is_byte b ->
  exists n b' k', ikcp_recv k (Some b) 2000 = Ok (n, Some b', k') /\
    ((n < 0 /\ b' = b /\ k' = k) \/
     (0 <= n <= 2000 /\ zlen b' = 2000 /\ Forall is_byte b' /\ peer G lo li (tk ++ [(0, take (Z.to_nat n) b')]) k' /\
      (pending (rx k') < pending (rx k))%nat /\ current (clk k') = current (clk k) /\ ackcount (rx k') = ackcount (rx k))).
Proof.
  intros [Hg Hm Hcv Hs Eg Hf Hr Ht Hc Ho] Hli Hbytes Hlen Hb Hby. pose proof Hg as (Hk & _).
  assert (exists rest, li = tk ++ map payload (rcv_queue (rx k)) ++ rest) as (rest & El) by (by destruct Hr).
  assert (readable (rx k)) as Hread.
  { unfold readable. rewrite El, !bytes_of_app, !length_app in Hbytes. lia. }
  assert (flat tk /\ all_frg0 (rcv_queue (rx k))) as (Htk & Hq).
  { rewrite El in Hli. apply flat_app in Hli as [H1 H2]. apply flat_app in H2 as [H2 _]. split; [done|].
    unfold flat in H2. rewrite Forall_map in H2. by eapply list.Forall_impl; [exact H2 | intros s []]. }
  assert (valid k (Recv b 2000)) as Hv by (split; [done | split; [lia | done]]).
  destruct (recv_good k b 2000 Hg Hv) as (n & b' & k' & E & Hg').
  exists n, b', k'. split; [done|].
  destruct (recv_flat k b n b' k' Hk Hread Hb Hq E) as [? | (Hn & Eb & Hpend & Ec & Et & Er & Ecur & Eo & Ea)]; [by left | right].
  destruct (recv_receives li tk k b 2000 n b' k' Hg Hv Hlen Hr (flat_complete _ Htk) (flat_numbered _ Hli) (flat_range _ Hli) E)
    as (m & Hr' & _ & Hcut).
  assert (flat (tk ++ m)) as Hm2.
  { destruct Hr' as [(rest' & El') _ _]. rewrite El' in Hli. by apply flat_app in Hli as [H _]. }
  rewrite !cut_flat, map_app in Hcut by done. apply app_inv_head in Hcut.
  replace ((0 <=? 2000) && (0 <=? n)) with true in Hcut by lia.
  destruct m as [|[f p] [|]]; try done. cbn [map snd] in Hcut. injection Hcut as ->.
  apply flat_app in Hm2 as [_ Hm2]. apply list.Forall_singleton in Hm2 as [Ef Hp]. cbn [fst snd] in Ef, Hp. subst f.
  assert (Forall is_byte b') as Hby'.
  { rewrite Eb. unfold splice. apply Forall_app_2; [by apply Forall_take|]. apply Forall_app_2; [done | by apply Forall_drop]. }
  assert (zlen (take (Z.to_nat n) b') <= 2000) as Htl by (rewrite length_take; lia).
  split; [done|]. split; [rewrite Eb, length_splice by lia; done|]. split; [done|]. split; [|done].
  destruct (sends_tx lo k k' Hs Et) as (H5 & H6).
  constructor; rewrite ?Ec, ?Et, ?Er; try done; [by unfold streaming; rewrite Ec | by rewrite H6 | by unfold timed_acks; rewrite Eo].
Qed.
End Peer.
