(* ===== verification/KcpTest.v ===== *)
(** * The test program of KCP

    io/kcp/test.cpp: two control blocks in one process, joined by the simulated
    network of KcpLink, in iterations of a loop that updates both, sends test packets,
    carries datagrams, echoes at one end what it receives and reads the echo at the
    other.  The whole of Kcp.v and KcpLink.v is composed here the way the program
    composes it, and it is shown what the composition achieves.  [rand], the clock
    and the bytes of the uninitialised buffer are the environment's; printing is left
    out. *)

From Stdlib Require Import ZArith Lia Bool String.
From stdpp Require Import base tactics option list numbers.
From S2P Require Import Prelude KcpApp KcpEcho KcpLink KcpWire Kcp KcpInv KcpInput KcpUser KcpFlush KcpApi KcpNet KcpPeer.

#[local] Open Scope Z_scope.

Definition BUFF_LEN : Z := 2000.
Definition TEST_CNT : Z := 1000.

(** The conversation that both control blocks are created with. *)
Definition test_conv : Z := 287454020.

(** [kcp->rx_minrto = minrto; kcp->fastresend = resend]. *)
Definition with_rto_resend (minrto resend : Z) (k : kcp) : kcp :=
  let c := cfg k in
  with_cfg (Config (conv c) (mtu c) (mss c) (snd_wnd c) (rcv_wnd c) (nodelay c) (interval c)
              resend (fastlimit c) (nocwnd c) (stream c) (dead_link c) minrto (bufcap c)) k.

(** The settings of the two ends. *)
Definition set_mode (mode : Z) (k : kcp) : kcp :=
  if mode =? 0 then snd (ikcp_nodelay k 0 10 0 0)
  else if mode =? 1 then snd (ikcp_nodelay k 0 10 0 1)
  else snd (ikcp_nodelay k 2 10 2 1).

Definition new_kcp (mode : Z) : kcp := set_mode mode (snd (ikcp_wndsize (ikcp_create test_conv) 128 128)).

Definition new_kcp1 (mode : Z) : kcp :=
  if (mode =? 0) || (mode =? 1) then new_kcp mode else with_rto_resend 10 1 (new_kcp mode).

(** The variables of [test] that the loop uses. *)
Record world := World {
  vnet : LatencySimulator.t; kcp1 : kcp; kcp2 : kcp; buffer : list Z;
  slap : Z; index : Z; next : Z; sumrtt : Z; count : Z; maxrtt : Z
}.

(** The loop goes on, [test] returned from it, or it was left by [break]. *)
Inductive status := Running | Failed | Finished.

Section Test.
Context {R : Type} (rand : R -> Z * R) (clock : R -> Z * R).

(** [iclock()] of test.h; [clock] counts milliseconds. *)
Definition iclock (r : R) : Z * R := let (ms, r) := clock r in (u32 (Z.land ms 4294967295), r).

(** [udp_output] with [user] the number of the peer.  The simulator looks at the clock
    if it keeps the packet. *)
Definition udp_output (buf : list Z) (len user : Z) (v : LatencySimulator.t) (r : R) : outcome (LatencySimulator.t * R) :=
  let (now, r) := iclock r in LatencySimulator.send rand user buf len now v r.

Fixpoint outputs (user : Z) (out : list (list Z)) (v : LatencySimulator.t) (r : R) : outcome (LatencySimulator.t * R) :=
  match out with
  | [] => Ok (v, r)
  | d :: out' => let* (v, r) := udp_output d (zlen d) user v r in outputs user out' v r
  end.

(** [ikcp_update(kcp, iclock())], whose output goes to the network. *)
Definition update (user : Z) (k : kcp) (v : LatencySimulator.t) (r : R) : outcome (kcp * LatencySimulator.t * R) :=
  let (now, r) := iclock r in
  let* (k, out) := ikcp_update k now in
  let* (v, r) := outputs user out v r in
  Ok (k, v, r).

(** The loop over [slap]: every 20 ms [kcp1] sends a packet.  The last result is what
    was sent. *)
Fixpoint send_tests (fuel : nat) (current : Z) (k : kcp) (buffer : list Z) (slap index : Z) (r : R)
    : outcome (kcp * list Z * Z * Z * R * list (list Z)) :=
  match fuel with
  | O => Err OutOfFuel
  | S fuel' =>
      if slap <=? current then
        let* buffer := store32 buffer 0 index in
        let index := u32 (index + 1) in
        let* buffer := store32 buffer 4 current in
        let (v, r) := rand r in
        let len := Z.rem v BUFF_LEN in
        let* (_, k) := ikcp_send k buffer len in
        let* (k, b, slap, index, r, sent) := send_tests fuel' current k buffer (u32 (slap + 20)) index r in
        Ok (k, b, slap, index, r, take (Z.to_nat len) buffer :: sent)
      else Ok (k, buffer, slap, index, r, [])
  end.

(** The rounds that the loop takes when [slap] does not wrap around, and the last test. *)
Definition slap_rounds (current slap : Z) : nat := S (Z.to_nat ((current - slap) / 20 + 1)).

(** What has arrived for [peer] is put into its control block. *)
Fixpoint carry (fuel : nat) (peer : Z) (v : LatencySimulator.t) (k : kcp) (buffer : list Z) (r : R)
    : outcome (LatencySimulator.t * kcp * list Z * R) :=
  match fuel with
  | O => Err OutOfFuel
  | S fuel' =>
      let (now, r) := iclock r in
      let* (len, buffer, v) := LatencySimulator.recv peer buffer BUFF_LEN now v in
      if len <? 0 then Ok (v, k, buffer, r)
      else
        let* (_, k) := ikcp_input k (take (Z.to_nat len) buffer) in
        carry fuel' peer v k buffer r
  end.

(** One round for each packet in the line, and one that finds nothing. *)
Definition carry_rounds (peer : Z) (v : LatencySimulator.t) : nat :=
  S (length (LatencySimulator.line (LatencySimulator.from (if peer =? 0 then 1 else 0) v))).

(** [kcp2] sends back what it receives; the last result is what it received. *)
Fixpoint echo (fuel : nat) (k : kcp) (buffer : list Z) : outcome (kcp * list Z * list (list Z)) :=
  match fuel with
  | O => Err OutOfFuel
  | S fuel' =>
      let* (len, b, k) := ikcp_recv k (Some buffer) BUFF_LEN in
      let buffer := default buffer b in
      if len <? 0 then Ok (k, buffer, [])
      else
        let* (_, k) := ikcp_send k buffer len in
        let* (k, b, got) := echo fuel' k buffer in
        Ok (k, b, take (Z.to_nat len) buffer :: got)
  end.

(** What is counted of the packets that came back. *)
Record tally := Tally { t_next : Z; t_sumrtt : Z; t_count : Z; t_maxrtt : Z }.

Definition tally_packet (current sn ts : Z) (t : tally) : outcome (bool * tally) :=
  let rtt := u32 (current - ts) in
  if negb (sn =? t_next t) then Ok (false, t)
  else
    guard_defined (t_sumrtt t + rtt <? 2 ^ 63) ;;*
    let* count := int_of (t_count t + 1) in
    Ok (true, Tally (u32 (t_next t + 1)) (t_sumrtt t + rtt) count
                (if u32 (t_maxrtt t) <? rtt then i32 rtt else t_maxrtt t)).

(** [kcp1] reads the echo; [false]: a packet was not the next one. *)
Fixpoint read_echo (fuel : nat) (current : Z) (k : kcp) (buffer : list Z) (t : tally)
    : outcome (bool * kcp * list Z * tally * list (list Z)) :=
  match fuel with
  | O => Err OutOfFuel
  | S fuel' =>
      let* (len, b, k) := ikcp_recv k (Some buffer) BUFF_LEN in
      let buffer := default buffer b in
      if len <? 0 then Ok (true, k, buffer, t, [])
      else
        let* sn := load32 buffer 0 in
        let* ts := load32 buffer 4 in
        let* (ok, t) := tally_packet current sn ts t in
        if (ok : bool) then
          let* (ok, k, b, t, got) := read_echo fuel' current k buffer t in
          Ok (ok, k, b, t, take (Z.to_nat len) buffer :: got)
        else Ok (false, k, buffer, t, [take (Z.to_nat len) buffer])
  end.

(** What went over the connections in an iteration: given to [kcp1], received and
    echoed by [kcp2], received by [kcp1]. *)
Record flow := Flow { asked : list (list Z); echoed : list (list Z); back : list (list Z) }.

(** One iteration of [while (1)], after the sleep. *)
Definition iteration (w : world) (r : R) : outcome (world * flow * status * R) :=
  let (current, r) := iclock r in
  let* (k1, v, r) := update 0 (kcp1 w) (vnet w) r in
  let* (k2, v, r) := update 1 (kcp2 w) v r in
  let* (k1, b, sl, ix, r, given1) := send_tests (slap_rounds current (slap w)) current k1 (buffer w) (slap w) (index w) r in
  let* (v, k2, b, r) := carry (carry_rounds 1 v) 1 v k2 b r in
  let* (v, k1, b, r) := carry (carry_rounds 0 v) 0 v k1 b r in
  let* (k2, b, got2) := echo (S (pending (rx k2))) k2 b in
  let* (ok, k1, b, t, got1) :=
    read_echo (S (pending (rx k1))) current k1 b (Tally (next w) (sumrtt w) (count w) (maxrtt w)) in
  Ok (World v k1 k2 b sl ix (t_next t) (t_sumrtt t) (t_count t) (t_maxrtt t), Flow given1 got2 got1,
      if negb ok then Failed else if TEST_CNT <? t_next t then Finished else Running, r).

(** What comes before the loop, with [ts1]; [garbage] is in the buffer. *)
Definition start (mode : Z) (garbage : list Z) (r : R) : world * Z * R :=
  let (now, r) := iclock r in
  let v := LatencySimulator.LatencySimulator 10 60 125 1000 now in
  let (current, r) := iclock r in
  let (ts1, r) := iclock r in
  (World v (new_kcp1 mode) (new_kcp mode) garbage (u32 (current + 20)) 0 0 0 0 0, ts1, r).

Fixpoint loop (fuel : nat) (w : world) (r : R) : outcome (world * status * R) :=
  match fuel with
  | O => Err OutOfFuel
  | S fuel' =>
      let* (w, _, st, r) := iteration w r in
      match st with Running => loop fuel' w r | _ => Ok (w, st, r) end
  end.

(** What is printed at the end: the name of the mode, the time, [avgrtt], [maxrtt] and
    [tx1]. *)
Definition report (mode ts1 : Z) (w : world) (r : R) : outcome (string * Z * Z * Z * Z * R) :=
  let (now, r) := iclock r in
  let* name := array_at ["default"; "normal"; "fast"]%string mode in
  guard_defined (negb (count w =? 0)) ;;*
  Ok (name, i32 (u32 (now - ts1)), i32 (Z.quot (sumrtt w) (count w)), maxrtt w,
      LatencySimulator.tx (LatencySimulator.d12 (vnet w)), r).

(** [test]; [None] when it returns from the loop. *)
Definition test (fuel : nat) (mode : Z) (garbage : list Z) (r : R) : outcome (option (string * Z * Z * Z * Z) * R) :=
  let '(w, ts1, r) := start mode garbage r in
  let* (w, st, r) := loop fuel w r in
  match st with
  | Finished => let* (name, ts, avg, max, tx, r) := report mode ts1 w r in Ok (Some (name, ts, avg, max, tx), r)
  | _ => Ok (None, r)
  end.

Definition main (fuel : nat) (garbage : Z -> list Z) (r : R) : outcome R :=
  let* (_, r) := test fuel 0 (garbage 0) r in
  let* (_, r) := test fuel 1 (garbage 1) r in
  let* (_, r) := test fuel 2 (garbage 2) r in
  Ok r.
End Test.

(** ** The network with one more datagram, and with one fewer *)

Import LatencySimulator.

(** The buffer of a receive keeps its length, and bytes stay bytes. *)
Lemma recv_buffer peer data maxsize now v n b v' : recv peer data maxsize now v = Ok (n, b, v') ->
  Forall is_byte data -> Forall is_byte (concat (in_transit (if peer =? 0 then 1 else 0) v)) ->
  maxsize <= zlen data -> zlen b = zlen data /\ Forall is_byte b.
Proof.
  unfold recv, in_transit. destruct (line _) as [|pkt rest] eqn:El; [by intros [= <- <- <-]|].
  destruct (now <? ts pkt); [by intros [= <- <- <-]|]. destruct (maxsize <? zlen (ptr pkt)) eqn:Em; [by intros [= <- <- <-]|].
  to_prop. intros (b1 & E1 & [= <- <- <-])%outcome_bind_inv Hd Hp Hm. rewrite mwrite_ok in E1 by lia. injection E1 as <-.
  rewrite length_splice by lia. split; [done|]. cbn [map concat] in Hp. apply Forall_app in Hp as [Hp _].
  unfold splice. apply Forall_app_2; [by apply Forall_take|]. apply Forall_app_2; [done | by apply Forall_drop].
Qed.

Section Parts.
Context {R : Type} (rand : R -> Z * R) (clock : R -> Z * R) (T : Z).

Hypothesis rand_nonneg : forall r, 0 <= fst (rand r).
Hypothesis clock_within : forall r, within T (fst (iclock clock r)).
Hypothesis span_ok : 0 <= T /\ T + SPAN <= 2 ^ 32 - 20.

Lemma test_conv_ok : 0 <= test_conv < 2 ^ 32.
Proof. done. Qed.

Abbreviation is_peer := (peer T test_conv).
Abbreviation on_line := (on_wire T test_conv).

(** What is under way was sent: [l0] is the log of [kcp1], [l1] that of [kcp2]. *)
Definition log_of (l0 l1 : log) (p : Z) : log := if p =? 0 then l0 else l1.

Record link_ok (l0 l1 : log) (v : t) : Prop := {
  lo_settings : settings_ok v;
  lo_max : nmax v = 1000;
  lo_dir p : direction_ok (from p v);
  lo_len p : zlen (line (from p v)) <= 1000;
  lo_on p : Forall (on_line (log_of l0 l1 p)) (in_transit p v)
}.

Lemma link_more l0 l1 l0' l1' v : link_ok l0 l1 v -> link_ok (l0 ++ l0') (l1 ++ l1') v.
Proof.
  intros []. constructor; try done. intros p. eapply list.Forall_impl; [apply lo_on0|]. intros d H.
  unfold log_of in *. destruct (p =? 0); by apply on_wire_app.
Qed.

Lemma from_same p q v : (p =? 0) = (q =? 0) -> from p v = from q v.
Proof. unfold from. by intros ->. Qed.

(** Sending a datagram. *)
Lemma udp_output_ok l0 l1 v r p d : link_ok l0 l1 v -> on_line (log_of l0 l1 p) d -> tx (from p v) + 1 < 2 ^ 31 ->
  exists v' r', udp_output rand clock d (zlen d) p v r = Ok (v', r') /\ link_ok l0 l1 v' /\
    tx (from p v') = tx (from p v) + 1 /\ zlen (line (from p v')) <= zlen (line (from p v)) + 1 /\
    (forall q, (q =? 0) <> (p =? 0) -> from q v' = from q v).
Proof.
  intros [Hset Hmax Hdir Hlen Hon] Hd Htx. unfold udp_output. destruct (iclock clock r) as [now r0].
  destruct (link_sends rand rand_nonneg p d (zlen d) now v r0 ltac:(lia) Hset (Hdir p) Htx)
    as (x & g & r1 & l & v' & r' & _ & Hg & -> & Ef & El & Hother & _ & En & Hset').
  rewrite Nat2Z.id, firstn_all in El. exists v', r'. split; [done|]. rewrite Ef. cbn [tx line]. rewrite length_app.
  pose proof (Hdir p) as [_ Htx0]. pose proof (Hlen p) as Hlp. rewrite Hmax in El.
  assert (zlen l <= 1 /\ zlen (line (from p v)) + zlen l <= 1000 /\ Forall (on_line (log_of l0 l1 p)) (map ptr l)) as (Hl & Hroom & Hl').
  { rewrite <- (length_map ptr l), El. destruct (1000 <=? zlen (line (from p v))) eqn:E; to_prop;
      destruct (x <? lostrate v); cbn [orb length]; (split_and!; [lia | lia |]); by repeat first [apply Forall_nil_2 | apply Forall_cons_2; [exact Hd|]]. }
  split; [|split; [done | split; [lia | done]]].
  constructor; [done | by rewrite En | | |]; intros q; unfold in_transit;
    (destruct (decide ((q =? 0) = (p =? 0))) as [E|E]; [rewrite (from_same q p v' E), Ef; cbn [line] | rewrite (Hother q E)]).
  - split; simpl; [done | lia].
  - apply Hdir.
  - rewrite length_app. lia.
  - apply Hlen.
  - rewrite map_app. unfold log_of. rewrite E. apply Forall_app_2; [|done]. rewrite <- (from_same q p v E).
    specialize (Hon q). unfold log_of in Hon. by rewrite E in Hon.
  - apply Hon.
Qed.

Lemma outputs_ok l0 l1 p out v r : link_ok l0 l1 v -> Forall (on_line (log_of l0 l1 p)) out -> tx (from p v) + zlen out < 2 ^ 31 ->
  exists v' r', outputs rand clock p out v r = Ok (v', r') /\ link_ok l0 l1 v' /\
    zlen (line (from p v')) - tx (from p v') <= zlen (line (from p v)) - tx (from p v) /\
    (forall q, (q =? 0) <> (p =? 0) -> from q v' = from q v).
Proof.
  revert v r. induction out as [|d out IH]; intros v r Hv Hout Htx; cbn [outputs length] in *.
  { exists v, r. split_and!; done || lia. }
  apply list.Forall_cons in Hout as [Hd Hout].
  destruct (udp_output_ok l0 l1 v r p d Hv Hd ltac:(lia)) as (v1 & r1 & -> & Hv1 & Etx & Hl & Ho).
  rewrite outcome_bind_ok. destruct (IH v1 r1 Hv1 Hout ltac:(lia)) as (v2 & r2 & E & Hv2 & Hl2 & Ho2).
  exists v2, r2. split; [done|]. split; [done|]. split; [lia|]. intros q Hq. by rewrite (Ho2 q Hq), (Ho q Hq).
Qed.

(** ** The parts of an iteration *)

Definition buffer_ok (b : list Z) : Prop := zlen b = 2000 /\ Forall is_byte b.

Definition grown (p : Z) (l0 l1 more : log) : log * log := if p =? 0 then (l0 ++ more, l1) else (l0, l1 ++ more).

Lemma link_grown l0 l1 p more v : link_ok l0 l1 v -> link_ok (fst (grown p l0 l1 more)) (snd (grown p l0 l1 more)) v.
Proof.
  intros H. unfold grown. destruct (p =? 0); cbn [fst snd].
  - pose proof (link_more l0 l1 more [] v H) as H1. by rewrite app_nil_r in H1.
  - pose proof (link_more l0 l1 [] more v H) as H1. by rewrite app_nil_r in H1.
Qed.

Lemma log_of_grown l0 l1 p more : log_of (fst (grown p l0 l1 more)) (snd (grown p l0 l1 more)) p = log_of l0 l1 p ++ more.
Proof. unfold log_of, grown. by destruct (p =? 0). Qed.

Lemma update_ok l0 l1 p G li tk k v r : is_peer G (log_of l0 l1 p) li tk k -> link_ok l0 l1 v ->
  tx (from p v) + ackcount (rx k) + zlen G + 2 < 2 ^ 31 ->
  exists k' v' r' more, update rand clock p k v r = Ok (k', v', r') /\
    is_peer G (log_of l0 l1 p ++ more) li tk k' /\ within T (Kcp.current (clk k')) /\ ackcount (rx k') <= ackcount (rx k) /\
    link_ok (fst (grown p l0 l1 more)) (snd (grown p l0 l1 more)) v' /\
    zlen (line (from p v')) - tx (from p v') <= zlen (line (from p v)) - tx (from p v) /\
    (forall q, (q =? 0) <> (p =? 0) -> from q v' = from q v).
Proof.
  intros Hp Hv Hb. unfold update. pose proof (clock_within r) as Hnow. destruct (iclock clock r) as [now r0]. cbn [fst] in Hnow.
  pose proof (proj2 (lo_dir _ _ _ Hv p)) as Htx.
  assert (0 <= ackcount (rx k)) as Ha by (destruct (pe_good _ _ _ _ _ _ _ Hp) as ((_ & _ & [] & _) & _); lia).
  destruct (peer_update T test_conv test_conv_ok _ _ _ _ _ now Hp Hnow ltac:(lia))
    as (k' & out & more & -> & Hp' & Ecur & Hout & Hlen & Hack).
  rewrite outcome_bind_ok.
  destruct (outputs_ok _ _ p out v r0 (link_grown l0 l1 p more v Hv)) as (v' & r' & -> & Hv' & Hl & Ho);
    [by rewrite log_of_grown | lia|].
  rewrite outcome_bind_ok. exists k', v', r', more. rewrite Ecur. by split_and!.
Qed.

Lemma carry_ok l0 l1 fuel me p G lo tk k v b r : (me =? 0) <> (p =? 0) -> (length (line (from p v)) < fuel)%nat ->
  link_ok l0 l1 v -> is_peer G lo (log_of l0 l1 p) tk k -> zlen (log_of l0 l1 p) < 2 ^ 31 ->
  within T (Kcp.current (clk k)) -> ackcount (rx k) + 58 * zlen (line (from p v)) <= 2 ^ 31 -> buffer_ok b ->
  exists v' k' b' r', carry clock fuel me v k b r = Ok (v', k', b', r') /\ link_ok l0 l1 v' /\
    is_peer G lo (log_of l0 l1 p) tk k' /\ Kcp.current (clk k') = Kcp.current (clk k) /\ buffer_ok b' /\
    ackcount (rx k') + 58 * zlen (line (from p v')) <= ackcount (rx k) + 58 * zlen (line (from p v)) /\
    tx (from p v') = tx (from p v) /\ (forall q, (q =? 0) <> (p =? 0) -> from q v' = from q v).
Proof.
  intros Hme Hfuel Hv Hp Hlog Hnow. revert v k b r Hfuel Hv Hp Hnow.
  induction fuel as [|fuel IH]; intros v k b r Hfuel Hv Hp Hnow Hack [Hb Hby]; [lia|].
  cbn [carry]. destruct (iclock clock r) as [now r0].
  destruct (link_receives me b BUFF_LEN now v) as (n & b1 & v1 & E & _ & Emax & Hset & Hsame & Hother); [rewrite Hb; done|].
  rewrite E, outcome_bind_ok.
  assert (forall q, (q =? 0) <> (p =? 0) -> from q v1 = from q v) as Ho.
  { intros q Hq. apply Hsame. by destruct (q =? 0), (me =? 0), (p =? 0). }
  destruct (Hother p ltac:(congruence)) as (Erng & Etx & Eline).
  pose proof Hv as [Hs Hm Hd Hl Hon].
  assert (buffer_ok b1) as Hb1.
  { unfold buffer_ok. rewrite <- Hb. eapply recv_buffer; [exact E | done | | rewrite Hb; done].
    apply Forall_concat. assert (in_transit (if me =? 0 then 1 else 0) v = in_transit p v) as ->.
    { unfold in_transit. f_equal. f_equal. apply from_same. by destruct (me =? 0), (p =? 0). }
    eapply list.Forall_impl; [apply Hon | intros d Hd1; apply Hd1]. }
  assert (Forall (on_line (log_of l0 l1 p)) (if 0 <=? n then [take (Z.to_nat n) b1] else []) /\
    Forall (on_line (log_of l0 l1 p)) (in_transit p v1)) as (Hgot & Hrest).
  { apply Forall_app. unfold in_transit in *. rewrite <- Eline. apply Hon. }
  assert (zlen (line (from p v)) = (if 0 <=? n then 1 else 0) + zlen (line (from p v1))) as El.
  { apply (f_equal length) in Eline. rewrite length_app, !length_map in Eline. destruct (0 <=? n); cbn [length] in Eline; lia. }
  assert (link_ok l0 l1 v1) as Hv1.
  { constructor; [by apply Hset | by rewrite Emax | | |]; intros q; (destruct (decide ((q =? 0) = (p =? 0))) as [Eq|Eq];
      [unfold in_transit; rewrite (from_same q p v1 Eq) | unfold in_transit; rewrite (Ho q Eq); auto]).
    - unfold direction_ok. rewrite Erng, Etx. apply Hd.
    - pose proof (Hl p). destruct (0 <=? n); lia.
    - unfold log_of. rewrite Eq. exact Hrest. }
  destruct (n <? 0) eqn:En; to_prop.
  { exists v1, k, b1, r0. split_and!; try done. destruct (0 <=? n); lia. }
  rewrite (proj2 (Z.leb_le 0 n)) in Hgot, El by done. apply list.Forall_cons in Hgot as [Hgot _].
  destruct (peer_input T test_conv span_ok test_conv_ok _ _ _ _ k _ Hp Hgot Hlog Hnow ltac:(lia))
    as (c & k1 & -> & Hp1 & Ecur & Hack1).
  rewrite outcome_bind_ok.
  destruct (IH v1 k1 b1 r0) as (v2 & k2 & b2 & r2 & E2 & Hv2 & Hp2 & Ecur2 & Hb2 & Hack2 & Etx2 & Ho2); try done;
    [lia | by rewrite Ecur | lia |].
  exists v2, k2, b2, r2. split; [done|]. split; [done|]. split; [done|]. split; [congruence|]. split; [done|].
  split; [lia|]. split; [congruence|]. intros q Hq. by rewrite (Ho2 q Hq), (Ho q Hq).
Qed.

Lemma store32_ok b o x : buffer_ok b -> 0 <= o <= 1996 -> exists b', store32 b o x = Ok b' /\ buffer_ok b'.
Proof.
  intros [Hb Hby] Ho. unfold store32. rewrite mwrite_ok by (rewrite ?length_le_bytes; lia). eexists. split; [reflexivity|].
  split; [rewrite length_splice by (rewrite ?length_le_bytes; lia); done|].
  unfold splice. apply Forall_app_2; [by apply Forall_take|]. apply Forall_app_2; [apply le_bytes_are_bytes | by apply Forall_drop].
Qed.

Lemma load32_ok b o : buffer_ok b -> 0 <= o <= 1996 -> exists x, load32 b o = Ok x /\ 0 <= x < 2 ^ 32.
Proof.
  intros [Hb Hby] Ho. unfold load32. rewrite mread_ok by lia. rewrite outcome_bind_ok. eexists. split; [reflexivity|].
  unfold slice. apply (le_value_take 4); [by apply Forall_drop | rewrite length_drop; lia].
Qed.

Lemma send_tests_ok fuel cur k b sl ix r G lo li tk : is_peer G lo li tk k -> within T cur -> buffer_ok b ->
  0 <= 20 * ix <= sl -> sl <= T + SPAN + 20 -> cur - sl < 20 * (Z.of_nat fuel - 1) -> (0 < fuel)%nat ->
  exists k' b' sl' ix' r' given G', send_tests rand fuel cur k b sl ix r = Ok (k', b', sl', ix', r', given) /\
    is_peer G' lo li tk k' /\ rx k' = rx k /\ clk k' = clk k /\ buffer_ok b' /\
    sl' - 20 * ix' = sl - 20 * ix /\ ix <= ix' /\ sl' <= T + SPAN + 20 /\
    bytes_of G' = bytes_of G ++ concat given /\ zlen G' <= zlen G + 2 * (ix' - ix) /\ zlen (concat given) <= 2000 * (ix' - ix).
Proof.
  revert k b sl ix r G. induction fuel as [|fuel IH]; intros k b sl ix r G Hp Hcur Hb Hix Hsl Hfuel Hpos; [lia|].
  cbn [send_tests]. destruct (sl <=? cur) eqn:Ecur; to_prop.
  2: { exists k, b, sl, ix, r, [], G. cbn [concat length]. rewrite app_nil_r. split_and!; done || lia. }
  destruct (store32_ok b 0 ix Hb ltac:(lia)) as (b1 & -> & Hb1). rewrite outcome_bind_ok.
  destruct (store32_ok b1 4 cur Hb1 ltac:(lia)) as (b2 & -> & Hb2). rewrite outcome_bind_ok.
  pose proof (rand_nonneg r) as Hv. destruct (rand r) as [v r1]. cbn [fst] in Hv.
  assert (0 <= Z.rem v BUFF_LEN < 2000) as Hlen by (apply Z.rem_bound_pos; [done | reflexivity]).
  destruct (peer_send T test_conv _ _ _ _ k b2 (Z.rem v BUFF_LEN) Hp ltac:(lia) ltac:(destruct Hb2; lia) (proj2 Hb2))
    as (k1 & G1 & -> & Hp1 & Erx & Eclk & Eby & HG1).
  rewrite outcome_bind_ok. unfold within, SPAN in *. rewrite (u32_small (ix + 1)), (u32_small (sl + 20)) by lia.
  destruct (IH k1 b2 (sl + 20) (ix + 1) r1 G1 Hp1 Hcur Hb2 ltac:(lia) ltac:(lia) ltac:(lia) ltac:(destruct fuel; lia))
    as (k' & b' & sl' & ix' & r' & given & G' & -> & Hp' & Erx' & Eclk' & Hb' & Ediff & Hix' & Hsl' & Eby' & HG' & Hby').
  rewrite outcome_bind_ok. eexists k', b', sl', ix', r', _, G'. split; [reflexivity|].
  split; [done|]. split; [congruence|]. split; [congruence|]. split; [done|]. split; [lia|]. split; [lia|]. split; [lia|].
  cbn [concat]. rewrite length_app, length_take. split; [by rewrite Eby', Eby, <- app_assoc|]. split; [lia|].
  destruct Hb2. lia.
Qed.

Lemma slap_rounds_enough cur sl : cur - sl < 20 * (Z.of_nat (slap_rounds cur sl) - 1) /\ (0 < slap_rounds cur sl)%nat.
Proof. unfold slap_rounds. split; [Z.to_euclidean_division_equations; lia | lia]. Qed.

(** The echo: what [kcp2] takes out it gives back. *)
Lemma echo_ok fuel k b G lo li tk : is_peer G lo li tk k -> buffer_ok b -> flat li -> zlen (bytes_of li) < 2 ^ 31 ->
  zlen li < 2 ^ 31 -> (pending (rx k) < fuel)%nat ->
  exists k' b' got G' m, echo fuel k b = Ok (k', b', got) /\ is_peer G' lo li (tk ++ m) k' /\ buffer_ok b' /\
    map snd m = got /\ bytes_of G' = bytes_of G ++ concat got /\ zlen G' <= zlen G + 2 * zlen m /\
    Kcp.current (clk k') = Kcp.current (clk k) /\ ackcount (rx k') = ackcount (rx k).
Proof.
  intros Hp Hb Hfl Hby Hli. revert k b G tk Hp Hb. induction fuel as [|fuel IH]; intros k b G tk Hp Hb Hfuel; [lia|].
  cbn [echo]. destruct (peer_recv T test_conv _ _ _ _ k b Hp Hfl Hby Hli (proj1 Hb) (proj2 Hb))
    as (n & b1 & k1 & E & Hcases). unfold BUFF_LEN. rewrite E, outcome_bind_ok. cbn [from_option id].
  destruct Hcases as [(Hn & -> & ->) | (Hn & Hb1 & Hby1 & Hp1 & Hpend & Ecur & Eack)].
  { rewrite (proj2 (Z.ltb_lt n 0)) by done. exists k, b, [], G, []. rewrite !app_nil_r. cbn [length]. split_and!; done || lia. }
  rewrite (proj2 (Z.ltb_ge n 0)) by lia.
  destruct (peer_send T test_conv _ _ _ _ k1 b1 n Hp1 Hn ltac:(lia) Hby1) as (k2 & G2 & -> & Hp2 & Erx & Eclk & Eby2 & HG2).
  rewrite outcome_bind_ok. destruct (IH k2 b1 G2 _ Hp2 (conj Hb1 Hby1)) as (k' & b' & got & G' & m & -> & Hp' & Hb' & Em & EG & HG & Ecur' & Eack').
  { rewrite Erx. lia. }
  rewrite outcome_bind_ok. eexists k', b', _, G', _. split; [reflexivity|]. rewrite <- app_assoc in Hp'. split; [exact Hp'|].
  split; [done|]. cbn [map snd app concat length]. split; [by rewrite Em|]. split; [by rewrite EG, Eby2, <- app_assoc|].
  split; [lia|]. rewrite Ecur', Eack', Eclk, Erx. split; [done | done].
Qed.

(** All packets read so far were counted. *)
Definition tally_ok (n : Z) (t : tally) : Prop := t_next t = n /\ t_count t = n /\ 0 <= t_sumrtt t <= 2 ^ 32 * n.

Lemma tally_packet_ok cur sn ts n t : tally_ok n t -> 0 <= n < 2 ^ 31 - 1 ->
  exists ok t', tally_packet cur sn ts t = Ok (ok, t') /\ ok = (sn =? n) /\ (ok = true -> tally_ok (n + 1) t').
Proof.
  intros (En & Ec & Hs) Hn. unfold tally_packet. rewrite En, Ec. pose proof (u32_range (cur - ts)) as Hr.
  destruct (sn =? n); cbn [negb]; [|by exists false, t].
  rewrite guard_defined_true by (apply Z.ltb_lt; lia). rewrite outcome_bind_ok, int_of_ok, outcome_bind_ok by lia.
  eexists _, _. split; [reflexivity|]. split; [done|]. intros _. unfold tally_ok. cbn [t_next t_count t_sumrtt].
  rewrite u32_small by lia. lia.
Qed.

Lemma peer_taken G lo li tk k : is_peer G lo li tk k -> zlen tk <= zlen li.
Proof. intros H. destruct (pe_receives _ _ _ _ _ _ _ H) as [(rest & ->) _ _]. rewrite length_app. lia. Qed.

Lemma read_echo_ok fuel cur k b t G lo li tk : is_peer G lo li tk k -> buffer_ok b -> flat li -> zlen (bytes_of li) < 2 ^ 31 ->
  zlen li < 2 ^ 31 -> (pending (rx k) < fuel)%nat -> tally_ok (zlen tk) t ->
  exists ok k' b' t' got m, read_echo fuel cur k b t = Ok (ok, k', b', t', got) /\ is_peer G lo li (tk ++ m) k' /\ buffer_ok b' /\
    map snd m = got /\ (ok = true -> tally_ok (zlen (tk ++ m)) t') /\
    Kcp.current (clk k') = Kcp.current (clk k) /\ ackcount (rx k') = ackcount (rx k).
Proof.
  intros Hp Hb Hfl Hby Hli. revert k b t tk Hp Hb. induction fuel as [|fuel IH]; intros k b t tk Hp Hb Hfuel Ht; [lia|].
  cbn [read_echo]. destruct (peer_recv T test_conv _ _ _ _ k b Hp Hfl Hby Hli (proj1 Hb) (proj2 Hb))
    as (n & b1 & k1 & E & Hcases). unfold BUFF_LEN. rewrite E, outcome_bind_ok. cbn [from_option id].
  destruct Hcases as [(Hn & -> & ->) | (Hn & Hb1 & Hby1 & Hp1 & Hpend & Ecur & Eack)].
  { rewrite (proj2 (Z.ltb_lt n 0)) by done. exists true, k, b, t, [], []. rewrite !app_nil_r. by split_and!. }
  rewrite (proj2 (Z.ltb_ge n 0)) by lia. pose proof (conj Hb1 Hby1 : buffer_ok b1) as Hb1'.
  destruct (load32_ok b1 0 Hb1' ltac:(lia)) as (sn & -> & _). rewrite outcome_bind_ok.
  destruct (load32_ok b1 4 Hb1' ltac:(lia)) as (ts & -> & _). rewrite outcome_bind_ok.
  pose proof (peer_taken _ _ _ _ _ Hp1) as Htk. rewrite length_app in Htk. cbn [length] in Htk.
  destruct (tally_packet_ok cur sn ts (zlen tk) t Ht ltac:(lia)) as (ok & t1 & -> & _ & Ht1). rewrite outcome_bind_ok.
  destruct ok.
  2: { eexists false, k1, b1, t1, _, [_]. split; [reflexivity|]. split; [exact Hp1|]. by split_and!. }
  destruct (IH k1 b1 t1 _ Hp1 Hb1') as (ok & k' & b' & t' & got & m & -> & Hp' & Hb' & Em & Ht' & Ecur' & Eack'); [lia | |].
  { rewrite length_app. cbn [length]. replace (Z.of_nat (length tk + 1)) with (zlen tk + 1) by lia. by apply Ht1. }
  rewrite outcome_bind_ok. eexists ok, k', b', t', _, _. split; [reflexivity|]. rewrite <- app_assoc in Hp', Ht'.
  split; [exact Hp'|]. split; [done|]. cbn [map snd app] in *. split; [by rewrite Em|]. split; [done|].
  split; congruence.
Qed.

(** ** The state of the test

    [kcp1] was given [G1] and has numbered [lc] of it, of which the user of [kcp2] has
    taken [d1]; the other way [G2], [ls] and [d2].  [tr] is what went over the
    connections so far. *)
Record state_ok (lc ls G1 G2 d1 d2 : log) (tr : flow) (w : world) : Prop := {
  ru_link : link_ok lc ls (vnet w);
  ru_1 : is_peer G1 lc ls d2 (kcp1 w);
  ru_2 : is_peer G2 ls lc d1 (kcp2 w);
  ru_acks1 : ackcount (rx (kcp1 w)) + 58 * zlen (line (from 1 (vnet w))) <= 58 * tx (from 1 (vnet w));
  ru_acks2 : ackcount (rx (kcp2 w)) + 58 * zlen (line (from 0 (vnet w))) <= 58 * tx (from 0 (vnet w));
  ru_buffer : buffer_ok (buffer w);
  ru_asked : bytes_of G1 = concat (asked tr) /\ zlen (bytes_of G1) <= 2000 * index w /\ zlen G1 <= 2 * index w;
  ru_echoed : map snd d1 = echoed tr /\ bytes_of G2 = concat (echoed tr) /\ zlen G2 <= 2 * zlen d1;
  ru_back : map snd d2 = back tr;
  ru_time : 0 <= index w /\ T <= slap w - 20 * index w /\ slap w <= T + SPAN + 20
}.

(** The logs are in bounds: there are at most 1000001 packets of less than 2000 bytes. *)
Lemma state_small lc ls G1 G2 d1 d2 tr w : state_ok lc ls G1 G2 d1 d2 tr w ->
  zlen G1 < 2 ^ 22 /\ zlen G2 < 2 ^ 23 /\ zlen lc < 2 ^ 22 /\ zlen ls < 2 ^ 23 /\ flat lc /\ flat ls /\
  zlen (bytes_of lc) < 2 ^ 31 /\ zlen (bytes_of ls) < 2 ^ 31.
Proof.
  intros [_ H1 H2 _ _ _ (Ea & Hr & Hg1) (Ee & E2 & Hg2) _ (Hi & Ht & Hs)].
  destruct (peer_log_flat _ _ _ _ _ _ _ H1) as (Hf1 & Hl1). destruct (peer_log_flat _ _ _ _ _ _ _ H2) as (Hf2 & Hl2).
  pose proof (peer_taken _ _ _ _ _ H2) as Hd1. unfold SPAN in Hs.
  destruct (peer_log _ _ _ _ _ _ _ H1) as (rest1 & EG1). destruct (peer_log _ _ _ _ _ _ _ H2) as (rest2 & EG2).
  destruct (pe_receives _ _ _ _ _ _ _ H2) as [(rest & El) _ _].
  assert (zlen (bytes_of lc) <= zlen (bytes_of G1)) as Hb1 by (rewrite EG1, bytes_of_app, length_app; lia).
  assert (zlen (bytes_of ls) <= zlen (bytes_of lc)) as Hb2.
  { assert (zlen (bytes_of ls) <= zlen (bytes_of G2)) by (rewrite EG2, bytes_of_app, length_app; lia).
    rewrite E2, <- Ee in *. fold (bytes_of d1) in *. rewrite El, bytes_of_app, length_app. lia. }
  split_and!; done || lia.
Qed.

Definition few_datagrams (w : world) : Prop :=
  tx (from 0 (vnet w)) <= 2 ^ 24 /\ tx (from 1 (vnet w)) <= 2 ^ 24.

(** [kcp1] is updated. *)
Lemma update1_step lc ls G1 G2 d1 d2 tr w r : state_ok lc ls G1 G2 d1 d2 tr w -> few_datagrams w ->
  exists k v r' lc', update rand clock 0 (kcp1 w) (vnet w) r = Ok (k, v, r') /\
    let w' := World v k (kcp2 w) (buffer w) (slap w) (index w) (next w) (sumrtt w) (count w) (maxrtt w) in
    state_ok lc' ls G1 G2 d1 d2 tr w' /\ within T (Kcp.current (clk k)) /\
    ackcount (rx k) <= 58 * 2 ^ 24 /\ ackcount (rx (kcp2 w)) <= 58 * 2 ^ 24 /\ tx (from 1 v) <= 2 ^ 24.
Proof.
  intros H [Hf0 Hf1]. destruct (state_small _ _ _ _ _ _ _ _ H) as (Hs1 & Hs2 & _).
  pose proof H as [Hl H1 H2 Ha1 Ha2 Hb Has He Hbk Ht].
  destruct (update_ok lc ls 0 G1 ls d2 (kcp1 w) (vnet w) r H1 Hl) as (k & v & r' & more & E & Hp & Hnow & Hack & Hl' & Htx & Ho); [lia|].
  exists k, v, r', (lc ++ more). split; [done|]. cbn [grown Z.eqb fst snd] in Hl'. specialize (Ho 1 ltac:(done)).
  cbv zeta. split; [|rewrite Ho; split; [done | lia]]. constructor; cbn [vnet kcp1 kcp2 buffer slap index]; rewrite ?Ho; try done; try lia.
  by apply peer_more.
Qed.

(** [kcp2] is updated. *)
Lemma update2_step lc ls G1 G2 d1 d2 tr w r : state_ok lc ls G1 G2 d1 d2 tr w ->
  tx (from 1 (vnet w)) <= 2 ^ 24 -> ackcount (rx (kcp2 w)) <= 58 * 2 ^ 24 ->
  exists k v r' ls', update rand clock 1 (kcp2 w) (vnet w) r = Ok (k, v, r') /\
    let w' := World v (kcp1 w) k (buffer w) (slap w) (index w) (next w) (sumrtt w) (count w) (maxrtt w) in
    state_ok lc ls' G1 G2 d1 d2 tr w' /\ within T (Kcp.current (clk k)) /\ ackcount (rx k) <= 58 * 2 ^ 24.
Proof.
  intros H Hf Hack2. destruct (state_small _ _ _ _ _ _ _ _ H) as (Hs1 & Hs2 & _).
  pose proof H as [Hl H1 H2 Ha1 Ha2 Hb Has He Hbk Ht].
  destruct (update_ok lc ls 1 G2 lc d1 (kcp2 w) (vnet w) r H2 Hl) as (k & v & r' & more & E & Hp & Hnow & Hack & Hl' & Htx & Ho); [lia|].
  exists k, v, r', (ls ++ more). split; [done|]. cbn [grown Z.eqb fst snd] in Hl'. specialize (Ho 0 ltac:(done)).
  cbv zeta. split; [|split; [done | lia]]. constructor; cbn [vnet kcp1 kcp2 buffer slap index]; rewrite ?Ho; try done; try lia.
  by apply peer_more.
Qed.

(** [kcp1] sends the test packets that are due. *)
Lemma send_step lc ls G1 G2 d1 d2 tr w r cur : state_ok lc ls G1 G2 d1 d2 tr w -> within T cur ->
  exists k b sl ix r' given G', send_tests rand (slap_rounds cur (slap w)) cur (kcp1 w) (buffer w) (slap w) (index w) r =
      Ok (k, b, sl, ix, r', given) /\
    state_ok lc ls G' G2 d1 d2 (Flow (asked tr ++ given) (echoed tr) (back tr))
      (World (vnet w) k (kcp2 w) b sl ix (next w) (sumrtt w) (count w) (maxrtt w)) /\
    rx k = rx (kcp1 w) /\ clk k = clk (kcp1 w).
Proof.
  intros [Hl H1 H2 Ha1 Ha2 Hb (Has & Hroom & Hseg) He Hbk (Hi & Ht & Hs)] Hcur.
  destruct (slap_rounds_enough cur (slap w)) as (Hf1 & Hf2). pose proof (proj1 span_ok).
  destruct (send_tests_ok _ cur (kcp1 w) (buffer w) (slap w) (index w) r _ _ _ _ H1 Hcur Hb ltac:(lia) Hs Hf1 Hf2)
    as (k & b & sl & ix & r' & given & G' & E & Hp & Erx & Eclk & Hb' & Ediff & Hix & Hsl & Eby & HG & Hgiven).
  exists k, b, sl, ix, r', given, G'. split; [done|]. split; [|done].
  constructor; cbn [vnet kcp1 kcp2 buffer slap index asked echoed back]; rewrite ?Erx; try done; try lia.
  rewrite Eby, concat_app, Has, length_app, <- Has. split; [done | lia].
Qed.

(** Datagrams are carried to [kcp2], and to [kcp1]. *)
Lemma carry2_step lc ls G1 G2 d1 d2 tr w r : state_ok lc ls G1 G2 d1 d2 tr w ->
  within T (Kcp.current (clk (kcp2 w))) -> ackcount (rx (kcp2 w)) <= 58 * 2 ^ 24 ->
  exists v k b r', carry clock (carry_rounds 1 (vnet w)) 1 (vnet w) (kcp2 w) (buffer w) r = Ok (v, k, b, r') /\
    state_ok lc ls G1 G2 d1 d2 tr
      (World v (kcp1 w) k b (slap w) (index w) (next w) (sumrtt w) (count w) (maxrtt w)).
Proof.
  intros H Hnow Hack. destruct (state_small _ _ _ _ _ _ _ _ H) as (_ & _ & Hs & _).
  pose proof H as [Hl H1 H2 Ha1 Ha2 Hb Has He Hbk Ht]. pose proof (lo_len _ _ _ Hl 0) as Hlen.
  destruct (carry_ok lc ls (carry_rounds 1 (vnet w)) 1 0 G2 ls d1 (kcp2 w) (vnet w) (buffer w) r)
    as (v & k & b & r' & E & Hl' & Hp & _ & Hb' & Hack' & Etx & Ho); try done.
  { unfold carry_rounds. cbn [Z.eqb]. lia. } { cbn [log_of Z.eqb]. lia. } { lia. }
  exists v, k, b, r'. split; [done|]. specialize (Ho 1 ltac:(done)).
  constructor; cbn [vnet kcp1 kcp2 buffer slap index]; rewrite ?Ho; try done; lia.
Qed.

Lemma carry1_step lc ls G1 G2 d1 d2 tr w r : state_ok lc ls G1 G2 d1 d2 tr w ->
  within T (Kcp.current (clk (kcp1 w))) -> ackcount (rx (kcp1 w)) <= 58 * 2 ^ 24 ->
  exists v k b r', carry clock (carry_rounds 0 (vnet w)) 0 (vnet w) (kcp1 w) (buffer w) r = Ok (v, k, b, r') /\
    state_ok lc ls G1 G2 d1 d2 tr
      (World v k (kcp2 w) b (slap w) (index w) (next w) (sumrtt w) (count w) (maxrtt w)).
Proof.
  intros H Hnow Hack. destruct (state_small _ _ _ _ _ _ _ _ H) as (_ & _ & _ & Hs & _).
  pose proof H as [Hl H1 H2 Ha1 Ha2 Hb Has He Hbk Ht]. pose proof (lo_len _ _ _ Hl 1) as Hlen.
  destruct (carry_ok lc ls (carry_rounds 0 (vnet w)) 0 1 G1 lc d2 (kcp1 w) (vnet w) (buffer w) r)
    as (v & k & b & r' & E & Hl' & Hp & _ & Hb' & Hack' & Etx & Ho); try done.
  { unfold carry_rounds. cbn [Z.eqb]. lia. } { cbn [log_of Z.eqb]. lia. } { lia. }
  exists v, k, b, r'. split; [done|]. specialize (Ho 0 ltac:(done)).
  constructor; cbn [vnet kcp1 kcp2 buffer slap index]; rewrite ?Ho; try done; lia.
Qed.

(** [kcp2] echoes. *)
Lemma echo_step lc ls G1 G2 d1 d2 tr w : state_ok lc ls G1 G2 d1 d2 tr w ->
  exists k b got G' d', echo (S (pending (rx (kcp2 w)))) (kcp2 w) (buffer w) = Ok (k, b, got) /\
    state_ok lc ls G1 G' d' d2 (Flow (asked tr) (echoed tr ++ got) (back tr))
      (World (vnet w) (kcp1 w) k b (slap w) (index w) (next w) (sumrtt w) (count w) (maxrtt w)).
Proof.
  intros H. destruct (state_small _ _ _ _ _ _ _ _ H) as (_ & _ & Hs & _ & Hfl & _ & Hby & _).
  pose proof H as [Hl H1 H2 Ha1 Ha2 Hb Has (Ee & E2 & Hg2) Hbk Ht].
  destruct (echo_ok (S (pending (rx (kcp2 w)))) (kcp2 w) (buffer w) _ _ _ _ H2 Hb Hfl Hby ltac:(lia) ltac:(lia))
    as (k & b & got & G' & m & E & Hp & Hb' & Em & EG & HG & _ & Eack).
  exists k, b, got, G', (d1 ++ m). split; [done|].
  constructor; cbn [vnet kcp1 kcp2 buffer slap index asked echoed back]; rewrite ?Eack; try done.
  rewrite map_app, concat_app, EG, Ee, E2, Em, length_app. split; [done|]. split; [done | lia].
Qed.

(** [kcp1] reads what came back. *)
Lemma read_step lc ls G1 G2 d1 d2 tr w cur : state_ok lc ls G1 G2 d1 d2 tr w ->
  tally_ok (zlen d2) (Tally (next w) (sumrtt w) (count w) (maxrtt w)) ->
  exists ok k b t got d', read_echo (S (pending (rx (kcp1 w)))) cur (kcp1 w) (buffer w)
      (Tally (next w) (sumrtt w) (count w) (maxrtt w)) = Ok (ok, k, b, t, got) /\
    state_ok lc ls G1 G2 d1 d' (Flow (asked tr) (echoed tr) (back tr ++ got))
      (World (vnet w) k (kcp2 w) b (slap w) (index w) (t_next t) (t_sumrtt t) (t_count t) (t_maxrtt t)) /\
    (ok = true -> tally_ok (zlen d') t).
Proof.
  intros H Ht. destruct (state_small _ _ _ _ _ _ _ _ H) as (_ & _ & _ & Hs & _ & Hfl & _ & Hby).
  pose proof H as [Hl H1 H2 Ha1 Ha2 Hb Has He Hbk Htm].
  destruct (read_echo_ok (S (pending (rx (kcp1 w)))) cur (kcp1 w) (buffer w) _ _ _ _ _ H1 Hb Hfl Hby ltac:(lia) ltac:(lia) Ht)
    as (ok & k & b & t & got & m & E & Hp & Hb' & Em & Ht' & _ & Eack).
  exists ok, k, b, t, got, (d2 ++ m). split; [done|]. split; [|done].
  constructor; cbn [vnet kcp1 kcp2 buffer slap index asked echoed back]; rewrite ?Eack; try done.
  by rewrite map_app, Hbk, Em.
Qed.

(** ** The test as a system *)

(** The state of the loop with all that went over the connections. *)
Record run := Run { at_ : world; so_far : flow; stat : status }.

Definition and_then (tr more : flow) : flow :=
  Flow (asked tr ++ asked more) (echoed tr ++ echoed more) (back tr ++ back more).

(** An iteration, as long as neither direction has carried more than 2^24 datagrams. *)
Inductive run_step : run -> run -> Prop :=
| iterates s r w tr st r' :
    stat s = Running -> few_datagrams (at_ s) -> iteration rand clock (at_ s) r = Ok (w, tr, st, r') ->
    run_step s (Run w (and_then (so_far s) tr) st).

Definition run_start (mode : Z) (garbage : list Z) (r : R) : run :=
  Run (fst (fst (start clock mode garbage r))) (Flow [] [] []) Running.

Definition run_ok (s : run) : Prop :=
  exists lc ls G1 G2 d1 d2, state_ok lc ls G1 G2 d1 d2 (so_far s) (at_ s) /\
    (stat s <> Failed ->
       tally_ok (zlen d2) (Tally (next (at_ s)) (sumrtt (at_ s)) (count (at_ s)) (maxrtt (at_ s)))) /\
    (stat s = Finished -> TEST_CNT < next (at_ s)).

Lemma iteration_ok s r : run_ok s -> stat s = Running -> few_datagrams (at_ s) ->
  exists w tr st r', iteration rand clock (at_ s) r = Ok (w, tr, st, r') /\ run_ok (Run w (and_then (so_far s) tr) st).
Proof.
  intros (lc & ls & G1 & G2 & d1 & d2 & H & Ht & _) Hrun Hfew. specialize (Ht ltac:(by rewrite Hrun)).
  unfold iteration. pose proof (clock_within r) as Hcur. destruct (iclock clock r) as [cur r0]. cbn [fst] in Hcur.
  destruct (update1_step _ _ _ _ _ _ _ _ r0 H Hfew) as (k1 & v1 & r1 & lc1 & -> & H1 & Hn1 & Ha1 & Ha2 & Hf1).
  rewrite outcome_bind_ok. clear H Hfew.
  destruct (update2_step _ _ _ _ _ _ _ _ r1 H1 Hf1 Ha2) as (k2 & v2 & r2 & ls1 & E2 & H2 & Hn2 & Ha2').
  cbn [kcp2 kcp1 vnet buffer slap index next sumrtt count maxrtt] in *. rewrite E2, outcome_bind_ok. clear H1 Ha2 Hf1 E2.
  destruct (send_step _ _ _ _ _ _ _ _ r2 cur H2 Hcur) as (k3 & b3 & sl & ix & r3 & given & G1' & E3 & H3 & Erx & Eclk).
  cbn [kcp2 kcp1 vnet buffer slap index next sumrtt count maxrtt] in *. rewrite E3, outcome_bind_ok. clear H2 E3.
  destruct (carry2_step _ _ _ _ _ _ _ _ r3 H3 Hn2 Ha2') as (v4 & k4 & b4 & r4 & E4 & H4).
  cbn [kcp2 kcp1 vnet buffer slap index next sumrtt count maxrtt] in *. rewrite E4, outcome_bind_ok. clear H3 E4 Hn2 Ha2'.
  destruct (carry1_step _ _ _ _ _ _ _ _ r4 H4) as (v5 & k5 & b5 & r5 & E5 & H5);
    [cbn [kcp1]; by rewrite Eclk | cbn [kcp1]; by rewrite Erx |].
  cbn [kcp2 kcp1 vnet buffer slap index next sumrtt count maxrtt] in *. rewrite E5, outcome_bind_ok. clear H4 E5.
  destruct (echo_step _ _ _ _ _ _ _ _ H5) as (k6 & b6 & got2 & G2' & d1' & E6 & H6).
  cbn [kcp2 kcp1 vnet buffer slap index next sumrtt count maxrtt] in *. rewrite E6, outcome_bind_ok. clear H5 E6.
  destruct (read_step _ _ _ _ _ _ _ _ cur H6 Ht) as (ok & k7 & b7 & t & got1 & d2' & E7 & H7 & Ht').
  cbn [kcp2 kcp1 vnet buffer slap index next sumrtt count maxrtt] in *. rewrite E7, outcome_bind_ok. clear H6 E7.
  eexists _, _, _, _. split; [reflexivity|]. exists lc1, ls1, G1', G2', d1', d2'. split; [exact H7|].
  cbn [stat at_ next sumrtt count maxrtt]. destruct ok; cbn [negb]; [|done].
  specialize (Ht' eq_refl). destruct (TEST_CNT <? t_next t) eqn:E; to_prop; (split; [intros _; by destruct t | done]).
Qed.

Lemma run_step_ok : preserved run_step run_ok.
Proof.
  intros s s' Hs Hstep. destruct Hstep as [s r w tr st r' Hrun Hfew E].
  destruct (iteration_ok s r Hs Hrun Hfew) as (w1 & tr1 & st1 & r1 & E1 & Hok). rewrite E in E1. by injection E1 as <- <- <- <-.
Qed.

(** ** The start *)

Lemma new_peer k : good k -> streaming k -> Kcp.conv (cfg k) = test_conv ->
  Kcp.tx k = Kcp.tx (ikcp_create test_conv) -> rx k = rx (ikcp_create test_conv) -> rtt k = rtt (ikcp_create test_conv) ->
  is_peer [] [] [] [] k /\ ackcount (rx k) = 0.
Proof.
  intros Hg Hs Hc Et Er Ert. split; [|by rewrite Er]. constructor; try done.
  - by constructor; rewrite ?Et.
  - unfold given. by rewrite Et.
  - constructor.
  - rewrite Er. constructor; [by exists [] | done | constructor].
  - unfold timed_acks, owed. rewrite Er. constructor.
  - rewrite Ert. unfold calm. cbn. lia.
  - rewrite Et. constructor.
Qed.

Lemma new_kcp_good mode : good (new_kcp mode).
Proof.
  assert (good (snd (ikcp_wndsize (ikcp_create test_conv) 128 128))) as H.
  { apply (settings_good (ikcp_create test_conv) (WndSize 128 128)); [apply create_good | split; done]. }
  unfold new_kcp, set_mode. destruct (mode =? 0); [|destruct (mode =? 1)].
  - by apply (settings_good _ (NoDelay 0 10 0 0)).
  - by apply (settings_good _ (NoDelay 0 10 0 1)).
  - by apply (settings_good _ (NoDelay 2 10 2 1)).
Qed.

Lemma new_kcp1_good mode : good (new_kcp1 mode).
Proof.
  unfold new_kcp1. destruct (_ || _); [apply new_kcp_good|]. pose proof (new_kcp_good mode) as Hg.
  pose proof Hg as ((Hc & _) & Hf & _). apply with_cfg_good; [done | | done | done].
  destruct Hc as (H1 & H2 & H3 & H4 & _). split_and!; try apply H1; try apply H2; try apply H3; try apply H4; done.
Qed.

Lemma new_kcp_peer mode : (is_peer [] [] [] [] (new_kcp mode) /\ ackcount (rx (new_kcp mode)) = 0) /\
  (is_peer [] [] [] [] (new_kcp1 mode) /\ ackcount (rx (new_kcp1 mode)) = 0).
Proof.
  pose proof (new_kcp_good mode) as Hg. pose proof (new_kcp1_good mode) as Hg1. revert Hg Hg1.
  unfold new_kcp1, new_kcp, set_mode. destruct (mode =? 0); [|destruct (mode =? 1)]; intros Hg Hg1; split; by apply new_peer.
Qed.

Lemma run_start_ok mode garbage r : buffer_ok garbage -> run_ok (run_start mode garbage r).
Proof.
  intros Hb. unfold run_start, start. destruct (iclock clock r) as [now r0].
  pose proof (clock_within r0) as Hcur. destruct (iclock clock r0) as [cur r1]. destruct (iclock clock r1) as [ts1 r2].
  cbn [fst] in *. destruct (new_kcp_peer mode) as ((H2 & Ha2) & (H1 & Ha1)).
  assert (forall p, from p (LatencySimulator 10 60 125 1000 now) = Direction 0 [] (Random.Random 100)) as Ef
    by (intros p; unfold from; by destruct (p =? 0)).
  unfold within, SPAN in Hcur. exists [], [], [], [], [], []. split; [|split; [|done]].
  - constructor; cbn [at_ so_far vnet kcp1 kcp2 buffer slap index asked echoed back]; rewrite ?Ha1, ?Ha2, ?Ef; try done.
    + constructor; [by apply new_link_ok | done | | |]; intros p; unfold in_transit; rewrite Ef; cbn [line map length];
        [split; [split|]; simpl; lia | simpl; lia | constructor].
    + pose proof span_ok as Hspan. unfold SPAN in *. rewrite u32_small by lia. lia.
  - intros _. cbn. unfold tally_ok. cbn. lia.
Qed.
End Parts.

(** ** Executing the test *)

Section Play.
Context {R : Type} (rand : R -> Z * R) (clock : R -> Z * R).

#[local] Instance few_datagrams_dec w : Decision (few_datagrams w).
Proof. unfold few_datagrams. apply _. Defined.

(** Up to [n] iterations. *)
Fixpoint play (n : nat) (s : run) (r : R) : run :=
  match n with
  | O => s
  | S n' =>
      match stat s with
      | Running =>
          if decide (few_datagrams (at_ s)) then
            match iteration rand clock (at_ s) r with
            | Ok (w, tr, st, r) => play n' (Run w (and_then (so_far s) tr) st) r
            | Err _ => s
            end
          else s
      | _ => s
      end
  end.

Lemma play_reaches n s0 s r : reaches (run_step rand clock) s0 s -> reaches (run_step rand clock) s0 (play n s r).
Proof.
  revert s r. induction n as [|n IH]; intros s r H; cbn [play]; [done|].
  destruct (stat s) eqn:Es; try done. destruct (decide _) as [Hf|]; [|done].
  destruct (iteration rand clock (at_ s) r) as [[[[w tr] st] r1]|] eqn:E; [|done].
  apply IH. eapply reaches_step; [exact H|]. by eapply iterates.
Qed.
End Play.

(** [rand] always returns the same; the clock, which starts at [t], moves two
    milliseconds each time it is read, up to a bound. *)
Definition steady (v : Z) (r : Z) : Z * Z := (v, r).
Definition ticks (r : Z) : Z * Z := (100000 + r mod 10000000, r + 2).

Lemma steady_clock (r : Z) : within 100000 (fst (iclock ticks r)).
Proof.
  unfold iclock, ticks. cbn [fst]. change 4294967295 with (Z.ones 32). rewrite Z.land_ones by lia.
  fold (u32 (100000 + r mod 10000000)). pose proof (Z.mod_pos_bound r 10000000 ltac:(lia)).
  rewrite !u32_small by (rewrite ?u32_small; lia). unfold within, SPAN. lia.
Qed.

Definition sample_run (n : nat) : run :=
  play (steady 1599) ticks n (run_start ticks 0 (replicate 2000 0) 0) 4.

(** No datagram is lost here and every packet has 1599 bytes, more than a segment takes.
    The bytes come back as they were sent, but in pieces, and the test takes the second
    piece for a wrong packet. *)
Lemma long_packet_fails_test :
  exists r', test (steady 1599) ticks 100 0 (replicate 2000 0) 0 = Ok (None, r') /\
    stat (sample_run 100) = Failed /\
    map (fun p => zlen p) (take 2 (asked (so_far (sample_run 100)))) = [1599; 1599] /\
    map (fun p => zlen p) (back (so_far (sample_run 100))) = [1376; 1376].
Proof. eexists. split; [vm_compute; reflexivity|]. split; vm_compute; [reflexivity|]. split; reflexivity. Qed.

(** Every 2^32 milliseconds the clock shows the greatest number for a millisecond; a loop
    over [slap] that starts then does not end, because [slap] is never greater. *)
Lemma slap_loop_hangs {R} (rand : R -> Z * R) fuel k b sl ix r res : 0 <= sl < 2 ^ 32 ->
  send_tests rand fuel (2 ^ 32 - 1) k b sl ix r <> Ok res.
Proof.
  revert k b sl ix r res. induction fuel as [|fuel IH]; intros k b sl ix r res Hsl; cbn [send_tests]; [done|].
  rewrite (proj2 (Z.leb_le sl (2 ^ 32 - 1))) by lia.
  intros (b1 & _ & E)%outcome_bind_inv. apply outcome_bind_inv in E as (b2 & _ & E). destruct (rand r) as [v r1].
  apply outcome_bind_inv in E as ([n k1] & _ & E). apply outcome_bind_inv in E as (res1 & E & _).
  by eapply IH in E; [|apply u32_range].
Qed.

(** ** The claims *)

(** C4. The test moves bytes both ways and neither loses nor changes one, whatever the
    simulated network drops and delays, in every mode: what [kcp1] has received so far
    is a beginning of what [kcp2] has received and echoed, and that is a beginning of
    what [kcp1] was given to send. *)
Theorem test_echoes {R} (rand clock : R -> Z * R) T mode garbage r0 s :
  (forall r, 0 <= fst (rand r)) -> (forall r, within T (fst (iclock clock r))) -> 0 <= T /\ T + SPAN <= 2 ^ 32 - 20 ->
  buffer_ok garbage -> reaches (run_step rand clock) (run_start clock mode garbage r0) s ->
  concat (back (so_far s)) `prefix_of` concat (echoed (so_far s)) /\
  concat (echoed (so_far s)) `prefix_of` concat (asked (so_far s)).
Proof.
  intros Hrand Hclock Hspan Hb Hr.
  assert (run_ok T s) as (lc & ls & G1 & G2 & d1 & d2 & [_ H1 H2 _ _ _ (Ea & _) (Ee & E2 & _) Ebk _] & _).
  { eapply reaches_invariant; [by apply (run_step_ok rand clock) | by apply (run_start_ok clock) | exact Hr]. }
  assert (forall G l l' d d' k k', peer T test_conv G l l' d k -> forall G', peer T test_conv G' l' l d' k' ->
    bytes_of d' `prefix_of` bytes_of G) as Hpre.
  { intros G l l' d d' k k' H G' H'. destruct (peer_log _ _ _ _ _ _ _ H) as (rest & ->).
    destruct (pe_receives _ _ _ _ _ _ _ H') as [(rest' & ->) _ _]. rewrite !bytes_of_app, <- app_assoc. by eexists. }
  rewrite <- Ebk, <- E2, <- Ea. split; [exact (Hpre _ _ _ _ _ _ _ H2 _ H1)|].
  rewrite E2, <- Ee. exact (Hpre _ _ _ _ _ _ _ H1 _ H2).
Qed.


Lemma test_echoes_witness :
  zlen (concat (back (so_far (sample_run 100)))) = 2752 /\
  concat (back (so_far (sample_run 100))) `prefix_of` concat (echoed (so_far (sample_run 100))) /\
  concat (echoed (so_far (sample_run 100))) `prefix_of` concat (asked (so_far (sample_run 100))).
Proof.
  split; [vm_compute; reflexivity|].
  apply (test_echoes (steady 1599) ticks 100000 0 (replicate 2000 0) 0 (sample_run 100)).
  - intros r. simpl. lia.
  - exact steady_clock.
  - unfold SPAN. lia.
  - split; [reflexivity | apply Forall_replicate; unfold is_byte; lia].
  - exact (play_reaches (steady 1599) ticks 100 _ _ 4 (reaches_refl _ (run_start ticks 0 (replicate 2000 0) 0))).
Defined.

