(* ===== verification/StrUtil.v ===== *)
(** * String utilities

    Models the string functions of DarkEden_Example/src/Shared/Util.cpp: the
    split family, replace_all, safe_memcpy, the URL coding, the path functions,
    hexdump, and the case conversions of Common.h.

    A string is the list of its bytes (0 .. 255), shorter than 2^31, so the [int]
    positions the code keeps do not overflow.  Positions are naturals and npos is
    [None]. *)

From stdpp Require Import base tactics option list numbers.
From Stdlib Require Import ZArith Lia Bool.
From S2P Require Import Prelude.

#[local] Open Scope Z_scope.

Abbreviation bytes := (list Z).

(** ** What the functions use of std::string *)

(** The index of the first byte of [s] that satisfies [p]. *)
Fixpoint find_index (p : Z -> bool) (s : bytes) : option nat :=
  match s with
  | [] => None
  | c :: s' => if p c then Some 0%nat else option_map S (find_index p s')
  end.

Definition among (delim : bytes) (c : Z) : bool := existsb (Z.eqb c) delim.

Definition find_first_of (s delim : bytes) (pos : nat) : option nat :=
  option_map (Nat.add pos) (find_index (among delim) (drop pos s)).

Definition find_first_not_of (s delim : bytes) (pos : nat) : option nat :=
  option_map (Nat.add pos) (find_index (fun c => negb (among delim c)) (drop pos s)).

Definition find_last_of (s : bytes) (c : Z) : option nat :=
  option_map (fun i => (length s - 1 - i)%nat) (find_index (Z.eqb c) (rev s)).

(** [find( old_value )] from the start. *)
Fixpoint is_prefix (p s : bytes) : bool :=
  match p, s with
  | [], _ => true
  | a :: p', b :: s' => (a =? b) && is_prefix p' s'
  | _ :: _, [] => false
  end.

Fixpoint find (s p : bytes) : option nat :=
  if is_prefix p s then Some 0%nat
  else match s with [] => None | _ :: s' => option_map S (find s' p) end.

(** [substr( pos )] throws past the end. *)
Definition substr (s : bytes) (pos : nat) : outcome bytes :=
  if (pos <=? length s)%nat then Ok (drop pos s) else Err Thrown.

Definition substr_n (s : bytes) (pos n : nat) : outcome bytes :=
  let* t := substr s pos in Ok (take n t).

(** [strtoul( s, NULL, 10 )] with a 32-bit unsigned long: leading white space, a
    sign, digits; too large a number gives the largest. *)
Definition is_digit (c : Z) : bool := (48 <=? c) && (c <=? 57).
Definition is_space (c : Z) : bool := (c =? 32) || ((9 <=? c) && (c <=? 13)).

Fixpoint skip_spaces (s : bytes) : bytes :=
  match s with c :: s' => if is_space c then skip_spaces s' else s | [] => [] end.

Fixpoint digits_value (acc : Z) (s : bytes) : Z :=
  match s with
  | c :: s' => if is_digit c then digits_value (10 * acc + (c - 48)) s' else acc
  | [] => acc
  end.

Definition ulong_max : Z := 2 ^ 32 - 1.

Definition strtoul (s : bytes) : Z :=
  match skip_spaces s with
  | c :: s' =>
      if c =? 45 then
        let v := digits_value 0 s' in if ulong_max <? v then ulong_max else u32 (- v)
      else
        let v := digits_value 0 (if c =? 43 then s' else c :: s') in
        if ulong_max <? v then ulong_max else v
  | [] => 0
  end.

(** ** The split family *)

Fixpoint split_loop (fuel : nat) (src delim : bytes) (pos1 : nat) (dest : list bytes) : outcome (list bytes) :=
  match fuel with
  | O => Err OutOfFuel
  | S fuel' =>
      match find_first_of src delim pos1 with
      | None => let* s := substr src pos1 in Ok (dest ++ [s])
      | Some pos2 =>
          let* s := substr_n src pos1 (pos2 - pos1) in
          split_loop fuel' src delim (pos2 + 1) (dest ++ [s])
      end
  end.

(** A round moves [pos1] past a delimiter, so the length bounds the rounds. *)
Definition split (src delim : bytes) (dest : list bytes) : outcome (list bytes) :=
  split_loop (S (length src)) src delim 0 dest.

(** The overload for numbers leaves out empty pieces. *)
Fixpoint split_uint_loop (fuel : nat) (src delim : bytes) (pos1 : nat) (dest : list Z) : outcome (list Z) :=
  match fuel with
  | O => Err OutOfFuel
  | S fuel' =>
      if (pos1 <? length src)%nat then
        match find_first_of src delim pos1 with
        | None => let* s := substr src pos1 in Ok (dest ++ [strtoul s])
        | Some pos2 =>
            if (pos1 <? pos2)%nat then
              let* s := substr_n src pos1 (pos2 - pos1) in
              split_uint_loop fuel' src delim (pos2 + 1) (dest ++ [strtoul s])
            else split_uint_loop fuel' src delim (pos2 + 1) dest
        end
      else Ok dest
  end.

Definition split_uint (src delim : bytes) (dest : list Z) : outcome (list Z) :=
  split_uint_loop (S (length src)) src delim 0 dest.

Fixpoint split_ign_loop (fuel : nat) (src delim : bytes) (pos2 : nat) (dest : list bytes) : outcome (list bytes) :=
  match fuel with
  | O => Err OutOfFuel
  | S fuel' =>
      match find_first_not_of src delim pos2 with
      | None => Ok dest
      | Some pos1 =>
          match find_first_of src delim pos1 with
          | None => let* s := substr src pos1 in Ok (dest ++ [s])
          | Some pos2' =>
              let* s := substr_n src pos1 (pos2' - pos1) in
              split_ign_loop fuel' src delim pos2' (dest ++ [s])
          end
      end
  end.

Definition split_ign (src delim : bytes) (dest : list bytes) : outcome (list bytes) :=
  split_ign_loop (S (length src)) src delim 0 dest.

Fixpoint split_ign_uint_loop (fuel : nat) (src delim : bytes) (pos2 : nat) (dest : list Z) : outcome (list Z) :=
  match fuel with
  | O => Err OutOfFuel
  | S fuel' =>
      match find_first_not_of src delim pos2 with
      | None => Ok dest
      | Some pos1 =>
          match find_first_of src delim pos1 with
          | None => let* s := substr src pos1 in Ok (dest ++ [strtoul s])
          | Some pos2' =>
              let* s := substr_n src pos1 (pos2' - pos1) in
              split_ign_uint_loop fuel' src delim pos2' (dest ++ [strtoul s])
          end
      end
  end.

Definition split_ign_uint (src delim : bytes) (dest : list Z) : outcome (list Z) :=
  split_ign_uint_loop (S (length src)) src delim 0 dest.

(** The iterator loops: [r] and [s] are the code's locals. *)
Fixpoint StrSplit_loop (src sep : bytes) (r : list bytes) (s : bytes) : list bytes :=
  match src with
  | [] => if (0 <? length s)%nat then r ++ [s] else r
  | i :: src' =>
      if among sep i then StrSplit_loop src' sep (if (0 <? length s)%nat then r ++ [s] else r) []
      else StrSplit_loop src' sep r (s ++ [i])
  end.

Definition StrSplit (src sep : bytes) : list bytes := StrSplit_loop src sep [] [].

Fixpoint StrSplitEx_loop (src sep : bytes) (r : list bytes) (s : bytes) : list bytes :=
  match src with
  | [] => if (0 <? length s)%nat then r ++ [s] else r
  | i :: src' =>
      if among sep i then
        StrSplitEx_loop src' sep
          (if (0 <? length s)%nat then r ++ [s] else if (length s =? 0)%nat then r ++ [[]] else r) []
      else StrSplitEx_loop src' sep r (s ++ [i])
  end.

Definition StrSplitEx (src sep : bytes) : list bytes := StrSplitEx_loop src sep [] [].

Fixpoint StrSplitToInt_loop (src sep : bytes) (r : list Z) (s : bytes) : list Z :=
  match src with
  | [] => if (0 <? length s)%nat then r ++ [strtoul s] else r
  | i :: src' =>
      if among sep i then
        StrSplitToInt_loop src' sep (if (0 <? length s)%nat then r ++ [strtoul s] else r) []
      else StrSplitToInt_loop src' sep r (s ++ [i])
  end.

Definition StrSplitToInt (src sep : bytes) : list Z := StrSplitToInt_loop src sep [] [].

(** [CheckSeverID]: a 0 on either side lets everyone in. *)
Fixpoint CheckSeverID_loop (SID : Z) (aServerIds : list Z) (isFind : bool) : bool :=
  match aServerIds with
  | [] => isFind
  | id :: rest =>
      let isFind := if (id =? 0) || (SID =? 0) then true else isFind in
      let isFind := if id =? SID then true else isFind in
      CheckSeverID_loop SID rest isFind
  end.

Definition CheckSeverID (SID : Z) (aServerIds : list Z) : bool := CheckSeverID_loop SID aServerIds false.

(** ** replace_all *)

(** [src.replace( pos, n, new_value )]. *)
Definition replace_at (src : bytes) (pos n : nat) (new_value : bytes) : bytes :=
  take pos src ++ new_value ++ drop (pos + n) src.

Fixpoint replace_loop (fuel : nat) (src old_value new_value : bytes) : outcome bytes :=
  match fuel with
  | O => Err OutOfFuel
  | S fuel' =>
      match find src old_value with
      | Some pos => replace_loop fuel' (replace_at src pos (length old_value) new_value) old_value new_value
      | None => Ok src
      end
  end.

Definition replace_all (fuel : nat) (str old_value new_value : bytes) : outcome bytes :=
  match find new_value old_value with
  | Some _ => Ok str
  | None => replace_loop fuel str old_value new_value
  end.

(** ** safe_memcpy

    [dest] and [src] are the memory from the two pointers on, [None] for NULL.
    The result is the error code and what [dest] holds afterwards. *)

Section safe_memcpy.
(** RSIZE_MAX is the C library's. *)
Context (RSIZE_MAX : Z).

Definition safe_memcpy (dest : option bytes) (dsize : Z) (src : option bytes) (ssize cnt : Z)
    : outcome (Z * option bytes) :=
  if cnt =? 0 then Ok (0, dest)
  else
    match dest, src with
    | Some d, Some s =>
        if (dsize =? 0) || (ssize =? 0) then Ok (-1, dest)
        else if (RSIZE_MAX <? dsize) || (RSIZE_MAX <? ssize) || (RSIZE_MAX <? cnt) then Ok (-1, dest)
        else
          let cc := Z.min (Z.min dsize ssize) cnt in
          let* bs := mread s 0 cc in
          let* d' := mwrite d 0 bs in
          Ok (if negb (cc =? cnt) && negb (cnt =? RSIZE_MAX) then 1 else 0, Some d')
    | _, _ => Ok (-1, dest)
    end.
End safe_memcpy.

(** ** Characters *)

(** [tolower] and [toupper] in the C locale; a negative char is not a letter. *)
Definition tolower (c : Z) : Z := if (65 <=? c) && (c <=? 90) then c + 32 else c.
Definition toupper (c : Z) : Z := if (97 <=? c) && (c <=? 122) then c - 32 else c.
Definition isalnum (c : Z) : bool :=
  is_digit c || ((65 <=? c) && (c <=? 90)) || ((97 <=? c) && (c <=? 122)).

Definition arcemu_TOLOWER (str : bytes) : bytes := map tolower str.
Definition arcemu_TOUPPER (str : bytes) : bytes := map toupper str.
Definition string_toLower (src : bytes) : bytes := arcemu_TOLOWER src.
Definition string_toUpper (src : bytes) : bytes := arcemu_TOUPPER src.

(** [GetStringFromCharBuffer]: without a terminator in the last place the whole
    buffer, else up to the first terminator. *)
Fixpoint until_nul (s : bytes) : bytes :=
  match s with c :: s' => if c =? 0 then [] else c :: until_nul s' | [] => [] end.

Definition GetStringFromCharBuffer (buffer : option bytes) (maxLength : Z) : outcome bytes :=
  match buffer with
  | None => Ok []
  | Some b =>
      if maxLength =? 0 then Ok []
      else
        let* last := mread b (maxLength - 1) 1 in
        if nth 0 last 0 =? 0 then Ok (until_nul b) else mread b 0 maxLength
  end.

(** ** URL coding *)

Definition ToHex (x : Z) : Z := if 9 <? x then u8 (x + 55) else u8 (x + 48).

Definition unreserved (c : Z) : bool :=
  isalnum c || (c =? 45) || (c =? 95) || (c =? 46) || (c =? 126).

Fixpoint UrlEncode (str : bytes) : bytes :=
  match str with
  | [] => []
  | c :: str' =>
      if unreserved c then c :: UrlEncode str'
      else if c =? 32 then 43 :: UrlEncode str'
      else 37 :: ToHex (Z.shiftr c 4) :: ToHex (c mod 16) :: UrlEncode str'
  end.

(** [FromHex] is declared in Util.h; its definition in Util.cpp is commented out.
    It is a parameter. *)
Section UrlDecode.
Context (FromHex : Z -> Z).

Fixpoint UrlDecode (str : bytes) : outcome bytes :=
  match str with
  | [] => Ok []
  | c :: str' =>
      if c =? 43 then let* t := UrlDecode str' in Ok (32 :: t)
      else if c =? 37 then
        match str' with
        | h :: l :: str'' =>
            let* t := UrlDecode str'' in Ok (u8 (FromHex h * 16 + FromHex l) :: t)
        | _ => Err AssertionFailure
        end
      else let* t := UrlDecode str' in Ok (c :: t)
  end.
End UrlDecode.

(** ** UTF-8 *)

(** The do-while that counts the leading ones of a lead byte. *)
Fixpoint count_octets (fuel : nat) (chr cOctets : Z) : Z :=
  match fuel with
  | O => cOctets
  | S fuel' =>
      let chr := u8 (Z.shiftl chr 1) in
      let cOctets := u8 (cOctets + 1) in
      if negb (Z.land chr 128 =? 0) then count_octets fuel' chr cOctets else cOctets
  end.

Fixpoint utf8_loop (str : bytes) (cOctets : Z) (bAllAscii : bool) : bool :=
  match str with
  | [] => if 0 <? cOctets then false else if bAllAscii then false else true
  | chr :: str' =>
      let bAllAscii := if negb (Z.land chr 128 =? 0) then false else bAllAscii in
      if cOctets =? 0 then
        if 128 <=? chr then
          let c := u8 (count_octets 8 chr 0 - 1) in
          if c =? 0 then false else utf8_loop str' c bAllAscii
        else utf8_loop str' 0 bAllAscii
      else if negb (Z.land chr 192 =? 128) then false
      else utf8_loop str' (u8 (cOctets - 1)) bAllAscii
  end.

Definition _IsStringUTF8 (str : bytes) : bool := utf8_loop (until_nul str) 0 true.

(** A char of the text, sign-extended to int for the arithmetic. *)
Definition char_int (c : Z) : Z := swrap 8 c.

(** [UTF_8ToUnicode]: the two bytes of the UTF-16 unit, low byte first. *)
Definition UTF_8ToUnicode (p0 p1 p2 : Z) : Z * Z :=
  (u8 (Z.shiftl (Z.land (char_int p1) 3) 6 + Z.land (char_int p2) 63),
   u8 (Z.shiftl (Z.land (char_int p0) 15) 4 + Z.land (Z.shiftr (char_int p1) 2) 15)).

Definition UnicodeToUTF_8 (lo hi : Z) : Z * Z * Z :=
  (u8 (Z.lor 224 (Z.shiftr (Z.land (char_int hi) 240) 4)),
   u8 (Z.lor 128 (Z.shiftl (Z.land (char_int hi) 15) 2) + Z.shiftr (Z.land (char_int lo) 192) 6),
   u8 (Z.lor 128 (Z.land (char_int lo) 63))).

(** ** Paths *)

Definition IsPathDelimiter (path : bytes) (index : Z) : bool :=
  if (0 <=? index) && (index <? zlen path) then
    let symbol := nth (Z.to_nat index) path 0 in (symbol =? 92) || (symbol =? 47)
  else false.

Definition ExcludePathDelimiter (path : bytes) : bytes :=
  if IsPathDelimiter path (zlen path - 1) then take (length path - 1) path else path.

Definition IncludePathDelimiter (path : bytes) : bytes :=
  if negb (IsPathDelimiter path (zlen path - 1)) then path ++ [92] else path.

(** npos is the largest size_t, which [max] keeps: a path without a backslash but
    with another delimiter is returned whole. *)
Definition npos : Z := 2 ^ 64 - 1.
Definition pos_of (p : option nat) : Z := match p with Some i => Z.of_nat i | None => npos end.

Definition ExtractFilePath (path : bytes) : bytes :=
  let posWinDelimiter := pos_of (find_last_of path 92) in
  let posLinuxDelimiter := pos_of (find_last_of path 47) in
  let posDriverDelimiter := pos_of (find_last_of path 58) in
  let pos := npos in
  let pos := if negb (posWinDelimiter =? npos) then posWinDelimiter else pos in
  let pos := if negb (posLinuxDelimiter =? npos) then Z.max posLinuxDelimiter pos else pos in
  let pos := if negb (posDriverDelimiter =? npos) then Z.max posDriverDelimiter pos else pos in
  if pos =? npos then path else take (Z.to_nat (pos + 1)) path.

(** The file system: which directories exist, and creating one. *)
Section ForceDirectory.
Context {FS : Type} (ExistDirectory : bytes -> FS -> bool) (CreateDir : bytes -> FS -> bool * FS).

Fixpoint ForceDirectory (fuel : nat) (path : bytes) (fs : FS) : outcome (bool * FS) :=
  match fuel with
  | O => Err OutOfFuel
  | S fuel' =>
      let dir := ExcludePathDelimiter path in
      if ExistDirectory dir fs then Ok (true, fs)
      else
        let parentPath := ExtractFilePath dir in
        if (zlen dir <? 3) || bool_decide (parentPath = dir) then Ok (CreateDir dir fs)
        else
          match ForceDirectory fuel' parentPath fs with
          | Ok (true, fs1) => Ok (CreateDir dir fs1)
          | r => r
          end
  end.
End ForceDirectory.

Definition ExpandFilename (current_directory filename : bytes) : bytes :=
  if 0 <? zlen current_directory then IncludePathDelimiter current_directory ++ filename else filename.

(** [GetCurrExeName]: what follows the last backslash; npos + 1 is 0. *)
Definition GetCurrExeName (szFileFullPath : bytes) : bytes :=
  let pos := u64 (pos_of (find_last_of szFileFullPath 92) + 1) in drop (Z.to_nat pos) szFileFullPath.

(** ** hexdump *)

(** ["%02X "]. *)
Definition hex_byte (b : Z) : bytes := [ToHex (b / 16); ToHex (b mod 16); 32].

Fixpoint hexdump_loop (i : Z) (buf szBuffer : bytes) : bytes :=
  match buf with
  | [] => szBuffer
  | b :: buf' =>
      let s := szBuffer ++ hex_byte b in
      hexdump_loop (i + 1) buf' (if (i + 1) mod 8 =? 0 then s ++ [10] else s)
  end.

(** The first newline is written at 0 and [len] stays 0, so the first byte
    overwrites it.  [None]: sprintf_s found no room in the 20480 bytes. *)
Definition hexdump (buf : bytes) : option bytes :=
  if zlen buf <=? 0 then Some []
  else
    let out := hexdump_loop 0 buf [] ++ [10] in
    if zlen out + 1 <=? 20480 then Some out else None.

(** ** Numbers *)

Definition Uint32Division (Divisor beDiv : Z) : Z := if beDiv =? 0 then 0 else Divisor / beDiv.

Definition GetServerIdFromUid (Uid : Z) : Z := Uid mod 10000.

(** [1 << (dec - 1)] on uint32: an over-wide shift is undefined. *)
Definition DecimalToMask (dec : Z) : outcome Z :=
  let k := u32 (dec - 1) in
  guard_defined (k <? 32) ;;* Ok (u32 (Z.shiftl 1 k)).

(** ** Theorems: the split family

    [pieces] is the reference: cut at every delimiter. *)

Fixpoint pieces (delim s : bytes) : list bytes :=
  match s with
  | [] => [[]]
  | c :: s' =>
      if among delim c then [] :: pieces delim s'
      else match pieces delim s' with p :: ps => (c :: p) :: ps | [] => [[c]] end
  end.

(** Joins pieces with one separator after each but the last. *)
Fixpoint interleave (ps : list bytes) (seps : bytes) : bytes :=
  match ps, seps with
  | p :: ps', c :: seps' => p ++ c :: interleave ps' seps'
  | p :: _, [] => p
  | [], _ => []
  end.

Definition clean (delim p : bytes) : Prop := Forall (fun c => among delim c = false) p.

Definition nonempty (p : bytes) : bool := match p with [] => false | _ => true end.

Lemma pieces_nonempty delim s : pieces delim s <> [].
Proof. destruct s as [|c s]; simpl; [done|]. destruct (among delim c); [done|]. by destruct (pieces delim s). Qed.

Lemma pieces_clean_app delim p s :
  clean delim p ->
  pieces delim (p ++ s) = match pieces delim s with q :: qs => (p ++ q) :: qs | [] => [p] end.
Proof.
  induction 1 as [|c p Hc Hp IH]; simpl.
  - pose proof (pieces_nonempty delim s). by destruct (pieces delim s).
  - rewrite Hc, IH. pose proof (pieces_nonempty delim s). by destruct (pieces delim s).
Qed.

Lemma pieces_clean delim p : clean delim p -> pieces delim p = [p].
Proof. intros H. pose proof (pieces_clean_app delim p [] H) as E. simpl in E. by rewrite !app_nil_r in E. Qed.

Lemma pieces_cut delim p c s :
  clean delim p -> among delim c = true -> pieces delim (p ++ c :: s) = p :: pieces delim s.
Proof. intros Hp Hc. rewrite pieces_clean_app by done. simpl. rewrite Hc. by rewrite app_nil_r. Qed.

Lemma pieces_interleave delim ps seps :
  Forall (clean delim) ps -> Forall (fun c => among delim c = true) seps ->
  length ps = S (length seps) -> pieces delim (interleave ps seps) = ps.
Proof.
  intros Hps. revert seps. induction Hps as [|p ps Hp Hps IH]; intros seps Hs Hl; [done|].
  destruct Hs as [|c seps Hc Hs]; simpl in *.
  - destruct ps; [|done]. by apply pieces_clean.
  - rewrite pieces_cut by done. f_equal. apply IH; [done | lia].
Qed.

Lemma pieces_join delim s :
  exists seps, s = interleave (pieces delim s) seps /\ Forall (clean delim) (pieces delim s) /\
    Forall (fun c => among delim c = true) seps /\ length (pieces delim s) = S (length seps).
Proof.
  induction s as [|c s (seps & E & Hc & Hs & Hl)]; simpl.
  { exists []. repeat constructor. }
  destruct (among delim c) eqn:Ec.
  - exists (c :: seps). repeat split; [simpl; by f_equal | by repeat constructor | by constructor | simpl; lia].
  - destruct (pieces delim s) as [|p ps] eqn:Ep; [by destruct (pieces_nonempty delim s)|].
    apply Forall_cons_1 in Hc as [Hp Hc]. exists seps. repeat split; try done.
    + destruct seps; simpl in *; by rewrite E at 1.
    + constructor; [by constructor | done].
Qed.

(** What the searches of std::string find, in terms of the text they leave. *)
Lemma find_index_none p s : find_index p s = None -> Forall (fun c => p c = false) s.
Proof.
  induction s as [|c s IH]; simpl; [constructor|]. destruct (p c) eqn:E; [done|].
  destruct (find_index p s); [done|]. constructor; [done | by apply IH].
Qed.

Lemma find_index_some p s i :
  find_index p s = Some i ->
  exists a c b, s = a ++ c :: b /\ length a = i /\ Forall (fun c => p c = false) a /\ p c = true.
Proof.
  revert i. induction s as [|c s IH]; simpl; intros i H; [done|]. destruct (p c) eqn:E.
  - injection H as <-. by exists [], c, s.
  - destruct (find_index p s) as [j|]; [|done]. injection H as <-.
    destruct (IH j eq_refl) as (a & d & b & -> & <- & Ha & Hd).
    exists (c :: a), d, b. repeat split; [by constructor | done].
Qed.

Lemma find_first_of_none s delim pos :
  find_first_of s delim pos = None -> clean delim (drop pos s).
Proof. unfold find_first_of. destruct (find_index _ _) eqn:E; [done|]. intros _. by apply find_index_none. Qed.

Lemma find_first_of_some s delim pos k :
  find_first_of s delim pos = Some k ->
  exists a c b, drop pos s = a ++ c :: b /\ k = (pos + length a)%nat /\ clean delim a /\ among delim c = true.
Proof.
  unfold find_first_of. destruct (find_index _ _) as [i|] eqn:E; [|done]. intros [= <-].
  apply find_index_some in E as (a & c & b & E & <- & Ha & Hc). exists a, c, b. auto.
Qed.

Lemma substr_some s pos : (pos <= length s)%nat -> substr s pos = Ok (drop pos s).
Proof. intros H. unfold substr. by rewrite (proj2 (Nat.leb_le _ _) H). Qed.

Lemma drop_app_cons {A} (s a b : list A) (c : A) pos :
  drop pos s = a ++ c :: b ->
  (pos + length a < length s)%nat /\ drop (pos + length a) s = c :: b /\ drop (S (pos + length a)) s = b.
Proof.
  intros E. assert (drop (pos + length a) s = c :: b) as E1.
  { rewrite <- drop_drop, E. by rewrite drop_app_length. }
  split; [|split; [done|]].
  - destruct (le_lt_dec (length s) (pos + length a)); [|lia].
    rewrite drop_ge in E1 by lia. done.
  - replace (S (pos + length a)) with (pos + length a + 1)%nat by lia.
    rewrite <- drop_drop, E1. done.
Qed.

Lemma substr_n_piece s pos (a b : bytes) c :
  drop pos s = a ++ c :: b -> substr_n s pos (pos + length a - pos) = Ok a.
Proof.
  intros E. destruct (drop_app_cons s a b c pos E) as (Hl & _ & _).
  unfold substr_n. rewrite substr_some by lia. simpl. rewrite E.
  replace (pos + length a - pos)%nat with (length a) by lia. by rewrite take_app_length.
Qed.

Lemma split_loop_pieces fuel src delim pos dest :
  (pos <= length src)%nat -> (length src - pos < fuel)%nat ->
  split_loop fuel src delim pos dest = Ok (dest ++ pieces delim (drop pos src)).
Proof.
  revert pos dest. induction fuel as [|fuel IH]; intros pos dest Hp Hf; [lia|]. simpl.
  destruct (find_first_of src delim pos) as [k|] eqn:E.
  - apply find_first_of_some in E as (a & c & b & E & -> & Ha & Hc).
    destruct (drop_app_cons _ _ _ _ _ E) as (Hl & _ & Eb).
    rewrite (substr_n_piece _ _ _ _ _ E), outcome_bind_ok, Nat.add_1_r, IH by lia.
    by rewrite Eb, E, pieces_cut, <- app_assoc by done.
  - apply find_first_of_none in E. rewrite substr_some by done. simpl. by rewrite pieces_clean.
Qed.

Lemma split_pieces src delim dest : split src delim dest = Ok (dest ++ pieces delim src).
Proof. unfold split. rewrite split_loop_pieces by lia. done. Qed.

(** [split] always returns, and what it appends to [dest] is the one list of
    delimiter-free pieces from which the text is got back by putting one delimiter
    between each two: [split] cuts at every delimiter and nowhere else. *)
Theorem split_characterised src delim dest ps :
  split src delim dest = Ok (dest ++ ps) <->
  exists seps, src = interleave ps seps /\ Forall (clean delim) ps /\
    Forall (fun c => among delim c = true) seps /\ length ps = S (length seps).
Proof.
  rewrite split_pieces. split.
  - intros [= E]. apply app_inv_head in E as <-. apply pieces_join.
  - intros (seps & -> & Hps & Hs & Hl). by rewrite pieces_interleave.
Qed.

(** The functions that leave out empty pieces. *)
Definition tokens (delim s : bytes) : list bytes := List.filter nonempty (pieces delim s).

(** The pieces, without a last one that is empty. *)
Fixpoint trim_last (ps : list bytes) : list bytes :=
  match ps with
  | [] => []
  | [[]] => []
  | p :: ps' => p :: trim_last ps'
  end.

Lemma tokens_cut delim p c s :
  clean delim p -> among delim c = true ->
  tokens delim (p ++ c :: s) = (if nonempty p then [p] else []) ++ tokens delim s.
Proof. intros Hp Hc. unfold tokens. rewrite pieces_cut by done. simpl. by destruct (nonempty p). Qed.

Lemma tokens_clean delim p : clean delim p -> tokens delim p = if nonempty p then [p] else [].
Proof. intros Hp. unfold tokens. rewrite pieces_clean by done. simpl. by destruct (nonempty p). Qed.

Lemma tokens_skip delim a s :
  Forall (fun c => among delim c = true) a -> tokens delim (a ++ s) = tokens delim s.
Proof.
  induction 1 as [|c a Hc Ha IH]; [done|].
  change ((c :: a) ++ s) with ([] ++ c :: (a ++ s)). by rewrite tokens_cut, IH by (done || constructor).
Qed.

Lemma nonempty_app_cons a (c : Z) b : nonempty (a ++ c :: b) = true.
Proof. by destruct a. Qed.

Lemma StrSplit_loop_tokens src sep r s :
  clean sep s -> StrSplit_loop src sep r s = r ++ tokens sep (s ++ src).
Proof.
  revert r s. induction src as [|c src IH]; intros r s Hs; simpl.
  - rewrite app_nil_r, tokens_clean by done. destruct s; simpl; by rewrite ?app_nil_r.
  - destruct (among sep c) eqn:E.
    + rewrite IH, tokens_cut by (done || constructor).
      destruct s; simpl; [done | by rewrite <- app_assoc].
    + rewrite IH by (apply Forall_app; split; [done | by repeat constructor]).
      by rewrite <- app_assoc.
Qed.

Lemma StrSplitToInt_loop_tokens src sep r s :
  clean sep s -> StrSplitToInt_loop src sep r s = r ++ map strtoul (tokens sep (s ++ src)).
Proof.
  revert r s. induction src as [|c src IH]; intros r s Hs; simpl.
  - rewrite app_nil_r, tokens_clean by done. destruct s; simpl; by rewrite ?app_nil_r.
  - destruct (among sep c) eqn:E.
    + rewrite IH, tokens_cut by (done || constructor).
      destruct s; simpl; [done | by rewrite <- app_assoc].
    + rewrite IH by (apply Forall_app; split; [done | by repeat constructor]).
      by rewrite <- app_assoc.
Qed.

Lemma trim_last_cons p ps : ps <> [] -> trim_last (p :: ps) = p :: trim_last ps.
Proof. destruct p, ps; done. Qed.

Lemma StrSplitEx_loop_pieces src sep r s :
  clean sep s -> StrSplitEx_loop src sep r s = r ++ trim_last (pieces sep (s ++ src)).
Proof.
  revert r s. induction src as [|c src IH]; intros r s Hs; simpl.
  - rewrite app_nil_r, pieces_clean by done. destruct s; simpl; by rewrite ?app_nil_r.
  - destruct (among sep c) eqn:E.
    + rewrite IH, pieces_cut, trim_last_cons by (apply pieces_nonempty || done || constructor).
      destruct s; simpl; by rewrite <- app_assoc.
    + rewrite IH by (apply Forall_app; split; [done | by repeat constructor]).
      by rewrite <- app_assoc.
Qed.

Lemma split_uint_loop_tokens fuel src delim pos dest :
  (pos <= length src)%nat -> (length src - pos < fuel)%nat ->
  split_uint_loop fuel src delim pos dest = Ok (dest ++ map strtoul (tokens delim (drop pos src))).
Proof.
  revert pos dest. induction fuel as [|fuel IH]; intros pos dest Hp Hf; [lia|]. simpl.
  destruct (pos <? length src)%nat eqn:Hlt; [apply Nat.ltb_lt in Hlt | apply Nat.ltb_ge in Hlt].
  2:{ rewrite drop_ge by done. by rewrite app_nil_r. }
  destruct (find_first_of src delim pos) as [k|] eqn:E.
  - apply find_first_of_some in E as (a & c & b & E & -> & Ha & Hc).
    destruct (drop_app_cons _ _ _ _ _ E) as (Hl & _ & Eb). rewrite Nat.add_1_r, E, tokens_cut by done.
    destruct (pos <? pos + length a)%nat eqn:Hk; [apply Nat.ltb_lt in Hk | apply Nat.ltb_ge in Hk].
    + rewrite (substr_n_piece _ _ _ _ _ E), outcome_bind_ok, IH, Eb by lia.
      destruct a; simpl in *; [lia | by rewrite <- app_assoc].
    + rewrite IH, Eb by lia. destruct a; simpl in *; [done | lia].
  - apply find_first_of_none in E. rewrite substr_some, outcome_bind_ok, tokens_clean by done.
    pose proof (length_drop src pos). destruct (drop pos src); simpl in *; [lia | done].
Qed.

(** One round of the [split_ign] functions: what they search for. *)
Lemma find_first_not_of_none s delim pos :
  find_first_not_of s delim pos = None -> tokens delim (drop pos s) = [].
Proof.
  unfold find_first_not_of. destruct (find_index _ _) eqn:E; [done|]. intros _.
  apply find_index_none in E. rewrite <- (app_nil_r (drop pos s)), tokens_skip; [done|].
  eapply Forall_impl; [|exact E]. intros c. apply negb_false_iff.
Qed.

Lemma find_first_not_of_some s delim pos k :
  find_first_not_of s delim pos = Some k ->
  (pos <= k < length s)%nat /\ tokens delim (drop pos s) = tokens delim (drop k s) /\
    exists c b, drop k s = c :: b /\ among delim c = false.
Proof.
  unfold find_first_not_of. destruct (find_index _ _) as [i|] eqn:E; [|done]. intros [= <-].
  apply find_index_some in E as (a & c & b & E & <- & Ha & Hc).
  destruct (drop_app_cons _ _ _ _ _ E) as (Hl & Ec & _). split; [lia|]. rewrite Ec, E. split.
  - apply tokens_skip. eapply Forall_impl; [|exact Ha]. intros d. apply negb_false_iff.
  - exists c, b. split; [done | by apply negb_true_iff].
Qed.

Lemma clean_head delim a c b d s :
  clean delim a -> among delim c = true -> among delim d = false -> a ++ c :: b = d :: s -> nonempty a = true.
Proof. intros Ha Hc Hd E. destruct a; [|done]. injection E as -> _. congruence. Qed.

Lemma split_ign_loop_tokens fuel src delim pos dest :
  (length src - pos < fuel)%nat ->
  split_ign_loop fuel src delim pos dest = Ok (dest ++ tokens delim (drop pos src)).
Proof.
  revert pos dest. induction fuel as [|fuel IH]; intros pos dest Hf; [lia|]. simpl.
  destruct (find_first_not_of src delim pos) as [p1|] eqn:E1.
  2:{ by rewrite (find_first_not_of_none _ _ _ E1), app_nil_r. }
  apply find_first_not_of_some in E1 as (Hp1 & -> & d & s & Ed & Hd).
  destruct (find_first_of src delim p1) as [k|] eqn:E.
  - apply find_first_of_some in E as (a & c & b & E & -> & Ha & Hc).
    destruct (drop_app_cons _ _ _ _ _ E) as (Hl & Ec & _).
    pose proof (clean_head delim a c b d s Ha Hc Hd ltac:(congruence)) as Hn.
    rewrite (substr_n_piece _ _ _ _ _ E), outcome_bind_ok, IH by (destruct a; simpl in *; [done | lia]).
    rewrite Ec, E, tokens_cut, Hn, <- app_assoc by done.
    rewrite <- (app_nil_l (c :: b)), tokens_cut by (done || constructor). done.
  - apply find_first_of_none in E. rewrite substr_some, outcome_bind_ok, tokens_clean by (done || lia).
    by rewrite Ed.
Qed.

Lemma split_ign_uint_loop_tokens fuel src delim pos dest :
  (length src - pos < fuel)%nat ->
  split_ign_uint_loop fuel src delim pos dest = Ok (dest ++ map strtoul (tokens delim (drop pos src))).
Proof.
  revert pos dest. induction fuel as [|fuel IH]; intros pos dest Hf; [lia|]. simpl.
  destruct (find_first_not_of src delim pos) as [p1|] eqn:E1.
  2:{ rewrite (find_first_not_of_none _ _ _ E1). by rewrite app_nil_r. }
  apply find_first_not_of_some in E1 as (Hp1 & -> & d & s & Ed & Hd).
  destruct (find_first_of src delim p1) as [k|] eqn:E.
  - apply find_first_of_some in E as (a & c & b & E & -> & Ha & Hc).
    destruct (drop_app_cons _ _ _ _ _ E) as (Hl & Ec & _).
    pose proof (clean_head delim a c b d s Ha Hc Hd ltac:(congruence)) as Hn.
    rewrite (substr_n_piece _ _ _ _ _ E), outcome_bind_ok, IH by (destruct a; simpl in *; [done | lia]).
    rewrite Ec, E, tokens_cut, Hn, <- app_assoc by done.
    rewrite <- (app_nil_l (c :: b)), tokens_cut by (done || constructor). done.
  - apply find_first_of_none in E. rewrite substr_some, outcome_bind_ok, tokens_clean by (done || lia).
    by rewrite Ed.
Qed.

(** The split functions agree: [split_ign], its overload for numbers, the
    overload of [split] for numbers, [StrSplit] and [StrSplitToInt] all give the
    non-empty pieces of [split] (or their numbers), and [StrSplitEx] gives the
    pieces of [split] without a last one that is empty.  All of them return. *)
Theorem split_family_agrees src delim :
  exists ps, split src delim [] = Ok ps /\
    StrSplit src delim = List.filter nonempty ps /\
    StrSplitEx src delim = trim_last ps /\
    StrSplitToInt src delim = map strtoul (List.filter nonempty ps) /\
    (forall dest, split_ign src delim dest = Ok (dest ++ List.filter nonempty ps)) /\
    (forall dest, split_uint src delim dest = Ok (dest ++ map strtoul (List.filter nonempty ps))) /\
    (forall dest, split_ign_uint src delim dest = Ok (dest ++ map strtoul (List.filter nonempty ps))).
Proof.
  exists (pieces delim src). split; [apply split_pieces|].
  unfold StrSplit, StrSplitEx, StrSplitToInt, split_ign, split_uint, split_ign_uint.
  rewrite StrSplit_loop_tokens, StrSplitEx_loop_pieces, StrSplitToInt_loop_tokens by constructor.
  repeat split; intros; [apply split_ign_loop_tokens | apply split_uint_loop_tokens |
    apply split_ign_uint_loop_tokens]; lia.
Qed.

(** ** Theorems: replace_all *)

Definition subst_char (c : Z) (new_value s : bytes) : bytes :=
  flat_map (fun x => if c =? x then new_value else [x]) s.

Definition occurrences (c : Z) (s : bytes) : nat := length (List.filter (Z.eqb c) s).

Lemma find_char s c : find s [c] = find_index (Z.eqb c) s.
Proof.
  induction s as [|x s IH]; [done|]. cbn [find is_prefix find_index].
  rewrite andb_true_r, IH. done.
Qed.

Lemma subst_char_app c new a b : subst_char c new (a ++ b) = subst_char c new a ++ subst_char c new b.
Proof. apply flat_map_app. Qed.

Lemma occurrences_app c a b : occurrences c (a ++ b) = (occurrences c a + occurrences c b)%nat.
Proof. unfold occurrences. by rewrite List.filter_app, length_app. Qed.

Lemma without_char c new s :
  Forall (fun x => (c =? x) = false) s -> subst_char c new s = s /\ occurrences c s = 0%nat.
Proof.
  induction 1 as [|x s Hx Hs [IH1 IH2]]; [done|]. unfold subst_char, occurrences in *. simpl.
  rewrite Hx. simpl. by rewrite IH1.
Qed.

Lemma replace_at_app (a b : bytes) c new : replace_at (a ++ c :: b) (length a) 1 new = a ++ new ++ b.
Proof.
  unfold replace_at. rewrite take_app_length. do 2 f_equal.
  rewrite <- drop_drop, drop_app_length. done.
Qed.

Lemma replace_loop_char fuel src c new :
  Forall (fun x => (c =? x) = false) new -> (occurrences c src < fuel)%nat ->
  replace_loop fuel src [c] new = Ok (subst_char c new src).
Proof.
  intros Hn. revert src. induction fuel as [|fuel IH]; intros src Hf; [lia|]. simpl.
  rewrite find_char. destruct (find_index (Z.eqb c) src) as [pos|] eqn:E.
  - apply find_index_some in E as (a & x & b & -> & <- & Ha & Hx). rewrite replace_at_app.
    apply Z.eqb_eq in Hx as <-. destruct (without_char c new _ Hn) as [En On].
    rewrite occurrences_app in Hf. unfold occurrences in Hf at 2. simpl in Hf. rewrite Z.eqb_refl in Hf.
    rewrite IH by (rewrite !occurrences_app, On; unfold occurrences in *; simpl in *; lia).
    rewrite !subst_char_app, En. unfold subst_char at 4. simpl. by rewrite Z.eqb_refl.
  - apply find_index_none in E. by destruct (without_char c new _ E) as [-> _].
Qed.

(** Replacing one character always returns, after at most one round for each
    character of the text: every occurrence is replaced when the replacement does
    not contain the character, and the text is left alone when it does. *)
Theorem replace_all_one_char str c new_value :
  replace_all (S (length str)) str [c] new_value =
    Ok (if existsb (Z.eqb c) new_value then str else subst_char c new_value str).
Proof.
  unfold replace_all. rewrite find_char. destruct (find_index (Z.eqb c) new_value) eqn:E.
  - apply find_index_some in E as (a & x & b & -> & _ & _ & Hx).
    rewrite existsb_app. simpl. by rewrite Hx, orb_true_r.
  - apply find_index_none in E.
    rewrite replace_loop_char by (done || (unfold occurrences; pose proof (filter_length_le (Z.eqb c) str); lia)).
    destruct (existsb (Z.eqb c) new_value) eqn:Ex; [|done].
    apply existsb_exists in Ex as (x & Hx & Hc).
    rewrite Forall_forall in E. by rewrite (E x Hx) in Hc.
Qed.

(** The guard does not keep [replace_all] from running forever: with "ab" replaced
    by "bbaa", which does not contain it, the text "aab" grows without end. *)
Definition grows (i j : nat) : bytes := repeat 98 i ++ [97; 97; 98] ++ repeat 97 j.

Lemma find_after_bs i s : find (repeat 98 i ++ 97 :: s) [97; 98] = option_map (Nat.add i) (find (97 :: s) [97; 98]).
Proof.
  induction i as [|i IH]; simpl app.
  - by destruct (find (97 :: s) [97; 98]).
  - change (find (98 :: repeat 98 i ++ 97 :: s) [97; 98])
      with (option_map S (find (repeat 98 i ++ 97 :: s) [97; 98])).
    rewrite IH. by destruct (find (97 :: s) [97; 98]).
Qed.

Lemma replace_at_after i (s new : bytes) k n :
  replace_at (repeat 98 i ++ s) (i + k) n new = repeat 98 i ++ replace_at s k n new.
Proof.
  unfold replace_at.
  rewrite take_app_ge, drop_app_ge by (rewrite repeat_length; lia).
  rewrite repeat_length, <- app_assoc. replace (i + k - i)%nat with k by lia.
  by replace (i + k + n - i)%nat with (k + n)%nat by lia.
Qed.

Lemma repeat_two (x : Z) n s : repeat x n ++ x :: x :: s = repeat x (S (S n)) ++ s.
Proof. induction n as [|n IH]; [done|]. simpl. f_equal. rewrite IH. done. Qed.

(** One round on a text in which the first "ab" comes [k] after the leading b's. *)
Lemma replace_loop_round fuel i k s new :
  find (97 :: s) [97; 98] = Some k ->
  replace_loop (S fuel) (repeat 98 i ++ 97 :: s) [97; 98] new =
    replace_loop fuel (repeat 98 i ++ replace_at (97 :: s) k 2 new) [97; 98] new.
Proof.
  intros E. cbn [replace_loop]. rewrite find_after_bs, E. cbn [option_map].
  change (length [97; 98]) with 2%nat. by rewrite replace_at_after.
Qed.

Lemma replace_loop_grows fuel i j :
  replace_loop fuel (grows i j) [97; 98] [98; 98; 97; 97] = Err OutOfFuel.
Proof.
  revert i j. induction fuel as [fuel IH] using lt_wf_ind; intros i j.
  destruct fuel as [|fuel]; [done|]. unfold grows. cbn [app].
  rewrite (replace_loop_round _ _ 1) by done.
  change (replace_at (97 :: 97 :: 98 :: repeat 97 j) 1 2 [98; 98; 97; 97])
    with (97 :: 98 :: 98 :: 97 :: 97 :: repeat 97 j).
  destruct fuel as [|fuel]; [done|]. rewrite (replace_loop_round _ _ 0) by done.
  change (replace_at (97 :: 98 :: 98 :: 97 :: 97 :: repeat 97 j) 0 2 [98; 98; 97; 97])
    with (98 :: 98 :: 97 :: 97 :: 98 :: repeat 97 (S (S j))).
  rewrite repeat_two. apply (IH fuel ltac:(lia) (S (S i)) (S (S j))).
Qed.

Lemma replace_all_diverges fuel :
  replace_all fuel [97; 97; 98] [97; 98] [98; 98; 97; 97] = Err OutOfFuel.
Proof. exact (replace_loop_grows fuel 0 0). Qed.

(** ** Theorems: safe_memcpy *)

(** [safe_memcpy], given the true sizes of its two blocks, never accesses
    memory outside them, whatever the count; it changes nothing past the first
    [dsize] bytes.  A 0 for a count below RSIZE_MAX says that the whole count was
    copied and fitted in both sizes; a 1 that only the smaller size was; a -1 that
    nothing was. *)
Theorem safe_memcpy_bounded RSIZE_MAX d dsize s ssize cnt :
  0 <= dsize <= zlen d -> 0 <= ssize <= zlen s -> 0 <= cnt ->
  exists code d', safe_memcpy RSIZE_MAX (Some d) dsize (Some s) ssize cnt = Ok (code, Some d') /\
    length d' = length d /\ drop (Z.to_nat dsize) d' = drop (Z.to_nat dsize) d /\
    ((code = 0 /\ (cnt <> RSIZE_MAX -> cnt <= dsize \/ cnt = 0) /\
        (cnt <> RSIZE_MAX -> cnt <= ssize \/ cnt = 0) /\
        (cnt <> RSIZE_MAX -> take (Z.to_nat cnt) d' = take (Z.to_nat cnt) s)) \/
     (code = 1 /\ Z.min dsize ssize < cnt /\
        d' = take (Z.to_nat (Z.min dsize ssize)) s ++ drop (Z.to_nat (Z.min dsize ssize)) d) \/
     (code = -1 /\ d' = d)).
Proof.
  intros Hd Hs Hc. unfold safe_memcpy. destruct (cnt =? 0) eqn:E0.
  { apply Z.eqb_eq in E0 as ->. exists 0, d. repeat split; auto 10. }
  destruct ((dsize =? 0) || (ssize =? 0)); [exists (-1), d; auto 10|].
  destruct (_ || _ || _); [exists (-1), d; auto 10|].
  apply Z.eqb_neq in E0. set (cc := Z.min (Z.min dsize ssize) cnt).
  assert (zlen (slice s 0 cc) = cc) as Hl by (apply length_slice; lia).
  rewrite mread_ok, outcome_bind_ok, mwrite_ok, outcome_bind_ok by lia.
  assert (splice d 0 (slice s 0 cc) = take (Z.to_nat cc) s ++ drop (Z.to_nat cc) d) as E.
  { unfold splice. change (Z.to_nat 0) with 0%nat. rewrite take_0, app_nil_l, Nat.add_0_l.
    replace (length (slice s 0 cc)) with (Z.to_nat cc) by lia. done. }
  eexists _, _. split; [done|]. split; [apply length_splice; lia|]. rewrite E. split.
  { rewrite drop_app_ge, drop_drop, length_take by (rewrite length_take; lia). f_equal. lia. }
  destruct (cc =? cnt) eqn:E1; [|destruct (cnt =? RSIZE_MAX) eqn:E2]; simpl; to_prop; [left|left|right; left].
  - rewrite E1, take_app_le, take_take by (rewrite length_take; lia).
    repeat split; intros; [lia | lia | f_equal; lia].
  - repeat split; intros; lia.
  - replace cc with (Z.min dsize ssize) by lia. repeat split; lia.
Qed.

Lemma safe_memcpy_bounded_witness :
  exists code d', safe_memcpy (2 ^ 64 - 1) (Some [1; 2; 3; 4]) 3 (Some [7; 8; 9; 10; 11]) 5 4 = Ok (code, Some d') /\
    length d' = 4%nat /\ drop 3 d' = [4] /\
    ((code = 0 /\ (4 <> 2 ^ 64 - 1 -> 4 <= 3 \/ 4 = 0) /\ (4 <> 2 ^ 64 - 1 -> 4 <= 5 \/ 4 = 0) /\
        (4 <> 2 ^ 64 - 1 -> take 4 d' = [7; 8; 9; 10])) \/
     (code = 1 /\ Z.min 3 5 < 4 /\ d' = [7; 8; 9; 4]) \/ (code = -1 /\ d' = [1; 2; 3; 4])).
Proof. apply (safe_memcpy_bounded (2 ^ 64 - 1) [1; 2; 3; 4] 3 [7; 8; 9; 10; 11] 5 4); simpl; lia. Defined.

(** ** Theorems: URL coding *)

(** A property of all the bytes, checked one by one. *)
Lemma bytes_check (p : Z -> bool) c :
  forallb p (map Z.of_nat (seq 0 256)) = true -> is_byte c -> p c = true.
Proof.
  intros H Hc. rewrite forallb_forall in H. apply H, in_map_iff. exists (Z.to_nat c).
  unfold is_byte in Hc. split; [lia | apply in_seq; lia].
Qed.

Definition url_safe (c : Z) : bool := unreserved c || (c =? 43) || (c =? 37).

Lemma hex_digits_safe c : is_byte c ->
  url_safe (ToHex (Z.shiftr c 4)) && url_safe (ToHex (c mod 16)) = true.
Proof. apply (bytes_check (fun c => url_safe (ToHex (Z.shiftr c 4)) && url_safe (ToHex (c mod 16)))). by vm_compute. Qed.

Lemma hex_halves c : is_byte c ->
  0 <= Z.shiftr c 4 < 16 /\ 0 <= c mod 16 < 16 /\ u8 (Z.shiftr c 4 * 16 + c mod 16) = c.
Proof.
  intros Hc. unfold is_byte in Hc. rewrite Z.shiftr_div_pow2 by lia. change (2 ^ 4) with 16.
  pose proof (Z.mod_pos_bound c 16). pose proof (Z.div_mod c 16).
  repeat split; try lia. rewrite wrap_small; lia.
Qed.

Section UrlTheorems.
Context (FromHex : Z -> Z).

(** Decoding what [UrlEncode] made gives the text back, for any [FromHex] that
    reads the digits [ToHex] writes (its definition is not in the source); and the
    encoded text holds only unreserved characters, '+' and '%'. *)
Theorem url_round_trip str :
  (forall x, 0 <= x < 16 -> FromHex (ToHex x) = x) -> Forall is_byte str ->
  UrlDecode FromHex (UrlEncode str) = Ok str /\ Forall (fun c => url_safe c = true) (UrlEncode str).
Proof.
  intros HF. induction 1 as [|c str Hc Hs [IH1 IH2]]; [split; [done | constructor]|]. simpl.
  destruct (unreserved c) eqn:Eu.
  - split; [|constructor; [unfold url_safe; by rewrite Eu | done]].
    simpl. destruct (c =? 43) eqn:E1; [by apply Z.eqb_eq in E1 as ->|].
    destruct (c =? 37) eqn:E2; [by apply Z.eqb_eq in E2 as ->|]. by rewrite IH1.
  - destruct (c =? 32) eqn:E1.
    + apply Z.eqb_eq in E1 as ->. split; [simpl; by rewrite IH1 | by constructor].
    + destruct (hex_halves c Hc) as (Hh & Hl & E).
      pose proof (hex_digits_safe c Hc) as Hd. apply andb_true_iff in Hd as [Hd1 Hd2].
      split; [|by repeat constructor].
      cbn -[ToHex Z.shiftr Z.modulo]. rewrite IH1. cbn -[ToHex Z.shiftr Z.modulo].
      by rewrite !HF, E by done.
Qed.
End UrlTheorems.

(** The [FromHex] the commented-out lines of Util.cpp have, on upper-case digits. *)
Definition hex_value (x : Z) : Z := if (65 <=? x) && (x <=? 90) then x - 55 else x - 48.

Lemma url_round_trip_witness :
  UrlDecode hex_value (UrlEncode [97; 32; 38; 195]) = Ok [97; 32; 38; 195] /\
  Forall (fun c => url_safe c = true) (UrlEncode [97; 32; 38; 195]).
Proof.
  apply (url_round_trip hex_value).
  - intros x Hx. assert (x ∈ map Z.of_nat (seq 0 16)) as Hin.
    { apply list_elem_of_In, in_map_iff. exists (Z.to_nat x). split; [lia | apply in_seq; lia]. }
    apply list_elem_of_In in Hin. simpl in Hin. intuition (subst; done).
  - repeat constructor; done.
Defined.

(** ** Theorems: UTF-8 *)

(** How many octets follow a lead octet: as many as its leading ones, less one. *)
Definition lead_octets (c : Z) : Z :=
  if c <? 192 then 0 else if c <? 224 then 1 else if c <? 240 then 2 else if c <? 248 then 3
  else if c <? 252 then 4 else if c <? 254 then 5 else if c <? 255 then 6 else 7.

Definition continuation (c : Z) : Prop := 128 <= c < 192.

(** One character of the accepted encoding: an ASCII byte, or a lead octet with its
    continuation octets. *)
Inductive utf8_char : bytes -> Prop :=
| utf8_ascii c : c < 128 -> utf8_char [c]
| utf8_group c conts :
    0 < lead_octets c -> zlen conts = lead_octets c -> Forall continuation conts -> utf8_char (c :: conts).

Lemma high_bit c : is_byte c -> negb (Z.land c 128 =? 0) = (128 <=? c).
Proof.
  intros Hc. apply eqb_true_iff.
  apply (bytes_check (fun c => Bool.eqb (negb (Z.land c 128 =? 0)) (128 <=? c))); [by vm_compute | done].
Qed.

Lemma continuation_bits c : is_byte c -> (Z.land c 192 =? 128) = (128 <=? c) && (c <? 192).
Proof.
  intros Hc. apply eqb_true_iff.
  apply (bytes_check (fun c => Bool.eqb (Z.land c 192 =? 128) ((128 <=? c) && (c <? 192)))); [by vm_compute | done].
Qed.

Lemma count_octets_lead c : is_byte c -> 128 <= c -> u8 (count_octets 8 c 0 - 1) = lead_octets c.
Proof.
  intros Hc H. apply Z.eqb_eq.
  pose proof (bytes_check (fun c => negb (128 <=? c) || (u8 (count_octets 8 c 0 - 1) =? lead_octets c)) c) as E.
  cbv beta in E. rewrite (proj2 (Z.leb_le 128 c) H) in E. apply E; [by vm_compute | done].
Qed.

Lemma lead_octets_bound c : 0 <= lead_octets c <= 7.
Proof. unfold lead_octets. split_ifs; lia. Qed.

Lemma lead_octets_high c : 0 < lead_octets c -> 192 <= c.
Proof. unfold lead_octets. split_ifs; lia. Qed.

(** What the loop accepts from a state: the octets still owed, then characters. *)
Definition utf8_rest (s : bytes) (k : Z) (bAllAscii : bool) : Prop :=
  (exists conts gs, s = conts ++ concat gs /\ zlen conts = k /\ Forall continuation conts /\ Forall utf8_char gs) /\
  (bAllAscii = false \/ Exists (fun c => 128 <= c) s).

Lemma utf8_rest_nil k asc : 0 <= k -> utf8_rest [] k asc <-> k = 0 /\ asc = false.
Proof.
  intros Hk. split.
  - intros [(conts & gs & E & Hl & _ & _) Ha]. symmetry in E. apply app_nil in E as [-> _].
    split; [simpl in Hl; lia|]. destruct Ha as [Ha|Ha]; [done | by apply Exists_nil in Ha].
  - intros [-> ->]. split; [|by left]. exists [], []. repeat constructor.
Qed.

Lemma utf8_rest_ascii c s asc : c < 128 -> utf8_rest (c :: s) 0 asc <-> utf8_rest s 0 asc.
Proof.
  intros Hc. split; intros [(conts & gs & E & Hl & Hco & Hgs) Ha].
  - destruct conts; [|simpl in Hl; lia]. destruct Hgs as [|g gs Hg Hgs]; [done|].
    destruct Hg as [d Hd|d ds Hd _ _]; simpl in E; injection E as -> ->; [|apply lead_octets_high in Hd; lia].
    split; [by exists [], gs|]. destruct Ha as [|Ha]; [by left | right].
    apply Exists_cons in Ha as [|]; [lia | done].
  - split; [exists [], ([c] :: gs)|].
    + destruct conts; [|simpl in Hl; lia]. simpl in E. subst s. repeat split; try constructor; try done.
      by constructor.
    + destruct Ha; [by left | right; by apply Exists_cons_tl].
Qed.

Lemma utf8_rest_lead c s asc :
  128 <= c -> utf8_rest (c :: s) 0 asc <-> 0 < lead_octets c /\ utf8_rest s (lead_octets c) false.
Proof.
  intros Hc. split.
  - intros [(conts & gs & E & Hl & Hco & Hgs) Ha].
    destruct conts; [|simpl in Hl; lia]. destruct Hgs as [|g gs Hg Hgs]; [done|].
    destruct Hg as [d Hd|d ds Hd Hl' Hds]; simpl in E; injection E as -> ->; [lia|].
    split; [done|]. split; [by exists ds, gs | by left].
  - intros [H0 [(conts & gs & -> & Hl & Hco & Hgs) _]]. split; [|right; by constructor].
    exists [], ((c :: conts) :: gs). repeat split; [constructor|]. constructor; [by constructor | done].
Qed.

Lemma utf8_rest_owed c s k asc :
  0 < k -> utf8_rest (c :: s) k asc <-> continuation c /\ utf8_rest s (k - 1) false.
Proof.
  intros Hk. split.
  - intros [(conts & gs & E & Hl & Hco & Hgs) Ha].
    destruct Hco as [|d conts Hd Hco]; [simpl in Hl; lia|]. simpl in E. injection E as -> ->.
    split; [done|]. split; [|by left]. exists conts, gs. simpl in Hl. repeat split; try done. lia.
  - intros [Hc [(conts & gs & -> & Hl & Hco & Hgs) _]].
    split; [|right; constructor; unfold continuation in Hc; lia].
    exists (c :: conts), gs. repeat split; [simpl; lia | by constructor | done].
Qed.

Lemma utf8_loop_rest s k asc :
  Forall is_byte s -> 0 <= k <= 7 -> utf8_loop s k asc = true <-> utf8_rest s k asc.
Proof.
  intros Hs. revert k asc. induction Hs as [|c s Hc Hs IH]; intros k asc Hk; cbn [utf8_loop].
  { rewrite utf8_rest_nil by lia. destruct (0 <? k) eqn:E; to_prop; destruct asc; intuition (done || lia). }
  rewrite high_bit, continuation_bits by done.
  destruct (k =? 0) eqn:Ek; to_prop.
  - subst k. destruct (128 <=? c) eqn:Eh; to_prop; [|by rewrite IH, utf8_rest_ascii by lia].
    rewrite count_octets_lead, utf8_rest_lead by done. pose proof (lead_octets_bound c).
    destruct (lead_octets c =? 0) eqn:El; to_prop; [split; [done | lia]|].
    rewrite IH by lia. intuition lia.
  - rewrite utf8_rest_owed by lia. unfold continuation.
    destruct (128 <=? c) eqn:E1; to_prop; [|split; [done | lia]].
    destruct (c <? 192) eqn:E2; to_prop; simpl; [|split; [done | lia]].
    rewrite (wrap_small 8 (k - 1)), IH by lia. intuition lia.
Qed.

(** [_IsStringUTF8] accepts a text exactly when, up to its terminator, it is a
    sequence of characters, each an ASCII byte or a lead octet with 1 to 7
    continuation octets as its leading ones say, and is not all ASCII.  (So it
    accepts the forms of 5 to 8 octets, which no Unicode text has.) *)
Theorem is_utf8_grammar str :
  Forall is_byte str ->
  _IsStringUTF8 str = true <->
    (exists gs, until_nul str = concat gs /\ Forall utf8_char gs) /\
    Exists (fun c => 128 <= c) (until_nul str).
Proof.
  intros Hs. assert (Forall is_byte (until_nul str)) as Hu.
  { induction Hs as [|c s Hc Hs IH]; simpl; [constructor|]. destruct (c =? 0); by constructor. }
  unfold _IsStringUTF8. rewrite utf8_loop_rest by (done || lia). split.
  - intros [(conts & gs & E & Hl & _ & Hgs) [|Ha]]; [done|]. split; [|done].
    exists gs. destruct conts; [done | simpl in Hl; lia].
  - intros [(gs & E & Hgs) Ha]. split; [|by right]. exists [], gs. by repeat split.
Qed.

Lemma is_utf8_grammar_witness :
  _IsStringUTF8 [65; 195; 169; 0; 255] = true <->
    (exists gs, [65; 195; 169] = concat gs /\ Forall utf8_char gs) /\ Exists (fun c => 128 <= c) [65; 195; 169].
Proof. apply (is_utf8_grammar [65; 195; 169; 0; 255]). repeat constructor; done. Defined.

(** Every UTF-16 unit survives the conversion to three octets and back. *)
Lemma utf16_round_trip lo hi :
  is_byte lo -> is_byte hi ->
  let '(p0, p1, p2) := UnicodeToUTF_8 lo hi in UTF_8ToUnicode p0 p1 p2 = (lo, hi).
Proof.
  intros Hl Hh.
  set (p := fun hi lo => let '(p0, p1, p2) := UnicodeToUTF_8 lo hi in
    let '(l, h) := UTF_8ToUnicode p0 p1 p2 in (l =? lo) && (h =? hi)).
  assert (p hi lo = true) as H.
  { apply (bytes_check (p hi)); [|done].
    apply (bytes_check (fun hi => forallb (p hi) (map Z.of_nat (seq 0 256)))); [by vm_compute | done]. }
  unfold p in H. destruct (UnicodeToUTF_8 lo hi) as [[p0 p1] p2], (UTF_8ToUnicode p0 p1 p2).
  to_prop. by subst.
Qed.

(** ** Theorems: paths *)

Lemma find_last_of_absent s c : Forall (fun x => (c =? x) = false) s -> find_last_of s c = None.
Proof.
  intros H. unfold find_last_of. destruct (find_index (Z.eqb c) (rev s)) eqn:E; [|done].
  apply find_index_some in E as (a & x & b & E & _ & _ & Hx). 
  rewrite Forall_forall in H. specialize (H x).
  rewrite in_rev, E in H. rewrite H in Hx; [done|]. apply in_app_iff. right. by left.
Qed.

Lemma find_last_of_bound s c : zlen s < npos -> pos_of (find_last_of s c) <= npos.
Proof. unfold find_last_of. destruct (find_index _ _); cbn [option_map pos_of]; lia. Qed.

(** A path that holds no backslash is returned whole, file name and all: npos, the
    value [pos] starts with, wins both maxima. *)
Lemma extract_file_path_no_backslash path :
  zlen path < npos -> Forall (fun x => (92 =? x) = false) path -> ExtractFilePath path = path.
Proof.
  intros Hl H. unfold ExtractFilePath. rewrite (find_last_of_absent path 92) by done. cbn [pos_of].
  rewrite Z.eqb_refl. cbn [negb].
  pose proof (find_last_of_bound path 47 Hl). pose proof (find_last_of_bound path 58 Hl).
  destruct (negb (pos_of (find_last_of path 47) =? npos)), (negb (pos_of (find_last_of path 58) =? npos));
    rewrite ?Z.max_r by lia; by rewrite Z.eqb_refl.
Qed.

Lemma ExtractFilePath_prefix path : exists n, ExtractFilePath path = take n path.
Proof. unfold ExtractFilePath. destruct (_ =? npos); [exists (length path); by rewrite take_ge | eauto]. Qed.

Lemma ExcludePathDelimiter_length path : (length (ExcludePathDelimiter path) <= length path)%nat.
Proof. unfold ExcludePathDelimiter. destruct (IsPathDelimiter _ _); [rewrite length_take|]; lia. Qed.

(** [ForceDirectory] ends: each parent is a proper prefix. *)
Lemma ForceDirectory_total {FS} (E : bytes -> FS -> bool) (C : bytes -> FS -> bool * FS) fuel path fs :
  (length path < fuel)%nat -> exists r, ForceDirectory E C fuel path fs = Ok r.
Proof.
  revert path fs. induction fuel as [|fuel IH]; intros path fs Hf; [lia|]. simpl.
  set (dir := ExcludePathDelimiter path). pose proof (ExcludePathDelimiter_length path : (length dir <= _)%nat).
  destruct (E dir fs); [eauto|].
  destruct (zlen dir <? 3); [eauto|]. destruct (bool_decide _) eqn:Ed; [eauto|]. simpl. to_prop.
  destruct (ExtractFilePath_prefix dir) as [n Hn].
  destruct (IH (ExtractFilePath dir) fs) as [[[] fs1] ->]; eauto.
  rewrite Hn in *. destruct (le_lt_dec (length dir) n); [by rewrite take_ge in Ed|].
  rewrite length_take. lia.
Qed.

(** So for a path with forward slashes only the last directory is created, and its
    parents are not. *)
Lemma force_directory_no_backslash {FS} (E : bytes -> FS -> bool) (C : bytes -> FS -> bool * FS) fuel path fs :
  let dir := ExcludePathDelimiter path in
  zlen dir < npos -> Forall (fun x => (92 =? x) = false) dir -> E dir fs = false ->
  ForceDirectory E C (S fuel) path fs = Ok (C dir fs).
Proof.
  intros dir Hl Hb He. simpl. fold dir. rewrite He, extract_file_path_no_backslash by done.
  rewrite bool_decide_true by done. by rewrite orb_true_r.
Qed.
