(* ===== verification/TimeUtil.v ===== *)
(** * Time, calendar, address and random utilities

    Models the calendar functions of DarkEden_Example/src/Shared/Util.cpp, the
    address functions of Common.h and the inline functions of Util.h.  Text is the
    list of its bytes, as in StrUtil.v.

    The time zone is the environment's: [localtime] and [mktime] are parameters, and
    so is [rand]; [now] is what time( NULL ) returns. *)

From Stdlib Require Import Ascii String.
From stdpp Require Import base tactics option list numbers.
From Stdlib Require Import ZArith Lia Bool.
From S2P Require Import Prelude StrUtil.

#[local] Open Scope Z_scope.

(** ** Text *)

Definition lit (s : string) : bytes := map (fun a => Z.of_N (N_of_ascii a)) (list_ascii_of_string s).

(** ["%u"]: at most 20 digits for a 64-bit number. *)
Fixpoint dec_loop (fuel : nat) (n : Z) (acc : bytes) : bytes :=
  match fuel with
  | O => acc
  | S fuel' =>
      let acc := (48 + n mod 10) :: acc in
      if n <? 10 then acc else dec_loop fuel' (n / 10) acc
  end.

Definition udec (n : Z) : bytes := dec_loop 20 n [].

(** ["%0wd"], ["%wu"] and ["%.wu"]. *)
Definition zpad (w : nat) (s : bytes) : bytes := repeat 48 (w - length s) ++ s.
Definition spad (w : nat) (s : bytes) : bytes := repeat 32 (w - length s) ++ s.

Definition fmt_d (w : nat) (z : Z) : bytes :=
  if z <? 0 then 45 :: zpad (w - 1) (udec (- z)) else zpad w (udec z).

(** sscanf with integer conversions: the numbers read before the first mismatch.
    A number out of range leaves the behaviour undefined. *)
Inductive scan_item :=
| ScanInt
| ScanLit (c : Z)
| ScanSpace.

Fixpoint digits_prefix (s : bytes) : bytes :=
  match s with c :: s' => if is_digit c then c :: digits_prefix s' else [] | [] => [] end.
Fixpoint after_digits (s : bytes) : bytes :=
  match s with c :: s' => if is_digit c then after_digits s' else s | [] => [] end.

Definition scan_digits (neg : bool) (s : bytes) : option (Z * bytes) :=
  match digits_prefix s with
  | [] => None
  | ds => let v := digits_value 0 ds in Some (if neg then - v else v, after_digits s)
  end.

Definition scan_int (s : bytes) : option (Z * bytes) :=
  match skip_spaces s with
  | [] => None
  | c :: s' =>
      if c =? 45 then scan_digits true s'
      else if c =? 43 then scan_digits false s' else scan_digits false (c :: s')
  end.

Fixpoint sscanf (in_range : Z -> bool) (fmt : list scan_item) (s : bytes) : outcome (list Z) :=
  match fmt with
  | [] => Ok []
  | ScanInt :: fmt' =>
      match scan_int s with
      | None => Ok []
      | Some (v, s') =>
          guard_defined (in_range v) ;;*
          let* vs := sscanf in_range fmt' s' in Ok (v :: vs)
      end
  | ScanLit c :: fmt' =>
      match s with
      | d :: s' => if d =? c then sscanf in_range fmt' s' else Ok []
      | [] => Ok []
      end
  | ScanSpace :: fmt' => sscanf in_range fmt' (skip_spaces s)
  end.

Definition in_uint (z : Z) : bool := (- 2 ^ 32 <? z) && (z <? 2 ^ 32).

(** ** Durations *)

Definition TIME_SECOND : Z := 1.
Definition TIME_MINUTE : Z := TIME_SECOND * 60.
Definition TIME_HOUR : Z := TIME_MINUTE * 60.
Definition TIME_DAY : Z := TIME_HOUR * 24.
Definition TIME_MONTH : Z := TIME_DAY * 30.
Definition TIME_YEAR : Z := TIME_MONTH * 12.

(** [isNum] on a text of decimal digits: reading a double succeeds unless the value
    rounds past the largest one. *)
Definition isNum (digits : bytes) : bool :=
  match digits with [] => false | _ => digits_value 0 digits <? 2 ^ 1024 - 2 ^ 970 end.

Definition strtouint32 (digits : bytes) : Z := if isNum digits then strtoul digits else 0.

Fixpoint period_loop (fuel : nat) (p : bytes) (time_to_ban : Z) : outcome Z :=
  match fuel with
  | O => Err OutOfFuel
  | S fuel' =>
      match p with
      | [] => Ok (i32 time_to_ban)
      | c :: _ =>
          if negb (is_digit c) then Ok (i32 time_to_ban)
          else
            let number_temp := digits_prefix p in
            match after_digits p with
            | [] => period_loop fuel' [] (u32 (time_to_ban + u32 (TIME_MINUTE * strtouint32 number_temp)))
            | l :: p' =>
                let go multiplier :=
                  period_loop fuel' p' (u32 (time_to_ban + u32 (multiplier * strtouint32 number_temp))) in
                let k := tolower l in
                if k =? 121 then go TIME_YEAR
                else if k =? 109 then go TIME_MONTH
                else if k =? 100 then go TIME_DAY
                else if k =? 104 then go TIME_HOUR
                else Ok (-1)
            end
      end
  end.

(** A round consumes a digit, so the length bounds the rounds. *)
Definition GetTimePeriodFromString (str : bytes) : outcome Z :=
  period_loop (S (length (until_nul str))) (until_nul str) 0.

Definition MakeIntString (num : Z) : bytes :=
  if num <? 10 then 48 :: udec (u32 num) else udec (u32 num).
Definition MakeIntStringNoZero (num : Z) : bytes := udec (u32 num).

(** The counts of [ConvertTimeStampToString]. *)
Record duration := Duration
  { seconds : Z; mins : Z; hours : Z; days : Z; months : Z; years : Z }.

(** Each inner test repeats what the outer one implies; int division. *)
Definition duration_of (timestamp : Z) : duration :=
  let s := i32 timestamp in
  if 60 <=? s then
    let mi := Z.quot s 60 in
    let s := s - mi * 60 in
    if 60 <=? mi then
      let h := Z.quot mi 60 in
      let mi := mi - h * 60 in
      if 24 <=? h then
        let d := Z.quot h 24 in
        let h := h - d * 24 in
        if 30 <=? d then
          let mo := Z.quot d 30 in
          let d := d - mo * 30 in
          if 12 <=? mo then
            let y := Z.quot mo 12 in
            let mo := mo - y * 12 in Duration s mi h d mo y
          else Duration s mi h d mo 0
        else Duration s mi h d 0 0
      else Duration s mi h 0 0 0
    else Duration s mi 0 0 0 0
  else Duration s 0 0 0 0 0.

Definition part (n : Z) (unit : string) : bytes :=
  if negb (n =? 0) then MakeIntStringNoZero n ++ lit unit else [].

Definition ConvertTimeStampToString (timestamp : Z) : bytes :=
  let d := duration_of timestamp in
  part (years d) " years, " ++ part (months d) " months, " ++ part (days d) " days, " ++
  part (hours d) " hours, " ++ part (mins d) " minutes, " ++ part (seconds d) " seconds".

(** ** The calendar *)

Record tm := Tm
  { tm_sec : Z; tm_min : Z; tm_hour : Z; tm_mday : Z; tm_mon : Z; tm_year : Z;
    tm_wday : Z; tm_yday : Z; tm_isdst : Z }.

Definition tm_zero : tm := Tm 0 0 0 0 0 0 0 0 0.

Definition IsLeapYear (year : Z) : bool :=
  ((year mod 4 =? 0) && negb (year mod 100 =? 0)) || (year mod 400 =? 0).

Definition GetTotalDay (year : Z) : Z := if IsLeapYear year then 366 else 365.

Definition szDayNames : list string :=
  ["Sunday"; "Monday"; "Tuesday"; "Wednesday"; "Thursday"; "Friday"; "Saturday"]%string.
Definition szMonthNames : list string :=
  ["January"; "February"; "March"; "April"; "May"; "June"; "July"; "August"; "September";
   "October"; "November"; "December"]%string.

Definition IsLegal (year mon day hour minu sec : Z) : bool :=
  if (year <? 0) || (mon <=? 0) || (12 <? mon) || (day <=? 0) || (31 <? day) || (hour <? 0)
     || (23 <? hour) || (minu <? 0) || (59 <? minu) || (sec <? 0) || (60 <? sec) then false
  else if (1 =? mon) || (3 =? mon) || (5 =? mon) || (7 =? mon) || (8 =? mon) || (10 =? mon) || (12 =? mon)
  then true
  else if IsLeapYear (u16 year) then
    negb ((2 =? mon) && ((28 =? day) || (30 =? day) || (31 =? day)))
  else
    negb ((2 =? mon) && ((29 =? day) || (30 =? day) || (31 =? day))).

(** The digits of yyyymmddhhmmss: the year, then five fields, each an int the rest of
    the number is reduced by ([t] is unsigned, the products are ints). *)
Definition split_fields (t : Z) : outcome (Z * Z * Z * Z * Z * Z) :=
  let year := i32 (t / 10000000000) in
  let t := u64 (t - year * 10000000000) in
  let mon := i32 (t / 100000000) in
  let* p := int_mul mon 100000000 in
  let t := u64 (t - p) in
  let day := i32 (t / 1000000) in
  let* p := int_mul day 1000000 in
  let t := u64 (t - p) in
  let hour := i32 (t / 10000) in
  let* p := int_mul hour 10000 in
  let t := u64 (t - p) in
  let minu := i32 (t / 100) in
  let* p := int_mul minu 100 in
  let t := u64 (t - p) in
  Ok (year, mon, day, hour, minu, i32 t).

Definition validateTime (t : Z) : outcome bool :=
  if (14 <? length (udec t))%nat then Ok false
  else
    let* (year, mon, day, hour, minu, sec) := split_fields t in
    Ok (IsLegal (year - 1900) mon day hour minu sec).

Section Calendar.
Context (localtime : Z -> tm) (mktime : tm -> Z).

Definition ConvertTimeStampToDataTime (timestamp : Z) : outcome bytes :=
  let pTM := localtime timestamp in
  let* d := array_at szDayNames (tm_wday pTM) in
  let* m := array_at szMonthNames (tm_mon pTM) in
  Ok (lit d ++ lit ", " ++ MakeIntString (tm_mday pTM) ++ lit " " ++ lit m ++ lit " " ++
      MakeIntString (tm_year pTM + 1900) ++ lit ", " ++ MakeIntString (tm_hour pTM) ++ lit ":" ++
      MakeIntString (tm_min pTM) ++ lit ":" ++ MakeIntString (tm_sec pTM)).

(** [convTimePeriod]: the field is an int, the length a uint32 added to it. *)
Definition convTimePeriod (dLength : Z) (dType : Z) : Z :=
  if dLength =? 0 then 0
  else
    let '(Tm s mi h d mo y w yd dst) := localtime 0 in
    mktime
      (if dType =? 104 then Tm s mi (i32 (h + dLength)) d mo y w yd dst
       else if dType =? 100 then Tm s mi h (i32 (d + dLength)) mo y w yd dst
       else if dType =? 119 then Tm s mi h (i32 (d + u32 (7 * dLength))) mo y w yd dst
       else if dType =? 109 then Tm s mi h d (i32 (mo + dLength)) y w yd dst
       else if dType =? 121 then Tm s mi h d mo (i32 (y + dLength)) w yd dst
       else Tm s (i32 (mi + dLength)) h d mo y w yd dst).

Definition GetDateFromTimestamp (timestamp : Z) : Z * Z * Z :=
  let timeinfo := localtime timestamp in
  (u16 (tm_year timeinfo), u8 (tm_mon timeinfo + 1), u8 (tm_mday timeinfo)).

Definition GetNowMothData (now : Z) : Z * Z * Z :=
  let timeinfo := localtime now in
  (u16 (tm_year timeinfo + 1900), u8 (tm_mon timeinfo + 1), u8 (tm_mday timeinfo)).

(** The day changes at five in the morning. *)
Definition GetNowDate365 (now : Z) : Z :=
  let timeinfo := localtime (now - 5 * 60 * 60) in u16 (tm_yday timeinfo + 1).

Definition GetNowDate365Real (now : Z) : Z := u16 (tm_yday (localtime now)).

Definition GetNowWeek365_old (now : Z) : Z := u16 (GetNowDate365 now / 7 + 1).

Definition GetNowWeek365_old_from (now weekday : Z) : Z :=
  let datea := GetNowDate365 now in
  if weekday <=? datea then u16 ((datea - weekday) / 7 + 1) else u16 (datea / 7 + 1).

(** The int remainder of the dividend [yd], which is not negative. *)
Definition GetNowWeek365 (now : Z) : Z :=
  let timeinfo := localtime (now - 5 * 60 * 60) in
  let wd := tm_wday timeinfo in
  let yd := tm_yday timeinfo + 1 in
  let a1 := wd - Z.rem yd 7 in
  let dan := if 0 <=? a1 then a1 else 7 + a1 in
  u16 (Z.quot (yd + dan) 7 + 1).

Definition GetNowWeek365From (now weekday : Z) : Z :=
  let timeinfo := localtime (now - 5 * 60 * 60) in
  let wd := tm_wday timeinfo in
  let yd := tm_yday timeinfo in
  let a1 := wd - Z.rem yd 7 in
  let dan := if 0 <=? a1 then a1 else 7 + a1 in
  u16 (Z.quot (yd - weekday + dan) 7 + 1).

Definition GetNowYear (now : Z) : Z := u16 (tm_year (localtime now)).

Definition seconds_of_day (m : tm) : Z := tm_hour m * 3600 + tm_min m * 60 + tm_sec m.

Definition GetToday0Time (now : Z) : Z := now - seconds_of_day (localtime now).

Definition GetToday5Time (t : Z) : Z :=
  let timeinfo := localtime t in
  if (0 <=? tm_hour timeinfo) && (tm_hour timeinfo <=? 5) then t - seconds_of_day timeinfo + 5 * 3600
  else t - seconds_of_day timeinfo + 29 * 3600.

Definition GetCurrentSecond (now : Z) : Z :=
  let m := localtime now in u32 (tm_hour m * 60 * 60 + tm_min m * 60 + tm_sec m).

Definition GetYearMonDay (t : Z) : Z :=
  let m := localtime t in u32 (tm_year m * 10000 + tm_mon m * 100 + tm_mday m).

Definition GetCurrentHour (now : Z) : Z * Z * Z * Z :=
  let m := localtime now in (u32 (tm_wday m), u32 (tm_hour m), u32 (tm_min m), u32 (tm_sec m)).

(** The six numbers a format has read, 0 where it has read none. *)
Definition scan_tm (year mon mday hour mi sec : nat) (vs : list Z) : tm :=
  let get i := nth i vs 0 in
  Tm (get sec) (get mi) (get hour) (get mday) (get mon - 1) (get year - 1900) 0 0 0.

Definition StringConvertTime (timeStamp : bytes) : outcome Z :=
  let* vs := sscanf in_int [ScanInt; ScanLit 47; ScanInt; ScanLit 47; ScanInt; ScanSpace;
                            ScanInt; ScanLit 58; ScanInt; ScanLit 58; ScanInt] (until_nul timeStamp) in
  Ok (mktime (scan_tm 2 0 1 3 4 5 vs)).

Definition StringConvertTimeEx (timeStamp : bytes) : outcome Z :=
  let* vs := sscanf in_int [ScanInt; ScanLit 45; ScanInt; ScanLit 45; ScanInt; ScanSpace;
                            ScanInt; ScanLit 58; ScanInt; ScanLit 58; ScanInt] (until_nul timeStamp) in
  Ok (mktime (scan_tm 0 1 2 3 4 5 vs)).

Definition GetFormatDayStr (t : Z) : bytes :=
  let m := localtime t in
  fmt_d 4 (tm_year m + 1900) ++ [45] ++ fmt_d 2 (tm_mon m + 1) ++ [45] ++ fmt_d 2 (tm_mday m).

Definition GetFormatDateStrEx (t : Z) : bytes :=
  let m := localtime t in
  fmt_d 4 (tm_year m + 1900) ++ [45] ++ fmt_d 2 (tm_mon m + 1) ++ [45] ++ fmt_d 2 (tm_mday m) ++
  [32] ++ fmt_d 2 (tm_hour m) ++ [58] ++ fmt_d 2 (tm_min m).

Definition GetFormatDateStr (t : Z) : bytes :=
  let m := localtime t in
  fmt_d 4 (tm_year m + 1900) ++ [45] ++ fmt_d 2 (tm_mon m + 1) ++ [45] ++ fmt_d 2 (tm_mday m) ++
  [32] ++ fmt_d 2 (tm_hour m) ++ [58] ++ fmt_d 2 (tm_min m) ++ [58] ++ fmt_d 2 (tm_sec m).

Definition DiffDayByTime (t day : Z) : Z :=
  let '(Tm s mi h d mo y w yd dst) := localtime t in mktime (Tm s mi h (d + day) mo y w yd dst).

Definition SameDay (t1 t2 : Z) : bool :=
  let tm1 := localtime t1 in
  let tm2 := localtime t2 in
  (tm_mday tm1 =? tm_mday tm2) && (tm_year tm1 =? tm_year tm2) && (tm_mon tm1 =? tm_mon tm2).

Definition GetYesterday (now today : Z) : Z :=
  let today := if today =? 0 then GetNowDate365 now else today in
  if today =? 1 then
    let '(year, _, _) := GetNowMothData now in
    if IsLeapYear (u16 (year - 1)) then 366 else 365
  else u32 (today - 1).

(** The year's product is a long long; the others are ints. *)
Definition TimeToUint64 (time : Z) : outcome Z :=
  let m := localtime time in
  let* mo := int_mul (tm_mon m + 1) 100000000 in
  let* d := int_mul (tm_mday m) 1000000 in
  let* h := int_mul (tm_hour m) 10000 in
  let* mi := int_mul (tm_min m) 100 in
  Ok (u64 ((tm_year m + 1900) * 10000000000 + mo + d + h + mi + tm_sec m)).

Definition uint64ToTime (t : Z) : outcome Z :=
  let* (year, mon, day, hour, minu, sec) := split_fields t in
  Ok (mktime (Tm sec minu hour day (mon - 1) (year - 1900) 0 0 0)).

(** [GetAppointTimeStamp] and the two [GetTimeStamp]s. *)
Definition GetAppointTimeStamp (t hour min sec : Z) : Z :=
  let '(Tm _ _ _ d mo y w yd dst) := localtime t in
  mktime (Tm (i32 sec) (i32 min) (i32 hour) d mo y w yd dst).

Definition GetTimeStamp (t week hour min sec : Z) : Z :=
  let startTime := GetAppointTimeStamp t hour min sec in
  let t0 := localtime t in
  let wk := if tm_wday t0 =? 0 then 7 else u32 (tm_wday t0) in
  if wk <? week then startTime + u32 ((week - wk) * 60 * 60 * 24)
  else if week <? wk then startTime + u32 ((7 - wk + week) * 60 * 60 * 24)
  else startTime.

Definition isSameWeek (t1 t2 : Z) : bool :=
  let '(big, smal) := if t2 <=? t1 then (t1, t2) else (t2, t1) in
  let bigtm := localtime big in
  let smaltm := localtime smal in
  let days := tm_yday bigtm - tm_yday smaltm in
  let big_wday := if tm_wday bigtm =? 0 then 7 else tm_wday bigtm in
  let smal_wday := if tm_wday smaltm =? 0 then 7 else tm_wday smaltm in
  let weeks := big_wday - smal_wday in
  (Z.abs days <? 7) && (0 <=? weeks).

Definition isNextWeek (now nextweek : Z) : bool :=
  if nextweek <=? now then false
  else
    let thisweekend := GetTimeStamp now 0 23 59 59 in
    let nextweekend := thisweekend + 7 * 60 * 60 * 24 in
    (thisweekend <? nextweek) && (nextweek <=? nextweekend).

(** [secsToTimeBitFields]: the shifts of ints, then the conversion to uint32.
    A year before 2000 or after 2127 shifts a negative number or into the sign. *)
Definition secsToTimeBitFields (secs : Z) : outcome Z :=
  let lt := localtime secs in
  guard_defined ((0 <=? tm_year lt - 100) && (tm_year lt - 100 <? 128)) ;;*
  Ok (u32 (Z.lor (Z.lor (Z.lor (Z.lor (Z.lor
    (Z.shiftl (tm_year lt - 100) 24) (Z.shiftl (tm_mon lt) 20)) (Z.shiftl (tm_mday lt - 1) 14))
    (Z.shiftl (tm_wday lt) 11)) (Z.shiftl (tm_hour lt) 6)) (tm_min lt))).
End Calendar.

(** ** Random choices

    [rand] threads the generator's state; each draw is converted to the unsigned
    type of the modulus. *)

Section Random.
Context {R : Type} (rand : R -> Z * R).

(** The vector of the range.  [i <= max] always holds for the largest uint32. *)
Fixpoint range_loop (fuel : nat) (i max : Z) (src : list Z) : outcome (list Z) :=
  match fuel with
  | O => Err OutOfFuel
  | S fuel' => if i <=? max then range_loop fuel' (u32 (i + 1)) max (src ++ [i]) else Ok src
  end.

Definition swap {A} (l : list A) (i j : Z) : outcome (list A) :=
  let* a := array_at l i in
  let* b := array_at l j in
  let* l := array_set l i b in array_set l j a.

Fixpoint draw_loop (count : nat) (src : list Z) (size : Z) (tar : list Z) (r : R) : outcome (list Z * R) :=
  match count with
  | O => Ok (tar, r)
  | S count' =>
      let (v, r) := rand r in
      guard_defined (negb (size =? 0)) ;;*
      let index := u32 v mod size in
      let* x := array_at src index in
      let size := u32 (size - 1) in
      let* src := swap src index size in
      draw_loop count' src size (tar ++ [x]) r
  end.

Definition GetRandList (fuel : nat) (min max count : Z) (tar : list Z) (r : R) : outcome (bool * list Z * R) :=
  if u32 (u32 (max - min) + 1) <? count then Ok (false, tar, r)
  else
    let* src := range_loop fuel min max [] in
    let size := u32 (zlen src) in
    if size =? 0 then Ok (false, tar, r)
    else let* (tar, r) := draw_loop (Z.to_nat count) src size tar r in Ok (true, tar, r).

Definition RandBetween1 (st end_ : Z) (r : R) : Z * R :=
  if end_ <=? st then (end_, r)
  else let (v, r) := rand r in (u32 (st + u32 v mod (end_ - st)), r).

Definition RandBetween2 (st end_ : Z) (r : R) : Z * R :=
  let (v, r) := RandBetween1 st end_ r in (u32 (v + 1), r).

(** [RandomGet] on a vector: [None] when it is empty. *)
Definition RandomGet {A} (container : list A) (r : R) : outcome (option A * R) :=
  match container with
  | [] => Ok (None, r)
  | _ =>
      let count := zlen container in
      let (v, r) := rand r in
      let* a := array_at container (u64 v mod count) in Ok (Some a, r)
  end.
End Random.

(** ** Addresses *)

(** The bytes of a little-endian uint32, as the code sees them. *)
Definition byte_of (x i : Z) : Z := u8 (Z.shiftr x (8 * i)).
Definition memory4 (x : Z) : list Z := [byte_of x 0; byte_of x 1; byte_of x 2; byte_of x 3].

Definition leftover_bits_compare : list Z := [0; 128; 192; 224; 240; 248; 252; 254; 255].

Definition ParseCIDRBan (IP Mask MaskBits : Z) : outcome bool :=
  let source_ip := memory4 IP in
  let mask := memory4 Mask in
  let full_bytes := MaskBits / 8 in
  let leftover_bits := MaskBits mod 8 in
  if 32 <? MaskBits then Ok false
  else
    let* same :=
      if 0 <? full_bytes then
        let* a := mread source_ip 0 full_bytes in
        let* b := mread mask 0 full_bytes in Ok (bool_decide (a = b))
      else Ok true in
    if negb same then Ok false
    else if 0 <? leftover_bits then
      let* a := array_at source_ip full_bytes in
      let* b := array_at mask full_bytes in
      let* m := array_at leftover_bits_compare leftover_bits in
      Ok (Z.land a m =? Z.land b m)
    else Ok true.

Definition MakeIP (str : bytes) : outcome Z :=
  let* vs := sscanf in_uint [ScanInt; ScanLit 46; ScanInt; ScanLit 46; ScanInt; ScanLit 46; ScanInt]
               (until_nul str) in
  match map u32 vs with
  | [b0; b1; b2; b3] =>
      Ok (Z.lor (Z.lor (Z.lor b0 (u32 (Z.shiftl b1 8))) (u32 (Z.shiftl b2 16))) (u32 (Z.shiftl b3 24)))
  | _ => Ok 0
  end.

(** ** Identifiers *)

(** [_strtoui64( s, 0, 0 )]: base 16 after 0x, base 8 after 0, base 10 otherwise. *)
Definition digit_of (c : Z) : Z :=
  if is_digit c then c - 48
  else if (97 <=? c) && (c <=? 102) then c - 87
  else if (65 <=? c) && (c <=? 70) then c - 55 else 99.

Fixpoint based_value (base acc : Z) (s : bytes) : Z :=
  match s with
  | c :: s' => if digit_of c <? base then based_value base (base * acc + digit_of c) s' else acc
  | [] => acc
  end.

Definition strtoui64 (s : bytes) : Z :=
  let magnitude s :=
    match s with
    | 48 :: x :: d :: s' =>
        if ((x =? 120) || (x =? 88)) && (digit_of d <? 16) then based_value 16 0 (d :: s')
        else based_value 8 0 (x :: d :: s')
    | 48 :: s' => based_value 8 0 s'
    | _ => based_value 10 0 s
    end in
  let clamp v := if 2 ^ 64 - 1 <? v then 2 ^ 64 - 1 else v in
  match skip_spaces s with
  | 45 :: s' => let v := magnitude s' in if 2 ^ 64 - 1 <? v then 2 ^ 64 - 1 else u64 (- v)
  | 43 :: s' => clamp (magnitude s')
  | s' => clamp (magnitude s')
  end.

Module IDCreator.

(** The state is [Index]; "%2u" pads with spaces, "%.3u" with zeros. *)
Definition GenerateNextID (local : tm) (serverId Index : Z) : Z * Z :=
  let Index := u32 (Index + 1) in
  let Index := if 999 <? Index then 1 else Index in
  let buffer :=
    spad 2 (udec (u32 (Z.rem (tm_year local) 100))) ++ spad 2 (udec (u32 (tm_mon local))) ++
    spad 2 (udec (u32 (tm_mday local))) ++ spad 2 (udec (u32 (tm_hour local))) ++
    spad 2 (udec (u32 (tm_min local))) ++ spad 2 (udec (u32 (tm_sec local))) ++
    zpad 3 (udec Index) ++ zpad 4 (udec (serverId mod 10000)) in
  (strtoui64 buffer, Index).

End IDCreator.

Module IDCreator_1.

Definition GenerateNextID (local : tm) (Index : Z) : Z * Z :=
  let Index := u32 (Index + 1) in
  let Index := if 9999 <? Index then 1 else Index in
  let buffer :=
    zpad 2 (udec (u32 (Z.rem (tm_year local + 1900) 100))) ++ zpad 2 (udec (u32 (tm_mon local + 1))) ++
    zpad 2 (udec (u32 (tm_mday local))) ++ zpad 2 (udec (u32 (tm_hour local))) ++
    zpad 2 (udec (u32 (tm_min local))) ++ zpad 2 (udec (u32 (tm_sec local))) ++
    zpad 4 (udec Index) in
  (strtoui64 buffer, Index).

End IDCreator_1.

Example id_2024_may : IDCreator.GenerateNextID (Tm 7 30 12 9 4 124 4 130 0) 17 0 = (24, 1).
Proof. vm_compute. reflexivity. Qed.

Example id1_2024_may : IDCreator_1.GenerateNextID (Tm 7 30 12 9 4 124 4 130 0) 0 = (2405091230070001, 1).
Proof. vm_compute. reflexivity. Qed.

Example seconds_text : ConvertTimeStampToString 90061 = lit "1 days, 1 hours, 1 minutes, 1 seconds".
Proof. vm_compute. reflexivity. Qed.

Example period_text_example : GetTimePeriodFromString (lit "1y2m3d4h5") = Ok 36561900.
Proof. vm_compute. reflexivity. Qed.

Example ip_example : MakeIP (lit "192.168.1.7") = Ok 117549248.
Proof. vm_compute. reflexivity. Qed.

(** ** Theorems: decimal text *)

Definition digits (s : bytes) : Prop := Forall (fun c => is_digit c = true) s.

Lemma is_digit_code n : 0 <= n < 10 -> is_digit (48 + n) = true.
Proof. unfold is_digit. lia. Qed.

Lemma digits_value_cons acc d s : is_digit d = true -> digits_value acc (d :: s) = digits_value (10 * acc + (d - 48)) s.
Proof. intros H. simpl. by rewrite H. Qed.

Lemma dec_loop_spec fuel n acc :
  0 <= n < 10 ^ Z.of_nat fuel -> (0 < fuel)%nat ->
  exists ds, dec_loop fuel n acc = ds ++ acc /\ ds <> [] /\ digits ds /\
    forall rest, digits_value 0 (ds ++ rest) = digits_value n rest.
Proof.
  revert n acc. induction fuel as [|fuel IH]; intros n acc Hn Hf; [lia|]. cbn [dec_loop].
  assert (is_digit (48 + n mod 10) = true) as Hd by (apply is_digit_code, Z.mod_pos_bound; lia).
  destruct (n <? 10) eqn:E; to_prop.
  - exists [48 + n mod 10]. repeat split; try done; [by repeat constructor|].
    intros rest. cbn [app]. rewrite digits_value_cons by done. f_equal. rewrite Z.mod_small; lia.
  - assert (0 < fuel)%nat by (destruct fuel; [simpl in Hn; lia | lia]).
    rewrite Nat2Z.inj_succ, Z.pow_succ_r in Hn by lia.
    destruct (IH (n / 10) ((48 + n mod 10) :: acc)) as (ds & -> & Hne & Hds & Hv); [|done|].
    { split; [apply Z.div_pos; lia | apply Z.div_lt_upper_bound; lia]. }
    exists (ds ++ [48 + n mod 10]). rewrite <- app_assoc. repeat split; [by destruct ds | |].
    + apply Forall_app. split; [done | by repeat constructor].
    + intros rest. rewrite <- app_assoc, Hv. cbn [app]. rewrite digits_value_cons by done.
      f_equal. pose proof (Z.div_mod n 10). lia.
Qed.

(** A text of digits that stands for [n]. *)
Definition numeral (s : bytes) (n : Z) : Prop :=
  s <> [] /\ digits s /\ forall rest, digits_value 0 (s ++ rest) = digits_value n rest.

Lemma udec_numeral n : 0 <= n < 2 ^ 64 -> numeral (udec n) n.
Proof.
  intros Hn. destruct (dec_loop_spec 20 n []) as (ds & E & Hd); [lia | lia|].
  unfold udec. rewrite E, app_nil_r. done.
Qed.

Lemma numeral_zpad w s n : numeral s n -> numeral (zpad w s) n.
Proof.
  intros (Hne & Hd & Hv). unfold zpad. generalize (w - length s)%nat as k. intros k.
  induction k as [|k (IH1 & IH2 & IH3)]; [done|]. cbn [repeat app].
  split; [done|]. split; [by constructor|]. intros rest. cbn [app].
  by rewrite digits_value_cons by done.
Qed.

Lemma fmt_d_numeral w n : 0 <= n < 2 ^ 64 -> numeral (fmt_d w n) n.
Proof.
  intros Hn. unfold fmt_d. rewrite (proj2 (Z.ltb_ge n 0)) by lia. by apply numeral_zpad, udec_numeral.
Qed.

Lemma digits_value_all acc s : digits_value acc (s ++ []) = digits_value acc s.
Proof. by rewrite app_nil_r. Qed.

Lemma numeral_value s n : numeral s n -> digits_value 0 s = n.
Proof. intros (_ & _ & Hv). specialize (Hv []). by rewrite app_nil_r in Hv. Qed.

(** What stops the reading of a number. *)
Definition stops (s : bytes) : Prop := match s with [] => True | c :: _ => is_digit c = false end.

Lemma digits_prefix_app ds s : digits ds -> stops s -> digits_prefix (ds ++ s) = ds /\ after_digits (ds ++ s) = s.
Proof.
  intros Hd Hs. induction Hd as [|d ds Hd Hds [IH1 IH2]]; simpl.
  - destruct s; [done|]. simpl in *. by rewrite Hs.
  - by rewrite Hd, IH1, IH2.
Qed.

Lemma scan_int_numeral ds n s : numeral ds n -> stops s -> scan_int (ds ++ s) = Some (n, s).
Proof.
  intros Hn Hs. pose proof (numeral_value _ _ Hn) as Hv. destruct Hn as (Hne & Hd & _).
  destruct (digits_prefix_app ds s Hd Hs) as [E1 E2].
  destruct ds as [|d ds]; [done|]. pose proof (Forall_inv Hd) as Hd1. cbn [app] in *.
  unfold scan_int, is_digit in *. cbn [skip_spaces].
  assert (is_space d = false) as -> by (unfold is_space; lia).
  assert ((d =? 45) = false) as -> by lia. assert ((d =? 43) = false) as -> by lia.
  unfold scan_digits. rewrite E1, E2, Hv. done.
Qed.

Lemma sscanf_int in_range fmt ds n s :
  numeral ds n -> stops s -> in_range n = true ->
  sscanf in_range (ScanInt :: fmt) (ds ++ s) = let* vs := sscanf in_range fmt s in Ok (n :: vs).
Proof. intros Hn Hs Hr. cbn [sscanf]. by rewrite (scan_int_numeral _ _ _ Hn Hs), guard_defined_true. Qed.

Lemma sscanf_lit in_range fmt c s : sscanf in_range (ScanLit c :: fmt) (c :: s) = sscanf in_range fmt s.
Proof. cbn [sscanf]. by rewrite Z.eqb_refl. Qed.

Lemma skip_spaces_digits ds n s : numeral ds n -> skip_spaces (32 :: ds ++ s) = ds ++ s.
Proof.
  intros (Hne & Hd & _). destruct ds as [|d ds]; [done|]. pose proof (Forall_inv Hd) as Hd1.
  cbn [skip_spaces app]. assert (is_space d = false) as -> by (unfold is_space, is_digit in *; lia). done.
Qed.

Lemma until_nul_app (a b : bytes) : Forall (fun c => c <> 0) a -> until_nul (a ++ b) = a ++ until_nul b.
Proof.
  induction 1 as [|c a Hc Ha IH]; [done|]. simpl. rewrite IH.
  by rewrite (proj2 (Z.eqb_neq c 0) Hc).
Qed.

Lemma until_nul_id (a : bytes) : Forall (fun c => c <> 0) a -> until_nul a = a.
Proof. intros H. rewrite <- (app_nil_r a), until_nul_app by done. done. Qed.

Lemma numeral_no_nul s n : numeral s n -> Forall (fun c => c <> 0) s.
Proof. intros (_ & Hd & _). eapply Forall_impl; [|exact Hd]. intros c. unfold is_digit. simpl. lia. Qed.

(** ** Theorems: dates as numbers and as text *)

(** The ranges the C standard gives the fields, and years that have four digits. *)
Definition tm_ok (m : tm) : Prop :=
  0 <= tm_sec m <= 60 /\ 0 <= tm_min m <= 59 /\ 0 <= tm_hour m <= 23 /\ 1 <= tm_mday m <= 31 /\
  0 <= tm_mon m <= 11 /\ 0 <= tm_year m + 1900 <= 9999 /\ 0 <= tm_wday m <= 6 /\ 0 <= tm_yday m <= 365.

(** The fields a date and time of day determine. *)
Definition civil (m : tm) : tm :=
  Tm (tm_sec m) (tm_min m) (tm_hour m) (tm_mday m) (tm_mon m) (tm_year m) 0 0 0.


(** One field: the quotient by [k], and what is left. *)
Lemma field_quot a k r : 0 <= a < 2 ^ 31 -> 0 < k -> 0 <= r < k -> i32 ((a * k + r) / k) = a.
Proof.
  intros Ha Hk Hr. rewrite Z.add_comm, Z.div_add, (Z.div_small r k) by lia. by rewrite i32_small by lia.
Qed.

Lemma field_rest a k r : 0 <= r < 2 ^ 64 -> u64 (a * k + r - a * k) = r.
Proof. intros Hr. replace (a * k + r - a * k) with r by lia. by rewrite wrap_small. Qed.

Lemma split_fields_ok y mo d h mi s :
  0 <= y <= 9999 -> 0 <= mo <= 12 -> 0 <= d <= 31 -> 0 <= h <= 23 -> 0 <= mi <= 59 -> 0 <= s <= 60 ->
  split_fields (y * 10000000000 + (mo * 100000000 + (d * 1000000 + (h * 10000 + (mi * 100 + s))))) =
    Ok (y, mo, d, h, mi, s).
Proof.
  intros. unfold split_fields. cbv zeta.
  rewrite field_quot, field_rest by lia.
  rewrite (field_quot mo), int_mul_ok, outcome_bind_ok, (field_rest mo) by lia.
  rewrite (field_quot d), int_mul_ok, outcome_bind_ok, (field_rest d) by lia.
  rewrite (field_quot h), int_mul_ok, outcome_bind_ok, (field_rest h) by lia.
  rewrite (field_quot mi), int_mul_ok, outcome_bind_ok, (field_rest mi), i32_small by lia. done.
Qed.

Lemma dec_loop_length fuel k n acc :
  0 <= n < 10 ^ Z.of_nat k -> (0 < k)%nat -> (length (dec_loop fuel n acc) <= k + length acc)%nat.
Proof.
  revert k n acc. induction fuel as [|fuel IH]; intros k n acc Hn Hk; [simpl; lia|]. cbn [dec_loop].
  destruct (n <? 10) eqn:E; to_prop; [simpl; lia|].
  destruct k as [|[|k]]; [lia | simpl in Hn; lia|]. rewrite Nat2Z.inj_succ, Z.pow_succ_r in Hn by lia.
  etransitivity; [apply (IH (S k) (n / 10))|simpl; lia]; [|lia].
  split; [apply Z.div_pos; lia | apply Z.div_lt_upper_bound; lia].
Qed.

Lemma in_int_small n : 0 <= n <= 9999 -> in_int n = true.
Proof. unfold in_int. lia. Qed.

(** The text of a date, whatever the widths of its numbers, is read back. *)
Lemma scan_date_text d1 d2 d3 d4 d5 d6 n1 n2 n3 n4 n5 n6 :
  numeral d1 n1 -> numeral d2 n2 -> numeral d3 n3 -> numeral d4 n4 -> numeral d5 n5 -> numeral d6 n6 ->
  0 <= n1 <= 9999 -> 0 <= n2 <= 9999 -> 0 <= n3 <= 9999 -> 0 <= n4 <= 9999 -> 0 <= n5 <= 9999 ->
  0 <= n6 <= 9999 ->
  sscanf in_int [ScanInt; ScanLit 45; ScanInt; ScanLit 45; ScanInt; ScanSpace;
                 ScanInt; ScanLit 58; ScanInt; ScanLit 58; ScanInt]
    (until_nul (d1 ++ [45] ++ d2 ++ [45] ++ d3 ++ [32] ++ d4 ++ [58] ++ d5 ++ [58] ++ d6)) =
    Ok [n1; n2; n3; n4; n5; n6].
Proof.
  intros N1 N2 N3 N4 N5 N6 ? ? ? ? ? ?. rewrite until_nul_id.
  2:{ rewrite !Forall_app. repeat split; eauto using numeral_no_nul; by repeat constructor. }
  rewrite <- (app_nil_r d6). cbn [app].
  rewrite (sscanf_int _ _ _ _ _ N1), sscanf_lit by (done || by apply in_int_small).
  rewrite (sscanf_int _ _ _ _ _ N2), sscanf_lit by (done || by apply in_int_small).
  rewrite (sscanf_int _ _ _ _ _ N3) by (done || by apply in_int_small). cbn [sscanf].
  rewrite (skip_spaces_digits _ _ _ N4).
  rewrite (scan_int_numeral _ _ _ N4) by done. rewrite (guard_defined_true _ (in_int_small n4 ltac:(done))).
  cbn [sscanf Z.eqb Pos.eqb]. rewrite (scan_int_numeral _ _ _ N5) by done.
  rewrite (guard_defined_true _ (in_int_small n5 ltac:(done))).
  cbn [sscanf Z.eqb Pos.eqb]. rewrite (scan_int_numeral _ _ _ N6) by done.
  rewrite (guard_defined_true _ (in_int_small n6 ltac:(done))). done.
Qed.

Lemma udec_length_14 n : 0 <= n < 100000000000000 -> (length (udec n) <= 14)%nat.
Proof. intros Hn. exact (dec_loop_length 20 14 n [] Hn ltac:(lia)). Qed.

Section DateTheorems.
Context (localtime : Z -> tm) (mktime : tm -> Z).

Lemma TimeToUint64_digits t :
  tm_ok (localtime t) ->
  let m := localtime t in
  TimeToUint64 localtime t =
    Ok ((tm_year m + 1900) * 10000000000 + ((tm_mon m + 1) * 100000000 +
        (tm_mday m * 1000000 + (tm_hour m * 10000 + (tm_min m * 100 + tm_sec m))))).
Proof.
  intros (? & ? & ? & ? & ? & ? & _) m. unfold TimeToUint64. subst m.
  rewrite !int_mul_ok, !outcome_bind_ok, wrap_small by lia. f_equal. lia.
Qed.

Lemma split_fields_time t n :
  tm_ok (localtime t) -> TimeToUint64 localtime t = Ok n ->
  let m := localtime t in
  split_fields n = Ok (tm_year m + 1900, tm_mon m + 1, tm_mday m, tm_hour m, tm_min m, tm_sec m).
Proof.
  intros Hok H m. subst m. rewrite TimeToUint64_digits in H by done. injection H as <-.
  destruct Hok as (? & ? & ? & ? & ? & ? & _). apply split_fields_ok; lia.
Qed.

(** [TimeToUint64] writes a date as the number yyyymmddhhmmss without overflow;
    [uint64ToTime] hands [mktime] the same date and time of day back (so it returns
    the time itself where [mktime] inverts [localtime]); [validateTime] tests those
    fields, with the year less 1900; and equal numbers mean equal dates. *)
Theorem time_uint64_round_trip t :
  tm_ok (localtime t) ->
  let m := localtime t in
  exists n, TimeToUint64 localtime t = Ok n /\
    uint64ToTime mktime n = Ok (mktime (civil m)) /\
    validateTime n = Ok (IsLegal (tm_year m) (tm_mon m + 1) (tm_mday m) (tm_hour m) (tm_min m) (tm_sec m)) /\
    (forall u, tm_ok (localtime u) -> TimeToUint64 localtime u = Ok n -> civil (localtime u) = civil m).
Proof.
  intros Hok m. eexists. split; [by apply TimeToUint64_digits|].
  pose proof (split_fields_time t _ Hok (TimeToUint64_digits t Hok)) as Hs. cbv zeta in Hs. fold m in Hs |- *.
  split; [|split].
  - unfold uint64ToTime. rewrite Hs. cbn [mbind outcome_bind]. unfold civil. do 3 f_equal; lia.
  - unfold validateTime. rewrite Hs. cbn [mbind outcome_bind].
    rewrite (proj2 (Nat.ltb_ge 14 _)).
    + do 2 f_equal; lia.
    + apply udec_length_14. unfold m. destruct Hok as (? & ? & ? & ? & ? & ? & _). lia.
  - intros u Hu Hn. pose proof (split_fields_time u _ Hu Hn) as Hs2. cbv zeta in Hs2.
    rewrite Hs in Hs2. injection Hs2 as E1 E2 E3 E4 E5 E6.
    unfold civil. f_equal; lia.
Qed.

(** Reading back, with [StringConvertTimeEx], what [GetFormatDateStr] printed
    gives [mktime] the same date and time of day. *)
Theorem date_string_round_trip t :
  tm_ok (localtime t) ->
  StringConvertTimeEx mktime (GetFormatDateStr localtime t) = Ok (mktime (civil (localtime t))).
Proof.
  intros (? & ? & ? & ? & ? & ? & _). unfold GetFormatDateStr, StringConvertTimeEx.
  set (m := localtime t) in *.
  rewrite (scan_date_text _ _ _ _ _ _ (tm_year m + 1900) (tm_mon m + 1) (tm_mday m) (tm_hour m)
             (tm_min m) (tm_sec m)) by (apply fmt_d_numeral || idtac; lia).
  cbn [mbind outcome_bind]. unfold civil, scan_tm. cbn [nth]. do 3 f_equal; lia.
Qed.
End DateTheorems.

(** A concrete clock for the examples: the civil calendar in UTC. *)
Definition utc_localtime (t : Z) : tm :=
  let z := t / 86400 + 719468 in
  let sod := t mod 86400 in
  let doe := z mod 146097 in
  let yoe := (doe - doe / 1460 + doe / 36524 - doe / 146096) / 365 in
  let doy := doe - (365 * yoe + yoe / 4 - yoe / 100) in
  let mp := (5 * doy + 2) / 153 in
  let d := doy - (153 * mp + 2) / 5 + 1 in
  let m := if mp <? 10 then mp + 3 else mp - 9 in
  let y := yoe + z / 146097 * 400 + (if m <=? 2 then 1 else 0) in
  let yday := if mp <? 10 then doy + 59 + (if IsLeapYear (u16 y) then 1 else 0) else doy - 306 in
  Tm (sod mod 60) (sod / 60 mod 60) (sod / 3600) d (m - 1) (y - 1900) ((t / 86400 + 4) mod 7) yday 0.

Definition utc_mktime (m : tm) : Z :=
  let y := tm_year m + 1900 - (if tm_mon m <=? 1 then 1 else 0) in
  let yoe := y mod 400 in
  let mp := (tm_mon m + 10) mod 12 in
  let doy := (153 * mp + 2) / 5 + tm_mday m - 1 in
  let doe := yoe * 365 + yoe / 4 - yoe / 100 + doy in
  (y / 400 * 146097 + doe - 719468) * 86400 + tm_hour m * 3600 + tm_min m * 60 + tm_sec m.

Example utc_2024 : utc_localtime 1715247007 = Tm 7 30 9 9 4 124 4 129 0.
Proof. vm_compute. reflexivity. Qed.
Example utc_back : utc_mktime (civil (utc_localtime 1715247007)) = 1715247007.
Proof. vm_compute. reflexivity. Qed.

Lemma tm_ok_utc_2024 : tm_ok (utc_localtime 1715247007).
Proof. rewrite utc_2024. unfold tm_ok. simpl. lia. Qed.

Lemma time_uint64_round_trip_witness :
  exists n, TimeToUint64 utc_localtime 1715247007 = Ok n /\
    uint64ToTime utc_mktime n = Ok (utc_mktime (civil (utc_localtime 1715247007))) /\
    validateTime n = Ok (IsLegal 124 5 9 9 30 7) /\
    (forall u, tm_ok (utc_localtime u) -> TimeToUint64 utc_localtime u = Ok n ->
       civil (utc_localtime u) = civil (utc_localtime 1715247007)).
Proof. exact (time_uint64_round_trip utc_localtime utc_mktime 1715247007 tm_ok_utc_2024). Defined.

Lemma date_string_round_trip_witness :
  StringConvertTimeEx utc_mktime (GetFormatDateStr utc_localtime 1715247007) =
    Ok (utc_mktime (civil (utc_localtime 1715247007))).
Proof. exact (date_string_round_trip utc_localtime utc_mktime 1715247007 tm_ok_utc_2024). Defined.

(** ** Theorems: the calendar *)

(** The days of a month, with the leap test the code has (on the year as a uint16). *)
Definition days_in (year mon : Z) : Z :=
  if mon =? 2 then (if IsLeapYear (u16 year) then 29 else 28)
  else if (mon =? 4) || (mon =? 6) || (mon =? 9) || (mon =? 11) then 30 else 31.

Definition clock_ok (year mon hour minu sec : Z) : Prop :=
  0 <= year /\ 1 <= mon <= 12 /\ 0 <= hour <= 23 /\ 0 <= minu <= 59 /\ 0 <= sec <= 60.

(** [IsLegal] accepts the dates of the calendar, with two exceptions: the 28th of
    February is rejected in a leap year, and the 31st is accepted in the months of 30
    days. *)
Theorem is_legal_characterised year mon day hour minu sec :
  IsLegal year mon day hour minu sec = true <->
    clock_ok year mon hour minu sec /\
    ((1 <= day <= days_in year mon /\ ~ (IsLeapYear (u16 year) = true /\ mon = 2 /\ day = 28)) \/
     (day = 31 /\ days_in year mon = 30)).
Proof.
  unfold IsLegal, clock_ok, days_in. destruct (IsLeapYear (u16 year)) eqn:EL;
    (destruct (_ || (60 <? sec)) eqn:E1; [split; [done | split_ifs; lia]|]);
    (destruct (_ || (12 =? mon)) eqn:E2; [split; [split_ifs; lia | done]|]); split_ifs; lia.
Qed.

(** The leap test of [validateTime] is on the year less 1900: the 29th of February
    2000 is rejected, though 2000 is a leap year; that of 2004 is accepted. *)
Lemma validate_leap_year_2000 :
  validateTime 20000229000000 = Ok false /\ IsLeapYear 2000 = true /\ validateTime 20040229000000 = Ok true.
Proof. vm_compute. auto. Qed.

(** A month field of 22 or more makes the product of ints overflow. *)
Lemma validate_overflow : validateTime 20242201000000 = Err UndefinedBehaviour.
Proof. vm_compute. reflexivity. Qed.

(** The week number of two consecutive days of a year goes up exactly on a Sunday. *)
Lemma week_steps_on_sunday localtime now now' :
  let m := localtime (now - 5 * 60 * 60) in
  let m' := localtime (now' - 5 * 60 * 60) in
  tm_ok m -> tm_ok m' -> tm_yday m' = tm_yday m + 1 -> tm_wday m' = (tm_wday m + 1) mod 7 ->
  GetNowWeek365 localtime now' = GetNowWeek365 localtime now + (if tm_wday m' =? 0 then 1 else 0).
Proof.
  intros m m' H H' Hy Hw. unfold GetNowWeek365. fold m m'. rewrite Hy in *.
  destruct H as (_ & _ & _ & _ & _ & _ & Hw1 & Hy1), H' as (_ & _ & _ & _ & _ & _ & Hw2 & Hy2).
  rewrite Hy in Hy2.
  pose proof (Z.rem_bound_pos (tm_yday m + 1) 7). pose proof (Z.quot_rem (tm_yday m + 1) 7).
  pose proof (Z.rem_bound_pos (tm_yday m + 1 + 1) 7). pose proof (Z.quot_rem (tm_yday m + 1 + 1) 7).
  rewrite !wrap_small; split_ifs; Z.to_euclidean_division_equations; lia.
Qed.

(** ** Theorems: random choices *)

Section ArrayLemmas.
Context {A : Type}.
Implicit Types l : list A.

Lemma swap_ok l i j a b :
  0 <= i -> 0 <= j -> l !! Z.to_nat i = Some a -> l !! Z.to_nat j = Some b ->
  swap l i j = Ok (<[Z.to_nat j := a]> (<[Z.to_nat i := b]> l)).
Proof.
  intros Hi Hj Ha Hb. pose proof (lookup_lt_Some _ _ _ Ha). pose proof (lookup_lt_Some _ _ _ Hb).
  unfold swap. rewrite (array_at_lookup _ _ _ Hi Ha), (array_at_lookup _ _ _ Hj Hb), !outcome_bind_ok.
  rewrite array_set_insert, outcome_bind_ok, array_set_insert by (rewrite ?length_insert; lia). done.
Qed.

End ArrayLemmas.

Section RandomTheorems.
Context {R : Type} (rand : R -> Z * R).

Lemma range_loop_seq fuel i max src :
  0 <= i -> max < 2 ^ 32 - 1 -> (Z.to_nat (max - i + 1) < fuel)%nat ->
  range_loop fuel i max src = Ok (src ++ seqZ i (max - i + 1)).
Proof.
  revert i src. induction fuel as [|fuel IH]; intros i src Hi Hm Hf; [lia|]. simpl.
  destruct (i <=? max) eqn:E; to_prop.
  - rewrite wrap_small, IH by lia. rewrite <- app_assoc. do 2 f_equal.
    rewrite (seqZ_cons i) by lia. cbn [app]. do 2 f_equal; lia.
  - rewrite seqZ_nil, app_nil_r by lia. done.
Qed.

Lemma draw_loop_sample count src size tar r :
  Z.of_nat count <= size <= zlen src -> zlen src < 2 ^ 32 ->
  exists l r' rest, draw_loop rand count src size tar r = Ok (tar ++ l, r') /\
    length l = count /\ take (Z.to_nat size) src ≡ₚ l ++ rest.
Proof.
  revert src size tar r. induction count as [|count IH]; intros src size tar r Hs Hl; cbn [draw_loop].
  { exists [], r, (take (Z.to_nat size) src). by rewrite app_nil_r. }
  destruct (rand r) as [v r1]. rewrite guard_defined_true, outcome_bind_ok by lia.
  pose proof (Z.mod_pos_bound (u32 v) size ltac:(lia)) as Hi. set (index := u32 v mod size) in *.
  destruct (lookup_lt_is_Some_2 src (Z.to_nat index)) as [x Hx]; [lia|].
  destruct (lookup_lt_is_Some_2 src (Z.to_nat (size - 1))) as [b Hb]; [lia|].
  rewrite (array_at_lookup src index x), outcome_bind_ok, (wrap_small 32 (size - 1)) by (done || lia).
  rewrite (swap_ok src index (size - 1) x b), outcome_bind_ok by (done || lia).
  destruct (IH (<[Z.to_nat (size - 1):=x]> (<[Z.to_nat index:=b]> src)) (size - 1) (tar ++ [x]) r1)
    as (l & r' & rest & E & Hlen & Hp); [rewrite !length_insert; lia.. |].
  exists (x :: l), r', rest. rewrite E, <- app_assoc. split; [done|]. split; [simpl; lia|].
  replace (Z.to_nat size) with (S (Z.to_nat (size - 1))) by lia.
  rewrite (take_swap_last src _ (Z.to_nat index) x b), Hp by (done || lia). done.
Qed.

(** [GetRandList] on a range of uint32 below the largest one: it ends, and when
    the range holds [count] numbers it appends exactly [count] distinct numbers of the
    range to [tar], whatever [rand] returns; when it does not, it answers false and
    leaves [tar] alone. *)
Theorem get_rand_list_sample fuel min max count tar r :
  0 <= min <= max -> max < 2 ^ 32 - 1 -> 0 <= count -> (Z.to_nat (max - min + 1) < fuel)%nat ->
  if count <=? max - min + 1 then
    exists l r', GetRandList rand fuel min max count tar r = Ok (true, tar ++ l, r') /\
      zlen l = count /\ NoDup l /\ Forall (fun x => min <= x <= max) l
  else GetRandList rand fuel min max count tar r = Ok (false, tar, r).
Proof.
  intros Hr Hm Hc Hf. unfold GetRandList.
  rewrite (wrap_small 32 (max - min)), (wrap_small 32 (max - min + 1)) by lia.
  destruct (count <=? max - min + 1) eqn:E; to_prop.
  2:{ by rewrite (proj2 (Z.ltb_lt _ _) E). }
  rewrite (proj2 (Z.ltb_ge _ _) E), range_loop_seq, outcome_bind_ok, app_nil_l by lia.
  assert (zlen (seqZ min (max - min + 1)) = max - min + 1) as Hl by (rewrite length_seqZ; lia).
  rewrite Hl, wrap_small by lia. rewrite (proj2 (Z.eqb_neq (max - min + 1) 0)) by lia.
  destruct (draw_loop_sample (Z.to_nat count) (seqZ min (max - min + 1)) (max - min + 1) tar r)
    as (l & r' & rest & -> & Hlen & Hp); [lia.. |].
  rewrite take_ge in Hp by lia. exists l, r'. split; [done|]. split; [lia|].
  pose proof (NoDup_seqZ min (max - min + 1)) as Hnd. rewrite Hp in Hnd. apply list.NoDup_app in Hnd as [Hnd _].
  split; [done|]. apply list.Forall_forall. intros x Hx.
  assert (x ∈ seqZ min (max - min + 1)) as Hin by (rewrite Hp; apply elem_of_app; by left).
  apply elem_of_seqZ in Hin. lia.
Qed.

(** With the largest uint32 as [max] the loop that fills the vector never ends. *)
Lemma range_loop_diverges fuel i src : 0 <= i < 2 ^ 32 -> range_loop fuel i (2 ^ 32 - 1) src = Err OutOfFuel.
Proof.
  revert i src. induction fuel as [|fuel IH]; intros i src Hi; [done|]. simpl range_loop.
  rewrite (proj2 (Z.leb_le i (2 ^ 32 - 1))) by lia. apply IH, (wrap_range 32). lia.
Qed.

Lemma get_rand_list_diverges fuel min count tar r :
  0 < min < 2 ^ 32 -> count <= 2 ^ 32 - min ->
  GetRandList rand fuel min (2 ^ 32 - 1) count tar r = Err OutOfFuel.
Proof.
  intros Hm Hc. unfold GetRandList. rewrite (wrap_small 32 (2 ^ 32 - 1 - min)), wrap_small by lia.
  rewrite (proj2 (Z.ltb_ge _ _)) by lia. rewrite range_loop_diverges by lia. done.
Qed.

(** The bounds the comments of Util.h give: [st, end) and (st, end]. *)
Lemma rand_between_bounds st end_ r :
  0 <= st < end_ -> end_ < 2 ^ 32 ->
  st <= fst (RandBetween1 rand st end_ r) < end_ /\ st < fst (RandBetween2 rand st end_ r) <= end_.
Proof.
  intros Hs He. unfold RandBetween2, RandBetween1. rewrite (proj2 (Z.leb_gt end_ st)) by lia.
  destruct (rand r) as [v r1]. simpl fst. pose proof (Z.mod_pos_bound (u32 v) (end_ - st) ltac:(lia)).
  set (k := u32 v mod (end_ - st)) in *. rewrite (wrap_small 32 (st + k)), wrap_small by lia. lia.
Qed.
End RandomTheorems.

Lemma get_rand_list_sample_witness :
  exists l r', GetRandList (fun r => (r * 7 + 3, r + 1)) 10 5 9 3 [100] 1 = Ok (true, [100] ++ l, r') /\
    zlen l = 3 /\ NoDup l /\ Forall (fun x => 5 <= x <= 9) l.
Proof. apply (get_rand_list_sample (fun r => (r * 7 + 3, r + 1)) 10 5 9 3 [100] 1); simpl; lia. Defined.

(** ** Theorems: addresses *)

(** The table's entry for [k] bits keeps the first [k] bits of a byte. *)
Lemma leftover_mask k :
  0 < k < 8 ->
  exists m, array_at leftover_bits_compare k = Ok m /\
    forall a, is_byte a -> Z.land a m = a / 2 ^ (8 - k) * 2 ^ (8 - k).
Proof.
  intros Hk. assert (k = 1 \/ k = 2 \/ k = 3 \/ k = 4 \/ k = 5 \/ k = 6 \/ k = 7) as Hc by lia.
  destruct Hc as [->|[->|[->|[->|[->|[->| ->]]]]]]; (eexists; split; [reflexivity|]); intros a Ha; apply Z.eqb_eq;
    match goal with |- (Z.land a ?m =? _ / 2 ^ ?e * _) = true =>
      apply (bytes_check (fun a => Z.land a m =? a / 2 ^ e * 2 ^ e)); [by vm_compute | done] end.
Qed.

Lemma byte_of_byte x i : is_byte (byte_of x i).
Proof. apply (wrap_range 8). lia. Qed.

(** The number whose digits to the base 256 are [l], and its first [8 f + k] bits. *)
Fixpoint be (l : bytes) : Z :=
  match l with [] => 0 | a :: l' => a * 2 ^ (8 * zlen l') + be l' end.

Lemma be_bound l : Forall is_byte l -> 0 <= be l < 2 ^ (8 * zlen l).
Proof.
  induction 1 as [|a l Ha Hl IH]; [simpl; lia|]. cbn [be length]. unfold is_byte in Ha.
  replace (8 * Z.of_nat (S (length l))) with (8 + 8 * zlen l) by lia.
  rewrite Z.pow_add_r by lia. change (2 ^ 8) with 256. nia.
Qed.

Lemma be_first_bits l1 l2 f k :
  length l1 = length l2 -> Forall is_byte l1 -> Forall is_byte l2 -> 0 <= k < 8 ->
  8 * Z.of_nat f + k <= 8 * zlen l1 ->
  be l1 / 2 ^ (8 * (zlen l1 - Z.of_nat f) - k) = be l2 / 2 ^ (8 * (zlen l1 - Z.of_nat f) - k) <->
    take f l1 = take f l2 /\ nth f l1 0 / 2 ^ (8 - k) = nth f l2 0 / 2 ^ (8 - k).
Proof.
  intros Hl H1 H2 Hk. revert f l2 Hl H2. induction H1 as [|a l1 Ha H1 IH]; intros f l2 Hl H2 Hf.
  { destruct l2; [|done]. by destruct f. }
  destruct H2 as [|b l2 Hb H2]; [done|]. injection Hl as Hl.
  pose proof (be_bound l1 H1) as B1. pose proof (be_bound l2 H2) as B2. cbn [be length] in *.
  rewrite <- Hl in *. destruct f as [|f]; cbn [take nth].
  - replace (8 * (Z.of_nat (S (length l1)) - Z.of_nat 0) - k) with (8 * zlen l1 + (8 - k)) by lia.
    rewrite Z.pow_add_r, <- !Z.div_div by lia.
    rewrite !Z.div_add_l, (Z.div_small (be l1)), (Z.div_small (be l2)), !Z.add_0_r by lia. intuition.
  - replace (8 * (Z.of_nat (S (length l1)) - Z.of_nat (S f)) - k) with (8 * (zlen l1 - Z.of_nat f) - k) by lia.
    specialize (IH f l2 Hl H2 ltac:(lia)). set (e := 8 * (zlen l1 - Z.of_nat f) - k) in *.
    assert (2 ^ (8 * zlen l1) = 2 ^ (8 * zlen l1 - e) * 2 ^ e) as E
      by (rewrite <- Z.pow_add_r by (unfold e; lia); f_equal; lia).
    rewrite E in *. rewrite !Z.mul_assoc, !Z.div_add_l by (unfold e; lia).
    assert (0 < 2 ^ e) by (apply Z.pow_pos_nonneg; unfold e; lia).
    assert (0 <= be l1 / 2 ^ e < 2 ^ (8 * zlen l1 - e)) by (split; [apply Z.div_pos; lia | apply Z.div_lt_upper_bound; lia]).
    assert (0 <= be l2 / 2 ^ e < 2 ^ (8 * zlen l1 - e)) by (split; [apply Z.div_pos; lia | apply Z.div_lt_upper_bound; lia]).
    split.
    + intros Eq. rewrite !(Z.mul_comm _ (2 ^ (8 * zlen l1 - e))) in Eq.
      apply Z.div_mod_unique in Eq as [-> Eq]; [|lia..]. apply IH in Eq as [-> ->]. done.
    + intros [Et En]. injection Et as -> Et. f_equal. by apply IH.
Qed.

Lemma memory4_bytes x : Forall is_byte (memory4 x).
Proof. repeat (apply Forall_cons; split; [apply byte_of_byte|]) || (repeat constructor; apply byte_of_byte). Qed.

Lemma mread_prefix {A} (l : list A) n : 0 <= n <= zlen l -> mread l 0 n = Ok (take (Z.to_nat n) l).
Proof. intros H. rewrite mread_ok by lia. done. Qed.

Lemma array_at_nth (l : list Z) i : 0 <= i < zlen l -> array_at l i = Ok (nth (Z.to_nat i) l 0).
Proof.
  intros H. apply array_at_lookup; [lia|].
  destruct (lookup_lt_is_Some_2 l (Z.to_nat i)) as [a Ha]; [lia|].
  by rewrite (nth_lookup_Some _ _ _ _ Ha).
Qed.

(** The address as a number whose first byte is the most significant. *)
Definition network_order (x : Z) : Z := be (memory4 x).

(** C33. [ParseCIDRBan] reads nothing outside the two addresses and its table, and
    answers true exactly when the prefix length is at most 32 and the first
    [MaskBits] bits of the addresses, first byte first, are the same. *)
Theorem cidr_ban_prefix IP Mask MaskBits :
  0 <= MaskBits ->
  ParseCIDRBan IP Mask MaskBits =
    Ok ((MaskBits <=? 32) &&
        (network_order IP / 2 ^ (32 - MaskBits) =? network_order Mask / 2 ^ (32 - MaskBits))).
Proof.
  intros Hb. unfold ParseCIDRBan. destruct (32 <? MaskBits) eqn:E; to_prop.
  { by rewrite (proj2 (Z.leb_gt _ _) E). }
  rewrite (proj2 (Z.leb_le _ _) E), andb_true_l.
  pose proof (Z.div_mod MaskBits 8 ltac:(lia)) as Ed. pose proof (Z.mod_pos_bound MaskBits 8 ltac:(lia)) as Hk.
  set (f := MaskBits / 8) in *. set (k := MaskBits mod 8) in *.
  pose proof (be_first_bits (memory4 IP) (memory4 Mask) (Z.to_nat f) k eq_refl
    (memory4_bytes IP) (memory4_bytes Mask) Hk ltac:(simpl length; lia)) as Hf.
  change (zlen (memory4 IP)) with 4 in Hf.
  replace (8 * (4 - Z.of_nat (Z.to_nat f)) - k) with (32 - MaskBits) in Hf by lia.
  fold (network_order IP) (network_order Mask) in Hf.
  set (same := bool_decide (take (Z.to_nat f) (memory4 IP) = take (Z.to_nat f) (memory4 Mask))).
  assert ((if 0 <? f then let* a := mread (memory4 IP) 0 f in let* b := mread (memory4 Mask) 0 f in
             Ok (bool_decide (a = b)) else Ok true) = Ok same) as ->.
  { destruct (0 <? f) eqn:E0; to_prop; [by rewrite !mread_prefix by (simpl length; lia)|].
    unfold same. replace f with 0 by lia. done. }
  rewrite outcome_bind_ok. destruct same eqn:Es; unfold same in Es; to_prop; cbn [negb].
  2:{ f_equal. symmetry. apply Z.eqb_neq. intros Eq. apply Hf in Eq as [Eq _]. done. }
  destruct (0 <? k) eqn:E0; to_prop.
  - destruct (leftover_mask k ltac:(lia)) as (m & Em & Hm).
    rewrite Em, !array_at_nth, !outcome_bind_ok by (simpl length; lia). f_equal.
    apply eq_true_iff_eq. rewrite !Z.eqb_eq, Hf.
    assert (forall x, is_byte (nth (Z.to_nat f) (memory4 x) 0)) as Hn.
    { intros x. apply Forall_nth; [apply memory4_bytes | simpl length; lia]. }
    rewrite !Hm by apply Hn. assert (0 < 2 ^ (8 - k)) by (apply Z.pow_pos_nonneg; lia).
    split; [intros Eq; split; [done | by apply Z.mul_reg_r in Eq; [|lia]] | by intros [_ ->]].
  - f_equal. symmetry. apply Z.eqb_eq, Hf. split; [done|]. replace (8 - k) with 8 by lia.
    assert (forall x, 0 <= nth (Z.to_nat f) (memory4 x) 0 < 2 ^ 8) as Hn.
    { intros x. destruct (Nat.lt_ge_cases (Z.to_nat f) 4).
      - apply (Forall_nth is_byte); [apply memory4_bytes | simpl length; lia].
      - rewrite nth_overflow by (simpl length; lia). lia. }
    by rewrite !Z.div_small by apply Hn.
Qed.

Lemma cidr_ban_prefix_witness :
  ParseCIDRBan 117549248 25209024 20 =
    Ok ((20 <=? 32) && (network_order 117549248 / 2 ^ (32 - 20) =? network_order 25209024 / 2 ^ (32 - 20))).
Proof. apply (cidr_ban_prefix 117549248 25209024 20). lia. Defined.

(** The text of an address gives the number whose little-endian bytes are its parts. *)
Definition dotted (b0 b1 b2 b3 : Z) : bytes :=
  udec b0 ++ [46] ++ udec b1 ++ [46] ++ udec b2 ++ [46] ++ udec b3.

Lemma make_ip_dotted b0 b1 b2 b3 :
  is_byte b0 -> is_byte b1 -> is_byte b2 -> is_byte b3 ->
  MakeIP (dotted b0 b1 b2 b3) = Ok (b0 + b1 * 2 ^ 8 + b2 * 2 ^ 16 + b3 * 2 ^ 24).
Proof.
  unfold is_byte. intros H0 H1 H2 H3. unfold MakeIP, dotted.
  pose proof (udec_numeral b0 ltac:(lia)) as N0. pose proof (udec_numeral b1 ltac:(lia)) as N1.
  pose proof (udec_numeral b2 ltac:(lia)) as N2. pose proof (udec_numeral b3 ltac:(lia)) as N3.
  rewrite until_nul_id.
  2:{ rewrite !Forall_app. repeat split; eauto using numeral_no_nul; by repeat constructor. }
  rewrite <- (app_nil_r (udec b3)). cbn [app].
  assert (forall b, 0 <= b < 256 -> in_uint b = true) as I by (unfold in_uint; lia).
  rewrite (sscanf_int _ _ _ _ _ N0), sscanf_lit by (done || by apply I).
  rewrite (sscanf_int _ _ _ _ _ N1), sscanf_lit by (done || by apply I).
  rewrite (sscanf_int _ _ _ _ _ N2), sscanf_lit by (done || by apply I).
  rewrite (sscanf_int _ _ _ _ _ N3) by (done || by apply I). cbn [sscanf mbind outcome_bind map].
  rewrite !Z.shiftl_mul_pow2, (wrap_small 32 b0), (wrap_small 32 b1), (wrap_small 32 b2), (wrap_small 32 b3) by lia.
  rewrite !(wrap_small 32) by lia.
  rewrite (lor_add 8), (lor_add 16), (lor_add 24) by lia. done.
Qed.

(** ** Theorems: durations *)

Inductive period_unit := Year | Month | Day | Hour.

Definition unit_letter (u : period_unit) : Z :=
  match u with Year => 121 | Month => 109 | Day => 100 | Hour => 104 end.
Definition unit_seconds (u : period_unit) : Z :=
  match u with Year => 360 * 86400 | Month => 30 * 86400 | Day => 86400 | Hour => 3600 end.

(** The text of a period: numbers with units, then perhaps a number of minutes. *)
Definition period_text (items : list (Z * period_unit)) (minutes : option Z) : bytes :=
  flat_map (fun it => udec (fst it) ++ [unit_letter (snd it)]) items ++
  match minutes with Some n => udec n | None => [] end.

Definition period_seconds (items : list (Z * period_unit)) (minutes : option Z) : Z :=
  fold_right (fun it s => fst it * unit_seconds (snd it) + s) 0 items +
  match minutes with Some n => n * 60 | None => 0 end.

Lemma strtoul_numeral ds n : numeral ds n -> n <= ulong_max -> strtoul ds = n.
Proof.
  intros Hn Hu. pose proof (numeral_value _ _ Hn) as Hv. destruct Hn as (Hne & Hd & _).
  destruct ds as [|d ds]; [done|]. pose proof (Forall_inv Hd) as Hd1. unfold is_digit in Hd1.
  unfold strtoul. cbn [skip_spaces]. assert (is_space d = false) as -> by (unfold is_space; lia).
  assert ((d =? 45) = false) as -> by lia. assert ((d =? 43) = false) as -> by lia.
  rewrite Hv. by rewrite (proj2 (Z.ltb_ge _ _)).
Qed.

Lemma strtouint32_numeral ds n : numeral ds n -> n < 2 ^ 32 -> strtouint32 ds = n.
Proof.
  intros Hn Hu. unfold strtouint32, isNum. pose proof (numeral_value _ _ Hn) as Hv.
  assert (n < 2 ^ 1024 - 2 ^ 970) as Hb by (apply (Z.lt_trans _ (2 ^ 32)); [done | by vm_compute]).
  destruct ds as [|d ds]; [by destruct Hn as [Hne _]|].
  rewrite Hv, (proj2 (Z.ltb_lt _ _) Hb).
  apply strtoul_numeral; [done | unfold ulong_max; lia].
Qed.

Lemma after_digits_length s : (length (after_digits s) <= length s)%nat.
Proof. induction s as [|c s IH]; simpl; [lia|]. destruct (is_digit c); simpl; lia. Qed.

(** The loop ends on every text. *)
Lemma period_loop_total fuel p t : (length p < fuel)%nat -> exists r, period_loop fuel p t = Ok r.
Proof.
  revert p t. induction fuel as [|fuel IH]; intros p t Hf; [lia|]. cbn [period_loop].
  destruct p as [|c p]; [eauto|]. destruct (is_digit c) eqn:Ec; cbn [negb]; [|eauto].
  pose proof (after_digits_length p) as Hl. cbn [after_digits length] in *. rewrite Ec.
  destruct (after_digits p) as [|l p'] eqn:E; [apply IH; simpl; lia|].
  simpl in Hl. cbv zeta. split_ifs; eauto; apply IH; lia.
Qed.

Lemma period_total str : exists r, GetTimePeriodFromString str = Ok r.
Proof. apply period_loop_total. lia. Qed.

(** One round: a number and its unit, or a last number of minutes. *)
Lemma period_loop_unit fuel ds n u rest t :
  numeral ds n -> 0 <= n < 2 ^ 32 ->
  period_loop (S fuel) (ds ++ unit_letter u :: rest) t = period_loop fuel rest (u32 (t + n * unit_seconds u)).
Proof.
  intros Hn Hr. pose proof Hn as (Hne & Hd & Hv).
  destruct (digits_prefix_app ds (unit_letter u :: rest) Hd ltac:(by destruct u)) as [E1 E2].
  destruct ds as [|d ds]; [done|]. pose proof (Forall_inv Hd) as Hd1. cbn [app] in *.
  cbn [period_loop]. rewrite Hd1, E1, E2. cbn [negb].
  rewrite (strtouint32_numeral (d :: ds) n) by (done || lia).
  assert (forall k, u32 (t + u32 (k * n)) = u32 (t + n * k)) as W
    by (intros; unfold wrap; rewrite Z.add_mod_idemp_r by lia; f_equal; lia).
  rewrite !W. by destruct u.
Qed.

Lemma period_loop_minutes fuel ds n t :
  numeral ds n -> 0 <= n < 2 ^ 32 -> period_loop (S (S fuel)) ds t = Ok (i32 (t + n * 60)).
Proof.
  intros Hn Hr. pose proof Hn as (Hne & Hd & Hv).
  destruct (digits_prefix_app ds [] Hd I) as [E1 E2]. rewrite app_nil_r in E1, E2.
  destruct ds as [|d ds]; [done|]. pose proof (Forall_inv Hd) as Hd1.
  cbn [period_loop]. rewrite Hd1, E1, E2. cbn [negb].
  rewrite (strtouint32_numeral (d :: ds) n) by (done || lia).
  f_equal. rewrite (swrap_wrap 32) by lia. unfold swrap, wrap. f_equal.
  rewrite <- (Z.add_mod_idemp_l (t + _)), Z.add_mod_idemp_r, Z.add_mod_idemp_l by lia.
  f_equal. change TIME_MINUTE with 60. lia.
Qed.

Definition below_2_32 (n : Z) : Prop := 0 <= n < 2 ^ 32.

Lemma udec_numeral32 n : below_2_32 n -> numeral (udec n) n.
Proof. intros H. apply udec_numeral. unfold below_2_32 in H. lia. Qed.

Lemma i32_u32_add a b : i32 (u32 a + b) = i32 (a + b).
Proof. unfold swrap, wrap. f_equal. rewrite <- !Z.add_assoc, Z.add_mod_idemp_l by lia. done. Qed.

Lemma period_loop_text fuel items minutes t :
  Forall (fun it => below_2_32 (fst it)) items -> from_option below_2_32 True minutes ->
  (length (period_text items minutes) < fuel)%nat ->
  period_loop fuel (period_text items minutes) t = Ok (i32 (t + period_seconds items minutes)).
Proof.
  intros Hi Hm. revert fuel t. induction Hi as [|[n u] items Hn Hi IH]; intros fuel t Hf.
  - unfold period_text, period_seconds in *. cbn [flat_map fold_right app] in *.
    destruct minutes as [n|]; simpl in Hm.
    + pose proof (udec_numeral32 n Hm) as (Hne & _). destruct (udec n) eqn:Eu; [done|].
      destruct fuel as [|[|fuel]]; [lia | simpl in Hf; lia|]. rewrite <- Eu.
      rewrite (period_loop_minutes _ _ _ _ (udec_numeral32 n Hm) Hm). do 2 f_equal.
    + destruct fuel; [lia|]. simpl. by rewrite !Z.add_0_r.
  - unfold period_text in *. cbn [flat_map fst snd] in *. rewrite <- !app_assoc in *. cbn [app] in *.
    destruct fuel as [|fuel]; [lia|]. rewrite length_app in Hf. simpl in Hf.
    rewrite (period_loop_unit _ _ _ _ _ _ (udec_numeral32 n Hn) Hn), IH, i32_u32_add by lia.
    do 2 f_equal. unfold period_seconds. cbn [fold_right fst snd]. lia.
Qed.

Lemma period_text_no_nul items minutes :
  Forall (fun it => below_2_32 (fst it)) items -> from_option below_2_32 True minutes ->
  Forall (fun c => c <> 0) (period_text items minutes).
Proof.
  intros Hi Hm. unfold period_text. apply Forall_app. split.
  - induction Hi as [|[n u] items Hn Hi IH]; [constructor|]. cbn [flat_map fst snd]. rewrite !Forall_app.
    repeat split; [eapply numeral_no_nul, udec_numeral32, Hn | by constructor; [destruct u|] | done].
  - destruct minutes; [eapply numeral_no_nul, udec_numeral32, Hm | constructor].
Qed.

(** [GetTimePeriodFromString] on numbers below 2^32 with their units, and perhaps
    a last number of minutes, returns the sum of the periods in seconds, converted to
    an int32 (a month is 30 days and a year 360). *)
Theorem time_period_sum items minutes :
  Forall (fun it => below_2_32 (fst it)) items -> from_option below_2_32 True minutes ->
  GetTimePeriodFromString (period_text items minutes) = Ok (i32 (period_seconds items minutes)).
Proof.
  intros Hi Hm. unfold GetTimePeriodFromString. rewrite until_nul_id by by apply period_text_no_nul.
  rewrite period_loop_text by (done || lia). done.
Qed.

Lemma time_period_sum_witness :
  GetTimePeriodFromString (period_text [(2, Day); (3, Hour)] (Some 15)) =
    Ok (i32 (period_seconds [(2, Day); (3, Hour)] (Some 15))).
Proof.
  apply (time_period_sum [(2, Day); (3, Hour)] (Some 15)); [|by vm_compute].
  repeat constructor; by vm_compute.
Defined.

(** The counts of [ConvertTimeStampToString] are the digits of the time in mixed radix,
    below 2^31 seconds; from there on all of it is taken for seconds. *)
Lemma duration_mixed_radix ts :
  0 <= ts < 2 ^ 31 ->
  let d := duration_of ts in
  ts = seconds d + 60 * (mins d + 60 * (hours d + 24 * (days d + 30 * (months d + 12 * years d)))) /\
  0 <= seconds d < 60 /\ 0 <= mins d < 60 /\ 0 <= hours d < 24 /\ 0 <= days d < 30 /\
  0 <= months d < 12 /\ 0 <= years d.
Proof.
  intros H. unfold duration_of. rewrite i32_small by lia.
  assert (forall a b, 0 <= a -> 0 < b -> a ÷ b = a / b) as Q by (intros; apply Z.quot_div_nonneg; lia).
  cbv zeta. split_ifs; simpl; rewrite ?Q by (Z.to_euclidean_division_equations; lia);
    Z.to_euclidean_division_equations; lia.
Qed.

(** ** Identifiers *)

Lemma based_value_space base acc s : base <= 16 -> based_value base acc (32 :: s) = acc.
Proof. intros H. simpl. change (digit_of 32) with 99. by rewrite (proj2 (Z.ltb_ge 99 base)) by lia. Qed.

Lemma digit_of_decimal c : 48 <= c <= 57 -> digit_of c = c - 48 /\ is_space c = false.
Proof. intros H. unfold digit_of, is_digit, is_space. split; [rewrite (proj2 (Z.leb_le 48 c)), (proj2 (Z.leb_le c 57)) by lia; done | lia]. Qed.

Lemma strtoui64_two a b rest :
  49 <= a <= 57 -> 48 <= b <= 57 -> strtoui64 (a :: b :: 32 :: rest) = 10 * (a - 48) + (b - 48).
Proof.
  intros Ha Hb. destruct (digit_of_decimal a ltac:(lia)) as [Da Sa], (digit_of_decimal b Hb) as [Db _].
  assert (based_value 10 0 (a :: b :: 32 :: rest) = 10 * (a - 48) + (b - 48)) as E.
  { cbn [based_value]. rewrite Da, Db. change (digit_of 32) with 99.
    rewrite (proj2 (Z.ltb_lt (a - 48) 10)), (proj2 (Z.ltb_lt (b - 48) 10)) by lia. done. }
  unfold strtoui64. cbn [skip_spaces]. rewrite Sa.
  assert (a = 49 \/ a = 50 \/ a = 51 \/ a = 52 \/ a = 53 \/ a = 54 \/ a = 55 \/ a = 56 \/ a = 57) as Hc by lia.
  destruct Hc as [->|[->|[->|[->|[->|[->|[->|[->| ->]]]]]]]]; rewrite E, (proj2 (Z.ltb_ge _ _)) by lia; done.
Qed.

(** From January to October [IDCreator] gives the two digits of the year, whatever the
    time, the counter and the server: "%2u" pads the month with a space, where the
    number that is read back ends. *)
Lemma id_creator_collides local serverId Index :
  10 <= Z.rem (tm_year local) 100 -> 0 <= tm_mon local < 10 ->
  fst (IDCreator.GenerateNextID local serverId Index) = Z.rem (tm_year local) 100.
Proof.
  intros Hy Hm. unfold IDCreator.GenerateNextID. cbv zeta. cbn [fst].
  pose proof (Z.rem_bound_abs (tm_year local) 100 ltac:(lia)) as Hb.
  set (y := Z.rem (tm_year local) 100) in *. assert (10 <= y < 100) as Hy' by lia. clearbody y. clear Hb Hy.
  rewrite !(wrap_small 32 y), (wrap_small 32 (tm_mon local)) by lia.
  assert (spad 2 (udec (tm_mon local)) = [32; 48 + tm_mon local]) as ->.
  { unfold udec. cbn [dec_loop]. rewrite (proj2 (Z.ltb_lt (tm_mon local) 10)), Z.mod_small by lia. done. }
  cbn [app]. generalize (48 + tm_mon local :: spad 2 (udec (u32 (tm_mday local))) ++
    spad 2 (udec (u32 (tm_hour local))) ++ spad 2 (udec (u32 (tm_min local))) ++
    spad 2 (udec (u32 (tm_sec local))) ++
    zpad 3 (udec (if 999 <? u32 (Index + 1) then 1 else u32 (Index + 1))) ++ zpad 4 (udec (serverId mod 10000))).
  intros rest.
  assert (forallb (fun n => let y := Z.of_nat n in
    match spad 2 (udec y) with [a; b] => (49 <=? a) && (a <=? 57) && (48 <=? b) && (b <=? 57) &&
      (10 * (a - 48) + (b - 48) =? y) | _ => false end) (seq 10 90) = true) as Hall by by vm_compute.
  rewrite forallb_forall in Hall. specialize (Hall (Z.to_nat y)). rewrite in_seq, Z2Nat.id in Hall by lia.
  specialize (Hall ltac:(lia)). cbv zeta in Hall.
  destruct (spad 2 (udec y)) as [|a [|b [|]]]; try done. to_prop. cbn [app]. rewrite strtoui64_two; lia.
Qed.
