(* ===== verification/IocpSocket.v ===== *)
(** * The IOCP socket

    io/win/shared: Socket.{hpp,cpp}, SocketMgr.{hpp,cpp} and socketDefines.hpp: a
    connected socket with a CircularBuffer for each direction, which the system reads
    into and writes from directly, and the handlers of the worker threads.

    Module Socket is the class: a [direction] groups the members that it has for reading
    and again for writing.  What a WSASend or WSARecv returns is an argument ([wsa]); what
    was handed to the system is in [posted].  A [std::mutex] that its holder locks again
    is undefined behaviour.  Class [Derived] is what the base class and the handlers know
    of a derived class: its virtual OnRead.  Module SocketMgr has the handlers. *)

From stdpp Require Import base tactics option list numbers.
From Stdlib Require Import ZArith Lia Bool.
From S2P Require Import Prelude RingBuffer.

#[local] Open Scope Z_scope.

Module Socket.

Inductive SockeIOEvent :=
| SOCKET_IO_NONE
| SOCKET_IO_EVENT_READ_COMPLETE
| SOCKET_IO_EVENT_WRITE_END
| SOCKET_IO_THREAD_SHUT_DOWN.

Record OverlappedRec := Overlapped { event : SockeIOEvent; inUse : bool }.

Definition Mark (o : OverlappedRec) : OverlappedRec := Overlapped (event o) true.
Definition Unmark (o : OverlappedRec) : OverlappedRec := Overlapped (event o) false.
Definition Reset (ev : SockeIOEvent) (o : OverlappedRec) : OverlappedRec := Overlapped ev (inUse o).

(** A call of WSASend or WSARecv: accepted (now, with so many bytes, or pending), or
    refused. *)
Inductive wsa := Started (transferred : Z) | Failed.

(** m_readBuffer, m_readEvent, m_BytesRecved, m_readMutex (is it held), and the same for
    writing; [posted]: the address and the number of bytes that the system has. *)
Record direction := Direction {
  buffer : regions; overlapped : OverlappedRec; bytes : Z; held : bool; posted : option (Z * Z)
}.

Definition with_buffer (b : regions) (d : direction) : direction := Direction b (overlapped d) (bytes d) (held d) (posted d).
Definition with_overlapped (o : OverlappedRec) (d : direction) : direction := Direction (buffer d) o (bytes d) (held d) (posted d).
Definition count (n : Z) (d : direction) : direction := Direction (buffer d) (overlapped d) (u64 (bytes d + n)) (held d) (posted d).
Definition with_held (h : bool) (d : direction) : direction := Direction (buffer d) (overlapped d) (bytes d) h (posted d).
Definition with_posted (p : option (Z * Z)) (d : direction) : direction := Direction (buffer d) (overlapped d) (bytes d) (held d) p.

(** [std::mutex::lock] by the thread that runs. *)
Definition lock (d : direction) : outcome direction := guard_defined (negb (held d)) ;;* Ok (with_held true d).
Definition unlock (d : direction) : direction := with_held false d.

(** [assigned]: bound to the completion port; [listed]: in the manager's socketList;
    [closed]: CloseSocket was called. *)
Record t := Mk {
  reading : direction; writing : direction; m_writeLock : Z; m_connected : bool; m_deleted : bool;
  m_fd : Z; m_completionPort : Z; assigned : bool; listed : bool; closed : bool
}.

Definition with_reading (d : direction) (s : t) : t :=
  Mk d (writing s) (m_writeLock s) (m_connected s) (m_deleted s) (m_fd s) (m_completionPort s) (assigned s) (listed s) (closed s).
Definition with_writing (d : direction) (s : t) : t :=
  Mk (reading s) d (m_writeLock s) (m_connected s) (m_deleted s) (m_fd s) (m_completionPort s) (assigned s) (listed s) (closed s).
Definition with_lock (n : Z) (s : t) : t :=
  Mk (reading s) (writing s) n (m_connected s) (m_deleted s) (m_fd s) (m_completionPort s) (assigned s) (listed s) (closed s).
Definition with_connected (b : bool) (s : t) : t :=
  Mk (reading s) (writing s) (m_writeLock s) b (m_deleted s) (m_fd s) (m_completionPort s) (assigned s) (listed s) (closed s).
Definition with_deleted (b : bool) (s : t) : t :=
  Mk (reading s) (writing s) (m_writeLock s) (m_connected s) b (m_fd s) (m_completionPort s) (assigned s) (listed s) (closed s).
Definition with_listed (b : bool) (s : t) : t :=
  Mk (reading s) (writing s) (m_writeLock s) (m_connected s) (m_deleted s) (m_fd s) (m_completionPort s) (assigned s) b (closed s).
Definition with_closed (b : bool) (s : t) : t :=
  Mk (reading s) (writing s) (m_writeLock s) (m_connected s) (m_deleted s) (m_fd s) (m_completionPort s) (assigned s) (listed s) b.

(** A block as malloc returns it: address and contents. *)
Definition block_t : Type := Z * list Z.

Definition new_direction (size : Z) (m : block_t) : direction :=
  Direction (CircularBuffer.Allocate size m.1 m.2 CircularBuffer.empty) (Overlapped SOCKET_IO_NONE false) 0 false None.

(** The constructor; [created] is what CreateTCPFileDescriptor returns. *)
Definition Socket (fd sendbufSize recvBufSize created : Z) (rb wb : block_t) : t :=
  Mk (new_direction recvBufSize rb) (new_direction sendbufSize wb) 0 false false
    (if fd =? 0 then created else fd) 0 false false false.

Definition SetCompletionPort (cp : Z) (s : t) : t :=
  Mk (reading s) (writing s) (m_writeLock s) (m_connected s) (m_deleted s) (m_fd s) cp (assigned s) (listed s) (closed s).
Definition AssignToCompletionPort (s : t) : t :=
  if negb (m_fd s =? 0) && negb (m_completionPort s =? 0) then
    Mk (reading s) (writing s) (m_writeLock s) (m_connected s) (m_deleted s) (m_fd s) (m_completionPort s) true (listed s) (closed s)
  else s.

Definition IsDeleted (s : t) : bool := m_deleted s.
Definition IsConnected (s : t) : bool := m_connected s.
Definition IncSendLock (s : t) : t := with_lock (m_writeLock s + 1) s.
Definition DecSendLock (s : t) : t := with_lock (m_writeLock s - 1) s.
Definition AcquireSendLock (s : t) : bool * t := (if negb (m_writeLock s =? 0) then false else true, with_lock 1 s).

(** Disconnect and Delete call each other, at most [calls] deep. *)
Fixpoint Disconnect_n (calls : nat) (s : t) : t :=
  match calls with
  | O => s
  | S n =>
      if negb (m_connected s) then s
      else
        let s := with_listed false (with_connected false s) in
        if negb (IsDeleted s) then Delete_n n s else s
  end
with Delete_n (calls : nat) (s : t) : t :=
  match calls with
  | O => s
  | S n =>
      if negb (m_deleted s) then s
      else
        let s := with_deleted true s in
        let s := if IsConnected s then Disconnect_n n s else s in
        with_closed true s
  end.

Definition Disconnect (s : t) : t := Disconnect_n 4 s.
Definition Delete (s : t) : t := Delete_n 4 s.

(** The call of WSASend or WSARecv: what it leaves of the event and the counter. *)
Definition start_io (ev : SockeIOEvent) (p len : Z) (ans : wsa) (d : direction) : direction :=
  let d := with_overlapped (Reset ev (Mark (overlapped d))) d in
  match ans with
  | Started n => count n (with_posted (Some (p, len)) d)
  | Failed => with_overlapped (Unmark (overlapped d)) d
  end.

Definition WriteCallback (ans : wsa) (s : t) : outcome t :=
  if IsDeleted s || negb (IsConnected s) then Ok s
  else
    let* d := lock (writing s) in
    let b := buffer d in
    let s :=
      if negb (CircularBuffer.GetContiguiousBytes b =? 0) then
        let len := u32 (CircularBuffer.GetContiguiousBytes b) in
        let d := start_io SOCKET_IO_EVENT_WRITE_END (CircularBuffer.GetBufferStart b) len ans d in
        let s := with_writing d s in
        match ans with Started _ => s | Failed => Disconnect (DecSendLock s) end
      else DecSendLock (with_writing d s) in
    Ok (with_writing (unlock (writing s)) s).

Definition SetupReadEvent (ans : wsa) (s : t) : outcome t :=
  if IsDeleted s || negb (IsConnected s) then Ok s
  else
    let* d := lock (reading s) in
    let '(len, b) := CircularBuffer.GetSpace (buffer d) in
    let d := start_io SOCKET_IO_EVENT_READ_COMPLETE (CircularBuffer.GetBuffer b) (u32 len) ans (with_buffer b d) in
    let s := with_reading d s in
    let s := match ans with Started _ => s | Failed => Disconnect s end in
    Ok (with_reading (unlock (reading s)) s).

Definition BurstBegin (s : t) : outcome t := let* d := lock (writing s) in Ok (with_writing d s).
Definition BurstEnd (s : t) : t := with_writing (unlock (writing s)) s.

Definition BurstSend (Bytes : list Z) (s : t) : outcome (bool * t) :=
  let* (rv, b) := CircularBuffer.Write Bytes (buffer (writing s)) in
  Ok (rv, with_writing (with_buffer b (writing s)) s).

Definition BurstPush (ans : wsa) (s : t) : outcome t :=
  let '(got, s) := AcquireSendLock s in if got then WriteCallback ans s else Ok s.

Definition Send (Bytes : list Z) (ans : wsa) (s : t) : outcome (bool * t) :=
  let* s := BurstBegin s in
  let* (rv, s) := BurstSend Bytes s in
  let* s := if rv : bool then BurstPush ans s else Ok s in
  Ok (rv, BurstEnd s).

(** OnConnect, which is virtual, only prints. *)
Definition _OnConnect (ans : wsa) (s : t) : outcome t :=
  let s := AssignToCompletionPort (with_connected true s) in
  let* s := SetupReadEvent ans s in
  Ok (with_listed true s).

Definition Accept (ans : wsa) (s : t) : outcome t := _OnConnect ans s.

(** [fd]: what open_clientfd returns, an unsigned SOCKET; [port]: the manager's. *)
Definition Connect (fd port : Z) (ans : wsa) (s : t) : outcome (bool * t) :=
  let s := Mk (reading s) (writing s) (m_writeLock s) (m_connected s) (m_deleted s) fd (m_completionPort s) (assigned s) (listed s) (closed s) in
  if fd <=? 0 then Ok (false, s)
  else let* s := _OnConnect ans (SetCompletionPort port s) in Ok (true, s).

End Socket.
Import Socket.

(** What a derived class adds: it is a socket, and its OnRead, which may send and hands
    over packets of type [P]. *)
Class Derived (P S : Type) := {
  sock : S -> Socket.t;
  set_sock : Socket.t -> S -> S;
  OnRead : wsa -> S -> outcome (list P * S)
}.

Class DerivedLaws (P S : Type) `{Derived P S} : Prop := {
  sock_set_sock s x : sock (set_sock s x) = s;
  set_sock_set_sock s s' x : set_sock s (set_sock s' x) = set_sock s x;
  set_sock_sock x : set_sock (sock x) x = x
}.

Module SocketMgr.
Section Handlers.
Context {P S : Type} `{Derived P S}.

Definition on_sock (f : Socket.t -> Socket.t) (x : S) : S := set_sock (f (sock x)) x.

(** HandleReadComplete( s, len ); [ws] and [wr]: the results of WSASend and WSARecv. *)
Definition HandleReadComplete (len : Z) (ws wr : wsa) (x : S) : outcome (list P * S) :=
  if negb (IsDeleted (sock x)) then
    let x := on_sock (fun s => with_reading (with_overlapped (Unmark (overlapped (reading s))) (reading s)) s) x in
    if negb (len =? 0) then
      let x := on_sock (fun s => with_reading (with_buffer (CircularBuffer.IncrementWritten len (buffer (reading s))) (reading s)) s) x in
      let* (ps, x) := OnRead ws x in
      let* s := SetupReadEvent wr (sock x) in
      Ok (ps, set_sock s x)
    else Ok ([], on_sock Delete x)
  else Ok ([], x).

Definition HandleWriteComplete (len : Z) (ans : wsa) (x : S) : outcome S :=
  let s := sock x in
  if negb (IsDeleted s) then
    let s := with_writing (with_overlapped (Unmark (overlapped (writing s))) (writing s)) s in
    let* s := BurstBegin s in
    let* b := CircularBuffer.Remove len (buffer (writing s)) in
    let s := with_writing (with_buffer b (writing s)) s in
    let* s := if 0 <? CircularBuffer.GetContiguiousBytes b then WriteCallback ans s else Ok (DecSendLock s) in
    Ok (set_sock (BurstEnd s) x)
  else Ok x.

(** The system stores [bs] where a read was posted and queues a completion, which a
    worker handles (WorkerRun). *)
Definition read_completes (bs : list Z) (ws wr : wsa) (x : S) : outcome (list P * S) :=
  let d := reading (sock x) in
  match posted d with
  | Some (p, len) =>
      guard_defined (zlen bs <=? len) ;;*
      let* b := copy_in p bs (buffer d) in
      HandleReadComplete (zlen bs) ws wr (on_sock (with_reading (with_posted None (with_buffer b d))) x)
  | None => Err UndefinedBehaviour
  end.

(** The system has sent the first [n] of the bytes posted. *)
Definition write_completes (n : Z) (ans : wsa) (x : S) : outcome (list Z * S) :=
  let d := writing (sock x) in
  match posted d with
  | Some (p, len) =>
      guard_defined ((0 <=? n) && (n <=? len)) ;;*
      let* sent := copy_out p n (buffer d) in
      let* x := HandleWriteComplete n ans (on_sock (with_writing (with_posted None d)) x) in
      Ok (sent, x)
  | None => Err UndefinedBehaviour
  end.
End Handlers.

(** CloseAll: [reserve] leaves the vector toKill empty, and its elements are then
    assigned by index; what remains in it is disconnected. *)
Fixpoint fill_to_kill (socketList toKill : list Z) (i : Z) : outcome (list Z) :=
  match socketList with
  | [] => Ok toKill
  | it :: rest => let* toKill := array_set toKill i it in fill_to_kill rest toKill (i + 1)
  end.
Definition CloseAll (socketList : list Z) : outcome (list Z) := fill_to_kill socketList [] 0.
End SocketMgr.

(** ** Room to read into

    A read of length 0 would complete at once with nothing, which is taken for the end of
    the stream.  Region B is only started when region A ends so late that A and B together
    can hold half the block, so a buffer that is at most half full has room. *)

Definition room_inv (q : regions) : Prop :=
  m_regionBPointer q <> 0 -> zlen (block q) < 2 * (m_regionAPointer q - m_buffer q) + m_regionASize q.

Lemma room_no_B q : m_regionBPointer q = 0 -> room_inv q.
Proof. intros H Hn. congruence. Qed.

Lemma compact_room q q' : weak_inv q -> (m_regionASize q <> 0 -> room_inv q) ->
  CircularBuffer.compact q = Ok q' -> room_inv q' /\ length (block q') = length (block q).
Proof.
  intros Hw Hr H. unfold CircularBuffer.compact in H.
  destruct (m_regionASize q =? 0) eqn:EA; to_prop; [|injection H as <-; split; [by apply Hr | done]].
  destruct (0 <? m_regionBSize q); [|injection H as <-; by split; [apply room_no_B|]].
  destruct (negb (m_regionBPointer q =? m_buffer q)); [|cbn in H; injection H as <-; by split; [apply room_no_B|]].
  unfold copy_in, copy_out, mwrite, mread in H. destruct (in_block _ _ _) eqn:E1; [|done]. cbn in H.
  destruct (in_block _ _ (zlen _)) eqn:E2; [|done]. cbn in H. injection H as <-. split; [by apply room_no_B|]. simpl.
  unfold in_block in E2. to_prop. apply length_splice; lia.
Qed.

Lemma read_room n q ok out q' : weak_inv q -> room_inv q -> 0 <= n < 2 ^ 64 ->
  CircularBuffer.Read n q = Ok (ok, out, q') -> room_inv q' /\ length (block q') = length (block q).
Proof.
  intros Hw Hr Hn H. unfold CircularBuffer.Read in H.
  destruct (m_buffer q =? 0); [by simplify_eq|]. destruct (u64 _ <? n); [by simplify_eq|].
  rewrite read_A_spec in H by done. cbn [mbind outcome_bind] in H.
  pose proof (remove_A_spec q n Hw Hn) as (HwA & _ & _ & Hcnt & Hz).
  pose proof (weak_A_size _ Hw) as HA.
  rewrite read_B_spec in H by (done || lia). cbn [mbind outcome_bind] in H.
  invert_ok. match goal with H : CircularBuffer.compact ?q2 = Ok _ |- _ => apply compact_room in H as [? Hlen] end.
  - split; [done|]. rewrite Hlen. unfold CircularBuffer.remove_B, CircularBuffer.remove_A. by repeat (case_match; simpl).
  - apply remove_B_spec; [done | lia | done].
  - unfold room_inv in *. pose proof (weak_top _ Hw). pose proof (weak_A_hi _ Hw).
    pose proof (weak_base _ Hw). pose proof (weak_A_lo _ Hw).
    unfold CircularBuffer.remove_A. destruct (0 <? m_regionASize q) eqn:EA; to_prop; simpl.
    + destruct (m_regionASize q <? n) eqn:En; to_prop; unfold CircularBuffer.remove_B; simpl.
      * intros HA0. exfalso. apply HA0. rewrite Z.sub_diag. by destruct (_ && _).
      * rewrite Z.sub_diag. simpl. rewrite wrap_small by lia. intros _ HB. specialize (Hr HB). lia.
    + intros HA0. exfalso. apply HA0. unfold CircularBuffer.remove_B. destruct (_ && _); simpl; lia.
Qed.

Lemma GetSpace_room q : ring_inv q -> room_inv q -> room_inv (CircularBuffer.GetSpace q).2.
Proof.
  intros Hi Hr. pose proof (free_space_A q Hi) as [HfA Hbef]. open_ring Hi. unfold CircularBuffer.GetSpace.
  destruct (m_regionBPointer q =? 0) eqn:EB; to_prop; simpl; [|done].
  rewrite HfA, Hbef. destruct (_ <? _) eqn:E; to_prop; simpl; [|done].
  unfold room_inv. simpl. intros _. lia.
Qed.

Lemma GetSpace_block q : length (block (CircularBuffer.GetSpace q).2) = length (block q).
Proof. unfold CircularBuffer.GetSpace. by repeat (case_match; simpl). Qed.

Lemma direct_fill_room bs q q' : ring_inv q -> room_inv q -> zlen bs <= space q -> direct_fill bs q = Ok q' ->
  room_inv q' /\ length (block q') = length (block q).
Proof.
  intros Hi Hr Hs H. pose proof (GetSpace_spec q Hi) as (Hi1 & Hc1 & Hs0 & Hsp). pose proof (GetSpace_room q Hi Hr) as Hr1.
  pose proof (length_content _ (ring_inv_weak _ Hi1)) as Hl1. rewrite Hc1 in Hl1.
  unfold direct_fill in H. rewrite <- (GetSpace_block q) in *. set (q1 := (CircularBuffer.GetSpace q).2) in *. clearbody q1.
  unfold copy_in, mwrite in H. destruct (in_block _ _ _) eqn:E; [|done]. cbn in H. injection H as <-.
  unfold CircularBuffer.IncrementWritten, room_inv in *. simpl. unfold in_block in E. to_prop.
  destruct (m_regionBPointer q1 =? 0) eqn:EB; to_prop; simpl.
  - split; [done|]. by apply length_splice.
  - split; [|by apply length_splice]. intros _. specialize (Hr1 EB). rewrite (length_splice (block q1)) by done. done.
Qed.

Lemma half_full_has_room q : ring_inv q -> room_inv q -> 0 < zlen (block q) -> 2 * zlen (content q) <= zlen (block q) -> 0 < space q.
Proof.
  intros Hi Hr Hb Hh. pose proof (length_content q (ring_inv_weak _ Hi)) as Hl. rewrite Hl in Hh.
  pose proof (free_space_A q Hi) as [HfA Hbef]. unfold space, CircularBuffer.GetSpace, room_inv in *.
  destruct (m_regionBPointer q =? 0) eqn:EB; to_prop; simpl.
  - rewrite HfA, Hbef. destruct (_ <? _) eqn:E; to_prop; simpl.
    + destruct (allocate_B_inv q Hi EB) as [Hi' _]; [open_ring Hi; lia|].
      destruct (free_space_B _ Hi') as [-> _]; [simpl; open_ring Hi; lia|]. simpl. open_ring Hi. lia.
    + open_ring Hi. lia.
  - destruct (free_space_B q Hi EB) as [-> HB]. specialize (Hr EB). open_ring Hi. lia.
Qed.

(** A little more than half is too much: this buffer of 6 bytes takes no fifth. *)
Example over_half_no_room : exists q, ring_inv q /\ room_inv q /\
  run_ops [Put [1; 2; 3; 4]; Get 3; Put [5; 6; 7]] (Circular (CircularBuffer.Allocate 6 4096 (replicate 6 0) CircularBuffer.empty))
  = Ok ([1; 2; 3; 4; 5; 6; 7], [1; 2; 3], Circular q) /\ zlen (content q) = 4 /\ space q = 0.
Proof.
  exists (Regions [5; 6; 7; 4; 0; 0] 4096 4102 4099 1 4096 3).
  split; [split; simpl; lia|]. split; [intros _; simpl; lia|]. by vm_compute.
Qed.

(** ** Sending *)

(** A connected socket whose send lock and mutex are free. *)
Record can_send (s : Socket.t) : Prop := {
  cs_connected : m_connected s = true;
  cs_deleted : m_deleted s = false;
  cs_mutex : held (writing s) = false;
  cs_lock : m_writeLock s = 0;
  cs_ring : ring_inv (buffer (writing s))
}.

Lemma send_relocks bs ans s : can_send s -> zlen bs <= space (buffer (writing s)) -> Send bs ans s = Err UndefinedBehaviour.
Proof.
  intros [Hc Hd Hm Hl Hr] Hs. unfold Send, BurstBegin, lock. rewrite Hm. cbn [negb guard_defined mbind outcome_bind].
  unfold BurstSend. cbn [writing with_writing buffer with_held]. destruct (write_spec _ bs Hr) as (b & -> & _). cbn [mbind outcome_bind].
  rewrite bool_decide_true by done. unfold BurstPush, AcquireSendLock. cbn [m_writeLock with_writing]. rewrite Hl. cbn [Z.eqb negb].
  unfold WriteCallback, IsDeleted, IsConnected. cbn [m_deleted m_connected with_lock with_writing]. rewrite Hc, Hd. done.
Qed.

(** A burst: BurstBegin, BurstSend, BurstEnd, BurstPush. *)
Definition burst (bs : list Z) (ans : wsa) (s : Socket.t) : outcome Socket.t :=
  let* s := BurstBegin s in
  let* (_, s) := BurstSend bs s in
  BurstPush ans (BurstEnd s).

Lemma empty_ring_contiguous q : ring_inv q -> m_regionBPointer q = 0 -> CircularBuffer.GetContiguiousBytes q = zlen (content q).
Proof.
  intros Hi HB. rewrite (length_content _ (ring_inv_weak _ Hi)). open_ring Hi. unfold CircularBuffer.GetContiguiousBytes.
  destruct (m_regionASize q =? 0) eqn:E; to_prop; cbn [negb]; lia.
Qed.

Lemma write_empty q bs : ring_inv q -> content q = [] -> zlen bs <= space q ->
  exists q', CircularBuffer.Write bs q = Ok (true, q') /\ ring_inv q' /\ content q' = bs /\
    CircularBuffer.GetContiguiousBytes q' = zlen bs.
Proof.
  intros Hi Hc Hs. destruct (write_spec q bs Hi) as (q' & Hw & Hi' & Hc'). rewrite bool_decide_true, Hc in * by done.
  exists q'. split; [done|]. split; [done|]. split; [done|]. rewrite empty_ring_contiguous; [by rewrite Hc' | done|].
  pose proof (length_content q (ring_inv_weak _ Hi)) as Hl. rewrite Hc in Hl. simpl in Hl.
  pose proof (free_space_A q Hi) as [HfA Hbef]. open_ring Hi. assert (m_regionASize q = 0) as HA by lia. destruct (Hreset HA) as [EA EB].
  unfold CircularBuffer.Write in Hw. rewrite EB, HfA, Hbef, EA, HA in Hw.
  destruct (m_buffer q =? 0) eqn:E; to_prop; [lia|]. cbn [Z.eqb negb] in Hw.
  destruct (_ <? m_buffer q - m_buffer q) eqn:E'; to_prop; [lia|]. unfold CircularBuffer.write_A in Hw.
  destruct (_ <? zlen bs); [done|]. apply outcome_bind_inv in Hw as (q1 & Hq1 & Hw). unfold copy_in in Hq1.
  apply outcome_bind_inv in Hq1 as (b & _ & Hb). injection Hb as <-. injection Hw as <-. done.
Qed.

Lemma copy_out_cases p n q : (exists bs, copy_out p n q = Ok bs) \/ copy_out p n q = Err UndefinedBehaviour.
Proof. unfold copy_out, mread. destruct (in_block _ _ _); eauto. Qed.

(** Its bytes are with the system, whole. *)
Record sending (bs : list Z) (s : Socket.t) : Prop := {
  se_connected : m_connected s = true;
  se_deleted : m_deleted s = false;
  se_mutex : held (writing s) = false;
  se_lock : m_writeLock s = 1;
  se_ring : ring_inv (buffer (writing s));
  se_content : content (buffer (writing s)) = bs;
  se_posted : posted (writing s) = Some (CircularBuffer.GetBufferStart (buffer (writing s)), zlen bs);
  se_whole : copy_out (CircularBuffer.GetBufferStart (buffer (writing s))) (zlen bs) (buffer (writing s)) = Ok bs
}.

Lemma burst_posts bs m s : can_send s -> content (buffer (writing s)) = [] -> bs <> [] ->
  zlen bs <= space (buffer (writing s)) -> zlen bs < 2 ^ 32 -> exists s', burst bs (Started m) s = Ok s' /\ sending bs s'.
Proof.
  intros [Hc Hd Hm Hl Hr] Hcont Hne Hs H32. destruct (write_empty _ bs Hr Hcont Hs) as (b & Hw & Hib & Hcb & Hgb).
  assert (0 < zlen bs) as Hlen by (destruct bs; simpl; [done | lia]).
  destruct (contiguous_read b Hib) as [Hread _]; [by rewrite Hcb|]. rewrite Hgb, Hcb, take_ge in Hread by lia.
  unfold burst, BurstBegin, lock. rewrite Hm. cbn [negb guard_defined mbind outcome_bind].
  unfold BurstSend. cbn [writing with_writing buffer with_held]. rewrite Hw. cbn [mbind outcome_bind].
  unfold BurstPush, AcquireSendLock, BurstEnd. cbn [m_writeLock with_writing]. rewrite Hl. cbn [Z.eqb negb].
  unfold WriteCallback, IsDeleted, IsConnected. cbn [m_deleted m_connected with_lock with_writing]. rewrite Hc, Hd. cbn [negb orb].
  cbn. rewrite Hgb. destruct (zlen bs =? 0) eqn:E0; to_prop; [lia|]. cbn [negb]. rewrite u32_small by lia.
  eexists. split; [reflexivity|]. by split.
Qed.

Section Bursts.
Context {P S : Type} `{DerivedLaws P S}.

(** What is left after a completion decides: the handler has the mutex. *)
Lemma sending_completes bs n ans x : sending bs (sock x) -> 0 <= n <= zlen bs ->
  exists b, ring_inv b /\ content b = drop (Z.to_nat n) bs /\
    SocketMgr.write_completes n ans x =
      let* sent := copy_out (CircularBuffer.GetBufferStart (buffer (writing (sock x)))) n (buffer (writing (sock x))) in
      if 0 <? CircularBuffer.GetContiguiousBytes b then Err UndefinedBehaviour
      else Ok (sent, set_sock (DecSendLock (with_writing (Direction b (Unmark (overlapped (writing (sock x)))) (bytes (writing (sock x))) false None) (sock x))) x).
Proof.
  intros [Hc Hd Hm Hl Hr Hco Hp Hw] Hn. destruct (remove_spec _ n Hr) as (b & Hb & Hib & Hcb).
  { pose proof (length_content _ (ring_inv_weak _ Hr)) as Hlen. rewrite Hco in Hlen. open_ring Hr. lia. }
  rewrite Hco in Hcb. exists b. do 2 (split; [done|]). unfold SocketMgr.write_completes. cbv zeta. rewrite Hp.
  rewrite guard_defined_true by (apply andb_true_iff; lia). cbn [mbind outcome_bind].
  destruct (copy_out _ n _) as [sent|]; [|done]. cbn [mbind outcome_bind].
  unfold SocketMgr.HandleWriteComplete, SocketMgr.on_sock, IsDeleted. rewrite sock_set_sock. cbn [m_deleted with_writing]. rewrite Hd. cbn [negb].
  unfold BurstBegin, lock. cbn. rewrite Hm. cbn [negb guard_defined mbind outcome_bind]. cbn. rewrite Hb. cbn [mbind outcome_bind].
  destruct (0 <? CircularBuffer.GetContiguiousBytes b).
  - unfold WriteCallback, IsDeleted, IsConnected. cbn. by rewrite Hc, Hd.
  - cbn. by rewrite set_sock_set_sock.
Qed.

End Bursts.

(** The class itself: its OnRead does nothing. *)
#[global] Instance plain : Derived Empty_set Socket.t := { sock x := x; set_sock s _ := s; OnRead _ x := Ok ([], x) }.

#[global] Instance plain_laws : DerivedLaws Empty_set Socket.t.
Proof. by split. Qed.

Definition sample_socket : Socket.t := with_connected true (Socket.Socket 5 8 8 0 (4096, replicate 8 0) (8192, replicate 8 0)).


(** ** Ending *)

Lemma delete_does_nothing s : m_deleted s = false -> Delete s = s.
Proof. intros H. unfold Delete. cbn [Delete_n]. by rewrite H. Qed.

(** So a socket is never closed. *)
Lemma disconnect_leaves_open s : m_deleted s = false ->
  Disconnect s = if m_connected s then with_listed false (with_connected false s) else s.
Proof.
  intros H. unfold Disconnect. cbn [Disconnect_n Delete_n]. destruct (m_connected s); [|done]. cbn. by rewrite !H.
Qed.

(** Four calls are as good as more. *)
Lemma disconnect_depth n s : Disconnect_n (4 + n) s = Disconnect s /\ Delete_n (4 + n) s = Delete s.
Proof.
  unfold Disconnect, Delete. destruct n; [done|]. cbn [Nat.add Disconnect_n Delete_n].
  destruct (m_connected s) eqn:E, (m_deleted s) eqn:E'; cbn; rewrite ?E, ?E'; cbn; rewrite ?E'; done.
Qed.

(** The end of the stream: the connection stays as it is, with no read posted. *)
Lemma eof_leaves_socket {P S : Type} `{DerivedLaws P S} (x : S) ws wr p len : m_deleted (sock x) = false ->
  posted (reading (sock x)) = Some (p, len) -> 0 <= len -> in_block (block (buffer (reading (sock x)))) (p - m_buffer (buffer (reading (sock x)))) 0 = true ->
  exists x', SocketMgr.read_completes [] ws wr x = Ok ([], x') /\ posted (reading (sock x')) = None /\
    m_connected (sock x') = m_connected (sock x) /\ listed (sock x') = listed (sock x) /\ closed (sock x') = closed (sock x).
Proof.
  intros Hd Hp Hl Hb. unfold SocketMgr.read_completes. cbv zeta. rewrite Hp. rewrite guard_defined_true by (apply Z.leb_le; simpl; lia).
  cbn [mbind outcome_bind]. unfold copy_in, mwrite. cbn [length]. change (Z.of_nat 0) with 0. rewrite Hb. cbn [mbind outcome_bind].
  unfold SocketMgr.HandleReadComplete, SocketMgr.on_sock, IsDeleted. rewrite !sock_set_sock. cbn [m_deleted with_reading]. rewrite Hd. cbn [negb Z.eqb length].
  rewrite delete_does_nothing by done. eexists. split; [reflexivity|]. by rewrite !sock_set_sock.
Qed.

(** toKill has no element to assign. *)
Lemma close_all_undefined s l : SocketMgr.CloseAll (s :: l) = Err UndefinedBehaviour.
Proof. done. Qed.
