(* ===== verification/IocpPackets.v ===== *)
(** * Packets over the IOCP socket

    io/win/shared/PacketBuffer.hpp and the sockets of io/win/iocpClt and io/win/iocpSrv:
    a packet is an opcode, a length and that many bytes, and OnRead cuts the byte stream
    into packets with two members that remember a header whose packet has not arrived.
    The two OnRead are the same text: [Framing.on_read_loop], given the class's
    HandlePacket.  Modules ClientSocket and ServerSocket have the rest.

    The main theorem is about the whole path: the system stores what arrives, in pieces
    of any size, in the ring buffer; the worker runs OnRead and posts the next read. *)

From stdpp Require Import base tactics option list numbers.
From Stdlib Require Import ZArith Lia Bool.
From S2P Require Import Prelude RingBuffer ByteBuffer IocpSocket.
Import Socket SocketMgr.

#[local] Open Scope Z_scope.

Module PacketBuffer.
Record t := Mk { base : ByteBuffer.t; m_opcode : Z }.

(** The constructors: what is reserved is not stored. *)
Definition PacketBuffer (opcode res : Z) : t := Mk ByteBuffer.empty opcode.
Definition Initialize (opcode : Z) (p : t) : t := Mk (ByteBuffer.clear (base p)) opcode.
Definition GetOpcode (p : t) : Z := m_opcode p.
Definition SetOpcode (opcode : Z) (p : t) : t := Mk (base p) opcode.
Definition resize (n : Z) (p : t) : t := Mk (ByteBuffer.resize n (base p)) (m_opcode p).
Definition size (p : t) : Z := ByteBuffer.size (base p).

(** [contents()] is [&_storage[0]]: there must be an element 0. *)
Definition contents (p : t) : outcome (list Z) :=
  guard_defined (0 <? size p) ;;* Ok (ByteBuffer.contents (base p)).
End PacketBuffer.

(** The bytes of MsgHeader, which is packed. *)
Definition MsgHeader (opcode size : Z) : list Z := to_bytes 2 opcode ++ to_bytes 4 size.

Definition RCMSG_PING : Z := 1.
Definition RSMSG_PING : Z := 2.
Definition RCMSG_MSG : Z := 3.
Definition RSMSG_MSG : Z := 4.

Module Framing.
(** What OnRead works on: the socket, and the header that was read. *)
Record t := Mk { base : Socket.t; m_remaining : Z; m_opcode : Z; m_last_ping : Z }.

Definition with_base (s : Socket.t) (x : t) : t := Mk s (m_remaining x) (m_opcode x) (m_last_ping x).
Definition read_buffer (x : t) : regions := buffer (reading (base x)).
Definition with_read_buffer (b : regions) (x : t) : t :=
  with_base (with_reading (with_buffer b (reading (base x))) (base x)) x.
Definition with_header (opcode remaining : Z) (x : t) : t := Mk (base x) remaining opcode (m_last_ping x).

Section OnRead.
(** HandlePacket, with the result of the WSASend it may reach; at most one is reached
    that is accepted, because the send lock is then taken. *)
Context (HandlePacket : PacketBuffer.t -> wsa -> t -> outcome t).

(** The two Reads of the header: a Read that is refused leaves the member as it was. *)
Definition read_header (x : t) : outcome t :=
  let* (ok, bs, b) := CircularBuffer.Read 2 (read_buffer x) in
  let x := with_read_buffer b (with_header (if ok : bool then of_bytes bs else m_opcode x) (m_remaining x) x) in
  let* (ok, bs, b) := CircularBuffer.Read 4 (read_buffer x) in
  Ok (with_read_buffer b (with_header (m_opcode x) (if ok : bool then of_bytes bs else m_remaining x) x)).

(** The packet, which has arrived. *)
Definition read_packet (x : t) : outcome (PacketBuffer.t * t) :=
  let buff := PacketBuffer.PacketBuffer (m_opcode x) (m_remaining x) in
  if negb (m_remaining x =? 0) then
    let buff := PacketBuffer.resize (m_remaining x) buff in
    let* dst := PacketBuffer.contents buff in
    let* (ok, bs, b) := CircularBuffer.Read (m_remaining x) (read_buffer x) in
    let* s := mwrite dst 0 bs in
    Ok (PacketBuffer.Mk (ByteBuffer.with_storage s (PacketBuffer.base buff)) (PacketBuffer.m_opcode buff), with_read_buffer b x)
  else Ok (buff, x).

Fixpoint on_read_loop (fuel : nat) (ans : wsa) (x : t) : outcome (list PacketBuffer.t * t) :=
  match fuel with
  | O => Err OutOfFuel
  | S fuel' =>
      if (m_remaining x =? 0) && (CircularBuffer.GetSize (read_buffer x) <? 6) then Ok ([], x)
      else
        let* x := if m_remaining x =? 0 then read_header x else Ok x in
        if CircularBuffer.GetSize (read_buffer x) <? m_remaining x then Ok ([], x)
        else
          let* (buff, x) := read_packet x in
          let* x := HandlePacket buff ans x in
          let* (ps, x) := on_read_loop fuel' ans (with_header 0 0 x) in
          Ok (buff :: ps, x)
  end.

(** A round takes a header or the bytes of a packet out of the buffer. *)
Definition on_read (ans : wsa) (x : t) : outcome (list PacketBuffer.t * t) :=
  on_read_loop (S (Z.to_nat (CircularBuffer.GetSize (read_buffer x)))) ans x.
End OnRead.

(** SendPacket: the header, then the bytes if the header was taken. *)
Definition SendPacket (data : PacketBuffer.t) (ans : wsa) (x : t) : outcome t :=
  let* (rv, s) := Send (MsgHeader (PacketBuffer.GetOpcode data) (u32 (PacketBuffer.size data))) ans (base x) in
  if rv : bool then
    let* bs := PacketBuffer.contents data in
    let* (_, s) := Send bs ans s in Ok (with_base s x)
  else Ok (with_base s x).
End Framing.
Import Framing.

Definition send_size : Z := 1024 * 64.
Definition recv_size : Z := 1024 * 512.

Module ClientSocket.
Record t := Client { framing : Framing.t }.

(** ClientSocket(): [now] is time( nullptr ); INVALID_SOCKET is the largest SOCKET. *)
Definition ClientSocket (now : Z) (rb wb : block_t) : t :=
  Client (Framing.Mk (Socket (u64 (-1)) send_size recv_size 0 rb wb) 0 0 now).

Definition HandlePing (recvData : PacketBuffer.t) (x : Framing.t) : outcome Framing.t := Ok x.
Definition HandleMessage (recvData : PacketBuffer.t) (x : Framing.t) : outcome Framing.t := Ok x.
Definition HandlePacket (recvData : PacketBuffer.t) (ans : wsa) (x : Framing.t) : outcome Framing.t :=
  if PacketBuffer.GetOpcode recvData =? RCMSG_PING then HandlePing recvData x
  else if PacketBuffer.GetOpcode recvData =? RCMSG_MSG then HandleMessage recvData x
  else Ok x.

Definition SendPacket (data : PacketBuffer.t) (ans : wsa) (x : t) : outcome t :=
  let* f := Framing.SendPacket data ans (framing x) in Ok (Client f).

#[global] Instance derived : Derived PacketBuffer.t t := {
  sock x := base (framing x);
  set_sock s x := Client (with_base s (framing x));
  OnRead ans x := let* (ps, f) := on_read HandlePacket ans (framing x) in Ok (ps, Client f)
}.

#[global] Instance derived_laws : DerivedLaws PacketBuffer.t t.
Proof. split; [done | done |]. by intros [[]]. Qed.
End ClientSocket.

Module ServerSocket.
Record t := Server { framing : Framing.t }.

Definition ServerSocket (fd created now : Z) (rb wb : block_t) : t :=
  Server (Framing.Mk (Socket fd send_size recv_size created rb wb) 0 0 now).

Definition HandlePing (recvData : PacketBuffer.t) (now : Z) (ans : wsa) (x : Framing.t) : outcome Framing.t :=
  let* x := Framing.SendPacket (PacketBuffer.PacketBuffer RSMSG_PING 4) ans x in
  Ok (Framing.Mk (base x) (m_remaining x) (m_opcode x) now).

(** The contents are also printed, as a string. *)
Definition HandleMessage (recvData : PacketBuffer.t) (ans : wsa) (x : Framing.t) : outcome Framing.t :=
  let* bs := PacketBuffer.contents recvData in
  guard_defined (bool_decide (0 ∈ bs)) ;;*
  Framing.SendPacket recvData ans x.

Definition HandlePacket (now : Z) (recvData : PacketBuffer.t) (ans : wsa) (x : Framing.t) : outcome Framing.t :=
  if PacketBuffer.GetOpcode recvData =? RCMSG_PING then HandlePing recvData now ans x
  else if PacketBuffer.GetOpcode recvData =? RCMSG_MSG then HandleMessage recvData ans x
  else Ok x.

Definition SendPacket (data : PacketBuffer.t) (ans : wsa) (x : t) : outcome t :=
  let* f := Framing.SendPacket data ans (framing x) in Ok (Server f).

Section Now.
(** time( nullptr ) during the call. *)
Context (now : Z).
#[global] Instance derived : Derived PacketBuffer.t t := {
  sock x := base (framing x);
  set_sock s x := Server (with_base s (framing x));
  OnRead ans x := let* (ps, f) := on_read (HandlePacket now) ans (framing x) in Ok (ps, Server f)
}.

#[global] Instance derived_laws : DerivedLaws PacketBuffer.t t.
Proof. split; [done | done |]. by intros [[]]. Qed.
End Now.
End ServerSocket.

(** ** Cutting a stream into packets *)

(** A packet as opcode and bytes: how it is sent, what HandlePacket gets. *)
Definition encode (p : Z * list Z) : list Z := MsgHeader p.1 (zlen p.2) ++ p.2.
Definition packet (p : Z * list Z) : PacketBuffer.t := PacketBuffer.Mk (ByteBuffer.Mk 0 (zlen p.2) p.2) p.1.
Definition packet_ok (p : Z * list Z) : Prop := 0 <= p.1 < 2 ^ 16 /\ zlen p.2 < 2 ^ 32 /\ Forall is_byte p.2.

(** The bytes of the packet that has not arrived in full. *)
Definition partial (x : Framing.t) : list Z :=
  (if m_remaining x =? 0 then [] else MsgHeader (m_opcode x) (m_remaining x)) ++ content (read_buffer x).

Definition waiting (x : Framing.t) : Prop :=
  zlen (content (read_buffer x)) < if m_remaining x =? 0 then 6 else m_remaining x.

Record framing_ok (x : Framing.t) : Prop := {
  fr_ring : ring_inv (read_buffer x);
  fr_room : room_inv (read_buffer x);
  fr_bytes : Forall is_byte (content (read_buffer x));
  fr_remaining : 0 <= m_remaining x < 2 ^ 32;
  fr_opcode : 0 <= m_opcode x < 2 ^ 16
}.

(** Only the read buffer and the header have changed. *)
Definition same_socket (x x' : Framing.t) : Prop :=
  base x' = with_reading (with_buffer (read_buffer x') (reading (base x))) (base x) /\
  length (block (read_buffer x')) = length (block (read_buffer x)).

Lemma same_socket_refl x : same_socket x x.
Proof. by destruct x as [[[] ] ]. Qed.

Lemma same_socket_trans x y z : same_socket x y -> same_socket y z -> same_socket x z.
Proof. intros [H1 L1] [H2 L2]. split; [by rewrite H2, H1 | congruence]. Qed.

Lemma to_of_bytes bs : Forall is_byte bs -> to_bytes (length bs) (of_bytes bs) = bs.
Proof.
  induction 1 as [|b bs Hb _ IH]; [done|]. cbn [length of_bytes]. unfold is_byte in Hb.
  change (to_bytes (S ?n) ?z) with (z mod 256 :: to_bytes n (z / 256)).
  replace ((b + 256 * of_bytes bs) mod 256) with b by (apply (Z.mod_unique _ _ (of_bytes bs)); lia).
  replace ((b + 256 * of_bytes bs) / 256) with (of_bytes bs) by (apply (Z.div_unique _ _ _ b); lia).
  by rewrite IH.
Qed.

Lemma of_bytes_bound bs : Forall is_byte bs -> 0 <= of_bytes bs < 2 ^ (8 * zlen bs).
Proof.
  induction 1 as [|b bs Hb _ IH]; [done|]. cbn [length of_bytes]. unfold is_byte in Hb.
  replace (8 * Z.of_nat (S (length bs))) with (8 + 8 * zlen bs) by lia. rewrite Z.pow_add_r by lia. lia.
Qed.

Lemma length_MsgHeader op n : length (MsgHeader op n) = 6%nat.
Proof. unfold MsgHeader. by rewrite length_app, !length_to_bytes. Qed.

(** Equal headers have equal members. *)
Lemma MsgHeader_inj op n op' n' r r' : 0 <= op < 2 ^ 16 -> 0 <= op' < 2 ^ 16 -> 0 <= n < 2 ^ 32 -> 0 <= n' < 2 ^ 32 ->
  MsgHeader op n ++ r = MsgHeader op' n' ++ r' -> op = op' /\ n = n' /\ r = r'.
Proof.
  intros H1 H2 H3 H4 E. apply app_inj_1 in E as [E ->]; [|by rewrite !length_MsgHeader].
  unfold MsgHeader in E. apply app_inj_1 in E as [E1 E2]; [|by rewrite !length_to_bytes].
  apply (f_equal of_bytes) in E1, E2. rewrite !of_to_bytes in E1, E2. simpl Z.mul in *.
  rewrite !Z.mod_small in E1, E2 by lia. done.
Qed.

(** A Read of bytes that are there. *)
Lemma read_some n x : framing_ok x -> 0 <= n <= zlen (content (read_buffer x)) ->
  exists b, CircularBuffer.Read n (read_buffer x) = Ok (true, take (Z.to_nat n) (content (read_buffer x)), b) /\
    ring_inv b /\ room_inv b /\ content b = drop (Z.to_nat n) (content (read_buffer x)) /\ length (block b) = length (block (read_buffer x)).
Proof.
  intros [Hi Hr _ _ _] Hn. destruct (read_spec _ n Hi Hn) as (b & Hb & Hib & Hc). exists b.
  pose proof (ring_inv_weak _ Hi) as Hw. pose proof (length_content _ Hw).
  assert (0 <= n < 2 ^ 64) as Hn' by (clear Hw; open_ring Hi; lia).
  by destruct (read_room n _ _ _ _ Hw Hr Hn' Hb) as [Hrb Hlen].
Qed.

Lemma size_content x : framing_ok x -> CircularBuffer.GetSize (read_buffer x) = zlen (content (read_buffer x)).
Proof.
  intros [Hi _ _ _ _]. pose proof (ring_inv_weak _ Hi) as Hw. rewrite (length_content _ Hw).
  unfold CircularBuffer.GetSize. open_ring Hi. rewrite wrap_small; lia.
Qed.

Lemma with_read_buffer_ok b op n x : framing_ok x -> ring_inv b -> room_inv b -> length (block b) = length (block (read_buffer x)) ->
  (exists k, content b = drop k (content (read_buffer x))) -> 0 <= op < 2 ^ 16 -> 0 <= n < 2 ^ 32 ->
  framing_ok (with_read_buffer b (with_header op n x)) /\ same_socket x (with_read_buffer b (with_header op n x)).
Proof.
  intros [] Hi Hr Hlen [k Hk] Ho Hn. split; [|by split]. split; try done. unfold read_buffer. simpl. rewrite Hk. by apply Forall_drop.
Qed.

Lemma read_header_spec x : framing_ok x -> 6 <= zlen (content (read_buffer x)) ->
  exists x', read_header x = Ok x' /\ framing_ok x' /\ same_socket x x' /\
    content (read_buffer x) = MsgHeader (m_opcode x') (m_remaining x') ++ content (read_buffer x').
Proof.
  intros Hx Hl. destruct (read_some 2 x Hx) as (b1 & E1 & Hi1 & Hr1 & Hc1 & Hl1); [lia|].
  set (c := content (read_buffer x)) in *. pose proof (fr_bytes _ Hx) as Hb. fold c in Hb.
  assert (Forall is_byte (take 2 c)) as Hb2 by (by apply Forall_take).
  assert (0 <= of_bytes (take 2 c) < 2 ^ 16) as Ho.
  { pose proof (of_bytes_bound _ Hb2) as H. rewrite length_take in H. replace (2 `min` length c)%nat with 2%nat in H by lia. exact H. }
  unfold read_header. rewrite E1. cbn [mbind outcome_bind].
  destruct (with_read_buffer_ok b1 (of_bytes (take 2 c)) (m_remaining x) x) as [Hx1 Hs1]; try done;
    [by eexists | apply Hx|]. change (Z.to_nat 2) with 2%nat in *.
  set (x1 := with_read_buffer b1 _) in *. assert (content (read_buffer x1) = drop 2 c) as Hc1' by done.
  destruct (read_some 4 x1 Hx1) as (b2 & E2 & Hi2 & Hr2 & Hc2 & Hl2); [rewrite Hc1', length_drop; lia|].
  rewrite E2. cbn [mbind outcome_bind]. rewrite Hc1' in *. change (Z.to_nat 4) with 4%nat in *.
  assert (Forall is_byte (take 4 (drop 2 c))) as Hb4 by (by apply Forall_take, Forall_drop).
  assert (0 <= of_bytes (take 4 (drop 2 c)) < 2 ^ 32) as Hn.
  { pose proof (of_bytes_bound _ Hb4) as H. rewrite length_take, length_drop in H. replace (4 `min` (length c - 2))%nat with 4%nat in H by lia. exact H. }
  destruct (with_read_buffer_ok b2 (m_opcode x1) (of_bytes (take 4 (drop 2 c))) x1) as [Hx2 Hs2]; try done.
  { exists 4%nat. by rewrite Hc1'. }
  eexists. split; [reflexivity|]. split; [done|]. split; [by eapply same_socket_trans|].
  change (content (read_buffer _)) with (content b2). rewrite Hc2.
  change (m_opcode (with_read_buffer _ _)) with (of_bytes (take 2 c)).
  change (m_remaining (with_read_buffer _ _)) with (of_bytes (take 4 (drop 2 c))).
  unfold MsgHeader. replace 2%nat with (length (take 2 c)) at 1 by (rewrite length_take; lia).
  replace 4%nat with (length (take 4 (drop 2 c))) at 1 by (rewrite length_take, length_drop; lia).
  rewrite !to_of_bytes, <- app_assoc, (take_drop 4) by done. by rewrite take_drop.
Qed.

Lemma resize_new n : 0 <= n -> ByteBuffer.resize n ByteBuffer.empty = ByteBuffer.Mk 0 n (replicate (Z.to_nat n) 0).
Proof.
  intros Hn. unfold ByteBuffer.resize, ByteBuffer.vector_resize. cbn [ByteBuffer.empty ByteBuffer._storage length].
  rewrite take_nil, Nat.sub_0_r. simpl. rewrite length_replicate. f_equal. lia.
Qed.

Lemma splice_all (l bs : list Z) : length bs = length l -> splice l 0 bs = bs.
Proof. intros H. unfold splice. simpl. rewrite drop_ge by lia. by rewrite app_nil_r. Qed.

Lemma read_packet_spec x : framing_ok x -> m_remaining x <= zlen (content (read_buffer x)) ->
  exists bs x', read_packet x = Ok (packet (m_opcode x, bs), x') /\ packet_ok (m_opcode x, bs) /\ zlen bs = m_remaining x /\
    framing_ok x' /\ same_socket x x' /\ m_opcode x' = m_opcode x /\
    content (read_buffer x) = bs ++ content (read_buffer x').
Proof.
  intros Hx Hl. pose proof (fr_remaining _ Hx) as Hrem. pose proof (fr_opcode _ Hx) as Hop. unfold read_packet.
  destruct (m_remaining x =? 0) eqn:E0; to_prop; cbn [negb].
  - exists [], x. rewrite E0. split; [done|]. split; [by split|]. split; [done|]. split; [done|]. split; [apply same_socket_refl | done].
  - unfold PacketBuffer.PacketBuffer, PacketBuffer.resize, PacketBuffer.contents, PacketBuffer.size.
    cbn [PacketBuffer.base PacketBuffer.m_opcode]. rewrite resize_new by lia.
    unfold ByteBuffer.size. cbn [ByteBuffer._storage]. rewrite length_replicate, guard_defined_true by (apply Z.ltb_lt; lia). cbn [mbind outcome_bind].
    destruct (read_some (m_remaining x) x Hx) as (b & E & Hi & Hr & Hc & Hlen); [lia|]. rewrite E. cbn [mbind outcome_bind].
    set (bs := take _ _) in *. assert (zlen bs = m_remaining x) as Hbs by (unfold bs; rewrite length_take; lia).
    unfold ByteBuffer.contents. cbn [ByteBuffer._storage]. rewrite mwrite_ok by (rewrite ?length_replicate; lia).
    cbn [mbind outcome_bind]. rewrite splice_all by (rewrite length_replicate; lia).
    destruct (with_read_buffer_ok b (m_opcode x) (m_remaining x) x) as [Hx' Hs']; try done; [by eexists|].
    exists bs. eexists. split; [|split; [|split; [|split; [exact Hx'|split; [exact Hs'|split; [done|]]]]]].
    + unfold packet, ByteBuffer.with_storage. cbn. rewrite Hbs. by destruct x.
    + unfold packet_ok. cbn [fst snd]. split; [done|]. split; [lia|]. apply Forall_take, Hx.
    + done.
    + change (content (read_buffer (with_read_buffer _ _))) with (content b). rewrite Hc. unfold bs. by rewrite take_drop.
Qed.

Section Loop.
Context (HandlePacket : PacketBuffer.t -> wsa -> Framing.t -> outcome Framing.t).
(** A class that only looks at its packets. *)
Context (looks : forall p ans x, HandlePacket p ans x = Ok x).

Lemma on_read_loop_spec fuel ans x : framing_ok x -> (length (content (read_buffer x)) < fuel)%nat ->
  exists ps x', on_read_loop HandlePacket fuel ans x = Ok (map packet ps, x') /\ framing_ok x' /\ same_socket x x' /\ waiting x' /\
    Forall packet_ok ps /\ partial x = concat (map encode ps) ++ partial x'.
Proof.
  revert x. induction fuel as [|fuel IH]; intros x Hx Hf; [lia|]. cbn [on_read_loop]. rewrite (size_content x Hx).
  destruct ((m_remaining x =? 0) && (zlen (content (read_buffer x)) <? 6)) eqn:Eh.
  { to_prop. exists [], x. split; [done|]. split; [done|]. split; [apply same_socket_refl|]. split; [|by split].
    unfold waiting. by rewrite (proj2 (Z.eqb_eq _ _)). }
  assert (exists x1, (if m_remaining x =? 0 then read_header x else Ok x) = Ok x1 /\ framing_ok x1 /\ same_socket x x1 /\
    partial x = MsgHeader (m_opcode x1) (m_remaining x1) ++ content (read_buffer x1) /\
    zlen (content (read_buffer x1)) + (if m_remaining x =? 0 then 6 else 0) = zlen (content (read_buffer x))) as (x1 & E1 & Hx1 & Hs1 & Hp1 & Hl1).
  { unfold partial. destruct (m_remaining x =? 0) eqn:E0.
    - destruct (read_header_spec x Hx) as (x1 & E1 & Hx1 & Hs1 & Hc1); [simpl in Eh; to_prop; lia|]. exists x1.
      rewrite Hc1. do 4 (split; [done|]). rewrite length_app, length_MsgHeader. lia.
    - exists x. do 2 (split; [done|]). split; [apply same_socket_refl|]. split; [done | lia]. }
  rewrite E1. cbn [mbind outcome_bind]. rewrite (size_content x1 Hx1).
  destruct (zlen (content (read_buffer x1)) <? m_remaining x1) eqn:Ew; to_prop.
  - exists [], x1. split; [done|]. split; [done|]. split; [done|]. split; [|split; [constructor|]].
    + unfold waiting. destruct (m_remaining x1 =? 0) eqn:?; to_prop; lia.
    + rewrite Hp1. unfold partial. destruct (m_remaining x1 =? 0) eqn:?; to_prop; [lia | done].
  - destruct (read_packet_spec x1 Hx1 Ew) as (bs & x2 & E2 & Hok & Hbs & Hx2 & Hs2 & Ho2 & Hc2). rewrite E2. cbn [mbind outcome_bind].
    rewrite looks. cbn [mbind outcome_bind].
    destruct (IH (with_header 0 0 x2)) as (ps & x3 & E3 & Hx3 & Hs3 & Hw3 & Hps & Hp3).
    + destruct Hx2. by split.
    + change (read_buffer (with_header 0 0 x2)) with (read_buffer x2). rewrite Hc2, length_app in Hl1.
      destruct (m_remaining x =? 0) eqn:E0; [lia|]. injection E1 as <-. to_prop. lia.
    + rewrite E3. cbn [mbind outcome_bind]. exists ((m_opcode x1, bs) :: ps), x3. do 2 (split; [done|]).
      split; [eapply same_socket_trans; [exact Hs1|]; eapply same_socket_trans; [exact Hs2 | exact Hs3]|]. split; [done|]. split; [by constructor|].
      rewrite Hp1, Hc2, <- Hbs. cbn [map concat]. unfold encode at 1. cbn [fst snd].
      change (partial (with_header 0 0 x2)) with (content (read_buffer x2)) in Hp3. by rewrite Hp3, <- !app_assoc.
Qed.

Lemma on_read_spec ans x : framing_ok x ->
  exists ps x', on_read HandlePacket ans x = Ok (map packet ps, x') /\ framing_ok x' /\ same_socket x x' /\ waiting x' /\
    Forall packet_ok ps /\ partial x = concat (map encode ps) ++ partial x'.
Proof. intros Hx. apply on_read_loop_spec; [done|]. rewrite (size_content x Hx). lia. Qed.
End Loop.

(** What has arrived of a stream of packets decides which were handled. *)
Lemma waiting_short x r p ps : framing_ok x -> waiting x -> packet_ok p -> partial x ++ r = concat (map encode (p :: ps)) ->
  (length (partial x) < length (encode p))%nat.
Proof.
  intros Hx Hw (Ho & Hn & Hb) E. unfold waiting, partial, encode in *. cbn [map concat] in E. rewrite !length_app, length_MsgHeader.
  destruct (m_remaining x =? 0) eqn:E0; to_prop; [simpl; lia|]. rewrite length_MsgHeader.
  rewrite <- !app_assoc in E. apply MsgHeader_inj in E as (_ & En & _); [| apply Hx | done | apply Hx | lia]. lia.
Qed.

Lemma handled_prefix x r qs ps : framing_ok x -> waiting x -> Forall packet_ok qs -> Forall packet_ok ps ->
  concat (map encode qs) ++ partial x ++ r = concat (map encode ps) -> exists ps', ps = qs ++ ps' /\ partial x ++ r = concat (map encode ps').
Proof.
  intros Hx Hw Hqs. revert ps. induction Hqs as [|q qs Hq Hqs IH]; intros ps Hps E; [by exists ps|].
  destruct Hps as [|p ps Hp Hps]; cbn [map concat] in E.
  { unfold encode at 1 in E. apply (f_equal length) in E. rewrite !length_app, length_MsgHeader in E. simpl in E. lia. }
  unfold encode at 1 in E. unfold encode at 2 in E. rewrite <- !app_assoc in E.
  destruct Hq as (Q1 & Q2 & Q3), Hp as (P1 & P2 & P3).
  apply MsgHeader_inj in E as (Eo & En & E); [|lia..].
  apply app_inj_1 in E as [Ep E]; [|lia]. destruct (IH ps Hps E) as (ps' & -> & E'). exists ps'. split; [|done].
  simpl. f_equal. by destruct q, p; simpl in *; subst.
Qed.

Lemma nothing_left x ps : framing_ok x -> waiting x -> Forall packet_ok ps -> partial x = concat (map encode ps) -> ps = [].
Proof.
  intros Hx Hw [|p ps' Hp Hps] E; [done|]. exfalso. rewrite <- (app_nil_r (partial x)) in E.
  pose proof (waiting_short x [] p ps' Hx Hw Hp E). rewrite app_nil_r in E. rewrite E in H. cbn [map concat] in H. rewrite length_app in H. lia.
Qed.

(** ** The client end to end *)

(** The system delivers a stream, whatever the pieces: each [n] asks for so many bytes of
    it, at least one and at most what was posted; [m] is what WSARecv reports. *)
Fixpoint feed (ns : list (Z * Z)) (stream : list Z) (x : ClientSocket.t) : outcome (list PacketBuffer.t * list Z * ClientSocket.t) :=
  match ns, stream, posted (reading (sock x)) with
  | (n, m) :: ns', _ :: _, Some (_, len) =>
      let k := Z.to_nat (Z.min (Z.max 1 n) len) in
      let* (log, x) := read_completes (take k stream) (Started 0) (Started m) x in
      let* (log', rest, x) := feed ns' (drop k stream) x in
      Ok (log ++ log', rest, x)
  | _, _, _ => Ok ([], stream, x)
  end.

(** Connected, a read posted for all the room there is, OnRead has done what it can. *)
Record armed (x : Framing.t) : Prop := {
  ar_connected : m_connected (base x) = true;
  ar_deleted : m_deleted (base x) = false;
  ar_held : held (reading (base x)) = false;
  ar_size : zlen (block (read_buffer x)) = recv_size;
  ar_framing : framing_ok x;
  ar_waiting : waiting x;
  ar_posted : exists q, ring_inv q /\ room_inv q /\ content q = content (read_buffer x) /\ zlen (block q) = recv_size /\
    read_buffer x = (CircularBuffer.GetSpace q).2 /\
    posted (reading (base x)) = Some (CircularBuffer.GetBuffer (read_buffer x), space q)
}.

Lemma setup_arms m x : m_connected (base x) = true -> m_deleted (base x) = false -> held (reading (base x)) = false ->
  zlen (block (read_buffer x)) = recv_size -> framing_ok x -> waiting x ->
  exists s, SetupReadEvent (Started m) (base x) = Ok s /\ armed (with_base s x) /\ partial (with_base s x) = partial x.
Proof.
  intros Hc Hd Hh Hl Hx Hw. pose proof (GetSpace_spec _ (fr_ring _ Hx)) as (Hi & Hcont & Hs0 & Hs1).
  pose proof (GetSpace_room _ (fr_ring _ Hx) (fr_room _ Hx)) as Hr. pose proof (GetSpace_block (read_buffer x)) as Hb.
  unfold SetupReadEvent, IsDeleted, IsConnected. rewrite Hc, Hd. cbn [negb orb]. unfold lock. rewrite Hh. cbn [negb].
  rewrite guard_defined_true by done. cbn [mbind outcome_bind with_held buffer].
  unfold space in *. change (buffer (reading (base x))) with (read_buffer x) in *.
  destruct (CircularBuffer.GetSpace (read_buffer x)) as [len b] eqn:E. cbn [fst snd] in *.
  assert (partial (with_base (with_reading (with_buffer b (reading (base x))) (base x)) x) = partial x) as Hp.
  { unfold partial, read_buffer. simpl. by rewrite Hcont. }
  eexists. split; [reflexivity|]. split; [|exact Hp].
  assert (zlen (block b) = recv_size) as Hlb by lia. unfold recv_size in *.
  split; try done.
  - split; try apply Hx; try done. unfold read_buffer. cbn. rewrite Hcont. apply Hx.
  - unfold waiting, read_buffer. cbn. rewrite Hcont. exact Hw.
  - exists (read_buffer x). split; [apply Hx|]. split; [apply Hx|]. split; [by rewrite <- Hcont|]. split; [done|].
    unfold space. rewrite E. split; [done|]. cbn. by rewrite u32_small by lia.
Qed.

Lemma read_completes_spec bs ws m x : armed (ClientSocket.framing x) -> Forall is_byte bs -> bs <> [] ->
  (forall p len, posted (reading (sock x)) = Some (p, len) -> zlen bs <= len) ->
  exists ps x', read_completes bs ws (Started m) x = Ok (map packet ps, x') /\ armed (ClientSocket.framing x') /\
    Forall packet_ok ps /\
    partial (ClientSocket.framing x) ++ bs = concat (map encode ps) ++ partial (ClientSocket.framing x').
Proof.
  destruct x as [x]. cbn [ClientSocket.framing sock ClientSocket.derived].
  intros [Hc Hd Hh Hl Hx Hw (q & Hiq & Hrq & Hcq & Hlq & Eq & Hpost)] Hb Hne Hlen. pose proof (Hlen _ _ Hpost) as Hle.
  destruct (direct_fill_eq bs q Hiq Hle) as (q' & Hf & Hwr). destruct (direct_fill_room bs q q' Hiq Hrq Hle Hf) as [Hr' Hl'].
  destruct (write_spec q bs Hiq) as (q2 & Hw2 & Hi' & Hc'). rewrite bool_decide_true in Hw2, Hc' by done.
  rewrite Hwr in Hw2. injection Hw2 as <-.
  unfold direct_fill in Hf. rewrite <- Eq in Hf. apply outcome_bind_inv in Hf as (b & Ecopy & Hinc). injection Hinc as Hinc.
  unfold read_completes. cbn [sock ClientSocket.derived ClientSocket.framing]. cbv zeta. rewrite Hpost. rewrite guard_defined_true by lia. cbn [mbind outcome_bind].
  change (buffer (reading (base x))) with (read_buffer x). rewrite Ecopy. cbn [mbind outcome_bind].
  unfold HandleReadComplete, on_sock, IsDeleted. cbn [sock set_sock ClientSocket.derived ClientSocket.framing base with_base m_deleted with_reading]. rewrite Hd. cbn [negb].
  assert ((zlen bs =? 0) = false) as -> by (destruct bs; [done|]; simpl; lia). cbn [negb].
  match goal with |- context [CircularBuffer.IncrementWritten _ ?b'] => change b' with b end. rewrite Hinc.
  unfold OnRead, ClientSocket.derived. cbn [ClientSocket.framing].
  match goal with |- context [on_read _ _ ?f] => set (x2 := f) end.
  assert (framing_ok x2) as Hx2.
  { split; try apply Hx; try done. change (Forall is_byte (content q')). rewrite Hc', Hcq. apply Forall_app. split; [apply Hx | done]. }
  destruct (on_read_spec ClientSocket.HandlePacket) with (ans := ws) (x := x2) as (ps & x3 & E3 & Hx3 & [Hs3 Hl3] & Hw3 & Hps & Hp3); [|done|].
  { intros p ans y. unfold ClientSocket.HandlePacket. by repeat case_match. }
  rewrite E3. cbn [mbind outcome_bind ClientSocket.framing].
  assert (zlen (block (read_buffer x3)) = recv_size) as Hl3' by (rewrite Hl3; change (read_buffer x2) with q'; lia).
  destruct (setup_arms m x3) as (s & Es & Ha & Hpa); try (rewrite Hs3; done); [done..|].
  rewrite Es. cbn [mbind outcome_bind]. exists ps. eexists. split; [reflexivity|]. split; [exact Ha|]. split; [done|].
  cbn [ClientSocket.framing]. rewrite Hpa, <- Hp3. unfold partial.
  change (read_buffer x2) with q'. rewrite Hc', Hcq, <- app_assoc. done.
Qed.

(** A packet for which the buffer always has room. *)
Definition fits (p : Z * list Z) : Prop := packet_ok p /\ 2 * zlen p.2 <= recv_size.

Lemma fits_ok ps : Forall fits ps -> Forall packet_ok ps.
Proof. intros H. eapply list.Forall_impl; [exact H | by intros p [? _]]. Qed.

(** What is waiting is at most half a buffer, so the posted read has room. *)
Lemma armed_room x r ps : armed x -> Forall fits ps -> partial x ++ r = concat (map encode ps) ->
  exists p len, posted (reading (base x)) = Some (p, len) /\ 0 < len.
Proof.
  intros [Hc Hd Hh Hl Hx Hw (q & Hiq & Hrq & Hcq & Hlq & Eq & Hpost)] Hps E. eexists _, _. split; [exact Hpost|].
  apply half_full_has_room; [done | done | unfold recv_size in *; lia|]. rewrite Hcq, Hlq. unfold waiting, partial in *.
  destruct (m_remaining x =? 0) eqn:E0; to_prop; [unfold recv_size; lia|].
  destruct Hps as [|p ps' [(P1 & P2 & P3) P4] Hps].
  { apply (f_equal length) in E. rewrite !length_app, length_MsgHeader in E. simpl in E. lia. }
  cbn [map concat] in E. unfold encode at 1 in E. rewrite <- !app_assoc in E.
  apply MsgHeader_inj in E as (_ & En & _); [lia | apply Hx | lia | apply Hx | lia].
Qed.

Lemma encode_bytes ps : Forall packet_ok ps -> Forall is_byte (concat (map encode ps)).
Proof.
  induction 1 as [|p ps (_ & _ & Hb) _ IH]; [constructor|]. cbn [map concat]. apply Forall_app. split; [|done].
  unfold encode, MsgHeader. repeat (apply Forall_app; split); [apply to_bytes_is_byte.. | done].
Qed.

Lemma feed_spec ns stream x ps : armed (ClientSocket.framing x) -> Forall fits ps ->
  partial (ClientSocket.framing x) ++ stream = concat (map encode ps) ->
  exists qs ps' rest x', feed ns stream x = Ok (map packet qs, rest, x') /\ ps = qs ++ ps' /\ armed (ClientSocket.framing x') /\
    partial (ClientSocket.framing x') ++ rest = concat (map encode ps') /\ ((length stream <= length ns)%nat -> rest = []).
Proof.
  revert stream x ps. induction ns as [|[n m] ns IH]; intros stream x ps Ha Hps E.
  - exists [], ps, stream, x. do 4 (split; [done|]). intros Hl. destruct stream; [done | simpl in Hl; lia].
  - destruct stream as [|c stream]; [exists [], ps, [], x; by do 4 (split; [done|])|]. cbn [feed].
    destruct (armed_room _ _ _ Ha Hps E) as (p & len & Hpost & Hlen). change (base (ClientSocket.framing x)) with (sock x) in Hpost. rewrite Hpost.
    set (k := Z.to_nat _). set (st := c :: stream) in *. assert (0 < k)%nat as Hk by lia.
    assert (Forall is_byte st) as Hb by (pose proof (encode_bytes ps (fits_ok _ Hps)) as Hb; rewrite <- E in Hb; by apply Forall_app in Hb as [_ Hb]).
    destruct (read_completes_spec (take k st) (Started 0) m x Ha) as (qs & x1 & E1 & Ha1 & Hqs & Hp1).
    + by apply Forall_take.
    + by destruct k; [lia|].
    + intros p' len' H. rewrite Hpost in H. injection H as <- <-. rewrite length_take. lia.
    + rewrite E1. cbn [mbind outcome_bind].
      destruct (handled_prefix (ClientSocket.framing x1) (drop k st) qs ps) as (ps1 & -> & E2);
        [apply Ha1 | apply Ha1 | done | by apply fits_ok | |].
      { rewrite app_assoc, <- Hp1, <- app_assoc, take_drop. exact E. }
      apply Forall_app in Hps as [_ Hps1].
      destruct (IH (drop k st) x1 ps1 Ha1 Hps1 E2) as (qs' & ps' & rest & x' & E3 & -> & Ha' & E4 & Hrest).
      rewrite E3. cbn [mbind outcome_bind]. exists (qs ++ qs'), ps', rest, x'. rewrite map_app, app_assoc. do 4 (split; [done|]).
      intros Hl. apply Hrest. rewrite length_drop. simpl in *. lia.
Qed.


(** A block as malloc returns it. *)
Definition zeros (size : Z) : block_t := (4096, replicate (Z.to_nat size) 0).

Lemma length_zeros size : 0 <= size -> zlen (zeros size).2 = size.
Proof. intros H. cbn [zeros snd]. rewrite length_replicate. lia. Qed.


(** ** Sending *)

(** On a connected socket whose send lock is free, the server's answer to a ping or a
    message is undefined behaviour: Send locks the mutex and calls WriteCallback, which
    locks it again. *)
Theorem server_cannot_answer (now op : Z) (bs : list Z) (ans : wsa) (x : Framing.t) :
  can_send (base x) -> 6 <= space (buffer (writing (base x))) -> op = RCMSG_PING \/ op = RCMSG_MSG ->
  ServerSocket.HandlePacket now (packet (op, bs)) ans x = Err UndefinedBehaviour.
Proof.
  intros Hs Hsp Hop.
  assert (forall p, Framing.SendPacket p ans x = Err UndefinedBehaviour) as Hsend.
  { intros p. unfold Framing.SendPacket. rewrite send_relocks; [done | done | by rewrite length_MsgHeader]. }
  unfold ServerSocket.HandlePacket, PacketBuffer.GetOpcode. cbn [packet PacketBuffer.m_opcode fst].
  destruct Hop as [-> | ->]; cbn [Z.eqb Pos.eqb RCMSG_PING RCMSG_MSG].
  - unfold ServerSocket.HandlePing. by rewrite Hsend.
  - unfold ServerSocket.HandleMessage, PacketBuffer.contents, guard_defined.
    destruct (0 <? _); [|done]. cbn [mbind outcome_bind]. destruct (bool_decide _); [|done]. apply Hsend.
Qed.

Lemma fresh_can_send s wb : 0 < wb.1 -> zlen wb.2 = send_size -> wb.1 + send_size < 2 ^ 64 ->
  m_connected s = true -> m_deleted s = false -> writing s = new_direction send_size wb -> m_writeLock s = 0 ->
  can_send s /\ content (buffer (writing s)) = [].
Proof.
  intros H1 H2 H3 Hc Hd Hw Hl. destruct (allocate_inv send_size wb.1 wb.2 H1 H2 H3) as [Hi Hco].
  split; [split; try done; by rewrite Hw | by rewrite Hw].
Qed.

Lemma server_cannot_answer_witness :
  let x := ServerSocket.framing (ServerSocket.ServerSocket 5 0 0 (4096, []) (zeros send_size)) in
  let x := with_base (with_connected true (base x)) x in
  ServerSocket.HandlePacket 0 (packet (RCMSG_PING, [])) (Started 0) x = Err UndefinedBehaviour.
Proof.
  intros x0 x. assert (can_send (base x) /\ content (buffer (writing (base x))) = []) as [Hs _].
  { apply (fresh_can_send _ (zeros send_size)); [cbn [zeros fst]; lia | by apply length_zeros | cbn [zeros fst]; unfold send_size; lia | done..]. }
  apply (server_cannot_answer 0 RCMSG_PING [] (Started 0) x); [exact Hs | | by left].
  unfold space. vm_compute. discriminate.
Defined.
