(* ===== verification/LockFree.v ===== *)
(** * The lock-free stack

    conc-in-action/7-conc-lock-free: lock_free_stack.h as it is built (USE_OPT and
    USE_HAZARD_POINTER) with hazard_pointer.h.

    Threads interleave at every access to memory that others can see: [step] is one
    such access of one thread, and the line it is at is a [pc].  Memory is a heap of
    nodes: an access to a node that was deleted, or a second delete, is a [Fault], and
    a deleted address may be allocated again.  All atomics have the default order, so
    interleaving is what the language promises. *)

From Stdlib Require Import ZArith Lia Bool.
From stdpp Require Import base tactics option list numbers gmap.
From S2P Require Import Prelude.

Abbreviation loc := positive.

(** A thread's number is its [std::thread::id]. *)
Record hazard_pointer := HP { id : option nat; pointer : option loc }.

Definition max_hazard_pointers : nat := 100.

Section Stack.
Context {V : Type}.

(** [data] is a shared_ptr: [None] when it is null. *)
Record node := Node { data : option V; next : option loc }.

(** Where a thread is: in [push] ([new_node] allocated; about to try the exchange), in
    the constructor of [hp_owner] (about to try a slot), in [pop] (named after what it
    does next), in [outstanding_hazard_pointers_for] (about to look at a slot), in the
    destructor of [hp_owner]. *)
Inductive pc :=
| Idle
| LoadNext (new_node : loc)
| TryPush (new_node : loc)
| Acquire (i : nat)
| LoadHead
| StoreHazard (old_head : option loc)
| LoadAgain (temp : option loc)
| ReadNext (old_head : loc)
| TryPop (old_head : loc) (next : option loc)
| ClearHazard (old_head : option loc)
| SwapData (old_head : loc)
| Outstanding (old_head : loc) (res : option V) (i : nat)
| Delete (old_head : loc) (res : option V)
| ClearPointer
| ClearId
| Gone
| Fault.

(** [slot]: the thread's [hp_owner], once it has one. *)
Record thread := Thread { slot : option nat; at_ : pc }.

(** What a call did to the stack: its argument or its result. *)
Inductive event := Pushed (v : option V) | Popped (r : option V).

(** [taken]: the calls in the order in which they took effect; [done_]: in the order in
    which they returned. *)
Record state := State {
  heap : gmap loc node; head : option loc; hazard_pointers : list hazard_pointer; threads : list thread;
  taken : list (nat * event); done_ : list (nat * event)
}.

(** What a thread may be asked: to start a call ([l] is the address that new returns), to
    end, to go on, to go on with a weak exchange that fails for no reason. *)
Inductive choice := Push (v : V) (l : loc) | Pop | Exit | Go | Spurious.

Definition start (n : nat) : state :=
  State ∅ None (replicate max_hazard_pointers (HP None None)) (replicate n (Thread None Idle)) [] [].

(** Thread [t] goes to [p], and other members change. *)
Definition goto (t : nat) (o : option nat) (p : pc) (s : state) : state :=
  State (heap s) (head s) (hazard_pointers s) (<[t := Thread o p]> (threads s)) (taken s) (done_ s).
Definition with_heap (h : gmap loc node) (s : state) : state :=
  State h (head s) (hazard_pointers s) (threads s) (taken s) (done_ s).
Definition with_head (h : option loc) (s : state) : state :=
  State (heap s) h (hazard_pointers s) (threads s) (taken s) (done_ s).
Definition with_slots (l : list hazard_pointer) (s : state) : state :=
  State (heap s) (head s) l (threads s) (taken s) (done_ s).
Definition takes (t : nat) (e : event) (s : state) : state :=
  State (heap s) (head s) (hazard_pointers s) (threads s) (taken s ++ [(t, e)]) (done_ s).
Definition returns (t : nat) (e : event) (s : state) : state :=
  State (heap s) (head s) (hazard_pointers s) (threads s) (taken s) (done_ s ++ [(t, e)]).

(** A store to the pointer of the thread's slot. *)
Definition store_hazard (o : option nat) (p : option loc) (s : state) : state :=
  match o with
  | Some i =>
      match hazard_pointers s !! i with
      | Some h => with_slots (<[i := HP (id h) p]> (hazard_pointers s)) s
      | None => s
      end
  | None => s
  end.

(** The constructor of [hp_owner] looks at slot [i]: it takes a free one, throws after the
    last. *)
Definition hp_owner (t : nat) (o : option nat) (i : nat) (s : state) : state :=
  match hazard_pointers s !! i with
  | Some h =>
      match id h with
      | None => goto t (Some i) LoadHead (with_slots (<[i := HP (Some t) (pointer h)]> (hazard_pointers s)) s)
      | Some _ => goto t o (Acquire (S i)) s
      end
  | None => goto t o Idle s
  end.

(** The second store of its destructor. *)
Definition clear_id (t : nat) (o : option nat) (s : state) : option state :=
  i ← o; h ← hazard_pointers s !! i;
  Some (goto t None Gone (with_slots (<[i := HP None (pointer h)]> (hazard_pointers s)) s)).

(** [outstanding_hazard_pointers_for] looks at slot [i]; a node that is found is left to
    [reclaim_later], which does nothing. *)
Definition outstanding_hazard_pointers_for (t : nat) (o : option nat) (l : loc) (res : option V) (i : nat) (s : state) : state :=
  match hazard_pointers s !! i with
  | Some h =>
      if decide (pointer h = Some l) then goto t o Idle (returns t (Popped res) s)
      else goto t o (Outstanding l res (S i)) s
  | None => goto t o (Delete l res) s
  end.

(** An exchange that fails stores what it saw in its first argument in the same step:
    that is a local variable, or the next of a node that nobody else has. *)
Definition step (t : nat) (ch : choice) (s : state) : option state :=
  match threads s !! t with
  | None => None
  | Some th =>
      let o := slot th in
      match at_ th, ch with
      | Idle, Push v l =>
          match heap s !! l with
          | None => Some (goto t o (LoadNext l) (with_heap (<[l := Node (Some v) None]> (heap s)) s))
          | Some _ => None
          end
      | LoadNext l, Go =>
          match heap s !! l with
          | Some n => Some (goto t o (TryPush l) (with_heap (<[l := Node (data n) (head s)]> (heap s)) s))
          | None => Some (goto t o Fault s)
          end
      | TryPush l, Go =>
          match heap s !! l with
          | Some n =>
              if decide (head s = next n) then
                Some (goto t o Idle (returns t (Pushed (data n)) (takes t (Pushed (data n)) (with_head (Some l) s))))
              else Some (goto t o (TryPush l) (with_heap (<[l := Node (data n) (head s)]> (heap s)) s))
          | None => Some (goto t o Fault s)
          end
      | TryPush l, Spurious =>
          match heap s !! l with
          | Some n => Some (goto t o (TryPush l) (with_heap (<[l := Node (data n) (head s)]> (heap s)) s))
          | None => Some (goto t o Fault s)
          end
      | Idle, Pop => Some (goto t o (match o with Some _ => LoadHead | None => Acquire 0 end) s)
      | Acquire i, Go => Some (hp_owner t o i s)
      | LoadHead, Go => Some (goto t o (StoreHazard (head s)) s)
      | StoreHazard old, Go => Some (goto t o (LoadAgain old) (store_hazard o old s))
      | LoadAgain temp, Go =>
          if decide (head s = temp) then
            match temp with
            | Some l => Some (goto t o (ReadNext l) s)
            | None => Some (goto t o (ClearHazard None) (takes t (Popped None) s))
            end
          else Some (goto t o (StoreHazard (head s)) s)
      | ReadNext l, Go =>
          match heap s !! l with
          | Some n => Some (goto t o (TryPop l (next n)) s)
          | None => Some (goto t o Fault s)
          end
      | TryPop l nx, Go =>
          if decide (head s = Some l) then
            Some (goto t o (ClearHazard (Some l)) (takes t (Popped (n ← heap s !! l; data n)) (with_head nx s)))
          else Some (goto t o (StoreHazard (head s)) s)
      | TryPop l nx, Spurious => Some (goto t o (StoreHazard (head s)) s)
      | ClearHazard None, Go => Some (goto t o Idle (returns t (Popped None) (store_hazard o None s)))
      | ClearHazard (Some l), Go => Some (goto t o (SwapData l) (store_hazard o None s))
      | SwapData l, Go =>
          match heap s !! l with
          | Some n => Some (goto t o (Outstanding l (data n) 0) (with_heap (<[l := Node None (next n)]> (heap s)) s))
          | None => Some (goto t o Fault s)
          end
      | Outstanding l res i, Go => Some (outstanding_hazard_pointers_for t o l res i s)
      | Delete l res, Go =>
          match heap s !! l with
          | Some _ => Some (goto t o Idle (returns t (Popped res) (with_heap (delete l (heap s)) s)))
          | None => Some (goto t o Fault s)
          end
      | Idle, Exit => Some (goto t o (match o with Some _ => ClearPointer | None => Gone end) s)
      | ClearPointer, Go => Some (goto t o ClearId (store_hazard o None s))
      | ClearId, Go => clear_id t o s
      | _, _ => None
      end
  end.

Definition stack_step (s s' : state) : Prop := exists t ch, step t ch s = Some s'.

(** ** The stack it implements *)

(** What a call that takes effect does to a list. *)
Inductive stack_spec : list V -> event -> list V -> Prop :=
| spec_push v vs : stack_spec vs (Pushed (Some v)) (v :: vs)
| spec_pop v vs : stack_spec (v :: vs) (Popped (Some v)) vs
| spec_empty : stack_spec [] (Popped None) [].

Inductive spec_run : list event -> list V -> Prop :=
| run_nil : spec_run [] []
| run_snoc es vs e vs' : spec_run es vs -> stack_spec vs e vs' -> spec_run (es ++ [e]) vs'.

(** The nodes from [hd] on, and what they hold. *)
Fixpoint linked (h : gmap loc node) (hd : option loc) (c : list loc) (vs : list V) : Prop :=
  match c, vs with
  | [], [] => hd = None
  | l :: c', v :: vs' => hd = Some l /\ exists nx, h !! l = Some (Node (Some v) nx) /\ linked h nx c' vs'
  | _, _ => False
  end.

Definition calls_of (t : nat) (es : list (nat * event)) : list event := map snd (filter (fun x => x.1 = t) es).

(** A call that took effect and has not returned. *)
Definition pending (h : gmap loc node) (p : pc) : list event :=
  match p with
  | ClearHazard None => [Popped None]
  | ClearHazard (Some l) | SwapData l => [Popped (n ← h !! l; data n)]
  | Outstanding _ res _ | Delete _ res => [Popped res]
  | _ => []
  end.

(** ** The invariant

    The node that a thread alone may use, the node that its hazard pointer keeps from
    being deleted, what its hazard pointer holds. *)

Definition owns (p : pc) : option loc :=
  match p with
  | LoadNext l | TryPush l | ClearHazard (Some l) | SwapData l | Outstanding l _ _ | Delete l _ => Some l
  | _ => None
  end.

Definition protects (p : pc) : option loc :=
  match p with ReadNext l | TryPop l _ => Some l | _ => None end.

Definition shown (p : pc) : option (option loc) :=
  match p with LoadAgain temp => Some temp | ReadNext l | TryPop l _ => Some (Some l) | _ => None end.

Definition needs_slot (p : pc) : bool :=
  match p with
  | LoadHead | StoreHazard _ | LoadAgain _ | ReadNext _ | TryPop _ _ | ClearHazard _ | ClearPointer | ClearId => true
  | _ => false
  end.

(** A thread at [p] does not delete or push [l] while slot [i] holds it. *)
Definition harmless (p : pc) (l : loc) (i : nat) : Prop :=
  match p with
  | LoadNext l' | TryPush l' | Delete l' _ => l' <> l
  | Outstanding l' _ j => l' = l -> (j <= i)%nat
  | _ => True
  end.

Record thread_ok (s : state) (c : list loc) (t : nat) (th : thread) : Prop := {
  th_slot : forall i, slot th = Some i -> exists h, hazard_pointers s !! i = Some h /\ id h = Some t;
  th_needs : needs_slot (at_ th) = true -> is_Some (slot th);
  th_shown : forall p, shown (at_ th) = Some p -> exists i h, slot th = Some i /\ hazard_pointers s !! i = Some h /\ pointer h = p;
  th_owns : forall l, owns (at_ th) = Some l -> is_Some (heap s !! l) /\ l ∉ c;
  th_protects : forall l, protects (at_ th) = Some l -> is_Some (heap s !! l);
  th_next : forall l nx, at_ th = TryPop l nx -> exists n, heap s !! l = Some n /\ next n = nx;
  th_calls : calls_of t (taken s) = calls_of t (done_ s) ++ pending (heap s) (at_ th);
  th_safe : at_ th <> Fault;
  th_data : forall l, at_ th = LoadNext l \/ at_ th = TryPush l -> exists v nx, heap s !! l = Some (Node (Some v) nx)
}.

Record stack_ok (s : state) (c : list loc) (vs : list V) : Prop := {
  so_slots : length (hazard_pointers s) = max_hazard_pointers;
  so_linked : linked (heap s) (head s) c vs;
  so_nodup : NoDup c;
  so_run : spec_run (map snd (taken s)) vs;
  so_thread : forall t th, threads s !! t = Some th -> thread_ok s c t th;
  so_apart : forall t1 t2 th1 th2 l, threads s !! t1 = Some th1 -> threads s !! t2 = Some th2 ->
    owns (at_ th1) = Some l -> owns (at_ th2) = Some l -> t1 = t2;
  so_hazard : forall t1 t2 th1 th2 l i, threads s !! t1 = Some th1 -> threads s !! t2 = Some th2 ->
    protects (at_ th1) = Some l -> slot th1 = Some i -> harmless (at_ th2) l i
}.

Lemma calls_of_app t es es' : calls_of t (es ++ es') = calls_of t es ++ calls_of t es'.
Proof. unfold calls_of. by rewrite list.filter_app, map_app. Qed.

Lemma calls_of_own t e : calls_of t [(t, e)] = [e].
Proof. unfold calls_of. by rewrite list.filter_cons, decide_True. Qed.

Lemma calls_of_other t t' e : t' <> t -> calls_of t [(t', e)] = [].
Proof. intros H. unfold calls_of. by rewrite list.filter_cons, decide_False. Qed.

(** The nodes of the chain are all that matters to it. *)
Lemma linked_same h h' hd c vs : (forall l, l ∈ c -> h' !! l = h !! l) -> linked h hd c vs -> linked h' hd c vs.
Proof.
  revert hd vs. induction c as [|l c IH]; intros hd vs Hl; destruct vs as [|v vs]; cbn [linked]; try done.
  intros (-> & nx & E & H). split; [done|]. exists nx. rewrite Hl by (by left). split; [done|].
  apply IH; [|done]. intros l' Hl'. apply Hl. by right.
Qed.

Lemma linked_alloc h hd c vs l : linked h hd c vs -> l ∈ c -> is_Some (h !! l).
Proof.
  revert hd vs. induction c as [|l' c IH]; intros hd vs H Hl; [by apply elem_of_nil in Hl|].
  destruct vs as [|v vs]; [done|]. destruct H as (_ & nx & E & H). apply elem_of_cons in Hl as [-> | Hl]; [by eexists|].
  by eapply IH.
Qed.

(** How a step of thread [t] looks to the others. *)
Record unseen (t : nat) (s s' : state) (c' : list loc) : Prop := {
  un_slots : forall t' i h, t' <> t -> hazard_pointers s !! i = Some h -> id h = Some t' -> hazard_pointers s' !! i = Some h;
  un_owned : forall t' th l, t' <> t -> threads s !! t' = Some th -> owns (at_ th) = Some l ->
    heap s' !! l = heap s !! l /\ l ∉ c';
  un_protected : forall t' th l i n, t' <> t -> threads s !! t' = Some th -> protects (at_ th) = Some l -> slot th = Some i ->
    heap s !! l = Some n -> exists n', heap s' !! l = Some n' /\ next n' = next n;
  un_calls : forall t', t' <> t -> calls_of t' (taken s') = calls_of t' (taken s) /\ calls_of t' (done_ s') = calls_of t' (done_ s)
}.

Lemma thread_unseen t s s' c c' t' th : unseen t s s' c' -> t' <> t -> threads s !! t' = Some th ->
  thread_ok s c t' th -> thread_ok s' c' t' th.
Proof.
  intros [U1 U2 U3 U4] Hne Hth [T1 T2 T3 T4 T5 T6 T7 T8 T9].
  assert (forall l, protects (at_ th) = Some l -> exists i, slot th = Some i) as Hsl.
  { intros l Hl. destruct T2 as [i Hi]; [by destruct (at_ th)|]. by exists i. }
  constructor.
  - intros i Hi. destruct (T1 i Hi) as (h & E & Ei). exists h. split; [by eapply U1 | done].
  - done.
  - intros p Hp. destruct (T3 p Hp) as (i & h & Hi & E & Ep). exists i, h. split; [done|]. split; [|done].
    destruct (T1 i Hi) as (h' & E' & Ei). rewrite E in E'. injection E' as <-. by eapply U1.
  - intros l Hl. destruct (U2 t' th l Hne Hth Hl) as [-> H]. split; [by apply T4 | done].
  - intros l Hl. destruct (T5 l Hl) as [n En]. destruct (Hsl l Hl) as [i Hi].
    destruct (U3 t' th l i n Hne Hth Hl Hi En) as (n' & -> & _). by eexists.
  - intros l nx E. destruct (T6 l nx E) as (n & En & Enx). assert (protects (at_ th) = Some l) as Hl by (by rewrite E).
    destruct (Hsl l Hl) as [i Hi]. destruct (U3 t' th l i n Hne Hth Hl Hi En) as (n' & -> & En'). exists n'. split; [done | congruence].
  - destruct (U4 t' Hne) as [-> ->]. rewrite T7. f_equal. destruct (at_ th) eqn:Ea; try done.
    + destruct old_head as [l|]; [|done]. cbn [pending]. by rewrite (proj1 (U2 t' th l Hne Hth ltac:(by rewrite Ea))).
    + cbn [pending]. by rewrite (proj1 (U2 t' th _ Hne Hth ltac:(by rewrite Ea))).
  - done.
  - intros l Hl. assert (owns (at_ th) = Some l) as Ho by (by destruct Hl as [-> | ->]).
    rewrite (proj1 (U2 t' th l Hne Hth Ho)). by apply T9.
Qed.

(** A step keeps the invariant when the thread that makes it is in order afterwards and
    the others see nothing of it. *)
Lemma step_keeps t th th' s s' c vs c' vs' : stack_ok s c vs -> threads s !! t = Some th ->
  threads s' = <[t := th']> (threads s) -> length (hazard_pointers s') = length (hazard_pointers s) ->
  linked (heap s') (head s') c' vs' -> NoDup c' -> spec_run (map snd (taken s')) vs' ->
  unseen t s s' c' -> thread_ok s' c' t th' ->
  (forall l, owns (at_ th') = Some l -> owns (at_ th) = Some l \/ forall t2 th2, t2 <> t -> threads s !! t2 = Some th2 -> owns (at_ th2) <> Some l) ->
  (forall t2 th2 l i, t2 <> t -> threads s !! t2 = Some th2 -> protects (at_ th2) = Some l -> slot th2 = Some i ->
     harmless (at_ th) l i -> harmless (at_ th') l i) ->
  (forall t2 th2 l i, t2 <> t -> threads s !! t2 = Some th2 -> protects (at_ th') = Some l -> slot th' = Some i ->
     (protects (at_ th) = Some l /\ slot th = Some i) \/ harmless (at_ th2) l i) ->
  stack_ok s' c' vs'.
Proof.
  intros [S1 S2 S3 S4 S5 S6 S7] Hth Hths Hlen Hl Hnd Hrun Hun Hok Hown Hharm Hprot.
  assert (forall t2 th2, threads s' !! t2 = Some th2 -> (t2 = t /\ th2 = th') \/ (t2 <> t /\ threads s !! t2 = Some th2)) as Hlook.
  { intros t2 th2. rewrite Hths. destruct (decide (t2 = t)) as [->|Hne].
    - rewrite list_lookup_insert_eq by (by eapply lookup_lt_Some). intros [= <-]. by left.
    - rewrite list_lookup_insert_ne by done. auto. }
  constructor; [congruence | done | done | done | | | ].
  - intros t2 th2 [[-> ->] | [Hne H2]]%Hlook; [done|]. eapply thread_unseen; [exact Hun | done | exact H2 | by apply S5].
  - intros t1 t2 th1 th2 l [[-> ->] | [Hn1 H1]]%Hlook [[-> ->] | [Hn2 H2]]%Hlook O1 O2; [done | | | by eapply S6].
    + destruct (Hown l O1) as [O | O]; [by eapply (S6 t t2) | by destruct (O t2 th2 Hn2 H2)].
    + destruct (Hown l O2) as [O | O]; [by eapply (S6 t1 t) | by destruct (O t1 th1 Hn1 H1)].
  - intros t1 t2 th1 th2 l i [[-> ->] | [Hn1 H1]]%Hlook [[-> ->] | [Hn2 H2]]%Hlook P1 P2.
    + by destruct (at_ th').
    + destruct (Hprot t2 th2 l i Hn2 H2 P1 P2) as [[P3 P4] | H]; [exact (S7 _ _ _ _ _ _ Hth H2 P3 P4) | done].
    + apply (Hharm t1 th1 l i Hn1 H1 P1 P2). exact (S7 _ _ _ _ _ _ H1 Hth P1 P2).
    + exact (S7 _ _ _ _ _ _ H1 H2 P1 P2).
Qed.

(** What another thread owns or protects is out of reach of a step that changes only
    the slot of its thread and the node it owns. *)
Lemma unseen_intro t th s s' c vs c' : stack_ok s c vs -> threads s !! t = Some th ->
  (forall i h, hazard_pointers s !! i = Some h -> id h <> None -> id h <> Some t -> hazard_pointers s' !! i = Some h) ->
  (forall l n, heap s !! l = Some n -> heap s' !! l = heap s !! l \/
     (owns (at_ th) = Some l /\ ((exists n', heap s' !! l = Some n' /\ next n' = next n) \/ forall i, ~ harmless (at_ th) l i))) ->
  (forall l, l ∈ c' -> l ∈ c \/ owns (at_ th) = Some l) ->
  (exists es, taken s' = taken s ++ es /\ Forall (fun x => x.1 = t) es) ->
  (exists es, done_ s' = done_ s ++ es /\ Forall (fun x => x.1 = t) es) -> unseen t s s' c'.
Proof.
  intros [S1 S2 S3 S4 S5 S6 S7] Hth H1 H2 H3 (et & Et & Ft) (ed & Ed & Fd). constructor.
  - intros t' i h Hne E Ei. apply H1; [done | by rewrite Ei | congruence].
  - intros t' th' l Hne Hth' Hl. destruct (S5 t' th' Hth') as [_ _ _ T4 _ _ _ _ _]. destruct (T4 l Hl) as [[n En] Hc].
    assert (owns (at_ th) <> Some l) as Hno by (intros Ho; by destruct (Hne (S6 _ _ _ _ _ Hth' Hth Hl Ho))).
    split; [by destruct (H2 l n En) as [-> | [Ho _]]|]. intros Hin. by destruct (H3 l Hin).
  - intros t' th' l i n Hne Hth' Hl Hi En. destruct (H2 l n En) as [-> | [_ [H | H]]]; [by exists n | done |].
    by destruct (H i (S7 _ _ _ _ _ _ Hth' Hth Hl Hi)).
  - intros t' Hne. rewrite Et, Ed, !calls_of_app.
    assert (forall es : list (nat * event), Forall (fun x => x.1 = t) es -> calls_of t' es = []) as Hno.
    { induction 1 as [|[t1 e] es E _ IH]; [done|]. cbn [fst] in E. subst t1.
      change ((t, e) :: es) with ([(t, e)] ++ es). by rewrite calls_of_app, IH, calls_of_other. }
    by rewrite (Hno et Ft), (Hno ed Fd), !app_nil_r.
Qed.

(** The owner of a slot writes its pointer. *)
Lemma store_hazard_spec s c t th p : thread_ok s c t th -> is_Some (slot th) ->
  exists i h, slot th = Some i /\ hazard_pointers s !! i = Some h /\ id h = Some t /\
    store_hazard (slot th) p s = with_slots (<[i := HP (Some t) p]> (hazard_pointers s)) s.
Proof.
  intros [T1 _ _ _ _ _ _ _ _] [i Hi]. destruct (T1 i Hi) as (h & Hh & Ei). exists i, h.
  unfold store_hazard. by rewrite Hi, Hh, Ei.
Qed.

Lemma no_events t (es : list (nat * event)) : exists es', es = es ++ es' /\ Forall (fun x => x.1 = t) es'.
Proof. exists []. by rewrite app_nil_r. Qed.

Lemma one_event t e (es : list (nat * event)) : exists es', es ++ [(t, e)] = es ++ es' /\ Forall (fun x => x.1 = t) es'.
Proof. exists [(t, e)]. split; [done|]. by constructor. Qed.

(** A step that only moves the thread on. *)
Lemma moves_on t th o p s c vs : stack_ok s c vs -> threads s !! t = Some th -> o = slot th ->
  pending (heap s) p = pending (heap s) (at_ th) -> p <> Fault ->
  (needs_slot p = true -> is_Some o) ->
  (forall q, shown p = Some q -> shown (at_ th) = Some q) ->
  (forall l, owns p = Some l -> owns (at_ th) = Some l) ->
  (forall l, protects p = Some l -> is_Some (heap s !! l) /\ (protects (at_ th) = Some l \/
     forall t2 th2 i, t2 <> t -> threads s !! t2 = Some th2 -> harmless (at_ th2) l i)) ->
  (forall l nx, p = TryPop l nx -> exists n, heap s !! l = Some n /\ next n = nx) ->
  (forall l, p <> LoadNext l) -> (forall l, p = TryPush l -> at_ th = TryPush l) ->
  (forall t2 th2 l i, t2 <> t -> threads s !! t2 = Some th2 -> protects (at_ th2) = Some l -> slot th2 = Some i ->
     harmless (at_ th) l i -> harmless p l i) ->
  stack_ok (goto t o p s) c vs.
Proof.
  intros Hs Hth -> Hpe Hf Hn Hsh Ho Hp Hnx Hl1 Hl2 Hh. pose proof Hs as [S1 S2 S3 S4 S5 S6 S7].
  destruct (S5 t th Hth) as [T1 T2 T3 T4 T5 T6 T7 T8 T9].
  apply (step_keeps t th (Thread (slot th) p) s _ c vs c vs); try done; cbn [goto heap head hazard_pointers taken done_ at_ slot].
  - eapply unseen_intro; [exact Hs | exact Hth | done | | | by apply no_events | by apply no_events]; [by left | by left].
  - constructor; cbn [goto heap head hazard_pointers taken done_ at_ slot]; try done.
    + intros q Hq. by apply T3, Hsh.
    + intros l Hl. by apply T4, Ho.
    + intros l Hl. by apply Hp.
    + by rewrite Hpe.
    + intros l [E | E]; [by destruct (Hl1 l) | apply T9; right; by apply Hl2].
  - intros l Hl. left. by apply Ho.
  - intros t2 th2 l i Hne H2 Hl Hi. destruct (proj2 (Hp l Hl)) as [H | H]; [by left | right; by eapply H].
Qed.

Ltac state_cbn := cbn [goto with_heap with_head with_slots takes returns heap head hazard_pointers threads taken done_ at_ slot] in *.

(** The owner of a node writes it. *)
Lemma writes_node t th p s c vs l n n' : stack_ok s c vs -> threads s !! t = Some th ->
  heap s !! l = Some n -> owns (at_ th) = Some l -> owns p = Some l ->
  (next n' = next n \/ forall i, ~ harmless (at_ th) l i) ->
  calls_of t (taken s) = calls_of t (done_ s) ++ pending (<[l := n']> (heap s)) p -> p <> Fault ->
  needs_slot p = false -> (forall i, harmless (at_ th) l i -> harmless p l i) ->
  (forall l', p = LoadNext l' \/ p = TryPush l' -> exists v nx, n' = Node (Some v) nx) ->
  stack_ok (goto t (slot th) p (with_heap (<[l := n']> (heap s)) s)) c vs.
Proof.
  intros Hs Hth Hl Ho Hp Hnx Hca Hf Hns Hh Hpu. pose proof Hs as [S1 S2 S3 S4 S5 S6 S7].
  destruct (S5 t th Hth) as [T1 T2 T3 T4 T5 T6 T7 T8 T9]. destruct (T4 l Ho) as [_ Hc].
  apply (step_keeps t th (Thread (slot th) p) s _ c vs c vs); try done; state_cbn.
  - eapply linked_same; [|exact S2]. intros l' Hl'. rewrite lookup_insert_ne; [done | congruence].
  - eapply unseen_intro; [exact Hs | exact Hth | done | | by left | by apply no_events | by apply no_events].
    state_cbn. intros l' m E. destruct (decide (l' = l)) as [->|Hne]; [|left; by rewrite lookup_insert_ne].
    right. split; [done|]. rewrite Hl in E. injection E as <-. rewrite lookup_insert_eq. destruct Hnx as [Hnx | Hnx]; [left; by exists n' | by right].
  - constructor; state_cbn; try done.
    + by rewrite Hns.
    + intros q Hq. by destruct p.
    + intros l' Hl'. rewrite Hp in Hl'. injection Hl' as <-. rewrite lookup_insert_eq. split; [by eexists | done].
    + intros l' Hl'. by destruct p.
    + intros l' nx ->. done.
    + intros l' Hl'. destruct (Hpu l' Hl') as (v & nx & ->). exists v, nx.
      assert (l' = l) as -> by (destruct Hl' as [-> | ->]; simpl in Hp; congruence). by rewrite lookup_insert_eq.
  - intros l' Hl'. left. congruence.
  - intros t2 th2 l' i Hne H2 Hl' Hi Hharm. destruct (decide (l' = l)) as [->|Hd]; [by apply Hh|].
    destruct p; try done; simpl in Hp |- *; congruence.
  - intros t2 th2 l' i _ _ Hl'. by destruct p.
Qed.

(** A thread writes the pointer of its slot, or of none. *)
Lemma writes_slot t th p q s c vs es : stack_ok s c vs -> threads s !! t = Some th -> needs_slot (at_ th) = true ->
  protects p = None -> (forall q', shown p = Some q' -> q' = q) -> owns p = owns (at_ th) ->
  Forall (fun x => x.1 = t) es ->
  calls_of t (taken s) = calls_of t (done_ s ++ es) ++ pending (heap s) p -> p <> Fault ->
  (forall l, p <> LoadNext l) -> (forall l, p <> TryPush l) ->
  (forall l i, harmless (at_ th) l i -> harmless p l i) -> (forall l nx, p <> TryPop l nx) ->
  forall s', heap s' = heap s -> head s' = head s -> threads s' = <[t := Thread (slot th) p]> (threads s) ->
    taken s' = taken s -> done_ s' = done_ s ++ es -> hazard_pointers s' = hazard_pointers (store_hazard (slot th) q s) ->
  stack_ok s' c vs.
Proof.
  intros Hs Hth Hns Hpr Hsh Ho Hes Hca Hf Hl1 Hl2 Hh Hl3 s' E1 E2 E3 E4 E5 E6. pose proof Hs as [S1 S2 S3 S4 S5 S6 S7].
  pose proof (S5 t th Hth) as Hok. destruct (store_hazard_spec s c t th q Hok (th_needs _ _ _ _ Hok Hns)) as (i & h & Hi & Hhp & Hid & Est).
  rewrite Est in E6. cbn [with_slots hazard_pointers] in E6. pose proof Hok as [T1 T2 T3 T4 T5 T6 T7 T8 T9].
  apply lookup_lt_Some in Hhp as Hlt.
  apply (step_keeps t th (Thread (slot th) p) s _ c vs c vs); try done; rewrite ?E1, ?E2, ?E4, ?E5, ?E6; try done; cbn [at_ slot].
  - by rewrite length_insert.
  - eapply unseen_intro; [exact Hs | exact Hth | | by rewrite E1; left | by left | rewrite E4; by apply no_events |].
    + intros j h' E _ Hnt. rewrite E6, list_lookup_insert_ne; [done|]. intros ->. rewrite Hhp in E. by injection E as <-.
    + exists es. by rewrite E5.
  - constructor; rewrite ?E1, ?E4, ?E5, ?E6; cbn [at_ slot]; try done.
    + intros j Hj. rewrite Hi in Hj. injection Hj as <-. rewrite list_lookup_insert_eq by done. by eexists.
    + intros q' Hq. rewrite (Hsh q' Hq). eexists i, _. split; [done|]. by rewrite list_lookup_insert_eq by done.
    + intros l Hl. rewrite Ho in Hl. by apply T4.
    + intros l Hl. by rewrite Hpr in Hl.
    + intros l nx Hl. by destruct (Hl3 l nx).
    + intros l [Hl | Hl]; [by destruct (Hl1 l) | by destruct (Hl2 l)].
  - intros l Hl. left. by rewrite <- Ho.
  - intros t2 th2 l j Hne H2 Hl Hj. apply Hh.
  - intros t2 th2 l j _ _ Hl. by rewrite Hpr in Hl.
Qed.

(** A new node is at an address that nobody has. *)
Lemma push_starts t th v l s c vs : stack_ok s c vs -> threads s !! t = Some th -> at_ th = Idle -> heap s !! l = None ->
  stack_ok (goto t (slot th) (LoadNext l) (with_heap (<[l := Node (Some v) None]> (heap s)) s)) c vs.
Proof.
  intros Hs Hth Hat Hl. pose proof Hs as [S1 S2 S3 S4 S5 S6 S7]. destruct (S5 t th Hth) as [T1 T2 T3 T4 T5 T6 T7 T8 T9].
  assert (l ∉ c) as Hc by (intros Hin; destruct (linked_alloc _ _ _ _ _ S2 Hin) as [n Hn]; congruence).
  apply (step_keeps t th (Thread (slot th) (LoadNext l)) s _ c vs c vs); try done; state_cbn.
  - eapply linked_same; [|exact S2]. intros l' Hl'. rewrite lookup_insert_ne; [done | congruence].
  - eapply unseen_intro; [exact Hs | exact Hth | done | | by left | by apply no_events | by apply no_events].
    state_cbn. intros l' n E. left. rewrite lookup_insert_ne; [done | congruence].
  - constructor; state_cbn; try done.
    + intros l' [= <-]. rewrite lookup_insert_eq. split; [by eexists | done].
    + by rewrite T7, Hat.
    + intros l' [[= <-] | E]; [|done]. rewrite lookup_insert_eq. by eexists _, _.
  - intros l' [= <-]. right. intros t2 th2 _ H2 Ho. destruct (th_owns _ _ _ _ (S5 _ _ H2) _ Ho) as [[n Hn] _]. congruence.
  - intros t2 th2 l' i _ H2 Hp _ _. destruct (th_protects _ _ _ _ (S5 _ _ H2) _ Hp) as [n Hn]. simpl. congruence.
Qed.

(** The exchange of [push] puts the node in front. *)
Lemma takes_push t th l n s c vs : stack_ok s c vs -> threads s !! t = Some th -> at_ th = TryPush l ->
  heap s !! l = Some n -> head s = next n ->
  exists v, stack_ok (goto t (slot th) Idle (returns t (Pushed (data n)) (takes t (Pushed (data n)) (with_head (Some l) s)))) (l :: c) (v :: vs).
Proof.
  intros Hs Hth Hat Hl Hh. pose proof Hs as [S1 S2 S3 S4 S5 S6 S7]. destruct (S5 t th Hth) as [T1 T2 T3 T4 T5 T6 T7 T8 T9].
  destruct (T9 l (or_intror Hat)) as (v & nx & E). rewrite Hl in E. injection E as ->. cbn [next data] in *.
  assert (owns (at_ th) = Some l) as Ho by (by rewrite Hat). destruct (T4 l Ho) as [_ Hc].
  exists v. apply (step_keeps t th (Thread (slot th) Idle) s _ c vs (l :: c) (v :: vs)); try done; state_cbn.
  - split; [done|]. exists nx. split; [done|]. by rewrite <- Hh.
  - by constructor.
  - rewrite map_app. eapply run_snoc; [exact S4 | constructor].
  - eapply unseen_intro; [exact Hs | exact Hth | done | by left | | by apply one_event | by apply one_event].
    intros l' [-> | Hl']%elem_of_cons; [by right | by left].
  - constructor; state_cbn; try done.
    + rewrite !calls_of_app, calls_of_own, T7, Hat. by rewrite !app_nil_r.
    + intros l' [E | E]; done.
Qed.

(** The exchange of [pop] takes the first node out, and its thread has it alone. *)
Lemma takes_pop t th l nx s c vs : stack_ok s c vs -> threads s !! t = Some th -> at_ th = TryPop l nx -> head s = Some l ->
  exists c' vs', stack_ok (goto t (slot th) (ClearHazard (Some l)) (takes t (Popped (n ← heap s !! l; data n)) (with_head nx s))) c' vs'.
Proof.
  intros Hs Hth Hat Hh. pose proof Hs as [S1 S2 S3 S4 S5 S6 S7]. destruct (S5 t th Hth) as [T1 T2 T3 T4 T5 T6 T7 T8 T9].
  destruct (T6 l nx Hat) as (n & Hl & Enx). rewrite Hl. cbn [mbind option_bind].
  destruct c as [|l' c], vs as [|v vs]; cbn [linked] in S2; try done; [congruence|].
  destruct S2 as (E & nx' & El & S2). rewrite Hh in E. injection E as <-. rewrite Hl in El. injection El as ->. cbn [next data] in *. subst nx'.
  apply NoDup_cons in S3 as [Hc S3].
  exists c, vs. apply (step_keeps t th (Thread (slot th) (ClearHazard (Some l))) s _ (l :: c) (v :: vs) c vs); try done; state_cbn.
  - rewrite map_app. eapply run_snoc; [exact S4 | constructor].
  - eapply unseen_intro; [exact Hs | exact Hth | done | by left | | by apply one_event | by apply no_events].
    intros l' Hl'. left. by right.
  - constructor; state_cbn; try done.
    + intros _. apply T2. by rewrite Hat.
    + intros l' [= <-]. split; [by rewrite Hl | done].
    + rewrite calls_of_app, calls_of_own, T7, Hat. cbn [pending]. rewrite Hl. by rewrite !app_nil_r.
    + intros l' [E | E]; done.
  - intros l' [= <-]. right. intros t2 th2 _ H2 Ho. destruct (th_owns _ _ _ _ (S5 _ _ H2) _ Ho) as [_ Hnin].
    apply Hnin. by left.
Qed.

(** An empty stack was seen. *)
Lemma takes_empty t th s c vs : stack_ok s c vs -> threads s !! t = Some th -> at_ th = LoadAgain None -> head s = None ->
  stack_ok (goto t (slot th) (ClearHazard None) (takes t (Popped None) s)) c vs.
Proof.
  intros Hs Hth Hat Hh. pose proof Hs as [S1 S2 S3 S4 S5 S6 S7]. destruct (S5 t th Hth) as [T1 T2 T3 T4 T5 T6 T7 T8 T9].
  assert (vs = []) as ->.
  { destruct c as [|l c], vs as [|v vs]; cbn [linked] in S2; try done. destruct S2 as (E & _). congruence. }
  apply (step_keeps t th (Thread (slot th) (ClearHazard None)) s _ c [] c []); try done; state_cbn.
  - rewrite map_app. eapply run_snoc; [exact S4 | constructor].
  - eapply unseen_intro; [exact Hs | exact Hth | done | by left | by left | by apply one_event | by apply no_events].
  - constructor; state_cbn; try done.
    + intros _. apply T2. by rewrite Hat.
    + rewrite calls_of_app, calls_of_own, T7, Hat. by rewrite !app_nil_r.
    + intros l' [E | E]; done.
Qed.

(** A pop that leaves its node to nobody returns. *)
Lemma returns_popped t th l res i s c vs : stack_ok s c vs -> threads s !! t = Some th -> at_ th = Outstanding l res i ->
  stack_ok (goto t (slot th) Idle (returns t (Popped res) s)) c vs.
Proof.
  intros Hs Hth Hat. pose proof Hs as [S1 S2 S3 S4 S5 S6 S7]. destruct (S5 t th Hth) as [T1 T2 T3 T4 T5 T6 T7 T8 T9].
  apply (step_keeps t th (Thread (slot th) Idle) s _ c vs c vs); try done; state_cbn.
  - eapply unseen_intro; [exact Hs | exact Hth | done | by left | by left | by apply no_events | by apply one_event].
  - constructor; state_cbn; try done.
    + rewrite calls_of_app, calls_of_own, T7, Hat. by rewrite app_nil_r.
    + intros l' [E | E]; done.
Qed.

(** The last owner deletes. *)
Lemma deletes t th l res s c vs : stack_ok s c vs -> threads s !! t = Some th -> at_ th = Delete l res ->
  stack_ok (goto t (slot th) Idle (returns t (Popped res) (with_heap (delete l (heap s)) s))) c vs.
Proof.
  intros Hs Hth Hat. pose proof Hs as [S1 S2 S3 S4 S5 S6 S7]. destruct (S5 t th Hth) as [T1 T2 T3 T4 T5 T6 T7 T8 T9].
  assert (owns (at_ th) = Some l) as Ho by (by rewrite Hat). destruct (T4 l Ho) as [_ Hc].
  apply (step_keeps t th (Thread (slot th) Idle) s _ c vs c vs); try done; state_cbn.
  - eapply linked_same; [|exact S2]. intros l' Hl'. rewrite lookup_delete_ne; [done | congruence].
  - eapply unseen_intro; [exact Hs | exact Hth | done | | by left | by apply no_events | by apply one_event].
    state_cbn. intros l' m E. destruct (decide (l' = l)) as [->|Hne]; [|left; by rewrite lookup_delete_ne].
    right. split; [done|]. right. intros i. rewrite Hat. simpl. auto.
  - constructor; state_cbn; try done.
    + rewrite calls_of_app, calls_of_own, T7, Hat. by rewrite app_nil_r.
    + intros l' [E | E]; done.
Qed.

(** A free slot is nobody's. *)
Lemma acquires t th i h s c vs : stack_ok s c vs -> threads s !! t = Some th -> at_ th = Acquire i ->
  hazard_pointers s !! i = Some h -> id h = None ->
  stack_ok (goto t (Some i) LoadHead (with_slots (<[i := HP (Some t) (pointer h)]> (hazard_pointers s)) s)) c vs.
Proof.
  intros Hs Hth Hat Hh Hid. pose proof Hs as [S1 S2 S3 S4 S5 S6 S7]. destruct (S5 t th Hth) as [T1 T2 T3 T4 T5 T6 T7 T8 T9].
  apply lookup_lt_Some in Hh as Hlt.
  apply (step_keeps t th (Thread (Some i) LoadHead) s _ c vs c vs); try done; state_cbn.
  - by rewrite length_insert.
  - eapply unseen_intro; [exact Hs | exact Hth | | by left | by left | by apply no_events | by apply no_events].
    state_cbn. intros j h' E Hn _. rewrite list_lookup_insert_ne; [done|]. intros ->. congruence.
  - constructor; state_cbn; try done.
    + intros j [= <-]. rewrite list_lookup_insert_eq by done. by eexists.
    + by rewrite T7, Hat.
    + intros l' [E | E]; done.
Qed.

Lemma clears_id t th i h s c vs : stack_ok s c vs -> threads s !! t = Some th -> at_ th = ClearId ->
  slot th = Some i -> hazard_pointers s !! i = Some h ->
  stack_ok (goto t None Gone (with_slots (<[i := HP None (pointer h)]> (hazard_pointers s)) s)) c vs.
Proof.
  intros Hs Hth Hat Hi Hh. pose proof Hs as [S1 S2 S3 S4 S5 S6 S7]. destruct (S5 t th Hth) as [T1 T2 T3 T4 T5 T6 T7 T8 T9].
  destruct (T1 i Hi) as (h' & Hh' & Hid). rewrite Hh in Hh'. injection Hh' as <-.
  apply (step_keeps t th (Thread None Gone) s _ c vs c vs); try done; state_cbn.
  - by rewrite length_insert.
  - eapply unseen_intro; [exact Hs | exact Hth | | by left | by left | by apply no_events | by apply no_events].
    state_cbn. intros j h' E _ Hn. rewrite list_lookup_insert_ne; [done|]. intros ->. congruence.
  - constructor; state_cbn; try done.
    + by rewrite T7, Hat.
    + intros l' [E | E]; done.
Qed.

Lemma in_chain_harmless s c vs t th l i : stack_ok s c vs -> threads s !! t = Some th -> l ∈ c -> harmless (at_ th) l i.
Proof.
  intros Hs Hth Hc. pose proof (th_owns _ _ _ _ (so_thread _ _ _ Hs t th Hth)) as Ho.
  destruct (at_ th) eqn:Ea; cbn [harmless]; try done.
  1-2,4: intros ->; by destruct (Ho l eq_refl).
  intros ->. by destruct (Ho l eq_refl).
Qed.

(** A scan that sees slot [i] without [l] may pass it. *)
Lemma passes_slot s c vs t th l i h : stack_ok s c vs -> threads s !! t = Some th -> protects (at_ th) = Some l ->
  slot th = Some i -> hazard_pointers s !! i = Some h -> pointer h = Some l.
Proof.
  intros Hs Hth Hp Hi Hh.
  destruct (th_shown _ _ _ _ (so_thread _ _ _ Hs t th Hth) (Some l)) as (i' & h' & E & E' & Ep); [by destruct (at_ th); simplify_eq/=|].
  congruence.
Qed.

(** The slots end where the numbering does. *)
Lemma scan_end s c vs i t th j h : stack_ok s c vs -> hazard_pointers s !! i = None -> hazard_pointers s !! j = Some h ->
  thread_ok s c t th -> slot th = Some j -> (j < i)%nat.
Proof. intros _ Hi Hj _ _. apply lookup_lt_Some in Hj. apply lookup_ge_None in Hi. lia. Qed.

Ltac moves_tac Hs Hth Hat :=
  eapply moves_on; [exact Hs | exact Hth | congruence | rewrite ?Hat; try done ..];
  try solve [intros; simplify_eq/= | intros; subst; simpl; lia | intros ? [?|?]; simplify_eq/=].

(** Each step that the code can make keeps the invariant, with its call in the list of
    those that took effect if it is the one. *)
Lemma idle_ok t th ch s s' c vs : stack_ok s c vs -> threads s !! t = Some th -> at_ th = Idle -> step t ch s = Some s' ->
  stack_ok s' c vs.
Proof.
  intros Hs Hth Hat H. unfold step in H. rewrite Hth, Hat in H. destruct ch as [v l| | | |]; try done.
  - destruct (heap s !! l) eqn:El; [done|]. injection H as <-. by apply push_starts.
  - injection H as <-. destruct (slot th) eqn:Eo; moves_tac Hs Hth Hat.
  - injection H as <-. destruct (slot th) eqn:Eo; moves_tac Hs Hth Hat.
Qed.

Ltac step_at H Hth Hat := unfold step, hp_owner, clear_id, outstanding_hazard_pointers_for in H; rewrite Hth, Hat in H.

Lemma push_ok t th l ch s s' c vs : stack_ok s c vs -> threads s !! t = Some th -> at_ th = LoadNext l \/ at_ th = TryPush l ->
  step t ch s = Some s' -> exists c' vs', stack_ok s' c' vs'.
Proof.
  intros Hs Hth Hat H. pose proof (so_thread _ _ _ Hs t th Hth) as Hok. pose proof (th_calls _ _ _ _ Hok) as Hca.
  destruct (th_data _ _ _ _ Hok l Hat) as (v & nx & El).
  assert (exists nx', (s' = goto t (slot th) (TryPush l) (with_heap (<[l := Node (Some v) nx']> (heap s)) s)) \/
    (at_ th = TryPush l /\ head s = nx /\ s' = goto t (slot th) Idle (returns t (Pushed (Some v)) (takes t (Pushed (Some v)) (with_head (Some l) s))))) as (nx' & [-> | (E & Eh & ->)]).
  { destruct Hat as [E | E]; unfold step in H; rewrite Hth, E in H; destruct ch; try done; rewrite El in H; cbn [data next] in H.
    - exists (head s). injection H as <-. by left.
    - exists (head s). destruct (decide (head s = nx)) as [En|En]; injection H as <-; [right | left]; done.
    - exists (head s). injection H as <-. by left. }
  - exists c, vs. eapply writes_node; [exact Hs | exact Hth | exact El | by destruct Hat as [-> | ->] | done | | | done | done | by destruct Hat as [-> | ->] | ].
    + right. intros i Hi. by destruct Hat as [E | E]; rewrite E in Hi; simpl in Hi.
    + by rewrite Hca; destruct Hat as [-> | ->].
    + intros l' _. by eexists _, _.
  - destruct (takes_push t th l _ s c vs Hs Hth E El (Eh)) as (w & Hw). by eexists _, _.
Qed.

Lemma acquire_ok t th i ch s s' c vs : stack_ok s c vs -> threads s !! t = Some th -> at_ th = Acquire i ->
  step t ch s = Some s' -> stack_ok s' c vs.
Proof.
  intros Hs Hth Hat H. step_at H Hth Hat. destruct ch; try done. destruct (hazard_pointers s !! i) as [h|] eqn:Eh.
  - destruct (id h) eqn:Ei; injection H as <-; [moves_tac Hs Hth Hat | by eapply acquires].
  - injection H as <-. moves_tac Hs Hth Hat.
Qed.

(** Loading the head and showing it. *)
Lemma load_ok t th ch s s' c vs : stack_ok s c vs -> threads s !! t = Some th ->
  (at_ th = LoadHead \/ (exists old, at_ th = StoreHazard old) \/ (exists temp, at_ th = LoadAgain temp) \/ exists l, at_ th = ReadNext l) ->
  step t ch s = Some s' -> stack_ok s' c vs.
Proof.
  intros Hs Hth Hat H. pose proof (so_thread _ _ _ Hs t th Hth) as Hok. pose proof (th_calls _ _ _ _ Hok) as Hca.
  destruct Hat as [Hat | [[old Hat] | [[temp Hat] | [l Hat]]]]; step_at H Hth Hat; destruct ch; try done.
  - injection H as <-. assert (is_Some (slot th)) by (apply (th_needs _ _ _ _ Hok); by rewrite Hat). moves_tac Hs Hth Hat.
  - injection H as <-. rewrite Hat in Hca.
    destruct (store_hazard_spec s c t th old Hok) as (i & h & Hi & Hh & Hid & Est); [apply (th_needs _ _ _ _ Hok); by rewrite Hat|].
    eapply (writes_slot t th (LoadAgain old) old s c vs []); try done; try (rewrite Hat; done); try (rewrite Est; done).
    + intros q' [= <-]. done.
    + by rewrite (app_nil_r (done_ s)), Hca.
    + by rewrite Est, app_nil_r.
  - assert (is_Some (slot th)) by (apply (th_needs _ _ _ _ Hok); by rewrite Hat).
    destruct (decide (head s = temp)) as [E | E].
    + destruct temp as [l|]; injection H as <-; [|by apply takes_empty].
      assert (l ∈ c) as Hc.
      { pose proof (so_linked _ _ _ Hs) as Hl. rewrite E in Hl. destruct c as [|l' c], vs as [|v vs]; cbn [linked] in Hl; try done.
        destruct Hl as (El & _). injection El as ->. by left. }
      moves_tac Hs Hth Hat.
      intros l' [= <-]. split; [by eapply linked_alloc; [exact (so_linked _ _ _ Hs)|]|]. right.
      intros t2 th2 i _ H2. by eapply in_chain_harmless.
    + injection H as <-. moves_tac Hs Hth Hat.
  - assert (is_Some (slot th)) by (apply (th_needs _ _ _ _ Hok); by rewrite Hat).
    destruct (th_protects _ _ _ _ Hok l) as [n El]; [by rewrite Hat|]. rewrite El in H. injection H as <-. moves_tac Hs Hth Hat.
    + intros l' [= <-]. split; [by eexists | by left].
    + intros l' nx [= <- <-]. by exists n.
Qed.

Lemma try_pop_ok t th l nx ch s s' c vs : stack_ok s c vs -> threads s !! t = Some th -> at_ th = TryPop l nx ->
  step t ch s = Some s' -> exists c' vs', stack_ok s' c' vs'.
Proof.
  intros Hs Hth Hat H. pose proof (so_thread _ _ _ Hs t th Hth) as Hok.
  assert (is_Some (slot th)) by (apply (th_needs _ _ _ _ Hok); by rewrite Hat).
  assert (stack_ok (goto t (slot th) (StoreHazard (head s)) s) c vs) as Hretry by moves_tac Hs Hth Hat.
  step_at H Hth Hat. destruct ch; try done; [destruct (decide (head s = Some l)) as [E | E]|]; injection H as <-.
  - by eapply takes_pop.
  - by eexists _, _.
  - by eexists _, _.
Qed.

Lemma clear_hazard_ok t th old ch s s' c vs : stack_ok s c vs -> threads s !! t = Some th -> at_ th = ClearHazard old ->
  step t ch s = Some s' -> stack_ok s' c vs.
Proof.
  intros Hs Hth Hat H. pose proof (so_thread _ _ _ Hs t th Hth) as Hok. pose proof (th_calls _ _ _ _ Hok) as Hca.
  rewrite Hat in Hca. step_at H Hth Hat.
  destruct (store_hazard_spec s c t th None Hok) as (i & h & Hi & Hh & Hid & Est); [apply (th_needs _ _ _ _ Hok); by rewrite Hat|].
  destruct old as [l|]; destruct ch; try done; injection H as <-.
  - eapply (writes_slot t th (SwapData l) None s c vs []); try done; try (rewrite Hat; done); try (rewrite Est; done).
    + by rewrite (app_nil_r (done_ s)), Hca.
    + by rewrite Est, app_nil_r.
  - eapply (writes_slot t th Idle None s c vs [(t, Popped None)]); try done; try (rewrite Hat; done); try (rewrite Est; done).
    + by constructor.
    + by rewrite calls_of_app, calls_of_own, Hca, <- app_assoc.
Qed.

Lemma swap_data_ok t th l ch s s' c vs : stack_ok s c vs -> threads s !! t = Some th -> at_ th = SwapData l ->
  step t ch s = Some s' -> stack_ok s' c vs.
Proof.
  intros Hs Hth Hat H. pose proof (so_thread _ _ _ Hs t th Hth) as Hok. pose proof (th_calls _ _ _ _ Hok) as Hca.
  rewrite Hat in Hca. step_at H Hth Hat. destruct ch; try done.
  destruct (th_owns _ _ _ _ Hok l) as [[n El] Hc]; [by rewrite Hat|]. rewrite El in H. injection H as <-.
  eapply writes_node; [exact Hs | exact Hth | exact El | by rewrite Hat | done | by left | | done | done | | ].
  - rewrite Hca. cbn [pending]. by rewrite El.
  - intros i _. simpl. lia.
  - intros l' [E | E]; done.
Qed.

(** The scan: at the end of it no slot holds the node. *)
Lemma scan_ok t th l res i ch s s' c vs : stack_ok s c vs -> threads s !! t = Some th -> at_ th = Outstanding l res i ->
  step t ch s = Some s' -> stack_ok s' c vs.
Proof.
  intros Hs Hth Hat H. pose proof (so_thread _ _ _ Hs t th Hth) as Hok.
  step_at H Hth Hat. destruct ch; try done. destruct (hazard_pointers s !! i) as [h|] eqn:Eh.
  - destruct (decide (pointer h = Some l)) as [E | E]; injection H as <-; [by eapply returns_popped|].
    moves_tac Hs Hth Hat. intros t2 th2 l' j Hne H2 Hp Hj Hh. simpl in Hh |- *. intros ->.
    specialize (Hh eq_refl). destruct (decide (j = i)) as [->|]; [|lia].
    by destruct (E (passes_slot _ _ _ _ _ _ _ _ Hs H2 Hp Hj Eh)).
  - injection H as <-. moves_tac Hs Hth Hat. intros t2 th2 l' j Hne H2 Hp Hj Hh. simpl in Hh |- *. intros ->.
    specialize (Hh eq_refl). destruct (th_slot _ _ _ _ (so_thread _ _ _ Hs _ _ H2) j Hj) as (h & Hh' & _).
    pose proof (scan_end _ _ _ _ _ _ _ _ Hs Eh Hh' (so_thread _ _ _ Hs _ _ H2) Hj). lia.
Qed.

Lemma delete_ok t th l res ch s s' c vs : stack_ok s c vs -> threads s !! t = Some th -> at_ th = Delete l res ->
  step t ch s = Some s' -> stack_ok s' c vs.
Proof.
  intros Hs Hth Hat H. step_at H Hth Hat. destruct ch; try done.
  destruct (th_owns _ _ _ _ (so_thread _ _ _ Hs t th Hth) l) as [[n El] _]; [by rewrite Hat|]. rewrite El in H. injection H as <-.
  by eapply deletes.
Qed.

Lemma exit_ok t th ch s s' c vs : stack_ok s c vs -> threads s !! t = Some th -> at_ th = ClearPointer \/ at_ th = ClearId ->
  step t ch s = Some s' -> stack_ok s' c vs.
Proof.
  intros Hs Hth Hat H. pose proof (so_thread _ _ _ Hs t th Hth) as Hok. pose proof (th_calls _ _ _ _ Hok) as Hca.
  destruct Hat as [Hat | Hat]; rewrite Hat in Hca; step_at H Hth Hat; destruct ch; try done.
  - injection H as <-. destruct (store_hazard_spec s c t th None Hok) as (i & h & Hi & Hh & Hid & Est); [apply (th_needs _ _ _ _ Hok); by rewrite Hat|].
    eapply (writes_slot t th ClearId None s c vs []); try done; try (rewrite Hat; done); try (rewrite Est; done).
    + by rewrite (app_nil_r (done_ s)), Hca.
    + by rewrite Est, app_nil_r.
  - destruct (slot th) as [i|] eqn:Hi; [|done]. cbn in H. destruct (hazard_pointers s !! i) as [h|] eqn:Eh; [|done]. injection H as <-.
    by eapply clears_id.
Qed.

Lemma step_ok s s' c vs : stack_ok s c vs -> stack_step s s' -> exists c' vs', stack_ok s' c' vs'.
Proof.
  intros Hs (t & ch & H). destruct (threads s !! t) as [th|] eqn:Hth; [|by unfold step in H; rewrite Hth in H].
  destruct (at_ th) eqn:Hat.
  1: exists c, vs; by eapply idle_ok.
  1-2: eapply push_ok; [exact Hs | exact Hth | rewrite Hat; eauto | exact H].
  1: exists c, vs; by eapply acquire_ok.
  1-4: exists c, vs; eapply load_ok; [exact Hs | exact Hth | | exact H]; eauto 6.
  1: by eapply try_pop_ok.
  1: exists c, vs; by eapply clear_hazard_ok.
  1: exists c, vs; by eapply swap_data_ok.
  1: exists c, vs; by eapply scan_ok.
  1: exists c, vs; by eapply delete_ok.
  1-2: exists c, vs; eapply exit_ok; [exact Hs | exact Hth | | exact H]; auto.
  1-2: exfalso; by step_at H Hth Hat; destruct ch.
Qed.

Lemma start_ok n : stack_ok (start n) [] [].
Proof.
  constructor; try done; cbn [start threads].
  - constructor.
  - constructor.
  - intros t th [-> _]%lookup_replicate. constructor; cbn [at_ slot]; try done. intros l [E | E]; done.
  - intros t1 t2 th1 th2 l [-> _]%lookup_replicate. done.
  - intros t1 t2 th1 th2 l i [-> _]%lookup_replicate. done.
Qed.

Lemma reachable_ok n s : rtc stack_step (start n) s -> exists c vs, stack_ok s c vs.
Proof.
  intros H. assert (exists c vs, stack_ok (start n) c vs) as H0 by (eexists _, _; apply start_ok).
  induction H as [|s1 s2 s3 H1 _ IH]; [done|]. destruct H0 as (c & vs & Hs). apply IH. by eapply step_ok.
Qed.

(** A schedule: who goes, and what it is asked. *)
Fixpoint run (sched : list (nat * choice)) (s : state) : option state :=
  match sched with [] => Some s | (t, ch) :: sched' => s' ← step t ch s; run sched' s' end.

Lemma run_steps sched s s' : run sched s = Some s' -> rtc stack_step s s'.
Proof.
  revert s. induction sched as [|[t ch] sched IH]; intros s H; cbn [run] in H; [injection H as ->; done|].
  destruct (step t ch s) as [s1|] eqn:E; [|done]. eapply rtc_l; [by exists t, ch | by apply IH].
Qed.

(** ** A thread that goes alone *)

Definition at_head (s : state) (l : loc) : bool := bool_decide (head s = Some l).

(** The accesses that are left of a call. *)
Definition left (s : state) (p : pc) : nat :=
  match p with
  | Idle | Gone | Fault => 0
  | LoadNext _ => 2
  | TryPush l => if bool_decide ((n ← heap s !! l; next n) = head s) then 1 else 2
  | Acquire i => (max_hazard_pointers - i) + 110
  | LoadHead => 109
  | StoreHazard old => if bool_decide (head s = old) then 108 else 110
  | LoadAgain temp => if bool_decide (head s = temp) then 107 else 109
  | ReadNext l => if at_head s l then 106 else 110
  | TryPop l _ => if at_head s l then 105 else 109
  | ClearHazard None => 1
  | ClearHazard (Some _) => 104
  | SwapData _ => 103
  | Outstanding _ _ i => (max_hazard_pointers - i) + 2
  | Delete _ _ => 1
  | ClearPointer => 2
  | ClearId => 1
  end.

Lemma goto_at t th o p s : threads s !! t = Some th -> threads (goto t o p s) !! t = Some (Thread o p).
Proof. intros H. cbn [goto threads]. apply list_lookup_insert_eq. by eapply lookup_lt_Some. Qed.

Definition in_call (p : pc) : Prop := p <> Idle /\ p <> Gone.

Lemma store_hazard_same o p s : heap (store_hazard o p s) = heap s /\ head (store_hazard o p s) = head s /\ threads (store_hazard o p s) = threads s.
Proof. unfold store_hazard. destruct o as [i|]; [destruct (hazard_pointers s !! i)|]; done. Qed.

Ltac bools := repeat (case_bool_decide; simplify_eq/=; try done); try lia.

(** The bound on what is left goes down with every access. *)
Lemma step_alone s c vs t th : stack_ok s c vs -> threads s !! t = Some th -> in_call (at_ th) ->
  exists s' th', step t Go s = Some s' /\ threads s' !! t = Some th' /\ (left s' (at_ th') < left s (at_ th))%nat.
Proof.
  intros Hs Hth [Hi Hg]. pose proof (so_thread _ _ _ Hs t th Hth) as [T1 T2 T3 T4 T5 T6 T7 T8 T9].
  pose proof (so_slots _ _ _ Hs) as Hlen.
  assert (forall o p s1, threads s1 = threads s -> step t Go s = Some (goto t o p s1) -> (left (goto t o p s1) p < left s (at_ th))%nat ->
    exists s' th', step t Go s = Some s' /\ threads s' !! t = Some th' /\ (left s' (at_ th') < left s (at_ th))%nat) as Hgo.
  { intros o p s1 E H Hl. eexists _, _. split; [exact H|]. split; [by apply (goto_at t th); rewrite E | exact Hl]. }
  revert Hgo. unfold step, hp_owner, clear_id, outstanding_hazard_pointers_for. rewrite Hth. intros Hgo. destruct (at_ th) as [|l|l|i| |old|temp|l|l nx|[l|]|l|l res i|l res| | | |] eqn:Hat; try done.
  - destruct (T4 l eq_refl) as [[n El] _]. rewrite El in *. eapply Hgo; [|reflexivity|]; [done|].
    cbn [left goto heap head with_heap]. rewrite lookup_insert_eq. bools.
  - destruct (T4 l eq_refl) as [[n El] _]. rewrite El in *. destruct (decide (head s = next n)) as [E|E]; (eapply Hgo; [|reflexivity|]; [done|]);
      cbn [left goto heap head with_heap]; rewrite ?lookup_insert_eq, El; bools.
  - destruct (hazard_pointers s !! i) as [h|] eqn:Eh.
    + apply lookup_lt_Some in Eh as Hlt. destruct (id h); (eapply Hgo; [|reflexivity|]; [done|]); cbn [left]; lia.
    + eapply Hgo; [|reflexivity|]; [done|]. cbn [left]. lia.
  - eapply Hgo; [|reflexivity|]; [done|]. cbn [left goto head]. bools.
  - destruct (store_hazard_same (slot th) old s) as (E1 & E2 & E3).
    eapply Hgo; [|reflexivity|]; [done|]. cbn [left goto head]. rewrite E2. bools.
  - destruct (decide (head s = temp)) as [E|E]; [destruct temp as [l|]|]; (eapply Hgo; [|reflexivity|]; [done|]);
      cbn [left goto head at_head]; unfold at_head; bools.
  - destruct (T5 l eq_refl) as [n El]. rewrite El in *. eapply Hgo; [|reflexivity|]; [done|].
    cbn [left]. unfold at_head. cbn [goto head]. bools.
  - destruct (decide (head s = Some l)) as [E|E]; (eapply Hgo; [|reflexivity|]; [done|]); cbn [left goto head]; unfold at_head; bools.
  - destruct (store_hazard_same (slot th) None s) as (E1 & E2 & E3). eapply Hgo; [|reflexivity|]; [done | cbn [left]; lia].
  - destruct (store_hazard_same (slot th) None s) as (E1 & E2 & E3).
    eapply Hgo; [|reflexivity|]; [done | cbn [left]; lia].
  - destruct (T4 l eq_refl) as [[n El] _]. rewrite El in *. eapply Hgo; [|reflexivity|]; [done | cbn [left]; unfold max_hazard_pointers; lia].
  - destruct (hazard_pointers s !! i) as [h|] eqn:Eh.
    + apply lookup_lt_Some in Eh as Hlt. destruct (decide (pointer h = Some l)); (eapply Hgo; [|reflexivity|]; [done|]); cbn [left]; lia.
    + eapply Hgo; [|reflexivity|]; [done|]. cbn [left]. lia.
  - destruct (T4 l eq_refl) as [[n El] _]. rewrite El in *. eapply Hgo; [|reflexivity|]; [done | cbn [left]; lia].
  - destruct (store_hazard_same (slot th) None s) as (E1 & E2 & E3).
    eapply Hgo; [|reflexivity|]; [done | cbn [left]; lia].
  - destruct (T2 eq_refl) as [i Ei]. destruct (T1 i Ei) as (h & Eh & _). rewrite Ei in *. cbn [mbind option_bind] in *. rewrite Eh in *. cbn [mbind option_bind] in *. eapply Hgo; [|reflexivity|]; [done | cbn [left]; lia].
Qed.

Lemma left_bound s p : (left s p <= max_hazard_pointers + 110)%nat.
Proof.
  unfold left, at_head, max_hazard_pointers.
  destruct p as [| | | | |o|o| | |o| | | | | | |]; try destruct o; repeat case_bool_decide; lia.
Qed.

Lemma runs_alone k s c vs t th : stack_ok s c vs -> threads s !! t = Some th -> (left s (at_ th) <= k)%nat ->
  exists j s' th', (j <= k)%nat /\ run (replicate j (t, Go)) s = Some s' /\ threads s' !! t = Some th' /\ ~ in_call (at_ th').
Proof.
  revert s c vs th. induction k as [|k IH]; intros s c vs th Hs Hth Hk.
  all: assert (in_call (at_ th) \/ ~ in_call (at_ th)) as [Hin | Hout] by (unfold in_call; destruct (at_ th); try (left; done); right; naive_solver).
  - destruct (step_alone s c vs t th Hs Hth Hin) as (s' & th' & _ & _ & Hl). lia.
  - exists 0%nat, s, th. repeat split; [lia | done | done].
  - destruct (step_alone s c vs t th Hs Hth Hin) as (s1 & th1 & H1 & Ht1 & Hl).
    destruct (step_ok s s1 c vs Hs) as (c1 & vs1 & Hs1); [by exists t, Go|].
    destruct (IH s1 c1 vs1 th1 Hs1 Ht1) as (j & s' & th' & Hj & Hr & Ht' & Ho); [lia|].
    exists (S j), s', th'. split; [lia|]. split; [|done]. cbn [replicate run]. by rewrite H1.
  - exists 0%nat, s, th. repeat split; [lia | done | done].
Qed.

(** Values that went in and that came out. *)
Definition pushed (es : list event) : list V := omap (fun e => match e with Pushed v => v | Popped _ => None end) es.
Definition popped (es : list event) : list V := omap (fun e => match e with Pushed _ => None | Popped r => r end) es.

Lemma spec_run_values es vs : spec_run es vs -> pushed es ≡ₚ popped es ++ vs.
Proof.
  induction 1 as [|es vs e vs' _ IH H]; [done|]. unfold pushed, popped in *. rewrite !omap_app.
  destruct H as [v vs|v vs|]; cbn [omap list_omap]; rewrite ?app_nil_r, IH.
  - by rewrite <- app_assoc, (Permutation_app_comm vs [v]).
  - by rewrite <- app_assoc.
  - by rewrite app_nil_r.
Qed.

(** C8. Whatever the interleaving, no thread ever uses or deletes a deleted node, no two
    threads share a hazard pointer, and the stack is linearizable: the calls that took
    effect are, in that order, a run of a list, which the nodes from the head on hold; a
    thread's own calls took effect in the order of their returns, with at most the
    current one ahead; and every value pushed was popped once or is still there. *)
Theorem stack_is_linearizable n s : rtc stack_step (start n) s ->
  (forall t th, threads s !! t = Some th ->
     at_ th <> Fault /\ calls_of t (taken s) = calls_of t (done_ s) ++ pending (heap s) (at_ th)) /\
  (forall t1 t2 th1 th2 i, threads s !! t1 = Some th1 -> threads s !! t2 = Some th2 ->
     slot th1 = Some i -> slot th2 = Some i -> t1 = t2) /\
  exists c vs, linked (heap s) (head s) c vs /\ NoDup c /\ spec_run (map snd (taken s)) vs /\
    pushed (map snd (taken s)) ≡ₚ popped (map snd (taken s)) ++ vs.
Proof.
  intros H. destruct (reachable_ok n s H) as (c & vs & Hs). split; [|split].
  - intros t th Hth. destruct (so_thread _ _ _ Hs t th Hth) as [_ _ _ _ _ _ Hca Hsafe _]. done.
  - intros t1 t2 th1 th2 i H1 H2 E1 E2.
    destruct (th_slot _ _ _ _ (so_thread _ _ _ Hs t1 th1 H1) i E1) as (h1 & Eh1 & Ei1).
    destruct (th_slot _ _ _ _ (so_thread _ _ _ Hs t2 th2 H2) i E2) as (h2 & Eh2 & Ei2). congruence.
  - exists c, vs. split; [apply Hs|]. split; [apply Hs|]. split; [apply Hs|]. apply spec_run_values, Hs.
Qed.

(** C26. A thread that goes alone from any reachable state, in the middle of whatever calls
    of its own and of others, is out of its call after at most 210 accesses. *)
Theorem lone_call_returns n s t th : rtc stack_step (start n) s -> threads s !! t = Some th ->
  exists j s' th', (j <= max_hazard_pointers + 110)%nat /\ run (replicate j (t, Go)) s = Some s' /\
    threads s' !! t = Some th' /\ (at_ th' = Idle \/ at_ th' = Gone).
Proof.
  intros H Hth. destruct (reachable_ok n s H) as (c & vs & Hs).
  destruct (runs_alone _ s c vs t th Hs Hth (left_bound s (at_ th))) as (j & s' & th' & Hj & Hr & Ht & Ho).
  exists j, s', th'. repeat split; [done..|]. unfold in_call in Ho. destruct (at_ th'); auto; destruct Ho; done.
Qed.
End Stack.

(** Thread 1 holds the first node when thread 0 takes it out: thread 0 leaves the node,
    and thread 1 sees the stack empty. *)
Definition race : list (nat * @choice nat) :=
  [(0, Push 7 1%positive); (0, Go); (0, Go); (1, Pop)]%nat ++ replicate 5 (1%nat, Go) ++
  [(0%nat, Pop)] ++ replicate 10 (0%nat, Go) ++ replicate 4 (1%nat, Go).

Definition after_race : @state nat := default (start 0) (run race (start 2)).

Lemma race_runs : run race (start 2) = Some after_race.
Proof. vm_compute. reflexivity. Qed.

Lemma stack_is_linearizable_witness :
  map snd (taken after_race) = [Pushed (Some 7%nat); Popped (Some 7%nat); Popped None] /\
  exists c vs, linked (heap after_race) (head after_race) c vs /\ NoDup c /\ spec_run (map snd (taken after_race)) vs /\
    pushed (map snd (taken after_race)) ≡ₚ popped (map snd (taken after_race)) ++ vs.
Proof.
  split; [vm_compute; reflexivity|].
  apply (stack_is_linearizable 2 after_race). apply (run_steps race). exact race_runs.
Defined.

(** The node that thread 0 left is in no list and no thread has it. *)
Example race_leaks : head after_race = None /\ heap after_race !! 1%positive = Some (Node None None) /\
  threads after_race = [Thread (Some 1%nat) Idle; Thread (Some 0%nat) Idle].
Proof. vm_compute. done. Qed.

Definition before_race : @state nat := default (start 0) (run (take 9 race) (start 2)).

Lemma before_race_runs : run (take 9 race) (start 2) = Some before_race.
Proof. vm_compute. reflexivity. Qed.

Lemma lone_call_returns_witness :
  threads before_race !! 1%nat = Some (Thread (Some 0%nat) (TryPop 1 None)) /\
  exists j s' th', (j <= max_hazard_pointers + 110)%nat /\ run (replicate j (1%nat, Go)) before_race = Some s' /\
    threads s' !! 1%nat = Some th' /\ (at_ th' = Idle \/ at_ th' = Gone).
Proof.
  split; [vm_compute; reflexivity|].
  apply (lone_call_returns 2 before_race 1 (Thread (Some 0%nat) (TryPop 1 None))).
  - apply (run_steps (take 9 race)). exact before_race_runs.
  - vm_compute. reflexivity.
Defined.
