(* ===== verification/ThreadPool.v ===== *)
(** * The thread pools

    Module Pool: io/linux/day14/src/ThreadPool.cpp with include/ThreadPool.h; the pool of
    io/SkyNet has the same worker and the same Add, and another destructor.  Module
    WinPool: io/win/shared/threadpool.hpp with safeQueue.hpp.

    A step is a critical section, or what a thread does between two of them.  A worker
    that waits on the condition variable can wake up for no reason.  Calls of add are by
    any threads; the destructor, or shutdown, is one thread's. *)

From stdpp Require Import base tactics option list numbers.
From Stdlib Require Import Lia Bool.
From S2P Require Import Prelude.

(** About to take the lock, in cv.wait, in task(), returned. *)
Inductive worker {T : Type} := AtLoop | Waiting | Running (task : T) | Exited.
Arguments worker : clear implicits.

Definition wake {T} (w : worker T) : worker T := match w with Waiting => AtLoop | _ => w end.

Definition is_waiting {T} (w : worker T) : bool := match w with Waiting => true | _ => false end.
Definition is_exited {T} (w : worker T) : bool := match w with Exited => true | _ => false end.

Module Pool.
Section Pool.
Context {T : Type}.

(** The owner: it uses the pool; it has set [stop]; it has notified and joins (or, in
    SkyNet, has detached); the destructor is over. *)
Inductive phase := Live | Stopping | Joining | Destroyed.

(** [notifies]: calls of add between the unlock and notify_one; [added], [started],
    [finished]: the history. *)
Record state := State {
  tasks : list T; stop : bool; workers : list (worker T); notifies : nat; owner : phase;
  added : list T; started : list T; finished : list T
}.

Definition ThreadPool (size : nat) : state := State [] false (replicate size AtLoop) 0 Live [] [] [].

Definition with_workers (ws : list (worker T)) (s : state) : state :=
  State (tasks s) (stop s) ws (notifies s) (owner s) (added s) (started s) (finished s).
Definition with_owner (p : phase) (s : state) : state :=
  State (tasks s) (stop s) (workers s) (notifies s) p (added s) (started s) (finished s).

Inductive action := Add (task : T) | NotifyOne (w : option nat) | Work (i : nat) | Finish (i : nat) | Spurious (i : nat)
  | Stop | Notify | Return.

(** The critical section of add, which throws when the pool is stopped. *)
Definition add (task : T) (s : state) : option state :=
  if stop s then None
  else Some (State (tasks s ++ [task]) (stop s) (workers s) (S (notifies s)) (owner s) (added s ++ [task]) (started s) (finished s)).

(** notify_one wakes a worker that waits, if there is one. *)
Definition notify_one (w : option nat) (s : state) : option state :=
  match notifies s with
  | O => None
  | S n =>
      let s := State (tasks s) (stop s) (workers s) n (owner s) (added s) (started s) (finished s) in
      match w with
      | Some i => w ← workers s !! i; if is_waiting w then Some (with_workers (<[i := AtLoop]> (workers s)) s) else None
      | None => if existsb is_waiting (workers s) then None else Some s
      end
  end.

(** The worker's critical section: the test of cv.wait, then the return or the pop. *)
Definition work (i : nat) (s : state) : option state :=
  match workers s !! i with
  | Some AtLoop =>
      match tasks s with
      | [] => Some (with_workers (<[i := if stop s then Exited else Waiting]> (workers s)) s)
      | t :: ts =>
          Some (State ts (stop s) (<[i := Running t]> (workers s)) (notifies s) (owner s) (added s) (started s ++ [t]) (finished s))
      end
  | _ => None
  end.

Definition finish (i : nat) (s : state) : option state :=
  match workers s !! i with
  | Some (Running t) =>
      Some (State (tasks s) (stop s) (<[i := AtLoop]> (workers s)) (notifies s) (owner s) (added s) (started s) (finished s ++ [t]))
  | _ => None
  end.

Definition spurious (i : nat) (s : state) : option state :=
  match workers s !! i with Some Waiting => Some (with_workers (<[i := AtLoop]> (workers s)) s) | _ => None end.

(** The destructor of day14: stop, notify_all, join every worker. *)
Definition set_stop (s : state) : option state :=
  match owner s with
  | Live => Some (State (tasks s) true (workers s) (notifies s) Stopping (added s) (started s) (finished s))
  | _ => None
  end.
Definition notify_all (s : state) : option state :=
  match owner s with Stopping => Some (with_owner Joining (with_workers (map wake (workers s)) s)) | _ => None end.
Definition join_all (s : state) : option state :=
  match owner s with
  | Joining => if forallb is_exited (workers s) then Some (with_owner Destroyed s) else None
  | _ => None
  end.

Definition step (a : action) (s : state) : option state :=
  match a with
  | Add t => add t s
  | NotifyOne w => notify_one w s
  | Work i => work i s
  | Finish i => finish i s
  | Spurious i => spurious i s
  | Stop => set_stop s
  | Notify => notify_all s
  | Return => join_all s
  end.

Definition pool_step (s s' : state) : Prop := exists a, step a s = Some s'.

(** What happens when nobody adds, and no worker wakes up for no reason. *)
Definition quiet (a : action) : bool := match a with Add _ | Spurious _ => false | _ => true end.

Fixpoint run (l : list action) (s : state) : option state :=
  match l with [] => Some s | a :: l' => s' ← step a s; run l' s' end.

(** ** The invariant *)

Definition active (w : worker T) : bool := match w with AtLoop | Running _ => true | _ => false end.
Definition running (w : worker T) : list T := match w with Running t => [t] | _ => [] end.

Record pool_ok (s : state) : Prop := {
  po_some : workers s <> [];
  po_fifo : added s = started s ++ tasks s;
  po_once : started s ≡ₚ finished s ++ concat (map running (workers s));
  po_served : tasks s <> [] -> (exists i w, workers s !! i = Some w /\ active w = true) \/ (0 < notifies s)%nat;
  po_exited : forall i, workers s !! i = Some Exited -> stop s = true /\ tasks s = [];
  po_stop : stop s = true <-> owner s <> Live;
  po_awake : owner s = Joining \/ owner s = Destroyed -> forall i, workers s !! i <> Some Waiting;
  po_gone : owner s = Destroyed -> forall i w, workers s !! i = Some w -> w = Exited
}.

(** The number of accesses a pool makes before it rests, if nobody adds. *)
Definition weight (w : worker T) : nat := match w with AtLoop => 1 | Running _ => 2 | _ => 0 end.
Definition owner_weight (n : nat) (p : phase) : nat :=
  match p with Live => n + 3 | Stopping => n + 2 | Joining => 1 | Destroyed => 0 end.
Definition measure (s : state) : nat :=
  3 * length (tasks s) + list_sum (map weight (workers s)) + 2 * notifies s + owner_weight (length (workers s)) (owner s).

Lemma running_insert (ws : list (worker T)) i w w' : ws !! i = Some w ->
  running w ++ concat (map running (<[i := w']> ws)) ≡ₚ running w' ++ concat (map running ws).
Proof.
  revert i. induction ws as [|w0 ws IH]; intros [|i] H; [done | done | |]; simpl in H |- *.
  - injection H as ->. by rewrite Permutation_app_swap_app.
  - rewrite (Permutation_app_swap_app (running w)), (IH i H). by rewrite Permutation_app_swap_app.
Qed.

Lemma weight_insert (ws : list (worker T)) i w w' : ws !! i = Some w ->
  (weight w + list_sum (map weight (<[i := w']> ws)) = weight w' + list_sum (map weight ws))%nat.
Proof.
  revert i. induction ws as [|w0 ws IH]; intros [|i] H; [done | done | |]; simpl in H |- *.
  - injection H as ->. lia.
  - specialize (IH i H). lia.
Qed.

Lemma weight_wake (ws : list (worker T)) : (list_sum (map weight (map wake ws)) <= list_sum (map weight ws) + length ws)%nat.
Proof. induction ws as [|[] ws IH]; simpl; lia. Qed.

Lemma running_wake (ws : list (worker T)) : map running (map wake ws) = map running ws.
Proof. induction ws as [|[] ws IH]; simpl; congruence. Qed.

Lemma existsb_waiting (ws : list (worker T)) : existsb is_waiting ws = false -> forall i, ws !! i <> Some Waiting.
Proof.
  intros H i Hi. apply list_elem_of_lookup_2, list_elem_of_In in Hi. apply not_true_iff_false in H. apply H, existsb_exists. by exists Waiting.
Qed.

Lemma all_exited (ws : list (worker T)) : forallb is_exited ws = true <-> forall i w, ws !! i = Some w -> w = Exited.
Proof.
  rewrite forallb_forall. split.
  - intros H i w Hi. apply list_elem_of_lookup_2, list_elem_of_In, H in Hi. by destruct w.
  - intros H w Hw. apply list_elem_of_In, list_elem_of_lookup_1 in Hw as [i Hi]. by rewrite (H i w Hi).
Qed.

Lemma pool_start_ok n : (0 < n)%nat -> pool_ok (ThreadPool n).
Proof.
  intros Hn. split; cbn [ThreadPool workers added started tasks finished owner stop notifies]; try done.
  - by destruct n; [lia|].
  - clear Hn. by induction n.
  - by intros i [? _]%lookup_replicate.
  - by intros [|].
Qed.

(** A worker goes from one state to another. *)
Ltac worker_cases :=
  repeat match goal with
  | H : <[_ := _]> _ !! _ = Some _ |- _ => apply list_lookup_insert_Some in H as [(? & ? & ?) | [? H]]; simplify_eq
  end.

Lemma worker_step i w w' s ts n st fi : pool_ok s -> workers s !! i = Some w -> w <> Exited ->
  added s = st ++ ts -> st ≡ₚ fi ++ concat (map running (<[i := w']> (workers s))) ->
  (ts <> [] -> active w' = true) ->
  (w' = Exited -> stop s = true /\ ts = []) -> (tasks s = [] -> ts = []) ->
  (w' = Waiting -> stop s = false) ->
  pool_ok (State ts (stop s) (<[i := w']> (workers s)) n (owner s) (added s) st fi).
Proof.
  intros [S1 S2 S3 S4 S5 S6 S7 S8] Hi Hne Hf Ho Hs He Ht Hw. split; cbn [workers added started tasks finished owner stop notifies]; try done.
  - intros E. apply (f_equal length) in E. rewrite length_insert in E. by destruct (workers s).
  - intros Hts. left. exists i, w'. split; [|by apply Hs]. apply list_lookup_insert_eq. by eapply lookup_lt_Some.
  - intros j Hj. worker_cases; [by apply He|]. destruct (S5 j Hj) as [? ?]. auto.
  - intros Hp j Hj. worker_cases; [|by eapply S7]. rewrite (proj2 S6) in Hw; [by discriminate Hw|]. by destruct Hp as [-> | ->].
  - intros Hp. destruct Hne. by eapply S8.
Qed.

Lemma work_ok i s s' : pool_ok s -> work i s = Some s' -> pool_ok s'.
Proof.
  intros Hs H. unfold work in H. destruct (workers s !! i) as [[| |u|]|] eqn:Hi; try done.
  pose proof (po_fifo _ Hs) as Hf. pose proof (po_once _ Hs) as Ho. pose proof (running_insert (workers s) i AtLoop) as Hr.
  destruct (tasks s) as [|u ts] eqn:Et; injection H as <-.
  - unfold with_workers. rewrite Et. apply (worker_step i AtLoop); try done.
    + rewrite Ho. apply Permutation_app_head. specialize (Hr (if stop s then Exited else Waiting) Hi). by destruct (stop s).
    + by destruct (stop s).
    + by destruct (stop s).
  - apply (worker_step i AtLoop); try done; [by rewrite Hf, <- app_assoc | | by rewrite Et].
    rewrite Ho, <- app_assoc. apply Permutation_app_head. specialize (Hr (Running u) Hi). simpl in Hr. rewrite Hr. by rewrite Permutation_app_comm.
Qed.

Lemma finish_ok i s s' : pool_ok s -> finish i s = Some s' -> pool_ok s'.
Proof.
  intros Hs H. unfold finish in H. destruct (workers s !! i) as [[| |u|]|] eqn:Hi; try done. injection H as <-.
  apply (worker_step i (Running u)); try done; try apply Hs.
  rewrite (po_once _ Hs), <- app_assoc. apply Permutation_app_head. symmetry. apply (running_insert (workers s) i (Running u) AtLoop Hi).
Qed.

Lemma wakes_ok i s n : pool_ok s -> workers s !! i = Some Waiting ->
  pool_ok (State (tasks s) (stop s) (<[i := AtLoop]> (workers s)) n (owner s) (added s) (started s) (finished s)).
Proof.
  intros Hs Hi. apply (worker_step i Waiting); try done; try apply Hs.
  rewrite (po_once _ Hs). apply Permutation_app_head. symmetry. apply (running_insert (workers s) i Waiting AtLoop Hi).
Qed.

Lemma notify_one_ok w s s' : pool_ok s -> notify_one w s = Some s' -> pool_ok s'.
Proof.
  intros Hs H. unfold notify_one in H. destruct (notifies s) as [|n] eqn:En; [done|]. destruct w as [i|]; cbn [workers] in H.
  - destruct (workers s !! i) as [w|] eqn:Hi; [|done]. cbn in H. destruct (is_waiting w) eqn:Ew; [|done]. injection H as <-.
    assert (w = Waiting) as -> by (by destruct w). unfold with_workers. cbn. by apply wakes_ok.
  - destruct (existsb is_waiting (workers s)) eqn:Ew; [done|]. injection H as <-. destruct Hs as [S1 S2 S3 S4 S5 S6 S7 S8].
    split; try done. cbn [tasks workers notifies]. intros Ht. left.
    destruct (workers s) as [|w ws] eqn:Ews; [done|]. exists 0%nat, w. split; [done|].
    destruct w; try done. by destruct (S5 0%nat eq_refl).
Qed.

Lemma pool_step_ok a s s' : pool_ok s -> step a s = Some s' -> pool_ok s'.
Proof.
  intros Hs H. pose proof Hs as [S1 S2 S3 S4 S5 S6 S7 S8]. destruct a as [u|w|i|i|i| | |]; cbn [step] in H.
  - unfold add in H. destruct (stop s) eqn:Est; [done|]. injection H as <-. split; cbn; try done.
    + by rewrite S2, app_assoc.
    + intros _. right. lia.
    + intros i Hi. destruct (S5 i Hi). done.
  - by eapply notify_one_ok.
  - by eapply work_ok.
  - by eapply finish_ok.
  - unfold spurious in H. destruct (workers s !! i) as [[]|] eqn:Hi; try done. injection H as <-. by apply wakes_ok.
  - unfold set_stop in H. destruct (owner s) eqn:Eo; try done. injection H as <-. split; cbn; try done.
    + intros i Hi. destruct (S5 i Hi). done.
    + by intros [|].
  - unfold notify_all in H. destruct (owner s) eqn:Eo; try done. injection H as <-. unfold with_owner, with_workers.
    assert (forall i w, map wake (workers s) !! i = Some w -> exists w0, workers s !! i = Some w0 /\ w = wake w0) as Hm.
    { intros i w Hw. rewrite list_lookup_fmap in Hw. destruct (workers s !! i) as [w0|]; [|done]. injection Hw as <-. by exists w0. }
    split; cbn; try done.
    + by destruct (workers s).
    + by rewrite running_wake.
    + intros Ht. destruct (S4 Ht) as [(i & w & Hi & Hw) | Hn]; [|by right]. left. exists i, (wake w). split; [by rewrite list_lookup_fmap, Hi | by destruct w].
    + intros i Hi. destruct (Hm i _ Hi) as (w0 & Hw0 & E). apply (S5 i). by destruct w0.
    + split; [done|]. intros _. by apply S6.
    + intros _ i Hi. destruct (Hm i _ Hi) as (w0 & _ & E). by destruct w0.
  - unfold join_all in H. destruct (owner s) eqn:Eo; try done. destruct (forallb is_exited (workers s)) eqn:Ef; [|done].
    injection H as <-. split; cbn; try done.
    + split; [done|]. intros _. by apply S6.
    + intros _. apply S7. by left.
    + intros _. by apply all_exited.
Qed.

Lemma pool_reachable_ok n s : (0 < n)%nat -> reaches pool_step (ThreadPool n) s -> pool_ok s.
Proof. intros Hn. apply reaches_invariant; [|by apply pool_start_ok]. intros s1 s2 H [a Ha]. by eapply pool_step_ok. Qed.

Lemma pool_run_ok l s s' : pool_ok s -> run l s = Some s' -> pool_ok s'.
Proof.
  revert s. induction l as [|a l IH]; intros s Hs H; cbn [run] in H; [by injection H as <-|].
  destruct (step a s) as [s1|] eqn:E; [|done]. apply (IH s1); [by eapply pool_step_ok | done].
Qed.

Ltac pool_cbn := cbn [tasks workers notifies owner stop with_workers with_owner weight owner_weight length] in *.

Lemma quiet_measure_decreases a s s' : quiet a = true -> step a s = Some s' -> (measure s' < measure s)%nat.
Proof.
  intros Hq H. unfold measure. destruct a as [u|w|i|i|i| | |]; try done; cbn [step] in H.
  - unfold notify_one in H. destruct (notifies s) as [|n]; [done|]. destruct w as [i|]; cbn [workers] in H.
    + destruct (workers s !! i) as [w|] eqn:Hi; [|done]. cbn in H. destruct (is_waiting w) eqn:Ew; [|done]. injection H as <-.
      pose proof (weight_insert _ _ _ AtLoop Hi) as Hw. destruct w; try done. pool_cbn. rewrite length_insert. lia.
    + destruct (existsb _ _); [done|]. injection H as <-. pool_cbn. lia.
  - unfold work in H. destruct (workers s !! i) as [[| |u|]|] eqn:Hi; try done. pose proof (weight_insert _ _ _ (if stop s then Exited else Waiting) Hi) as Hw.
    destruct (tasks s) as [|u ts] eqn:Et; injection H as <-; pool_cbn; rewrite length_insert, ?Et; cbn [length].
    + destruct (stop s); pool_cbn; lia.
    + pose proof (weight_insert _ _ _ (Running u) Hi) as Hw'. pool_cbn. lia.
  - unfold finish in H. destruct (workers s !! i) as [[| |u|]|] eqn:Hi; try done. injection H as <-.
    pose proof (weight_insert _ _ _ AtLoop Hi) as Hw. pool_cbn. rewrite length_insert. lia.
  - unfold set_stop in H. destruct (owner s); try done. injection H as <-. pool_cbn. lia.
  - unfold notify_all in H. destruct (owner s); try done. injection H as <-. pool_cbn. pose proof (weight_wake (workers s)). lia.
  - unfold join_all in H. destruct (owner s); try done. destruct (forallb _ _); [|done]. injection H as <-. pool_cbn. lia.
Qed.

Lemma quiet_run_bounded l s s' : forallb quiet l = true -> run l s = Some s' -> (length l + measure s' <= measure s)%nat.
Proof.
  revert s. induction l as [|a l IH]; intros s Hq H; cbn [run forallb] in *; [injection H as ->; simpl; lia|].
  to_prop. destruct (step a s) as [s1|] eqn:E; [|done]. pose proof (quiet_measure_decreases a s s1). specialize (IH s1). simpl. naive_solver lia.
Qed.

(** What can still be done when a worker is not asleep, or a notification is due. *)
Lemma active_moves s i w : workers s !! i = Some w -> active w = true -> exists a, quiet a = true /\ a <> Stop /\ is_Some (step a s).
Proof.
  intros Hi Hw. destruct w as [| |u|]; try done.
  - exists (Work i). split; [done|]. split; [done|]. cbn [step]. unfold work. rewrite Hi. by destruct (tasks s).
  - exists (Finish i). split; [done|]. split; [done|]. cbn [step]. unfold finish. by rewrite Hi.
Qed.

Lemma notify_moves s : (0 < notifies s)%nat -> exists a, quiet a = true /\ a <> Stop /\ is_Some (step a s).
Proof.
  intros Hn. destruct (existsb is_waiting (workers s)) eqn:E.
  - apply existsb_exists in E as (w & Hw & Hww). apply list_elem_of_In, list_elem_of_lookup_1 in Hw as [i Hi].
    exists (NotifyOne (Some i)). do 2 (split; [done|]). cbn [step]. unfold notify_one. destruct (notifies s); [lia|]. cbn. rewrite Hi. cbn. by rewrite Hww.
  - exists (NotifyOne None). do 2 (split; [done|]). cbn [step]. unfold notify_one. destruct (notifies s); [lia|]. cbn. by rewrite E.
Qed.

(** At rest: nobody can go on but an owner who has not begun to destroy the pool. *)
Lemma at_rest s : pool_ok s -> (forall a, quiet a = true -> a <> Stop -> step a s = None) ->
  tasks s = [] /\ finished s ≡ₚ added s /\ (owner s = Live \/ owner s = Destroyed).
Proof.
  intros Hs Hr. assert (forall a, quiet a = true -> a <> Stop -> is_Some (step a s) -> False) as Hno.
  { intros a Hq Ha [x Hx]. by rewrite (Hr a Hq Ha) in Hx. }
  assert (forall i w, workers s !! i = Some w -> active w = false) as Hna.
  { intros i w Hi. destruct (active w) eqn:Ea; [|done]. destruct (active_moves s i w Hi Ea) as (a & Hq & Ha & Hx). by destruct (Hno a). }
  assert (tasks s = []) as Ht.
  { destruct (tasks s) eqn:Et; [done|]. exfalso. destruct (po_served _ Hs) as [(i & w & Hi & Hw) | Hn]; [by rewrite Et | by rewrite (Hna i w Hi) in Hw|].
    destruct (notify_moves s Hn) as (a & Hq & Ha & Hx). by apply (Hno a). }
  split; [done|]. split.
  - rewrite (po_fifo _ Hs), Ht, app_nil_r, (po_once _ Hs).
    assert (concat (map running (workers s)) = []) as ->; [|by rewrite app_nil_r].
    induction (workers s) as [|w ws IH]; [done|]. simpl. rewrite IH by (intros i; apply (Hna (S i))).
    specialize (Hna 0%nat w eq_refl). by destruct w.
  - destruct (owner s) eqn:Eo; auto; exfalso.
    + apply (Hno Notify); try done. cbn [step]. unfold notify_all. by rewrite Eo.
    + apply (Hno Return); try done. cbn [step]. unfold join_all. rewrite Eo. rewrite (proj2 (all_exited _)); [done|].
      intros i w Hi. specialize (Hna i w Hi). pose proof (po_awake _ Hs (or_introl Eo) i) as Hw. destruct w; try done.
Qed.

Lemma stop_stays l s s' : run l s = Some s' -> stop s = true -> stop s' = true.
Proof.
  revert s. induction l as [|a l IH]; intros s H Hs; cbn [run] in H; [by injection H as <-|].
  destruct (step a s) as [s1|] eqn:E; [|done]. apply (IH s1 H). clear IH H.
  destruct a; cbn [step] in E; unfold add, notify_one, work, finish, spurious, set_stop, notify_all, join_all in E;
    repeat (case_match || simplify_option_eq); try done.
Qed.

Lemma no_runner s : (forall i w, workers s !! i = Some w -> running w = []) -> concat (map running (workers s)) = [].
Proof.
  intros H. induction (workers s) as [|w ws IH]; [done|]. simpl. rewrite IH by (intros i; apply (H (S i))).
  by rewrite (H 0%nat w eq_refl).
Qed.

(** C10. A pool with at least one worker starts the tasks in the order of the calls of add,
    runs each once, and loses none: its destructor returns only when all of them have run
    and every worker has returned.  And it does return, as tasks do get run: when nobody
    adds, every run is bounded, and it comes to rest only with all tasks run and, if the
    destructor was called, with the destructor over. *)
Theorem pool_runs_everything (n : nat) (s : state) : (0 < n)%nat -> reaches pool_step (ThreadPool n) s ->
  (added s = started s ++ tasks s /\ started s ≡ₚ finished s ++ concat (map running (workers s))) /\
  (owner s = Destroyed -> finished s ≡ₚ added s /\ forall i w, workers s !! i = Some w -> w = Exited) /\
  (forall l s', forallb quiet l = true -> run l s = Some s' -> (length l <= measure s)%nat /\
     ((forall a, quiet a = true -> a <> Stop -> step a s' = None) ->
        finished s' ≡ₚ added s' /\ tasks s' = [] /\ (owner s <> Live -> owner s' = Destroyed))).
Proof.
  intros Hn H. pose proof (pool_reachable_ok n s Hn H) as Hs. split; [by split; apply Hs|]. split.
  - intros Ho. pose proof (po_gone _ Hs Ho) as Hg. split; [|done]. destruct (workers s) as [|w ws] eqn:Ew; [by destruct (po_some _ Hs)|].
    assert (w = Exited) as -> by (by apply (Hg 0%nat)). destruct (po_exited _ Hs 0) as [_ Ht]; [by rewrite Ew|].
    rewrite (po_fifo _ Hs), Ht, app_nil_r, (po_once _ Hs), no_runner; [by rewrite app_nil_r|].
    intros i w Hi. rewrite Ew in Hi. by rewrite (Hg i w Hi).
  - intros l s' Hl Hr. pose proof (quiet_run_bounded l s s' Hl Hr). pose proof (pool_run_ok l s s' Hs Hr) as Hs'. split; [lia|].
    intros Hrest. destruct (at_rest s' Hs' Hrest) as (Ht & Hf & Ho). do 2 (split; [done|]). intros Hlive.
    destruct Ho as [Ho|Ho]; [|done]. exfalso. apply (po_stop _ Hs) in Hlive. apply (stop_stays l s s' Hr), (po_stop _ Hs') in Hlive. done.
Qed.

End Pool.
Arguments state : clear implicits.
Arguments action : clear implicits.
End Pool.

Import Pool.

(** Two workers fall asleep; a task wakes one, and the pool is destroyed. *)
Definition pool_script : list (action nat) :=
  [Work 0; Work 1; Add 7; NotifyOne (Some 1); Work 1; Stop; Notify; Work 0; Finish 1; Work 1]%nat.

Definition pool_scripted : state nat := default (ThreadPool 0) (run pool_script (ThreadPool 2)).

Lemma pool_run_reaches {T} (l : list (action T)) s s' : run l s = Some s' -> reaches pool_step s s'.
Proof.
  revert s'. induction l as [|a l IH] using rev_ind; intros s' H; [injection H as <-; constructor|].
  assert (exists s1, run l s = Some s1 /\ step a s1 = Some s') as (s1 & H1 & H2).
  { clear IH. revert s H. induction l as [|b l IHl]; intros s H; cbn [run app] in *.
    - destruct (step a s) as [s2|] eqn:E; [|done]. exists s. split; [done|]. by injection H as <-.
    - destruct (step b s) as [s2|]; [|done]. exact (IHl s2 H). }
  eapply reaches_step; [by apply IH | by exists a].
Qed.

Lemma pool_runs_everything_witness :
  owner pool_scripted = Joining /\
  (forall l s', forallb quiet l = true -> run l pool_scripted = Some s' -> (length l <= measure pool_scripted)%nat /\
     ((forall a, quiet a = true -> a <> Stop -> step a s' = None) ->
        finished s' ≡ₚ added s' /\ tasks s' = [] /\ (owner pool_scripted <> Live -> owner s' = Destroyed))).
Proof.
  split; [by vm_compute|]. apply (pool_runs_everything 2 pool_scripted); [lia|].
  apply (pool_run_reaches pool_script). vm_compute. reflexivity.
Defined.

(** The destructor of io/SkyNet: stop, notify_one, detach. *)
Module SkyPool.
Definition destroy {T} (w : option nat) (s : state T) : option (state T) :=
  match owner s with
  | Stopping => s' ← notify_one w (State (tasks s) (stop s) (workers s) 1 (owner s) (added s) (started s) (finished s));
      Some (with_owner Destroyed s')
  | _ => None
  end.

(** A worker is left that waits on a member of the pool that is gone. *)
Example workers_outlive_pool : exists s s', run [Work 0; Work 1; Stop]%nat (@ThreadPool nat 2) = Some s /\
  destroy (Some 0%nat) s = Some s' /\ owner s' = Destroyed /\ workers s' = [AtLoop; Waiting].
Proof. eexists _, _. by vm_compute. Qed.
End SkyPool.

Module WinPool.
Section WinPool.
Context {T : Type}.

(** About to test m_shutdown; about to lock and test the queue; in wait; in func();
    returned. *)
Inductive worker := AtTest | AtWait | Asleep | Busy (task : T) | Done.

Record state := State { m_queue : list T; m_shutdown : bool; m_threads : list worker; joined : bool; ran : list T }.

Definition ThreadPool (n_threads : nat) : state := State [] false (replicate n_threads AtTest) false [].

(** [Wake]: notified, or for no reason. *)
Inductive action := Submit (task : T) | TestShutdown (i : nat) | Wait (i : nat) | Wake (i : nat) | Finished (i : nat) | Shutdown | Join.

Definition with_thread (i : nat) (w : worker) (s : state) : state :=
  State (m_queue s) (m_shutdown s) (<[i := w]> (m_threads s)) (joined s) (ran s).

(** SafeQueue::dequeue. *)
Definition dequeue (q : list T) : option (T * list T) := match q with [] => None | t :: q' => Some (t, q') end.

Definition step (a : action) (s : state) : option state :=
  match a with
  | Submit t => Some (State (m_queue s ++ [t]) (m_shutdown s) (m_threads s) (joined s) (ran s))
  | TestShutdown i =>
      match m_threads s !! i with
      | Some AtTest => Some (with_thread i (if m_shutdown s then Done else AtWait) s)
      | _ => None
      end
  | Wait i =>
      match m_threads s !! i with
      | Some AtWait =>
          match dequeue (m_queue s) with
          | None => Some (with_thread i Asleep s)
          | Some (t, q) => Some (with_thread i (Busy t) (State q (m_shutdown s) (m_threads s) (joined s) (ran s)))
          end
      | _ => None
      end
  | Wake i => match m_threads s !! i with Some Asleep => Some (with_thread i AtWait s) | _ => None end
  | Finished i =>
      match m_threads s !! i with
      | Some (Busy t) => Some (with_thread i AtTest (State (m_queue s) (m_shutdown s) (m_threads s) (joined s) (ran s ++ [t])))
      | _ => None
      end
  | Shutdown => Some (State (m_queue s) true (m_threads s) (joined s) (ran s))
  | Join =>
      if m_shutdown s && forallb (fun w => match w with Done => true | _ => false end) (m_threads s)
      then Some (State (m_queue s) (m_shutdown s) (m_threads s) true (ran s)) else None
  end.

(** No thread submits any more. *)
Definition submits (a : action) : bool := match a with Submit _ => true | _ => false end.
Definition closing_step (s s' : state) : Prop := exists a, submits a = false /\ step a s = Some s'.

Lemma asleep_stays i s s' : m_queue s = [] -> joined s = false -> m_threads s !! i = Some Asleep \/ m_threads s !! i = Some AtWait ->
  closing_step s s' -> m_queue s' = [] /\ joined s' = false /\ (m_threads s' !! i = Some Asleep \/ m_threads s' !! i = Some AtWait).
Proof.
  intros Hq Hj Hi (a & Ha & H). assert (i < length (m_threads s))%nat as Hlt by (destruct Hi as [Hi|Hi]; by eapply lookup_lt_Some).
  assert (forall j w, m_threads s !! j = Some w -> w <> Asleep -> w <> AtWait -> forall w', <[j := w']> (m_threads s) !! i = m_threads s !! i) as Hne.
  { intros j w Hw H1 H2 w'. apply list_lookup_insert_ne. intros ->. destruct Hi as [Hi|Hi]; congruence. }
  destruct a as [t|j|j|j|j| |]; try done; cbn [step] in H.
  - destruct (m_threads s !! j) as [[]|] eqn:E; try done. injection H as <-. cbn. by rewrite (Hne j _ E).
  - destruct (m_threads s !! j) as [[]|] eqn:E; try done. rewrite Hq in H. injection H as <-. cbn. split; [done|]. split; [done|].
    destruct (decide (j = i)) as [->|Hn]; [left; by rewrite list_lookup_insert_eq | by rewrite list_lookup_insert_ne].
  - destruct (m_threads s !! j) as [[]|] eqn:E; try done. injection H as <-. cbn. split; [done|]. split; [done|].
    destruct (decide (j = i)) as [->|Hn]; [right; by rewrite list_lookup_insert_eq | by rewrite list_lookup_insert_ne].
  - destruct (m_threads s !! j) as [[]|] eqn:E; try done. injection H as <-. cbn. by rewrite (Hne j _ E).
  - injection H as <-. done.
  - destruct (m_shutdown s); [|done]. destruct (forallb _ _) eqn:Ef; [|done]. exfalso. rewrite forallb_forall in Ef.
    assert (exists w, w ∈ m_threads s /\ (w = Asleep \/ w = AtWait)) as (w & Hw & E) by (destruct Hi as [Hi|Hi]; eexists; (split; [by eapply list_elem_of_lookup_2 | auto])).
    apply list_elem_of_In, Ef in Hw. by destruct E as [-> | ->].
Qed.

(** C31. shutdown() of the Windows pool never returns when a worker waits for a task: the
    wait does not look at m_shutdown, so whatever the threads do, short of a new task,
    the worker is not done. *)
Theorem shutdown_hangs (s s' : state) (i : nat) : m_queue s = [] -> joined s = false ->
  m_threads s !! i = Some Asleep \/ m_threads s !! i = Some AtWait -> reaches closing_step s s' -> joined s' = false.
Proof.
  intros Hq Hj Hi H. assert (m_queue s' = [] /\ joined s' = false /\ (m_threads s' !! i = Some Asleep \/ m_threads s' !! i = Some AtWait)) as (_ & H' & _); [|done].
  induction H as [s|s s1 s2 H IH Hs]; [done|]. destruct (IH Hq Hj Hi) as (Hq1 & Hj1 & Hi1). by eapply asleep_stays.
Qed.
End WinPool.
Arguments action : clear implicits.

Lemma shutdown_hangs_witness : exists s', reaches closing_step (State [] false [Asleep] false []) s' /\ m_shutdown s' = true /\ joined (s' : @state nat) = false.
Proof.
  assert (reaches closing_step (State [] false [Asleep] false []) (State [] true [@AtWait nat] false [])) as H.
  { eapply reaches_step; [eapply reaches_step; [constructor | exists Shutdown; by split] | exists (Wake 0); by split]. }
  exists (State [] true [AtWait] false []). split; [exact H|]. split; [reflexivity|].
  apply (shutdown_hangs (State [] false [Asleep] false []) _ 0); [reflexivity | reflexivity | by left | exact H].
Defined.

(** Tasks that were submitted before the shutdown are dropped. *)
Example shutdown_drops_tasks : exists s, reaches (fun s s' => exists a, step a s = Some s') (@ThreadPool nat 1) s /\
  joined s = true /\ m_queue s = [7]%nat /\ ran s = [].
Proof.
  exists (State [7]%nat true [Done] true []). split; [|done].
  eapply reaches_step; [eapply reaches_step; [eapply reaches_step; [eapply reaches_step; [constructor|]|]|]|].
  - by exists (Submit 7%nat).
  - by exists Shutdown.
  - by exists (TestShutdown 0).
  - by exists Join.
Qed.
End WinPool.
