(* ===== verification/Log.v ===== *)
(** * The logger

    Models DarkEden_Example/src/Shared/Log.cpp and Log.h: the text of a message
    ([InternalLogger], logString), the calls that queue one, and the thread that writes
    the queues to files (logLooping, flushLog), with open and close.

    A step is a call, a critical section, or a round of flushLog's loop: calls are by any
    threads.  outToFile runs flushLog in the thread of its caller, on the same [buffer] and
    without the lock; such flushes are [direct].  What vsnprintf makes of a format and its
    arguments is the call's [text], time( NULL ) as localtime breaks it down its [now];
    whether fopen succeeds is the environment's.  The disk is the list of what was written to it. *)

From Stdlib Require Import Ascii String.
From stdpp Require Import base tactics option list numbers.
From Stdlib Require Import ZArith Lia Bool.
From S2P Require Import Prelude StrUtil TimeUtil.

#[local] Open Scope Z_scope.

(** ** The text of a message *)

Definition StrBufSize : Z := 128 * 1024.

(** [s] stored at [pos]; bytes that were never stored are the zeros of a static object. *)
Definition blit (b : bytes) (pos : Z) (s : bytes) : bytes :=
  take (Z.to_nat pos) b ++ repeat 0 (Z.to_nat pos - length b) ++ s ++ drop (Z.to_nat pos + length s) b.

(** [m_Buffer]: the bytes stored so far. *)
Record InternalLogger := Internal { m_Cursor : Z; m_Buffer : bytes }.

Definition InternalLogger_new : InternalLogger := Internal 0 [].

(** snprintf into what is left of the buffer: it cuts the text, and returns its length. *)
Definition snprintf_at (text : bytes) (l : InternalLogger) : InternalLogger :=
  if m_Cursor l <? StrBufSize
  then Internal (u32 (m_Cursor l + zlen text))
         (blit (m_Buffer l) (m_Cursor l) (take (Z.to_nat (StrBufSize - m_Cursor l - 1)) text ++ [0]))
  else l.

(** ["%F %T "]. *)
Definition strftime (lt : tm) : bytes :=
  fmt_d 4 (tm_year lt + 1900) ++ [45] ++ fmt_d 2 (tm_mon lt + 1) ++ [45] ++ fmt_d 2 (tm_mday lt) ++ [32] ++
  fmt_d 2 (tm_hour lt) ++ [58] ++ fmt_d 2 (tm_min lt) ++ [58] ++ fmt_d 2 (tm_sec lt) ++ [32].

(** strftime stores nothing that does not fit, and returns 0. *)
Definition writeTime (now : tm) (l : InternalLogger) : InternalLogger :=
  if (m_Cursor l <? StrBufSize) && (zlen (strftime now) + 1 <=? StrBufSize - m_Cursor l)
  then snprintf_at (strftime now) l else l.

Definition writeLog (log : bytes) (l : InternalLogger) : InternalLogger := snprintf_at (log ++ [32]) l.
Definition writeLog_va (text : bytes) (l : InternalLogger) : InternalLogger := snprintf_at text l.

(** string(m_Buffer): up to the NUL. *)
Fixpoint cstring (b : bytes) : outcome bytes :=
  match b with
  | [] => Err UndefinedBehaviour
  | c :: b' => if c =? 0 then Ok [] else let* s := cstring b' in Ok (c :: s)
  end.

Definition getLogString (l : InternalLogger) : outcome bytes :=
  if 0 <? m_Cursor l
  then cstring (if u32 (m_Cursor l + 1) <? StrBufSize
                then blit (blit (m_Buffer l) (m_Cursor l) [10]) (u32 (m_Cursor l + 1)) [0]
                else m_Buffer l)
  else Ok [].

Inductive TLogLevel := loglevel_always | loglevel_fatal | loglevel_error | loglevel_warning | loglevel_debug | loglevel_info.

#[export] Instance TLogLevel_eq_dec : EqDecision TLogLevel.
Proof. solve_decision. Defined.

Definition level_value (level : TLogLevel) : Z :=
  match level with
  | loglevel_always => 0 | loglevel_fatal => 1 | loglevel_error => 2
  | loglevel_warning => 3 | loglevel_debug => 4 | loglevel_info => 5
  end.

Definition TLogLevelNames (level : TLogLevel) : bytes :=
  match level with
  | loglevel_always => [] | loglevel_fatal => lit "[Fatal]" | loglevel_error => lit "[Error]"
  | loglevel_warning => lit "[Warning]" | loglevel_debug => lit "[Debug]" | loglevel_info => lit "[Info ]"
  end.

(** [source]: empty also stands for a null pointer. *)
Definition logString (level : TLogLevel) (now : tm) (source text : bytes) : outcome bytes :=
  let logger := writeTime now InternalLogger_new in
  let logger := if 0 <? level_value level then writeLog (TLogLevelNames level) logger else logger in
  let logger := match source with [] => logger | _ => writeLog source logger end in
  getLogString (writeLog_va text logger).

(** ** Files *)

(** The console's attributes: the FOREGROUND_ flags that are set. *)
Inductive foreground := FOREGROUND_RED | FOREGROUND_GREEN | FOREGROUND_BLUE | FOREGROUND_INTENSITY.

Definition TLogColors (level : TLogLevel) : list foreground :=
  match level with
  | loglevel_always | loglevel_debug => [FOREGROUND_RED; FOREGROUND_BLUE; FOREGROUND_GREEN; FOREGROUND_INTENSITY]
  | loglevel_fatal | loglevel_error => [FOREGROUND_RED; FOREGROUND_INTENSITY]
  | loglevel_warning => [FOREGROUND_GREEN; FOREGROUND_RED; FOREGROUND_INTENSITY]
  | loglevel_info => [FOREGROUND_GREEN; FOREGROUND_INTENSITY]
  end.

Definition log_color_white : list foreground := [FOREGROUND_RED; FOREGROUND_BLUE; FOREGROUND_GREEN; FOREGROUND_INTENSITY].

Definition LogBufferSize : Z := 1024 * 1024.
Definition LogFileMaxSize : Z := 1024 * 1024 * 128.
Definition m_MaxLogCount : Z := 100 * 10000.

(** What the environment answers: the time, and whether fopen succeeds. *)
Record env := Env { e_now : tm; e_opened : bool }.

Record FILE := File { f_name : bytes; f_pos : Z }.

(** The two logs; in oLog, m_file and m_LogList are the first's, m_Sqlfile and
    m_FileLogList the second's.  [logged]: the history of what was queued. *)
Inductive which := Log | SQL.

#[export] Instance which_eq_dec : EqDecision which.
Proof. solve_decision. Defined.

Record channel := Channel { file : option FILE; queue : list bytes; logged : list bytes }.

Definition log_name (c : which) : bytes := match c with Log => lit "Log" | SQL => lit "SQL" end.

(** What the thread of logLooping is about to do. *)
Inductive thread :=
| NoThread
| Starting
| Testing                                                 (* while ( !m_Terminated ) *)
| Checking (c : which)                                    (* if ( m_file && ... ), after Sleep *)
| Flushing (c : which) (rest : list bytes) (pos : Z)      (* in the loop of flushLog *)
| Exited.

(** [direct]: the threads in the flushLog of outToFile; [closing]: one is in close;
    [dropped]: what outFile did not queue. *)
Record oLog := OLog {
  m_logFileSizeLimited : Z; m_fileLogLevel : Z; m_screenLogLevel : Z; m_NeedLog : bool; m_Terminated : bool;
  m_LoggerThread : thread; log : channel; sql : channel; buffer : bytes;
  direct : list (list bytes * Z); closing : bool; dropped : list bytes;
  screen : list (list foreground * bytes); disk : list (bytes * bytes)
}.

Definition chan (c : which) (s : oLog) : channel := match c with Log => log s | SQL => sql s end.

Definition with_chan (c : which) (h : channel) (s : oLog) : oLog :=
  OLog (m_logFileSizeLimited s) (m_fileLogLevel s) (m_screenLogLevel s) (m_NeedLog s) (m_Terminated s) (m_LoggerThread s)
    (match c with Log => h | SQL => log s end) (match c with Log => sql s | SQL => h end) (buffer s) (direct s) (closing s)
    (dropped s) (screen s) (disk s).
Definition with_file (c : which) (f : option FILE) (s : oLog) : oLog :=
  with_chan c (Channel f (queue (chan c s)) (logged (chan c s))) s.
Definition with_thread (t : thread) (terminated closing : bool) (s : oLog) : oLog :=
  OLog (m_logFileSizeLimited s) (m_fileLogLevel s) (m_screenLogLevel s) (m_NeedLog s) terminated t
    (log s) (sql s) (buffer s) (direct s) closing (dropped s) (screen s) (disk s).
Definition at_thread (t : thread) (s : oLog) : oLog := with_thread t (m_Terminated s) (closing s) s.
Definition with_memory (b : bytes) (fl : list (list bytes * Z)) (d : list (bytes * bytes)) (s : oLog) : oLog :=
  OLog (m_logFileSizeLimited s) (m_fileLogLevel s) (m_screenLogLevel s) (m_NeedLog s) (m_Terminated s) (m_LoggerThread s)
    (log s) (sql s) b fl (closing s) (dropped s) (screen s) d.
Definition with_config (limit fileLevel screenLevel : Z) (need : bool) (s : oLog) : oLog :=
  OLog limit fileLevel screenLevel need (m_Terminated s) (m_LoggerThread s)
    (log s) (sql s) (buffer s) (direct s) (closing s) (dropped s) (screen s) (disk s).
Definition with_output (dr : list bytes) (sc : list (list foreground * bytes)) (s : oLog) : oLog :=
  OLog (m_logFileSizeLimited s) (m_fileLogLevel s) (m_screenLogLevel s) (m_NeedLog s) (m_Terminated s) (m_LoggerThread s)
    (log s) (sql s) (buffer s) (direct s) (closing s) dr sc (disk s).

Definition oLog_new (d : list (bytes * bytes)) : oLog :=
  OLog LogFileMaxSize 0 0 false false NoThread (Channel None [] []) (Channel None [] []) [] [] false [] [] d.

(** What was written to a file. *)
Definition contents (name : bytes) (d : list (bytes * bytes)) : bytes :=
  concat (map snd (filter (fun w => w.1 = name) d)).

Definition genLogFilename (name : bytes) (now : tm) : bytes :=
  name ++ fmt_d 0 (tm_year now + 1900) ++ [45] ++ fmt_d 0 (tm_mon now + 1) ++ [45] ++ fmt_d 0 (tm_mday now) ++ [95] ++
  fmt_d 2 (tm_hour now) ++ fmt_d 2 (tm_min now) ++ fmt_d 2 (tm_sec now) ++ lit ".log".

Section Logger.
(** The path of the program (GetModuleFileName), and where a file that is opened with
    "ab+" is before the first write, which C leaves to the implementation. *)
Context (module_file : bytes) (initial_pos : bytes -> Z).

Definition expandLogFilename (logfileName : bytes) : bytes := ExtractFilePath module_file ++ (lit "log/" ++ logfileName).

(** The directory is made (ForceDirectory), the old file closed. *)
Definition renewLogFile (e : env) (c : which) (s : oLog) : oLog :=
  let filename := expandLogFilename (genLogFilename (log_name c) (e_now e)) in
  with_file c (if e_opened e then Some (File filename (initial_pos (contents filename (disk s)))) else None) s.

Definition openLogFile (e : env) (c : which) (s : oLog) : oLog :=
  match file (chan c s) with None => renewLogFile e c s | Some _ => s end.

(** fwrite at the end of the file; through a null pointer it is undefined. *)
Definition fwrite (c : which) (data : bytes) (s : oLog) : outcome oLog :=
  match file (chan c s) with
  | None => Err UndefinedBehaviour
  | Some f =>
      let d := disk s ++ [(f_name f, data)] in
      Ok (with_memory (buffer s) (direct s) d (with_file c (Some (File (f_name f) (zlen (contents (f_name f) d)))) s))
  end.

Definition writeToFile (e : env) (c : which) (data : bytes) (s : oLog) : outcome oLog :=
  match file (chan c s) with
  | None => Ok s
  | Some f => fwrite c data (if m_logFileSizeLimited s <=? f_pos f then renewLogFile e c s else s)
  end.

(** A round of flushLog's loop; [pos] is its local variable. *)
Definition flush_message (e : env) (c : which) (str : bytes) (pos : Z) (s : oLog) : outcome (Z * oLog) :=
  let strlen := i32 (zlen str) in
  if LogBufferSize <? strlen then Ok (pos, s)
  else
    let* (pos, s) :=
      if LogBufferSize <? strlen + pos
      then let* s := writeToFile e c (take (Z.to_nat pos) (buffer s)) s in Ok (0, s)
      else Ok (pos, s) in
    let* _ := guard_defined ((0 <=? strlen) && (pos + strlen <=? LogBufferSize)) in
    Ok (pos + strlen, with_memory (blit (buffer s) pos str) (direct s) (disk s) s).

Definition flush_rest (e : env) (c : which) (pos : Z) (s : oLog) : outcome oLog :=
  if 0 <? pos then writeToFile e c (take (Z.to_nat pos) (buffer s)) s else Ok s.

(** logLooping and the flushLog it calls; the swap of flushLog is a critical section.
    Only this thread takes messages out of the queue: what it finds there when it has
    looked at the size is there when it has the lock. *)
Definition logLooping (e : env) (s : oLog) : outcome oLog :=
  let after c := match c with Log => Checking SQL | SQL => Testing end in
  match m_LoggerThread s with
  | NoThread | Exited => Ok s
  | Starting => Ok (with_thread Testing false (closing s) s)
  | Testing => Ok (at_thread (if m_Terminated s then Exited else Checking Log) s)
  | Checking c =>
      match file (chan c s), queue (chan c s) with
      | Some f, _ :: _ =>
          Ok (at_thread (Flushing c (queue (chan c s)) 0) (with_chan c (Channel (Some f) [] (logged (chan c s))) s))
      | _, _ => Ok (at_thread (after c) s)
      end
  | Flushing c (str :: rest) pos =>
      let* (pos, s) := flush_message e c str pos s in Ok (at_thread (Flushing c rest pos) s)
  | Flushing c [] pos => let* s := flush_rest e c pos s in Ok (at_thread (after c) s)
  end.

(** The flushLog of the [i]th thread in outToFile. *)
Definition direct_flush (e : env) (i : nat) (s : oLog) : outcome oLog :=
  match direct s !! i with
  | None => Ok s
  | Some (str :: rest, pos) =>
      let* (pos, s) := flush_message e Log str pos s in
      Ok (with_memory (buffer s) (<[i := (rest, pos)]> (direct s)) (disk s) s)
  | Some ([], pos) => let* s := flush_rest e Log pos s in Ok (with_memory (buffer s) (delete i (direct s)) (disk s) s)
  end.

(** ** The calls *)

Definition outScreen (level : TLogLevel) (text : bytes) (s : oLog) : oLog :=
  with_output (dropped s) (screen s ++ [(TLogColors level, text)]) s.

Definition enqueue (c : which) (text : bytes) (s : oLog) : oLog :=
  with_chan c (Channel (file (chan c s)) (queue (chan c s) ++ [text]) (logged (chan c s) ++ [text])) s.

Definition outFile (text : bytes) (s : oLog) : oLog :=
  if m_MaxLogCount <? zlen (queue (log s)) then with_output (dropped s ++ [text]) (screen s) s else enqueue Log text s.

Definition outLog (logMessage : bytes) (level : TLogLevel) (s : oLog) : oLog :=
  let s := if level_value level <=? m_screenLogLevel s then outScreen level logMessage s else s in
  if level_value level <=? m_fileLogLevel s then outFile logMessage s else s.

Definition SQLoutLog (logMessage : bytes) (s : oLog) : oLog := enqueue SQL logMessage s.

Definition log_at (level : TLogLevel) (now : tm) (source text : bytes) (s : oLog) : outcome oLog :=
  let* logMessage := logString level now source text in Ok (outLog logMessage level s).

Definition outString (now : tm) (source text : bytes) (s : oLog) : outcome oLog := log_at loglevel_always now source text s.
Definition outError (now : tm) (source text : bytes) (s : oLog) : outcome oLog :=
  if m_NeedLog s then log_at loglevel_error now source text s else Ok s.
Definition outFatal (now : tm) (source text : bytes) (s : oLog) : outcome oLog :=
  if m_NeedLog s then log_at loglevel_fatal now source text s else Ok s.
Definition outWarning (now : tm) (source text : bytes) (s : oLog) : outcome oLog := log_at loglevel_warning now source text s.
Definition outInfo (now : tm) (source text : bytes) (s : oLog) : outcome oLog :=
  if m_NeedLog s then log_at loglevel_info now source text s else Ok s.
Definition outDebug (now : tm) (source text : bytes) (s : oLog) : outcome oLog :=
  if m_NeedLog s then log_at loglevel_debug now source text s else Ok s.
Definition SQLOutDebug (now : tm) (source text : bytes) (s : oLog) : outcome oLog :=
  let* logMessage := logString loglevel_debug now source text in Ok (SQLoutLog logMessage s).

Definition logScreen (color : list foreground) (now : tm) (source text : bytes) (s : oLog) : outcome oLog :=
  let* logMessage := logString loglevel_debug now source text in Ok (with_output (dropped s) (screen s ++ [(color, logMessage)]) s).
Definition logScreenAndFile (color : list foreground) (now : tm) (source text : bytes) (s : oLog) : outcome oLog :=
  let* logMessage := logString loglevel_debug now source text in
  Ok (outFile logMessage (with_output (dropped s) (screen s ++ [(color, logMessage)]) s)).

(** The message is queued as well, and the flush of a list of its own begins. *)
Definition outToFile (now : tm) (source text : bytes) (s : oLog) : outcome oLog :=
  let* logMessage := logString loglevel_error now source text in
  let s := outLog logMessage loglevel_error s in
  match file (log s) with
  | Some _ => Ok (with_memory (buffer s) (direct s ++ [([logMessage], 0)]) (disk s) s)
  | None => Ok s
  end.

Definition Init (fileLogLevel screenLogLevel : Z) (s : oLog) : oLog :=
  with_config (m_logFileSizeLimited s) fileLogLevel screenLogLevel ((0 <? fileLogLevel) || (0 <? screenLogLevel)) s.

Definition setupLogFileMaxSize (size : Z) (s : oLog) : oLog :=
  with_config (if 0 <? size then size else LogFileMaxSize) (m_fileLogLevel s) (m_screenLogLevel s) (m_NeedLog s) s.

Definition openLog (e1 e2 : env) (s : oLog) : oLog :=
  match m_LoggerThread s with
  | NoThread => with_thread Starting (m_Terminated s) (closing s) (openLogFile e2 SQL (openLogFile e1 Log s))
  | _ => s
  end.

(** close sets m_Terminated, and returns at once if there is no thread. *)
Definition close (s : oLog) : oLog :=
  with_thread (m_LoggerThread s) true (match m_LoggerThread s with NoThread => false | _ => true end) s.

(** The return of join and what follows it; fclose of a null pointer is undefined. *)
Definition joined (s : oLog) : outcome oLog :=
  if closing s then
    match m_LoggerThread s with
    | Exited =>
        let* _ := guard_defined (match file (log s), file (sql s) with Some _, Some _ => true | _, _ => false end) in
        Ok (with_thread NoThread (m_Terminated s) false (with_file SQL None (with_file Log None s)))
    | _ => Ok s
    end
  else Ok s.

(** ** The system *)

Inductive call := CString | CError | CFatal | CWarning | CInfo | CDebug | CSQL
  | CScreen (color : list foreground) | CScreenAndFile (color : list foreground).

Inductive action :=
| Call (f : call) (now : tm) (source text : bytes)
| OutToFile (now : tm) (source text : bytes)
| DirectFlush (e : env) (i : nat)
| LogLooping (e : env)
| DoInit (fileLevel screenLevel : Z)
| SetMax (size : Z)
| Open (e1 e2 : env)
| Close
| Joined.

Definition do_call (f : call) : tm -> bytes -> bytes -> oLog -> outcome oLog :=
  match f with
  | CString => outString | CError => outError | CFatal => outFatal | CWarning => outWarning | CInfo => outInfo
  | CDebug => outDebug | CSQL => SQLOutDebug | CScreen c => logScreen c | CScreenAndFile c => logScreenAndFile c
  end.

(** One thread opens and closes the log: while it is in close, it does neither. *)
Definition step (a : action) (s : oLog) : outcome oLog :=
  match a with
  | Call f now source text => do_call f now source text s
  | OutToFile now source text => outToFile now source text s
  | DirectFlush e i => direct_flush e i s
  | LogLooping e => logLooping e s
  | DoInit fileLevel screenLevel => Ok (Init fileLevel screenLevel s)
  | SetMax size => Ok (setupLogFileMaxSize size s)
  | Open e1 e2 => Ok (if closing s then s else openLog e1 e2 s)
  | Close => Ok (if closing s then s else close s)
  | Joined => joined s
  end.

Fixpoint run (l : list action) (s : oLog) : outcome oLog :=
  match l with [] => Ok s | a :: l' => let* s := step a s in run l' s end.

(** ** The text *)

(** What [logger] holds when it was given the characters [t]. *)
Definition holds (logger : InternalLogger) (t : bytes) : Prop :=
  (m_Buffer logger = [] /\ t = [] \/ m_Buffer logger = take (Z.to_nat (StrBufSize - 1)) t ++ [0]) /\
  (if zlen t <? StrBufSize then m_Cursor logger = zlen t else StrBufSize <= m_Cursor logger < 2 ^ 32 - 1).

Lemma snprintf_at_holds logger t text : holds logger t -> zlen text < 2 ^ 31 -> holds (snprintf_at text logger) (t ++ text).
Proof.
  intros [Hb Hc] Hl. unfold snprintf_at, holds. rewrite length_app. assert (StrBufSize = 131072) as HS by done.
  destruct (zlen t <? StrBufSize) eqn:E; to_prop.
  - rewrite Hc. destruct (zlen t <? StrBufSize) eqn:E1; to_prop; [|lia]. cbn [m_Buffer m_Cursor]. split.
    + right. rewrite take_app_ge by lia. rewrite (take_ge t) in Hb by lia. unfold blit. rewrite Nat2Z.id.
      assert (take (length t) (m_Buffer logger) = t) as ->.
      { destruct Hb as [[-> ->] | ->]; [done|]. by rewrite take_app_length. }
      assert (length t <= length (m_Buffer logger))%nat.
      { destruct Hb as [[-> ->] | ->]; [done|]. rewrite length_app. lia. }
      replace (length t - length (m_Buffer logger))%nat with 0%nat by lia. cbn [repeat app].
      rewrite drop_ge, app_nil_r; [|rewrite length_app; destruct Hb as [[-> ->] | ->]; rewrite ?length_app; simpl; lia].
      rewrite <- app_assoc. do 3 f_equal. lia.
    + rewrite u32_small by lia. destruct (Z.ltb_spec (zlen t + zlen text) StrBufSize) as [|]; destruct (Z.ltb_spec (Z.of_nat (length t + length text)) StrBufSize); lia.
  - destruct (m_Cursor logger <? StrBufSize) eqn:E1; to_prop; [lia|]. split.
    + destruct Hb as [[_ ->] | ->]; [simpl in E; lia|]. right. rewrite take_app_le by lia. done.
    + destruct (Z.ltb_spec (Z.of_nat (length t + length text)) StrBufSize); lia.
Qed.

Lemma cstring_nul t rest : Forall (fun c => c <> 0) t -> cstring (t ++ 0 :: rest) = Ok t.
Proof. induction 1 as [|c t Hc Ht IH]; [done|]. cbn [app cstring]. destruct (Z.eqb_spec c 0); [done|]. by rewrite IH. Qed.

Lemma cstring_in b : 0 ∈ b -> exists s, cstring b = Ok s /\ (length s < length b)%nat.
Proof.
  induction b as [|c b IH]; intros H; [by apply not_elem_of_nil in H|]. cbn [cstring].
  destruct (Z.eqb_spec c 0) as [->|Hc]; [exists []; simpl; split; [done|lia]|].
  apply elem_of_cons in H as [H|H]; [done|]. destruct (IH H) as (s & -> & Hs). exists (c :: s). simpl. split; [done|lia].
Qed.

Lemma length_fmt_d w z : (length (fmt_d w z) <= w + 21)%nat.
Proof.
  assert (forall fuel n acc, (length (dec_loop fuel n acc) <= fuel + length acc)%nat) as H.
  { induction fuel as [|fuel IH]; intros n acc; cbn [dec_loop]; [lia|].
    destruct (n <? 10); [simpl; lia|]. specialize (IH (n / 10) ((48 + n mod 10) :: acc)). simpl in IH. lia. }
  unfold fmt_d, zpad, udec. pose proof (H 20%nat z []). pose proof (H 20%nat (- z) []). cbn [length] in *.
  destruct (z <? 0); cbn [length]; rewrite length_app, repeat_length; lia.
Qed.

Lemma length_strftime now : 6 <= zlen (strftime now) <= 200.
Proof.
  unfold strftime. rewrite !length_app. simpl (length [_]).
  pose proof (length_fmt_d 4 (tm_year now + 1900)). pose proof (length_fmt_d 2 (tm_mon now + 1)). pose proof (length_fmt_d 2 (tm_mday now)).
  pose proof (length_fmt_d 2 (tm_hour now)). pose proof (length_fmt_d 2 (tm_min now)). pose proof (length_fmt_d 2 (tm_sec now)). lia.
Qed.

(** All of a message. *)
Definition message (level : TLogLevel) (now : tm) (source text : bytes) : bytes :=
  strftime now ++ (if 0 <? level_value level then TLogLevelNames level ++ [32] else []) ++
  match source with [] => [] | _ => source ++ [32] end ++ text.

Lemma logString_holds level now source text : zlen source < 2 ^ 31 - 1 -> zlen text < 2 ^ 31 ->
  exists logger, logString level now source text = getLogString logger /\ holds logger (message level now source text).
Proof.
  intros Hs Ht. unfold logString. eexists. split; [reflexivity|]. unfold message, writeLog_va. rewrite !app_assoc. apply snprintf_at_holds; [|done].
  assert (holds (writeTime now InternalLogger_new) (strftime now)) as H0.
  { pose proof (length_strftime now). unfold writeTime. cbn [m_Cursor InternalLogger_new].
    assert (StrBufSize = 131072) as E by done. destruct (_ && _) eqn:Eb; [|apply andb_false_iff in Eb as [?|?]; to_prop; lia].
    apply (snprintf_at_holds _ []); [|lia]. split; [by left | done]. }
  assert (holds (if 0 <? level_value level then writeLog (TLogLevelNames level) (writeTime now InternalLogger_new) else writeTime now InternalLogger_new)
    (strftime now ++ (if 0 <? level_value level then TLogLevelNames level ++ [32] else []))) as H1.
  { destruct (0 <? level_value level); [|by rewrite app_nil_r]. apply snprintf_at_holds; [done|]. by destruct level. }
  destruct source as [|c source]; [by rewrite app_nil_r|]. apply snprintf_at_holds; [done|]. rewrite length_app. simpl in *. lia.
Qed.

(** Every message has a text, and one that fits in [m_Buffer]. *)
Lemma logString_ok level now source text : zlen source < 2 ^ 31 - 1 -> zlen text < 2 ^ 31 ->
  exists t, logString level now source text = Ok t /\ zlen t <= StrBufSize.
Proof.
  intros Hs Ht. destruct (logString_holds level now source text Hs Ht) as (l & -> & Hb & Hc). assert (StrBufSize = 131072) as HS by done.
  pose proof (length_strftime now) as Hn. assert (6 <= zlen (message level now source text)) as Hm by (unfold message; rewrite length_app; lia).
  destruct Hb as [[_ E] | Hb]; [rewrite E in Hm; cbn [length] in Hm; lia|]. set (t := message level now source text) in *.
  assert (length (m_Buffer l) = S (min (Z.to_nat (StrBufSize - 1)) (length t))) as Hlen by (rewrite Hb, length_app, length_take; cbn [length]; lia).
  unfold getLogString. destruct (0 <? m_Cursor l) eqn:E0; [|to_prop; destruct (zlen t <? StrBufSize); lia].
  assert (forall b, 0 ∈ b -> zlen b <= StrBufSize -> exists s, cstring b = Ok s /\ zlen s <= StrBufSize) as Hcs.
  { intros b Hin Hl. destruct (cstring_in b Hin) as (s & -> & Hlt). exists s. split; [done|lia]. }
  destruct (u32 (m_Cursor l + 1) <? StrBufSize) eqn:E1; apply Hcs; to_prop.
  - unfold blit. rewrite !elem_of_app. right; right; left. by apply list_elem_of_singleton.
  - destruct (zlen t <? StrBufSize) eqn:E2; to_prop; [|rewrite u32_small in E1 by lia; lia]. rewrite u32_small in * by lia.
    unfold blit. rewrite !length_app, !length_take, !repeat_length, !length_drop, !length_app, !length_take, !repeat_length, !length_drop. cbn [length]. lia.
  - rewrite Hb, elem_of_app. right. by apply list_elem_of_singleton.
  - lia.
Qed.

(** A message and a newline, as long as both fit; a longer one is cut and has no newline. *)
Theorem logString_spec level now source text : zlen source < 2 ^ 31 - 1 -> zlen text < 2 ^ 31 ->
  Forall (fun c => c <> 0) (message level now source text) ->
  logString level now source text =
    Ok (if zlen (message level now source text) + 1 <? StrBufSize then message level now source text ++ [10]
        else take (Z.to_nat (StrBufSize - 1)) (message level now source text)).
Proof.
  intros Hs Ht Hnul. destruct (logString_holds level now source text Hs Ht) as (l & -> & Hb & Hc). assert (StrBufSize = 131072) as HS by done.
  pose proof (length_strftime now) as Hn. assert (6 <= zlen (message level now source text)) as Hm by (unfold message; rewrite length_app; lia).
  destruct Hb as [[_ E] | Hb]; [rewrite E in Hm; cbn [length] in Hm; lia|]. set (t := message level now source text) in *.
  unfold getLogString. destruct (0 <? m_Cursor l) eqn:E0; [|to_prop; destruct (zlen t <? StrBufSize); lia].
  destruct (zlen t <? StrBufSize) eqn:E2; to_prop; (rewrite u32_small by lia).
  - rewrite Hc. destruct (zlen t + 1 <? StrBufSize) eqn:E1; to_prop; [|rewrite Hb; by apply cstring_nul, Forall_take].
    rewrite (take_ge t) in Hb by lia. assert (blit (m_Buffer l) (zlen t) [10] = t ++ [10]) as ->.
    { rewrite Hb. unfold blit. rewrite Nat2Z.id, take_app_length, drop_ge, app_nil_r by (rewrite length_app; cbn [length]; lia).
      rewrite length_app. by replace (length t - _)%nat with 0%nat by lia. }
    assert (blit (t ++ [10]) (zlen t + 1) [0] = (t ++ [10]) ++ [0]) as ->.
    { unfold blit. rewrite take_ge, drop_ge, app_nil_r by (rewrite length_app; cbn [length]; lia).
      rewrite length_app. by replace (Z.to_nat (zlen t + 1) - _)%nat with 0%nat by (cbn [length]; lia). }
    apply cstring_nul. apply Forall_app. split; [done|]. by constructor.
  - destruct (zlen t + 1 <? StrBufSize) eqn:E1; to_prop; [lia|]. destruct (m_Cursor l + 1 <? StrBufSize) eqn:E3; to_prop; [lia|].
    rewrite Hb. by apply cstring_nul, Forall_take.
Qed.

(** ** The files *)

(** Whether a file is one of a log's, and what was written to these. *)
Definition of_log (c : which) (name : bytes) : bool := bool_decide (expandLogFilename (log_name c) `prefix_of` name).

Definition written (c : which) (d : list (bytes * bytes)) : bytes := concat (map snd (filter (fun w => of_log c w.1 = true) d)).

(** What the logger thread has taken out of a queue and not written yet. *)
Definition held (c : which) (s : oLog) : bytes :=
  match m_LoggerThread s, c with
  | Flushing Log rest pos, Log | Flushing SQL rest pos, SQL => take (Z.to_nat pos) (buffer s) ++ concat rest
  | _, _ => []
  end.

Definition small (t : bytes) : Prop := zlen t <= StrBufSize.
Definition named (c : which) (f : option FILE) : Prop := forall f', f = Some f' -> forall c', of_log c' (f_name f') = true <-> c = c'.

Record log_ok (d : list (bytes * bytes)) (s : oLog) : Prop := {
  lo_direct : direct s = [];
  lo_all : forall c, written c (disk s) ++ held c s ++ concat (queue (chan c s)) = written c d ++ concat (logged (chan c s));
  lo_small : forall c, Forall small (queue (chan c s));
  lo_named : forall c, named c (file (chan c s));
  lo_open : m_LoggerThread s <> NoThread -> forall c, is_Some (file (chan c s));
  lo_flushing : forall c rest pos, m_LoggerThread s = Flushing c rest pos -> Forall small rest /\ 0 <= pos <= zlen (buffer s);
  lo_dropped : dropped s <> [] -> m_MaxLogCount < zlen (logged (log s));
  lo_closing : closing s = true -> m_LoggerThread s <> NoThread;
  lo_queued : forall c, queue (chan c s) `suffix_of` logged (chan c s)
}.

Lemma filename_of_log c now c' : of_log c' (expandLogFilename (genLogFilename (log_name c) now)) = true <-> c = c'.
Proof.
  unfold of_log. rewrite bool_decide_eq_true. unfold expandLogFilename, genLogFilename. split.
  - intros [rest H]. rewrite <- !app_assoc in H. apply app_inv_head in H. revert H. destruct c, c'; try done; vm_compute; discriminate.
  - intros <-. eexists. by rewrite <- !app_assoc.
Qed.

Lemma written_app c d w : written c (d ++ [w]) = written c d ++ (if of_log c w.1 then w.2 else []).
Proof.
  unfold written. rewrite list.filter_app, map_app, concat_app. f_equal. rewrite list.filter_cons. destruct (of_log c w.1) eqn:E.
  - rewrite decide_True by done. apply app_nil_r.
  - by rewrite decide_False by done.
Qed.

(** [with_memory] and [with_file] that change nothing. *)
Lemma same_memory c s : with_memory (buffer s) (direct s) (disk s) (with_file c (file (chan c s)) s) = s.
Proof. by destruct s as [? ? ? ? ? ? [] [] ? ? ? ? ? ?], c. Qed.

Lemma writeToFile_ok e c f data s : e_opened e = true -> file (chan c s) = Some f -> named c (Some f) ->
  exists f' d, writeToFile e c data s = Ok (with_memory (buffer s) (direct s) d (with_file c (Some f') s)) /\ named c (Some f') /\
    forall c', written c' d = written c' (disk s) ++ (if of_log c' (f_name f') then data else []).
Proof.
  intros He Hf Hn. unfold writeToFile. rewrite Hf. set (s1 := if _ : bool then _ else _).
  assert (exists f1, s1 = with_file c (Some f1) s /\ named c (Some f1)) as (f1 & E1 & Hn1).
  { subst s1. destruct (_ <=? _).
    - unfold renewLogFile. rewrite He. eexists. split; [reflexivity|]. intros f' [= <-]. apply filename_of_log.
    - exists f. split; [|done]. rewrite <- Hf. by destruct s as [? ? ? ? ? ? [] [] ? ? ? ? ? ?], c. }
  unfold fwrite. rewrite E1. exists (File (f_name f1) (zlen (contents (f_name f1) (disk s ++ [(f_name f1, data)])))), (disk s ++ [(f_name f1, data)]).
  split; [by destruct c|]. split.
  - intros f' [= <-]. exact (Hn1 f1 eq_refl).
  - intros c'. apply written_app.
Qed.

Lemma take_blit b pos t : 0 <= pos <= zlen b -> take (Z.to_nat (pos + zlen t)) (blit b pos t) = take (Z.to_nat pos) b ++ t /\
  pos + zlen t <= zlen (blit b pos t).
Proof.
  intros H. unfold blit. replace (Z.to_nat pos - length b)%nat with 0%nat by lia. cbn [repeat app]. split.
  - rewrite app_assoc, take_app_le by (rewrite length_app, length_take; lia). apply take_ge. rewrite length_app, length_take. lia.
  - rewrite !length_app, length_take. lia.
Qed.

(** What a flush does to a log: it stores [d] and [b], and may open another file. *)
Definition flushed c s f d b : oLog := with_memory b (direct s) d (with_file c (Some f) s).

Lemma flush_message_ok e c f t pos s : e_opened e = true -> file (chan c s) = Some f -> named c (Some f) ->
  small t -> 0 <= pos <= zlen (buffer s) ->
  exists pos' f' d b, flush_message e c t pos s = Ok (pos', flushed c s f' d b) /\ named c (Some f') /\ 0 <= pos' <= zlen b /\
    forall c', written c' d ++ (if decide (c = c') then take (Z.to_nat pos') b else []) =
      written c' (disk s) ++ (if decide (c = c') then take (Z.to_nat pos) (buffer s) ++ t else []).
Proof.
  intros He Hf Hn Ht Hp. unfold small in Ht. assert (StrBufSize = 131072 /\ LogBufferSize = 1048576) as [HS HB] by done.
  unfold flush_message. rewrite i32_small by lia. destruct (LogBufferSize <? zlen t) eqn:E1; to_prop; [lia|].
  destruct (LogBufferSize <? zlen t + pos) eqn:E2; to_prop.
  - destruct (writeToFile_ok e c f (take (Z.to_nat pos) (buffer s)) s He Hf Hn) as (f' & d & -> & Hn' & Hd). rewrite outcome_bind_ok, outcome_bind_ok.
    rewrite guard_defined_true by lia. rewrite outcome_bind_ok.
    replace (buffer (with_memory _ _ _ _)) with (buffer s) by (by destruct c). exists (zlen t), f', d, (blit (buffer s) 0 t).
    destruct (take_blit (buffer s) 0 t ltac:(lia)) as [Hb Hl]. rewrite Z.add_0_l in *. split; [by destruct c|]. split; [done|]. split; [lia|].
    intros c'. rewrite Hd. rewrite Hb. destruct (decide (c = c')) as [<-|Hne].
    + rewrite (proj2 (Hn' f' eq_refl c) eq_refl). simpl. by rewrite <- app_assoc.
    + destruct (of_log c' (f_name f')) eqn:E; [by apply (Hn' f' eq_refl) in E|]. by rewrite app_nil_r.
  - rewrite outcome_bind_ok, guard_defined_true by lia. rewrite outcome_bind_ok.
    destruct (take_blit (buffer s) pos t Hp) as [Hb Hl]. exists (pos + zlen t), f, (disk s), (blit (buffer s) pos t).
    split; [|split; [done|]; split; [lia|]].
    + do 2 f_equal. unfold flushed. rewrite <- Hf. by destruct s as [? ? ? ? ? ? [] [] ? ? ? ? ? ?], c.
    + intros c'. rewrite Hb. done.
Qed.

Lemma flush_rest_ok e c f pos s : e_opened e = true -> file (chan c s) = Some f -> named c (Some f) -> 0 <= pos ->
  exists f' d, flush_rest e c pos s = Ok (flushed c s f' d (buffer s)) /\ named c (Some f') /\
    forall c', written c' d = written c' (disk s) ++ (if decide (c = c') then take (Z.to_nat pos) (buffer s) else []).
Proof.
  intros He Hf Hn Hp. unfold flush_rest. destruct (0 <? pos) eqn:E; to_prop.
  - destruct (writeToFile_ok e c f (take (Z.to_nat pos) (buffer s)) s He Hf Hn) as (f' & d & -> & Hn' & Hd). exists f', d. split; [done|]. split; [done|].
    intros c'. rewrite Hd. f_equal. destruct (decide (c = c')) as [<-|Hne].
    + by rewrite (proj2 (Hn' f' eq_refl c) eq_refl).
    + destruct (of_log c' (f_name f')) eqn:E'; [by apply (Hn' f' eq_refl) in E'|done].
  - exists f, (disk s). split; [|split; [done|]].
    + unfold flushed. rewrite <- Hf. by rewrite same_memory.
    + intros c'. assert (pos = 0) as -> by lia. destruct (decide _); by rewrite app_nil_r.
Qed.

(** ** The thread *)

(** The thread runs and goes on; it is at its test, and nothing is queued. *)
Definition running (s : oLog) : Prop :=
  m_LoggerThread s <> NoThread /\ m_LoggerThread s <> Exited /\ (m_Terminated s = false \/ m_LoggerThread s = Starting).
Definition rested (s : oLog) : Prop := m_LoggerThread s = Testing /\ forall c, queue (chan c s) = [].

(** A bound on the rounds before it rests, if nobody calls. *)
Definition again (q : list bytes) : nat := match q with [] => 0 | _ => 10 end.
Definition thread_weight (s : oLog) : nat :=
  let q1 := queue (log s) in let q2 := queue (sql s) in
  2 * (length q1 + length q2) +
  match m_LoggerThread s with
  | NoThread | Exited => 0
  | Starting => 8
  | Testing => 7
  | Checking Log => 6
  | Flushing Log rest _ => 4 + length rest + again q1
  | Checking SQL => 3 + again q1
  | Flushing SQL rest _ => 1 + length rest + again (q1 ++ q2)
  end.

Ltac log_cbn := cbn [m_LoggerThread m_Terminated closing log sql buffer direct disk dropped chan with_chan with_file with_thread at_thread
  with_memory with_config with_output flushed file queue logged] in *.

Lemma at_thread_ok d t s : log_ok d s -> m_LoggerThread s <> NoThread -> t <> NoThread ->
  (forall c rest pos, m_LoggerThread s <> Flushing c rest pos) -> (forall c rest pos, t <> Flushing c rest pos) ->
  forall term, log_ok d (with_thread t term (closing s) s).
Proof.
  intros [H1 H2 H3 H4 H5 H6 H7 H8 H9] Ht Ht' Hs Hn term. split; try done.
  - intros c. specialize (H2 c). unfold held in *. log_cbn.
    assert (match t, c with Flushing Log rest pos, Log | Flushing SQL rest pos, SQL => take (Z.to_nat pos) (buffer s) ++ concat rest | _, _ => [] end = []) as ->.
    { destruct t; try (by destruct c). by edestruct Hn. }
    destruct (m_LoggerThread s); try (by destruct c). by edestruct Hs.
  - intros _. by apply H5.
  - intros c rest pos E. by edestruct Hn.
Qed.

Lemma take_queue_ok d c f s : log_ok d s -> m_LoggerThread s = Checking c -> file (chan c s) = Some f ->
  log_ok d (at_thread (Flushing c (queue (chan c s)) 0) (with_chan c (Channel (Some f) [] (logged (chan c s))) s)).
Proof.
  intros [H1 H2 H3 H4 H5 H6 H7 H8 H9] Ht Hf. split; try done.
  - intros c'. specialize (H2 c'). unfold held in *. rewrite Ht in H2. destruct c, c'; log_cbn; rewrite <- H2; simpl; by rewrite ?app_nil_r.
  - intros c'. specialize (H3 c'). destruct c, c'; log_cbn; done.
  - intros c'. specialize (H4 c'). rewrite <- Hf. destruct c, c'; log_cbn; done.
  - intros _ c'. destruct (decide (c = c')) as [<-|Hne]; [destruct c; by eexists|].
    assert (is_Some (file (chan c' s))) by (apply H5; by rewrite Ht). by destruct c, c'.
  - intros c' rest pos [= <- <- <-]. split; [apply H3 | lia].
  - by destruct c.
  - intros c'. specialize (H9 c'). destruct c, c'; log_cbn; try done; apply suffix_nil.
Qed.

(** A flush goes on or ends: what it wrote is what it no longer holds. *)
Lemma flushed_ok d c f f' dk b s rest pos rest' pos' t : log_ok d s -> m_LoggerThread s = Flushing c rest pos -> file (chan c s) = Some f ->
  named c (Some f') -> Forall small rest' -> 0 <= pos' <= zlen b ->
  (t = Flushing c rest' pos' \/ (t = Checking SQL \/ t = Testing) /\ rest' = [] /\ pos' = 0) ->
  (forall c', written c' dk ++ (if decide (c = c') then take (Z.to_nat pos') b ++ concat rest' else []) =
    written c' (disk s) ++ (if decide (c = c') then take (Z.to_nat pos) (buffer s) ++ concat rest else [])) ->
  log_ok d (at_thread t (flushed c s f' dk b)).
Proof.
  intros [H1 H2 H3 H4 H5 H6 H7 H8 H9] Ht Hf Hn' Hr' Hp' Ht' Hw. split; try (by destruct c).
  - intros c'. specialize (H2 c'). specialize (Hw c'). unfold held in *. rewrite Ht in H2.
    assert (match t, c' with Flushing Log rest0 pos0, Log | Flushing SQL rest0 pos0, SQL => take (Z.to_nat pos0) b ++ concat rest0 | _, _ => [] end =
      (if decide (c = c') then take (Z.to_nat pos') b ++ concat rest' else [])) as Ee.
    { destruct Ht' as [-> | ([-> | ->] & -> & ->)]; destruct c, c'; done. }
    destruct c, c'; log_cbn; rewrite Ee, app_assoc, Hw, <- app_assoc; exact H2.
  - intros c'. specialize (H3 c'). destruct c, c'; log_cbn; done.
  - intros c'. specialize (H4 c'). destruct (decide (c = c')) as [<-|Hne]; [by destruct c|]. by destruct c, c'.
  - intros _ c'. destruct (decide (c = c')) as [<-|Hne]; [destruct c; by eexists|].
    assert (is_Some (file (chan c' s))) by (apply H5; by rewrite Ht). by destruct c, c'.
  - intros c' rest0 pos0 E. assert (m_LoggerThread (at_thread t (flushed c s f' dk b)) = t) as Et by (by destruct c). rewrite Et in E.
    destruct Ht' as [-> | ([-> | ->] & _)]; try done. injection E as <- <- <-. by destruct c.
  - intros _. destruct Ht' as [-> | ([-> | ->] & _)]; by destruct c.
  - intros c'. specialize (H9 c'). by destruct c, c'.
Qed.

(** A round of the logger thread. *)
Lemma logLooping_ok d e s : log_ok d s -> e_opened e = true ->
  exists s', logLooping e s = Ok s' /\ log_ok d s' /\ (forall c, logged (chan c s') = logged (chan c s)) /\
    (running s -> running s' /\ (rested s \/ rested s' \/ (thread_weight s' < thread_weight s)%nat)).
Proof.
  intros Hs He. pose proof Hs as [H1 H2 H3 H4 H5 H6 H7 H8 H9]. unfold logLooping.
  destruct (m_LoggerThread s) as [| | |c|c [|t rest] pos|] eqn:Et.
  - exists s. do 3 (split; [done|]). by intros [? _].
  - eexists. split; [reflexivity|]. split; [apply at_thread_ok; by rewrite ?Et|]. split; [by intros []|]. intros _. split; [by split; [|split; [|left]]|].
    right; right. unfold thread_weight. rewrite Et. log_cbn. lia.
  - eexists. split; [reflexivity|]. destruct (m_Terminated s) eqn:Em.
    + split; [apply at_thread_ok; by rewrite ?Et|]. split; [by intros []|]. intros (_ & _ & [?|?]); congruence.
    + split; [apply at_thread_ok; by rewrite ?Et|]. split; [by intros []|]. intros _. split; [by split; [|split; [|left]]|].
      right; right. unfold thread_weight. rewrite Et. log_cbn. lia.
  - destruct (file (chan c s)) as [f|] eqn:Ef; [|destruct (H5 ltac:(done) c); congruence].
    destruct (queue (chan c s)) as [|t q] eqn:Eq; (eexists; split; [reflexivity|]).
    + split; [apply at_thread_ok; rewrite ?Et; by destruct c|]. split; [by intros []|]. intros (_ & _ & Hr).
      assert (m_Terminated s = false) as Hm by (destruct Hr; congruence).
      split; [by destruct c; (split; [|split; [|left]])|]. destruct (decide (queue (log s) = [] /\ c = SQL)) as [[E ->]|Hne].
      { right; left. split; [done|]. intros []; done. }
      right; right. unfold thread_weight. rewrite Et. destruct c; log_cbn; [rewrite Eq; simpl; lia|].
      destruct (queue (log s)); [by destruct Hne|]. simpl. lia.
    + split; [rewrite <- Eq; by apply take_queue_ok|]. split; [by intros []; destruct c|]. intros (_ & _ & Hr).
      assert (m_Terminated s = false) as Hm by (destruct Hr; congruence). split; [destruct c; (split; [|split; [|left]]); done|].
      right; right. unfold thread_weight. rewrite Et. destruct c; log_cbn; rewrite Eq; simpl; destruct (queue (log s)); simpl; lia.
  - destruct (H6 _ _ _ eq_refl) as [_ Hp]. destruct (H5 ltac:(done) c) as [f Hf].
    assert (named c (Some f)) as Hn by (rewrite <- Hf; apply H4).
    destruct (flush_rest_ok e c f pos s He Hf Hn (proj1 Hp)) as (f' & dk & -> & Hn' & Hd). eexists. split; [reflexivity|].
    split.
    { eapply (flushed_ok d c f f' dk (buffer s) s [] pos [] 0 _ Hs Et Hf Hn'); [constructor | lia | right; by destruct c; auto|].
      intros c'. rewrite Hd. destruct (decide _); by rewrite ?app_nil_r. }
    split; [by intros []; destruct c|]. intros (_ & _ & Hr). assert (m_Terminated s = false) as Hm by (destruct Hr; congruence).
    split; [by destruct c; (split; [|split; [|left]])|]. destruct (decide (c = SQL /\ queue (log s) = [] /\ queue (sql s) = [])) as [(-> & E1 & E2)|Hne].
    { right; left. split; [done|]. by intros []. }
    right; right. unfold thread_weight. rewrite Et. destruct c; log_cbn; [simpl; lia|].
    destruct (queue (log s)), (queue (sql s)); simpl; [by destruct Hne | lia..].
  - destruct (H6 _ _ _ eq_refl) as [Hr Hp]. apply Forall_cons_1 in Hr as [Ht Hr]. destruct (H5 ltac:(done) c) as [f Hf].
    assert (named c (Some f)) as Hn by (rewrite <- Hf; apply H4).
    destruct (flush_message_ok e c f t pos s He Hf Hn Ht Hp) as (pos' & f' & dk & b & -> & Hn' & Hp' & Hd). rewrite outcome_bind_ok. eexists. split; [reflexivity|].
    split.
    { eapply (flushed_ok d c f f' dk b s (t :: rest) pos rest pos' _ Hs Et Hf Hn' Hr Hp'); [by left|].
      intros c'. specialize (Hd c'). destruct (decide (c = c')); [|done]. cbn [concat]. rewrite !app_assoc. f_equal. by rewrite Hd, app_assoc. }
    split; [by intros []; destruct c|]. intros (_ & _ & Hr'). assert (m_Terminated s = false) as Hm by (destruct Hr'; congruence).
    split; [by destruct c; (split; [|split; [|left]])|]. right; right. unfold thread_weight. rewrite Et. destruct c; log_cbn; simpl; lia.
  - exists s. do 3 (split; [done|]). by intros (_ & ? & _).
Qed.

(** ** The calls *)

Lemma output_ok d sc s : log_ok d s -> log_ok d (with_output (dropped s) sc s).
Proof. by intros []. Qed.

Lemma config_ok d l f sc n s : log_ok d s -> log_ok d (with_config l f sc n s).
Proof. by intros []. Qed.

Lemma enqueue_ok d c t s : log_ok d s -> small t -> log_ok d (enqueue c t s).
Proof.
  intros [H1 H2 H3 H4 H5 H6 H7 H8 H9] Ht. unfold enqueue. split; try (by destruct c).
  - intros c'. specialize (H2 c'). unfold held in *. destruct c, c'; log_cbn; try done;
      rewrite !concat_app, (app_assoc (written _ d)), <- H2; simpl; by rewrite !app_assoc.
  - intros c'. specialize (H3 c'). destruct c, c'; log_cbn; try done; (apply Forall_app; split; [done | by constructor]).
  - intros c'. specialize (H4 c'). by destruct c, c'.
  - intros Hn c'. specialize (H5 Hn c'). by destruct c, c'.
  - intros Hd. destruct c; log_cbn; [rewrite length_app|]; specialize (H7 Hd); lia.
  - intros c'. specialize (H9 c'). destruct c, c'; log_cbn; try done; by apply suffix_app.
Qed.

Lemma outFile_ok d t s : log_ok d s -> small t -> log_ok d (outFile t s).
Proof.
  intros Hs Ht. unfold outFile. destruct (m_MaxLogCount <? _) eqn:E; [|by apply enqueue_ok]. to_prop.
  destruct Hs as [H1 H2 H3 H4 H5 H6 H7 H8 H9]. split; try done. intros _. log_cbn. pose proof (suffix_length _ _ (H9 Log)). log_cbn. lia.
Qed.

Lemma outLog_ok d t level s : log_ok d s -> small t -> log_ok d (outLog t level s).
Proof.
  intros Hs Ht. unfold outLog, outScreen. destruct (_ <=? m_screenLogLevel s); [apply (output_ok d (screen s ++ [(TLogColors level, t)])) in Hs|];
    (destruct (_ <=? _); [by apply outFile_ok | done]).
Qed.

Lemma call_ok d f now source text s : log_ok d s -> zlen source < 2 ^ 31 - 1 -> zlen text < 2 ^ 31 ->
  exists s', do_call f now source text s = Ok s' /\ log_ok d s'.
Proof.
  intros Hs Hl Ht. assert (forall level, exists s', log_at level now source text s = Ok s' /\ log_ok d s') as H.
  { intros level. unfold log_at. destruct (logString_ok level now source text Hl Ht) as (t & -> & Hm). eexists. split; [reflexivity|]. by apply outLog_ok. }
  assert (forall level, exists s', (if m_NeedLog s then log_at level now source text s else Ok s) = Ok s' /\ log_ok d s') as H'.
  { intros level. destruct (m_NeedLog s); eauto. }
  destruct (logString_ok loglevel_debug now source text Hl Ht) as (t & Et & Hm).
  destruct f; cbn [do_call]; [apply H | apply H' | apply H' | apply H | apply H' | apply H' | | |];
    unfold SQLOutDebug, logScreen, logScreenAndFile; rewrite Et, outcome_bind_ok; (eexists; split; [reflexivity|]).
  - by apply enqueue_ok.
  - by apply output_ok.
  - apply outFile_ok; [by apply output_ok | done].
Qed.

Lemma with_file_ok d c f s : log_ok d s -> named c f -> (is_Some f \/ m_LoggerThread s = NoThread) -> log_ok d (with_file c f s).
Proof.
  intros [H1 H2 H3 H4 H5 H6 H7 H8 H9] Hn Hf. split; try (by destruct c).
  - intros c'. specialize (H2 c'). unfold held in *. by destruct c, c'.
  - intros c'. specialize (H3 c'). by destruct c, c'.
  - intros c'. specialize (H4 c'). by destruct c, c'.
  - intros Ht c'. destruct Hf as [Hf|Hf]; [|by destruct c]. specialize (H5 Ht c'). by destruct c, c'.
  - intros c'. specialize (H9 c'). by destruct c, c'.
Qed.

Lemma openLogFile_ok d e c s : log_ok d s -> e_opened e = true ->
  log_ok d (openLogFile e c s) /\ is_Some (file (chan c (openLogFile e c s))) /\
  m_LoggerThread (openLogFile e c s) = m_LoggerThread s /\ forall c', is_Some (file (chan c' s)) -> is_Some (file (chan c' (openLogFile e c s))).
Proof.
  intros Hs He. unfold openLogFile. destruct (file (chan c s)) as [f|] eqn:Ef; [by rewrite Ef|]. unfold renewLogFile. rewrite He.
  split; [|split; [destruct c; by eexists|split; [by destruct c|intros []; by destruct c]]].
  apply with_file_ok; [done| |left; by eexists]. intros f' [= <-]. apply filename_of_log.
Qed.

Lemma openLog_ok d e1 e2 s : log_ok d s -> e_opened e1 = true -> e_opened e2 = true -> log_ok d (openLog e1 e2 s).
Proof.
  intros Hs He1 He2. unfold openLog. destruct (m_LoggerThread s) eqn:Et; try done.
  destruct (openLogFile_ok d e1 Log s Hs He1) as (Hs1 & Hf1 & Ht1 & _). set (s1 := openLogFile e1 Log s) in *.
  destruct (openLogFile_ok d e2 SQL s1 Hs1 He2) as (Hs2 & Hf2 & Ht2 & Hm). set (s2 := openLogFile e2 SQL s1) in *.
  assert (m_LoggerThread s2 = NoThread) as E2 by congruence. pose proof Hs2 as [H1 H2 H3 H4 H5 H6 H7 H8 H9].
  assert (forall term cl, log_ok d (with_thread Starting term cl s2)) as H; [|apply H]. intros term cl. split; try done.
  - intros c. specialize (H2 c). unfold held in *. rewrite E2 in H2. exact H2.
  - intros _ []; [exact (Hm Log Hf1) | exact Hf2].
Qed.

Lemma joined_ok d s : log_ok d s -> exists s', joined s = Ok s' /\ log_ok d s'.
Proof.
  intros Hs. unfold joined. destruct (closing s) eqn:Ec; [|by exists s]. destruct (m_LoggerThread s) eqn:Et; try (by exists s).
  pose proof Hs as [H1 H2 H3 H4 H5 H6 H7 H8 H9]. destruct (H5 ltac:(by rewrite Et) Log) as [f1 E1], (H5 ltac:(by rewrite Et) SQL) as [f2 E2]. log_cbn.
  rewrite E1, E2. rewrite guard_defined_true, outcome_bind_ok by done. eexists. split; [reflexivity|]. split; try done.
  - intros c. specialize (H2 c). unfold held in *. rewrite Et in H2. by destruct c.
  - intros []; apply H3 || apply (H3 SQL).
  - by intros [].
  - intros []; apply (H9 Log) || apply (H9 SQL).
Qed.

(** The calls of a program that does not use outToFile, when every fopen succeeds. *)
Definition allowed (a : action) : Prop :=
  match a with
  | Call _ _ source text => zlen source < 2 ^ 31 - 1 /\ zlen text < 2 ^ 31
  | OutToFile _ _ _ => False
  | LogLooping e => e_opened e = true
  | Open e1 e2 => e_opened e1 = true /\ e_opened e2 = true
  | _ => True
  end.

Lemma action_ok d a s : log_ok d s -> allowed a -> exists s', step a s = Ok s' /\ log_ok d s'.
Proof.
  intros Hs Ha. destruct a as [f now source text|now source text|e i|e|f sc|n|e1 e2| |]; cbn [step allowed] in *.
  - destruct Ha. by apply call_ok.
  - done.
  - exists s. split; [|done]. unfold direct_flush. by rewrite (lo_direct _ _ Hs).
  - destruct (logLooping_ok d e s Hs Ha) as (s' & E & Hs' & _). eauto.
  - eexists. split; [reflexivity|]. by apply config_ok.
  - eexists. split; [reflexivity|]. by apply config_ok.
  - destruct Ha. destruct (closing s); (eexists; split; [reflexivity|]); [done | by apply openLog_ok].
  - eexists. split; [reflexivity|]. destruct (closing s) eqn:Ec; [done|]. destruct Hs as [H1 H2 H3 H4 H5 H6 H7 H8 H9]. unfold close. split; try done.
    by intros ? E; log_cbn; rewrite E in *.
  - by apply joined_ok.
Qed.

Lemma run_ok d l s : log_ok d s -> Forall allowed l -> exists s', run l s = Ok s' /\ log_ok d s'.
Proof.
  intros Hs Hl. revert s Hs. induction Hl as [|a l Ha Hl IH]; intros s Hs; [by exists s|]. cbn [run].
  destruct (action_ok d a s Hs Ha) as (s1 & -> & Hs1). rewrite outcome_bind_ok. by apply IH.
Qed.

Lemma new_ok d : log_ok d (oLog_new d).
Proof. split; try done; try (by intros []). Qed.

(** Rounds of the logger thread, while nobody calls. *)
Fixpoint rounds (n : nat) (e : nat -> env) (s : oLog) : outcome oLog :=
  match n with O => Ok s | S n => let* s := logLooping (e O) s in rounds n (fun i => e (S i)) s end.

Lemma rounds_rest d s e : log_ok d s -> running s -> (forall i, e_opened (e i) = true) ->
  exists n s', rounds n e s = Ok s' /\ log_ok d s' /\ rested s' /\ forall c, logged (chan c s') = logged (chan c s).
Proof.
  remember (thread_weight s) as w eqn:Ew. revert s e Ew. induction (lt_wf w) as [w _ IH]. intros s e Ew Hs Hr He.
  destruct (logLooping_ok d (e O) s Hs (He O)) as (s1 & E & Hs1 & Hl & Hp). destruct (Hp Hr) as (Hr1 & [H|[H|H]]).
  - exists O, s. eauto.
  - exists 1%nat, s1. cbn [rounds]. rewrite E, outcome_bind_ok. eauto.
  - destruct (IH (thread_weight s1) ltac:(lia) s1 (fun i => e (S i)) eq_refl Hs1 Hr1 (fun i => He (S i))) as (n & s' & En & Hs' & Hres & Hl').
    exists (S n), s'. cbn [rounds]. rewrite E, outcome_bind_ok. split; [done|]. split; [done|]. split; [done|]. intros c. by rewrite Hl', Hl.
Qed.


(** ** close *)

(** What the threads of the program see of each other. *)
Definition control (s : oLog) : thread * bool * bool := (m_LoggerThread s, m_Terminated s, closing s).

Lemma writeToFile_control e c data s s' : writeToFile e c data s = Ok s' -> control s' = control s.
Proof.
  unfold writeToFile, renewLogFile. destruct (file (chan c s)); [|by intros [= <-]]. unfold fwrite.
  destruct (_ <=? _); (destruct (file _); [|done]); intros [= <-]; by destruct c.
Qed.

Lemma flush_message_control e c t pos s pos' s' : flush_message e c t pos s = Ok (pos', s') -> control s' = control s.
Proof.
  unfold flush_message. destruct (_ <? _); [by intros [= _ <-]|]. destruct (_ <? _); intros H.
  - apply outcome_bind_inv in H as ([p s1] & H1 & H). apply outcome_bind_inv in H1 as (s2 & H2 & H1). injection H1 as <- <-.
    apply outcome_bind_inv in H as (_ & _ & H). injection H as _ <-. by apply writeToFile_control in H2.
  - rewrite outcome_bind_ok in H. apply outcome_bind_inv in H as (_ & _ & H). by injection H as _ <-.
Qed.

Lemma flush_rest_control e c pos s s' : flush_rest e c pos s = Ok s' -> control s' = control s.
Proof. unfold flush_rest. destruct (0 <? pos); [apply writeToFile_control | by intros [= <-]]. Qed.

Lemma outLog_control t level s : control (outLog t level s) = control s.
Proof. unfold outLog, outFile. repeat destruct (_ <=? _) || destruct (_ <? _); done. Qed.

Lemma log_at_control level now source text s s' : log_at level now source text s = Ok s' -> control s' = control s.
Proof. unfold log_at. intros H. apply outcome_bind_inv in H as (t & _ & H). injection H as <-. apply outLog_control. Qed.

Lemma call_control f now source text s s' : do_call f now source text s = Ok s' -> control s' = control s.
Proof.
  assert (forall level, (if m_NeedLog s then log_at level now source text s else Ok s) = Ok s' -> control s' = control s) as Hn.
  { intros level. destruct (m_NeedLog s); [apply log_at_control | by intros [= <-]]. }
  destruct f; cbn [do_call]; [apply log_at_control | apply Hn | apply Hn | apply log_at_control | apply Hn | apply Hn | | |];
    intros H; apply outcome_bind_inv in H as (t & _ & H); injection H as <-; [done | done|].
  unfold outFile. by destruct (_ <? _).
Qed.

(** The thread runs, and a call of close waits for it. *)
Definition stuck (s : oLog) : Prop :=
  closing s = true /\ m_Terminated s = false /\ match m_LoggerThread s with NoThread | Starting | Exited => False | _ => True end.

Lemma stuck_control s s' : control s' = control s -> stuck s -> stuck s'.
Proof. unfold stuck, control. by intros [= -> -> ->]. Qed.

Lemma stuck_step a s s' : stuck s -> step a s = Ok s' -> stuck s'.
Proof.
  intros Hs H. pose proof Hs as (Hc & Ht & Hl). destruct a as [f now source text|now source text|e i|e|f sc|n|e1 e2| |]; cbn [step] in H.
  - eapply stuck_control; [by eapply call_control | done].
  - apply outcome_bind_inv in H as (t & _ & H). eapply stuck_control; [|done].
    transitivity (control (outLog t loglevel_error s)); [|apply outLog_control]. cbv zeta in H. by destruct (file (log (outLog t loglevel_error s))); injection H as <-.
  - unfold direct_flush in H. destruct (direct s !! i) as [[[|t rest] pos]|].
    + apply outcome_bind_inv in H as (s1 & H1 & H). injection H as <-. apply (stuck_control s); [exact (flush_rest_control _ _ _ _ _ H1) | done].
    + apply outcome_bind_inv in H as ([p s1] & H1 & H). injection H as <-. apply (stuck_control s); [exact (flush_message_control _ _ _ _ _ _ _ H1) | done].
    + by injection H as <-.
  - unfold logLooping in H. destruct (m_LoggerThread s) as [| | |c|c [|t rest] pos|]; try done.
    + rewrite Ht in H. by injection H as <-.
    + destruct (file (chan c s)), (queue (chan c s)); injection H as <-; by destruct c.
    + apply outcome_bind_inv in H as (s1 & H1 & H). injection H as <-. apply flush_rest_control in H1. injection H1 as _ E2 E3.
      unfold stuck, at_thread. cbn. rewrite E2, E3. by destruct c.
    + apply outcome_bind_inv in H as ([p s1] & H1 & H). injection H as <-. apply flush_message_control in H1. injection H1 as _ E2 E3.
      unfold stuck, at_thread. cbn. by rewrite E2, E3.
  - by injection H as <-.
  - by injection H as <-.
  - rewrite Hc in H. by injection H as <-.
  - rewrite Hc in H. by injection H as <-.
  - unfold joined in H. rewrite Hc in H. destruct (m_LoggerThread s) eqn:El; try done; injection H as <-; (split; [done|split; [done|by rewrite El]]).
Qed.

(** C32. close can wait for ever: when it is called before the thread that open has made runs
    its first statement, that statement takes the request to stop back, and whatever
    happens from then on close does not return. *)
Theorem close_can_hang (d : list (bytes * bytes)) (e1 e2 e3 : env) :
  exists s, run [Open e1 e2; Close; LogLooping e3] (oLog_new d) = Ok s /\ closing s = true /\
    forall l s', run l s = Ok s' -> closing s' = true.
Proof.
  assert (exists s, run [Open e1 e2; Close; LogLooping e3] (oLog_new d) = Ok s /\ stuck s) as (s & E & Hs).
  { eexists. split; [reflexivity|]. done. }
  exists s. split; [done|]. split; [apply Hs|]. intros l. clear E. revert s Hs. induction l as [|a l IH]; intros s Hs s' H; cbn [run] in H.
  - injection H as <-. apply Hs.
  - apply outcome_bind_inv in H as (s1 & H1 & H). eapply IH; [by eapply stuck_step | done].
Qed.

End Logger.

(** ** Sample runs *)

Definition sample_tm : tm := Tm 5 4 3 2 0 124 2 1 0.
Definition sample_env : env := Env sample_tm true.
Definition sample_exe : bytes := lit "C:\srv\game.exe".
Definition sample_file : bytes := lit "C:\srv\log/Log2024-1-2_030405.log".

Definition sample_run (l : list action) : outcome oLog := run sample_exe (fun b => zlen b) l (oLog_new []).

(** The messages of a sample: all have the same length. *)
Definition sample_text (n : Z) : bytes := lit "2024-01-02 03:04:05 net hello" ++ [48 + n; 10].
Definition hello (n : Z) : action := Call CString sample_tm (lit "net") (lit "hello" ++ [48 + n]).
Definition round : action := LogLooping sample_env.

(** The file may have no more than 40 bytes when it is written to: two messages are flushed
    to it in one write, and the third to the next file (of the same second, and name). *)
Definition sample_script : list action :=
  [DoInit 5 0; SetMax 40; Open sample_env sample_env; round; hello 1; hello 2; round; round; round; hello 3; round; round] ++
  Call CSQL sample_tm [] (lit "select 1") :: repeat round 11.

Example log_sample :
  match sample_run sample_script with
  | Ok s => rested s /\ disk s =
      [(sample_file, sample_text 1 ++ sample_text 2);
       (lit "C:\srv\log/SQL2024-1-2_030405.log", lit "2024-01-02 03:04:05 [Debug] select 1" ++ [10]);
       (sample_file, sample_text 3)]
  | Err _ => False
  end.
Proof. vm_compute. split; [split; [reflexivity|]; by intros []|reflexivity]. Qed.


(** What is queued after the thread has looked is not written when close is called. *)
Lemma close_drops_messages :
  match sample_run [Open sample_env sample_env; round; hello 1; Close; round; Joined] with
  | Ok s => m_LoggerThread s = NoThread /\ queue (log s) = [sample_text 1] /\ disk s = []
  | Err _ => False
  end.
Proof. vm_compute. done. Qed.

(** outToFile writes a message that is also queued; and the thread's flush and its own use the
    same buffer: the message of the thread is gone, and the other one is there three times. *)
Lemma direct_flush_overwrites :
  match sample_run [DoInit 5 0; Open sample_env sample_env; round; hello 1; round; round; round;
      OutToFile sample_tm (lit "net") (lit "hello!"); DirectFlush sample_env 0; round; DirectFlush sample_env 0;
      round; round; round; round; round; round] with
  | Ok s => logged (log s) = [sample_text 1; lit "2024-01-02 03:04:05 [Error] net hello!" ++ [10]] /\
      m_LoggerThread s = Testing /\ queue (log s) = [] /\
      map snd (disk s) = [lit "2024-01-02 03:04:05 [Error] net"; lit "2024-01-02 03:04:05 [Error] net hello!" ++ [10];
                          lit "2024-01-02 03:04:05 [Error] net hello!" ++ [10]]
  | Err _ => False
  end.
Proof. vm_compute. done. Qed.

(** When the next file cannot be opened, fwrite gets a null pointer. *)
Lemma failed_renewal_undefined :
  sample_run [SetMax 1; Open sample_env sample_env; round; hello 1; round; round; round; round; round; round; hello 2; round; round;
    LogLooping (Env sample_tm false)] = Err UndefinedBehaviour.
Proof. vm_compute. reflexivity. Qed.
