(* ===== verification/EpollServer.v ===== *)
(** * The epoll server

    Models io/linux/day9/src: Server, Acceptor, Connection, Channel, Epoll, EventLoop and
    Buffer, with the thread pool as a queue of tasks that workers take in order (see
    ThreadPool.v for the pool itself).  The other stages of the tutorial are earlier or later forms
    of the same server.

    A step is a return of epoll_wait with the handling of its events, a worker's start of a
    task, or a system call of a task with what the task does next.  What the system calls
    answer is the environment's.  [epfd] and [open_fds] are what the kernel was told:
    epoll_ctl fails when it adds a descriptor twice or modifies one that is not there, close takes it out.
    errif, which ends the program, is [AssertionFailure]; the use of a deleted Connection
    is undefined. *)

From stdpp Require Import base tactics option list numbers gmap.
From Stdlib Require Import ZArith Lia Bool.
From S2P Require Import Prelude.

#[local] Open Scope Z_scope.

Definition READ_BUFFER : Z := 1024.
Definition thread_count : nat := 10.

(** ** Data *)

Inductive epoll_flag := EPOLLIN | EPOLLET.

(** A Connection object by its address, the acceptor's channel or a connection's. *)
Inductive pointer := AcceptChannel | ConnectionChannel (conn : nat).

(** acceptConnection, or echo bound to a connection and its descriptor. *)
Inductive callback := AcceptConnection | Echo (conn : nat) (fd : Z).

Record channel := Channel { fd : Z; events : list epoll_flag; revents : list epoll_flag; inEpoll : bool; on_event : callback }.

(** readBuffer is the contents of its Buffer. *)
Record connection := Connection { c_channel : channel; readBuffer : list Z }.

(** What a connection read and what it wrote. *)
Inductive io := In (conn : nat) (b : list Z) | Out (conn : nat) (b : list Z).

(** [heap]: the Connections that are not deleted; [next]: the next address; [running]: the
    tasks of the workers. *)
Record server := Server {
  acceptChannel : channel; heap : gmap nat connection; next : nat; connections : gmap Z nat;
  epfd : gmap Z pointer; open_fds : gset Z; tasks : list callback; running : list callback; history : list io
}.

Definition with_kernel (e : gmap Z pointer) (o : gset Z) (s : server) : server :=
  Server (acceptChannel s) (heap s) (next s) (connections s) e o (tasks s) (running s) (history s).
Definition with_heap (h : gmap nat connection) (n : nat) (c : gmap Z nat) (s : server) : server :=
  Server (acceptChannel s) h n c (epfd s) (open_fds s) (tasks s) (running s) (history s).
Definition with_tasks (t r : list callback) (s : server) : server :=
  Server (acceptChannel s) (heap s) (next s) (connections s) (epfd s) (open_fds s) t r (history s).
Definition with_accept (ch : channel) (s : server) : server :=
  Server ch (heap s) (next s) (connections s) (epfd s) (open_fds s) (tasks s) (running s) (history s).
Definition record (l : list io) (s : server) : server :=
  Server (acceptChannel s) (heap s) (next s) (connections s) (epfd s) (open_fds s) (tasks s) (running s) (history s ++ l).

(** errif. *)
Definition errif (condition : bool) : outcome unit := cxx_assert (negb condition).

(** ** Buffer *)

(** append stops at a NUL. *)
Fixpoint append (buf str : list Z) : list Z :=
  match str with [] => buf | c :: str' => if c =? 0 then buf else append (buf ++ [c]) str' end.

(** ** Epoll and Channel *)

Definition Channel_new (fd : Z) (cb : callback) : channel := Channel fd [] [] false cb.

(** EPOLL_CTL_ADD or EPOLL_CTL_MOD; the channel as setInEpoll leaves it. *)
Definition updateChannel (p : pointer) (ch : channel) (s : server) : outcome (channel * server) :=
  let registered := bool_decide (is_Some (epfd s !! fd ch)) in
  if negb (inEpoll ch) then
    errif registered ;;*
    Ok (Channel (fd ch) (events ch) (revents ch) true (on_event ch), with_kernel (<[fd ch := p]> (epfd s)) (open_fds s) s)
  else
    errif (negb registered) ;;*
    Ok (ch, with_kernel (<[fd ch := p]> (epfd s)) (open_fds s) s).

Definition enableReading (p : pointer) (ch : channel) (s : server) : outcome (channel * server) :=
  updateChannel p (Channel (fd ch) [EPOLLIN; EPOLLET] (revents ch) (inEpoll ch) (on_event ch)) s.

(** handleEvent puts the callback into the queue of the pool. *)
Definition handleEvent (ch : channel) (s : server) : server := with_tasks (tasks s ++ [on_event ch]) (running s) s.

(** The channel a pointer of the kernel leads to. *)
Definition channel_at (p : pointer) (s : server) : outcome channel :=
  match p with
  | AcceptChannel => Ok (acceptChannel s)
  | ConnectionChannel conn => match heap s !! conn with Some c => Ok (c_channel c) | None => Err UndefinedBehaviour end
  end.

Definition set_revents (p : pointer) (ev : list epoll_flag) (s : server) : outcome server :=
  let* ch := channel_at p s in
  let ch := Channel (fd ch) (events ch) ev (inEpoll ch) (on_event ch) in
  Ok match p with
     | AcceptChannel => with_accept ch s
     | ConnectionChannel conn =>
         with_heap (alter (fun c => Connection ch (readBuffer c)) conn (heap s)) (next s) (connections s) s
     end.

(** poll: the channels of the events, with their revents set; -1 of epoll_wait ends the program. *)
Fixpoint poll (ready : list (Z * list epoll_flag)) (s : server) : outcome (list pointer * server) :=
  match ready with
  | [] => Ok ([], s)
  | (f, ev) :: ready' =>
      match epfd s !! f with
      | None => Err UndefinedBehaviour
      | Some p => let* s := set_revents p ev s in let* (ps, s) := poll ready' s in Ok (p :: ps, s)
      end
  end.

Fixpoint handle_all (chs : list pointer) (s : server) : outcome server :=
  match chs with
  | [] => Ok s
  | p :: chs' => let* ch := channel_at p s in handle_all chs' (handleEvent ch s)
  end.

(** A round of EventLoop::loop. *)
Definition loop_round (ready : list (Z * list epoll_flag)) (s : server) : outcome server :=
  let* (chs, s) := poll ready s in handle_all chs s.

(** ** Server, Acceptor, Connection *)

(** Connection::Connection, and newConnection; emplace keeps an entry that is there. *)
Definition newConnection (f : Z) (s : server) : outcome server :=
  let conn := next s in
  let* (ch, s) := enableReading (ConnectionChannel conn) (Channel_new f (Echo conn f)) s in
  Ok (with_heap (<[conn := Connection ch []]> (heap s)) (S conn)
        (match connections s !! f with Some _ => connections s | None => <[f := conn]> (connections s) end) s).

(** [accepted]: the descriptor that accept returned, if not -1. *)
Definition acceptConnection (accepted : option Z) (s : server) : outcome server :=
  match accepted with
  | None => let* _ := errif true in Ok s
  | Some f => newConnection f (with_kernel (epfd s) ({[f]} ∪ open_fds s) s)
  end.

(** deleteConnection, with the destructors of the Connection and of its Socket. *)
Definition deleteConnection (f : Z) (s : server) : server :=
  match connections s !! f with
  | Some conn => with_kernel (delete f (epfd s)) (open_fds s ∖ {[f]}) (with_heap (delete conn (heap s)) (next s) (delete f (connections s)) s)
  | None => s
  end.

Inductive errno := EINTR | EAGAIN | EOTHER.
Inductive read_result := ReadBytes (b : list Z) | ReadEof | ReadError (e : errno).

(** A round of echo: a read, and what follows it; [wrote]: how much write takes, or None for -1.
    The boolean: the loop goes on. *)
Definition echo (conn : nat) (f : Z) (r : read_result) (wrote : option nat) (s : server) : outcome (bool * server) :=
  let deref := match heap s !! conn with Some c => Ok c | None => Err UndefinedBehaviour end in
  match r with
  | ReadBytes b =>
      let* c := deref in
      Ok (true, record [In conn b] (with_heap (<[conn := Connection (c_channel c) (append (readBuffer c) b)]> (heap s)) (next s) (connections s) s))
  | ReadError EINTR => Ok (true, s)
  | ReadError EAGAIN =>
      let* c := deref in
      let* _ := errif (bool_decide (wrote = None)) in
      Ok (false, record [Out conn (take (default 0%nat wrote) (readBuffer c))]
                   (with_heap (<[conn := Connection (c_channel c) []]> (heap s)) (next s) (connections s) s))
  | ReadEof => let* c := deref in Ok (false, deleteConnection (fd (c_channel c)) s)
  | ReadError EOTHER => Ok (true, s)
  end.

(** ** The system *)

Inductive action :=
| Poll (ready : list (Z * list epoll_flag))
| Begin
| Accept (i : nat) (accepted : option Z)
| Round (i : nat) (r : read_result) (wrote : option nat).

(** A worker that has no task takes the first; the [i]th worker with a task makes a call. *)
Definition step (a : action) (s : server) : outcome server :=
  match a with
  | Poll ready => loop_round ready s
  | Begin =>
      match tasks s with
      | t :: ts => Ok (if (length (running s) <? thread_count)%nat then with_tasks ts (running s ++ [t]) s else s)
      | [] => Ok s
      end
  | Accept i accepted =>
      match running s !! i with
      | Some AcceptConnection => let* s := acceptConnection accepted s in Ok (with_tasks (tasks s) (delete i (running s)) s)
      | _ => Ok s
      end
  | Round i r wrote =>
      match running s !! i with
      | Some (Echo conn f) =>
          let* (more, s) := echo conn f r wrote s in
          Ok (if more : bool then s else with_tasks (tasks s) (delete i (running s)) s)
      | _ => Ok s
      end
  end.

Fixpoint run (l : list action) (s : server) : outcome server :=
  match l with [] => Ok s | a :: l' => let* s := step a s in run l' s end.

(** Server::Server and Acceptor::Acceptor, whose socket has the descriptor [listenSock]. *)
Definition Server_new (listenSock : Z) : outcome server :=
  let* (ch, s) := enableReading AcceptChannel (Channel_new listenSock AcceptConnection)
    (Server (Channel_new listenSock AcceptConnection) ∅ 0 ∅ ∅ {[listenSock]} [] [] []) in
  Ok (with_accept ch s).

(** ** What the server promises *)

(** The part of a message that append keeps. *)
Definition kept (b : list Z) : list Z := append [] b.

Definition inputs (conn : nat) (h : list io) : list Z :=
  concat (map (fun e => match e with In c b => if decide (c = conn) then kept b else [] | Out _ _ => [] end) h).
Definition outputs (conn : nat) (h : list io) : list Z :=
  concat (map (fun e => match e with Out c b => if decide (c = conn) then b else [] | In _ _ => [] end) h).

Definition conn_of (t : callback) : option nat := match t with Echo conn _ => Some conn | AcceptConnection => None end.

(** The connections that a worker or the queue is to serve. *)
Definition busy (s : server) : list nat := omap conn_of (tasks s ++ running s).

Record server_ok (listenSock : Z) (s : server) : Prop := {
  so_table : forall f conn, connections s !! f = Some conn <-> exists c, heap s !! conn = Some c /\ fd (c_channel c) = f;
  so_epfd : epfd s = <[listenSock := AcceptChannel]> (ConnectionChannel <$> connections s);
  so_listen : connections s !! listenSock = None;
  so_open : forall f, f ∈ open_fds s <-> is_Some (epfd s !! f);
  so_accept : on_event (acceptChannel s) = AcceptConnection;
  so_channel : forall conn c, heap s !! conn = Some c -> on_event (c_channel c) = Echo conn (fd (c_channel c));
  so_tasks : forall conn f, Echo conn f ∈ tasks s ++ running s -> exists c, heap s !! conn = Some c /\ fd (c_channel c) = f;
  so_busy : NoDup (busy s);
  so_next : forall conn, (next s <= conn)%nat -> heap s !! conn = None /\ inputs conn (history s) = [] /\ outputs conn (history s) = [];
  so_io : forall conn, exists rest, inputs conn (history s) = outputs conn (history s) ++ rest /\
            forall c, heap s !! conn = Some c -> rest = readBuffer c
}.

(** The system calls answer as documented: epoll_wait reports descriptors that are
    registered, each once, and accept returns one that is not in use; accept and write
    succeed, and write takes all.  And an event of a connection does not come while the one before
    it is still queued or handled. *)
Definition valid (a : action) (s : server) : Prop :=
  match a with
  | Poll ready => NoDup (map fst ready) /\
      forall f, f ∈ map fst ready -> is_Some (epfd s !! f) /\ forall conn, epfd s !! f = Some (ConnectionChannel conn) -> conn ∉ busy s
  | Begin => True
  | Accept i accepted => match accepted with Some f => f ∉ open_fds s | None => False end
  | Round i r wrote =>
      forall conn f c, r = ReadError EAGAIN -> running s !! i = Some (Echo conn f) -> heap s !! conn = Some c ->
        wrote = Some (length (readBuffer c))
  end.

Fixpoint valid_run (l : list action) (s : server) : Prop :=
  match l with [] => True | a :: l' => valid a s /\ match step a s with Ok s' => valid_run l' s' | Err _ => True end end.

(** ** Lemmas *)

Lemma append_app buf str : append buf str = buf ++ kept str.
Proof.
  unfold kept. assert (forall a b, append (a ++ b) str = a ++ append b str) as H.
  { induction str as [|c str IH]; intros a b; cbn [append]; [done|]. destruct (c =? 0); [done|]. by rewrite <- IH, app_assoc. }
  rewrite <- (app_nil_r buf) at 1. apply H.
Qed.

Lemma inputs_app conn h1 h2 : inputs conn (h1 ++ h2) = inputs conn h1 ++ inputs conn h2.
Proof. unfold inputs. by rewrite map_app, concat_app. Qed.
Lemma outputs_app conn h1 h2 : outputs conn (h1 ++ h2) = outputs conn h1 ++ outputs conn h2.
Proof. unfold outputs. by rewrite map_app, concat_app. Qed.

Lemma busy_elem s conn : conn ∈ busy s <-> exists f, Echo conn f ∈ tasks s ++ running s.
Proof.
  unfold busy. rewrite list_elem_of_omap. split.
  - intros (t & Ht & E). destruct t as [|c f]; [done|]. injection E as ->. eauto.
  - intros (f & H). eauto.
Qed.

Lemma table_fd l s f conn : server_ok l s -> epfd s !! f = Some (ConnectionChannel conn) -> exists c, heap s !! conn = Some c /\ fd (c_channel c) = f.
Proof.
  intros Hs H. rewrite (so_epfd _ _ Hs) in H. apply lookup_insert_Some in H as [[_ ?]|[_ H]]; [done|].
  rewrite lookup_fmap in H. apply fmap_Some in H as (c' & Hc & [= <-]). by apply (so_table _ _ Hs).
Qed.

(** The events of a channel are its own business. *)
Lemma set_revents_ok l p ev s : server_ok l s -> (forall conn, p = ConnectionChannel conn -> is_Some (heap s !! conn)) ->
  exists s', set_revents p ev s = Ok s' /\ server_ok l s' /\ epfd s' = epfd s /\ busy s' = busy s.
Proof.
  intros Hs Hp. unfold set_revents. destruct p as [|conn]; cbn [channel_at].
  - eexists. split; [reflexivity|]. by destruct Hs.
  - destruct (Hp conn eq_refl) as [c Hc]. rewrite Hc, outcome_bind_ok. eexists. split; [reflexivity|]. split; [|done].
    set (g := fun c0 => _). pose proof Hs as [H1 H2 H3 H4 H5 H6 H7 H8 H9 H10].
    assert (forall k c', alter g conn (heap s) !! k = Some c' ->
      exists c0, heap s !! k = Some c0 /\ fd (c_channel c') = fd (c_channel c0) /\ on_event (c_channel c') = on_event (c_channel c0) /\ readBuffer c' = readBuffer c0) as Hold.
    { intros k c' Hk. apply lookup_alter_Some in Hk as [(<- & c0 & Hc0 & ->)|[_ Hk]]; [|by exists c'].
      rewrite Hc in Hc0. injection Hc0 as <-. by exists c. }
    assert (forall k c0, heap s !! k = Some c0 -> exists c', alter g conn (heap s) !! k = Some c' /\ fd (c_channel c') = fd (c_channel c0)) as Hnew.
    { intros k c0 Hk. destruct (decide (conn = k)) as [<-|Hne].
      - exists (g c0). rewrite lookup_alter_eq, Hk. rewrite Hc in Hk. by injection Hk as <-.
      - exists c0. by rewrite lookup_alter_ne. }
    split; try done; cbn.
    + intros f k. rewrite H1. split.
      * intros (c0 & Hk & <-). destruct (Hnew k c0 Hk) as (c' & ? & ?). eauto.
      * intros (c' & Hk & <-). destruct (Hold k c' Hk) as (c0 & ? & ? & _). eauto.
    + intros k c' Hk. destruct (Hold k c' Hk) as (c0 & Hc0 & -> & -> & _). by apply H6.
    + intros k f Hk. destruct (H7 k f Hk) as (c0 & Hc0 & <-). by apply Hnew.
    + intros k Hk. destruct (H9 k Hk) as [Hn ?]. split; [|done]. rewrite lookup_alter_ne; [done|]. intros ->. congruence.
    + intros k. destruct (H10 k) as (rest & E & Hr). exists rest. split; [done|]. intros c' Hk.
      destruct (Hold k c' Hk) as (c0 & Hc0 & _ & _ & ->). by apply Hr.
Qed.

Lemma poll_ok l ready s : server_ok l s -> (forall f, f ∈ map fst ready -> is_Some (epfd s !! f)) ->
  exists ps s', poll ready s = Ok (ps, s') /\ server_ok l s' /\ epfd s' = epfd s /\ busy s' = busy s /\
    Forall2 (fun e p => epfd s !! e.1 = Some p) ready ps.
Proof.
  revert s. induction ready as [|[f ev] ready IH]; intros s Hs Hr; cbn [poll]; [by exists [], s|].
  destruct (Hr f) as [p Hp]; [left|]. rewrite Hp.
  destruct (set_revents_ok l p ev s Hs) as (s1 & -> & Hs1 & Ee & Eb).
  { intros conn ->. destruct (table_fd l s f conn Hs Hp) as (c & Hc & _). by eexists. }
  rewrite outcome_bind_ok. destruct (IH s1 Hs1) as (ps & s2 & -> & Hs2 & Ee2 & Eb2 & Hf).
  { intros g Hg. rewrite Ee. apply Hr. by right. }
  exists (p :: ps), s2. split; [done|]. split; [done|]. split; [by rewrite Ee2|]. split; [by rewrite Eb2|].
  constructor; [done|]. by rewrite Ee in Hf.
Qed.

(** Tasks that go to the queue, or leave it. *)
Lemma tasks_ok l s t r : server_ok l s -> NoDup (omap conn_of (t ++ r)) ->
  (forall conn f, Echo conn f ∈ t ++ r -> exists c, heap s !! conn = Some c /\ fd (c_channel c) = f) -> server_ok l (with_tasks t r s).
Proof. intros [H1 H2 H3 H4 H5 H6 H7 H8 H9 H10] Hn Ht. by split. Qed.

Lemma handleEvent_ok l s ch : server_ok l s ->
  (forall conn f, on_event ch = Echo conn f -> (conn ∉ busy s) /\ exists c, heap s !! conn = Some c /\ fd (c_channel c) = f) ->
  server_ok l (handleEvent ch s) /\ busy (handleEvent ch s) ≡ₚ (omap conn_of [on_event ch] ++ busy s).
Proof.
  intros Hs Hc. assert (busy (handleEvent ch s) ≡ₚ (omap conn_of [on_event ch] ++ busy s)) as Hb.
  { unfold busy, handleEvent. cbn [with_tasks tasks running]. rewrite !omap_app. solve_Permutation. }
  split; [|done]. apply tasks_ok; [done| |].
  - change (NoDup (busy (handleEvent ch s))). rewrite Hb. destruct (on_event ch) as [|conn f] eqn:E; simpl; [apply Hs|].
    constructor; [by apply (Hc conn f) | apply Hs].
  - intros conn f H. rewrite !elem_of_app in H. destruct H as [[H|H]|H].
    + apply (so_tasks _ _ Hs). rewrite elem_of_app. by left.
    + apply list_elem_of_singleton in H. symmetry in H. by apply Hc.
    + apply (so_tasks _ _ Hs). rewrite elem_of_app. by right.
Qed.

Definition ptr_conn (p : pointer) : option nat := match p with ConnectionChannel conn => Some conn | AcceptChannel => None end.

Lemma channels_handled_ok l ps s : server_ok l s -> NoDup (omap ptr_conn ps) ->
  (forall conn, ConnectionChannel conn ∈ ps -> is_Some (heap s !! conn) /\ conn ∉ busy s) ->
  exists s', handle_all ps s = Ok s' /\ server_ok l s'.
Proof.
  revert s. induction ps as [|p ps IH]; intros s Hs Hn Hp; cbn [handle_all]; [by exists s|].
  destruct p as [|conn]; cbn [channel_at].
  - rewrite outcome_bind_ok. destruct (handleEvent_ok l s (acceptChannel s) Hs) as [Hs1 Hb1].
    { intros conn f E. by rewrite (so_accept _ _ Hs) in E. }
    rewrite (so_accept _ _ Hs) in Hb1. apply IH; [done|done|]. intros conn Hin. destruct (Hp conn) as [? ?]; [by right|]. by rewrite Hb1.
  - destruct (Hp conn) as [[c Hc] Hnb]; [left|]. rewrite Hc, outcome_bind_ok. pose proof (so_channel _ _ Hs conn c Hc) as Ec.
    destruct (handleEvent_ok l s (c_channel c) Hs) as [Hs1 Hb1].
    { intros k f E. rewrite Ec in E. injection E as <- <-. eauto. }
    rewrite Ec in Hb1. cbn in Hn, Hb1. apply NoDup_cons in Hn as [Hin Hn]. apply IH; [done|done|].
    intros k Hk. destruct (Hp k) as [? ?]; [by right|]. split; [done|]. rewrite Hb1. intros [->|]%elem_of_cons; [|done].
    apply Hin. apply list_elem_of_omap. by exists (ConnectionChannel conn).
Qed.

Lemma loop_round_ok l ready s : server_ok l s -> valid (Poll ready) s -> exists s', loop_round ready s = Ok s' /\ server_ok l s'.
Proof.
  intros Hs [Hn Hv]. unfold loop_round. destruct (poll_ok l ready s Hs) as (ps & s1 & -> & Hs1 & Ee & Eb & Hf); [intros f Hin; by apply Hv|].
  rewrite outcome_bind_ok. apply channels_handled_ok; [done| |].
  - clear Hv. induction Hf as [|[f ev] p ready ps Hp Hf IH]; [constructor|]. cbn in Hn. apply NoDup_cons in Hn as [Hnin Hn].
    destruct p as [|conn]; cbn; [by apply IH|]. constructor; [|by apply IH]. intros Hin. apply list_elem_of_omap in Hin as ([|k] & Hin & [= ->]).
    apply list_elem_of_lookup_1 in Hin as [i Hi]. destruct (Forall2_lookup_r _ _ _ _ _ Hf Hi) as ([g ev'] & Hg & Hk).
    destruct (table_fd l s f conn Hs Hp) as (c & Hc & <-). destruct (table_fd l s g conn Hs Hk) as (c' & Hc' & <-).
    apply Hnin. assert (c = c') as -> by congruence. apply list_elem_of_fmap. exists (fd (c_channel c'), ev'). split; [done|]. by eapply list_elem_of_lookup_2.
  - intros conn Hin. apply list_elem_of_lookup_1 in Hin as [i Hi]. destruct (Forall2_lookup_r _ _ _ _ _ Hf Hi) as ([f ev] & Hg & Hk). cbn in Hk.
    destruct (table_fd l s1 f conn Hs1) as (c & Hc & _); [by rewrite Ee|]. split; [by eexists|]. rewrite Eb.
    eapply (proj2 (Hv f _)); [done]. Unshelve. apply list_elem_of_fmap. exists (f, ev). split; [done|]. by eapply list_elem_of_lookup_2.
Qed.

(** A connection that is accepted gets a new object, and is registered. *)
Lemma accept_ok l f s : server_ok l s -> f ∉ open_fds s ->
  exists s', acceptConnection (Some f) s = Ok s' /\ server_ok l s' /\ tasks s' = tasks s /\ running s' = running s.
Proof.
  intros Hs Hf. assert (epfd s !! f = None) as He by (apply eq_None_not_Some; by rewrite <- (so_open _ _ Hs)).
  assert (f <> l) as Hl by (intros ->; by rewrite (so_epfd _ _ Hs), lookup_insert_eq in He).
  assert (connections s !! f = None) as Hc.
  { rewrite (so_epfd _ _ Hs), lookup_insert_ne, lookup_fmap in He by done. by destruct (connections s !! f). }
  unfold acceptConnection, newConnection, enableReading, updateChannel, Channel_new. cbn [fd inEpoll negb with_kernel epfd connections next heap].
  rewrite He. cbn. eexists. split; [reflexivity|]. split; [|done]. rewrite Hc. pose proof Hs as [H1 H2 H3 H4 H5 H6 H7 H8 H9 H10].
  pose proof (proj1 (H9 (next s) ltac:(lia))) as Hn.
  assert (forall k c, heap s !! k = Some c -> k <> next s) as Hk by (intros k c E ->; congruence). split; try done; cbn.
  - intros g conn. destruct (decide (conn = next s)) as [->|Hne].
    + rewrite lookup_insert_eq. split.
      * intros [[<- _]|[_ E]]%lookup_insert_Some; [by eexists|]. apply H1 in E as (c & E & _). by apply Hk in E.
      * intros (c & [= <-] & <-). by rewrite lookup_insert_eq.
    + rewrite (lookup_insert_ne (heap s)) by done. rewrite <- H1. split.
      * intros [[_ ?]|[_ E]]%lookup_insert_Some; congruence.
      * intros E. rewrite lookup_insert_ne; [done|]. intros <-. congruence.
  - rewrite H2, fmap_insert. by apply insert_insert_ne.
  - by rewrite lookup_insert_ne.
  - intros g. rewrite elem_of_union, elem_of_singleton, lookup_insert_is_Some, H4. destruct (decide (f = g)); intuition congruence.
  - intros k c. intros [[<- <-]|[_ E]]%lookup_insert_Some; [done|by apply H6].
  - intros k g Hin. destruct (H7 k g Hin) as (c & Hc' & <-). exists c. rewrite lookup_insert_ne; [done|]. intros E. by apply (Hk _ _ Hc').
  - intros k Hle. destruct (H9 k ltac:(lia)) as [? ?]. split; [|done]. rewrite lookup_insert_ne by lia. done.
  - intros k. destruct (H10 k) as (rest & E & Hr). exists rest. split; [done|]. intros c [[<- <-]|[_ Ec]]%lookup_insert_Some; [|by apply Hr].
    destruct (H9 (next s) ltac:(lia)) as (_ & Ei & Eo). by rewrite Ei, Eo in E.
Qed.

(** One that is deleted, whose task is the [i]th that runs, leaves nothing behind. *)
Lemma connection_deleted_ok l s i conn f : server_ok l s -> running s !! i = Some (Echo conn f) ->
  server_ok l (with_tasks (tasks s) (delete i (running s)) (deleteConnection f s)).
Proof.
  intros Hs Hi. pose proof Hs as [H1 H2 H3 H4 H5 H6 H7 H8 H9 H10].
  assert (Echo conn f ∈ tasks s ++ running s) as Hin by (rewrite elem_of_app; right; by eapply list_elem_of_lookup_2).
  destruct (H7 conn f Hin) as (c & Hc & Ef). assert (connections s !! f = Some conn) as Ht by (apply H1; eauto).
  assert (f <> l) as Hl by (intros ->; congruence).
  assert (busy s ≡ₚ conn :: omap conn_of (tasks s ++ delete i (running s))) as Hb.
  { pose proof (delete_Permutation (running s) i _ Hi) as Hp. unfold busy. revert Hp. generalize (delete i (running s)) as r. intros r Hp.
    rewrite !omap_app, Hp. cbn. solve_Permutation. }
  assert (conn ∉ omap conn_of (tasks s ++ delete i (running s))) as Hnb.
  { rewrite Hb in H8. by apply NoDup_cons in H8 as [? _]. }
  unfold deleteConnection. rewrite Ht. split; try done; cbn.
  - intros g k. rewrite lookup_delete_Some, H1. split.
    + intros (Hne & c' & Hc' & <-). exists c'. split; [|done]. apply lookup_delete_Some. split; [|done]. intros <-. congruence.
    + intros (c' & [Hne Hc']%lookup_delete_Some & <-). split; [|by eauto]. intros E.
      assert (connections s !! fd (c_channel c') = Some k) as E1 by (apply H1; eauto). rewrite <- E in E1. congruence.
  - rewrite H2, fmap_delete. by apply delete_insert_ne.
  - apply lookup_delete_None. by right.
  - intros g. rewrite elem_of_difference, elem_of_singleton, lookup_delete_is_Some, H4. intuition congruence.
  - intros k c' [_ Hk]%lookup_delete_Some. by apply H6.
  - intros k g Hk. destruct (H7 k g) as (c' & Hc' & <-).
    { rewrite elem_of_app in *. destruct Hk as [Hk|Hk]; [by left | right; by eapply list_subseteq_delete]. }
    exists c'. split; [|done]. apply lookup_delete_Some. split; [|done]. intros <-. apply Hnb. apply list_elem_of_omap. by exists (Echo conn (fd (c_channel c'))).
  - unfold busy. cbn. rewrite Hb in H8. by apply NoDup_cons in H8 as [_ ?].
  - intros k Hk. destruct (H9 k Hk) as [? ?]. split; [|done]. apply lookup_delete_None. by right.
  - intros k. destruct (H10 k) as (rest & E & Hr). exists rest. split; [done|]. intros c' [_ Hk]%lookup_delete_Some. by apply Hr.
Qed.

(** What a task reads or writes is its connection's. *)
Lemma record_ok l s conn c b e : server_ok l s -> heap s !! conn = Some c ->
  (forall k, k <> conn -> inputs k [e] = [] /\ outputs k [e] = []) ->
  readBuffer c ++ inputs conn [e] = outputs conn [e] ++ b ->
  server_ok l (record [e] (with_heap (<[conn := Connection (c_channel c) b]> (heap s)) (next s) (connections s) s)).
Proof.
  intros Hs Hc He Hb. pose proof Hs as [H1 H2 H3 H4 H5 H6 H7 H8 H9 H10]. split; try done;
    cbn [record with_heap heap connections epfd open_fds tasks running history acceptChannel next].
  - intros f k. rewrite H1. destruct (decide (k = conn)) as [->|Hne]; [|by rewrite lookup_insert_ne].
    rewrite lookup_insert_eq, Hc. split; intros (c' & [= <-] & <-); by eexists.
  - intros k c' [[<- <-]|[_ Hk]]%lookup_insert_Some; [exact (H6 _ _ Hc) | by apply H6].
  - intros k f Hk. destruct (H7 k f Hk) as (c' & Hc' & <-). destruct (decide (k = conn)) as [->|Hne]; [|exists c'; by rewrite lookup_insert_ne].
    rewrite lookup_insert_eq. eexists. split; [done|]. by assert (c' = c) as -> by congruence.
  - intros k Hk. destruct (H9 k Hk) as (Hn & Ei & Eo). assert (k <> conn) as Hne by (intros ->; congruence).
    destruct (He k Hne) as [E1 E2]. rewrite lookup_insert_ne, inputs_app, outputs_app, E1, E2, !app_nil_r by done. done.
  - intros k. destruct (H10 k) as (rest & E & Hr). rewrite inputs_app, outputs_app. destruct (decide (k = conn)) as [->|Hne].
    + exists b. rewrite E, (Hr c Hc), <- !app_assoc. split; [by rewrite Hb|]. rewrite lookup_insert_eq. by intros c' [= <-].
    + destruct (He k Hne) as [-> ->]. exists rest. rewrite !app_nil_r. split; [done|]. intros c'. rewrite lookup_insert_ne by done. apply Hr.
Qed.

Lemma delete_beyond {A} (r : list A) i : r !! i = None -> delete i r = r.
Proof. revert i. induction r as [|x r IH]; intros [|i] H; try done. cbn. f_equal. by apply IH. Qed.

Lemma drop_task_ok l s i : server_ok l s -> server_ok l (with_tasks (tasks s) (delete i (running s)) s).
Proof.
  intros Hs. apply tasks_ok; [done| |].
  - destruct (running s !! i) as [t|] eqn:Hi; [|by rewrite delete_beyond by done; apply Hs].
    pose proof (so_busy _ _ Hs) as Hn. pose proof (delete_Permutation (running s) i t Hi) as Hp. unfold busy in Hn. revert Hn Hp.
    generalize (delete i (running s)) as r. intros r. rewrite !omap_app. intros Hn Hp. rewrite Hp in Hn.
    destruct t as [|conn f]; [done|]. cbn in Hn. rewrite <- Permutation_middle in Hn. by apply NoDup_cons in Hn as [_ ?].
  - intros k g Hk. apply (so_tasks _ _ Hs). rewrite elem_of_app in *. destruct Hk as [Hk|Hk]; [by left | right; by eapply list_subseteq_delete].
Qed.

Lemma deleteConnection_tasks f s : tasks (deleteConnection f s) = tasks s /\ running (deleteConnection f s) = running s.
Proof. unfold deleteConnection. by destruct (connections s !! f). Qed.

Lemma inputs_one conn k b : inputs k [In conn b] = if decide (conn = k) then kept b else [].
Proof. apply app_nil_r. Qed.
Lemma outputs_one conn k b : outputs k [Out conn b] = if decide (conn = k) then b else [].
Proof. apply app_nil_r. Qed.

Lemma round_ok l i r wrote s : server_ok l s -> valid (Round i r wrote) s ->
  exists s', step (Round i r wrote) s = Ok s' /\ server_ok l s'.
Proof.
  intros Hs Hv. cbn [step]. destruct (running s !! i) as [[|conn f]|] eqn:Hi; [by exists s| |by exists s].
  assert (Echo conn f ∈ tasks s ++ running s) as Hin by (rewrite elem_of_app; right; by eapply list_elem_of_lookup_2).
  destruct (so_tasks _ _ Hs conn f Hin) as (c & Hc & Ef). unfold echo. rewrite Hc. destruct r as [b| |[]].
  - rewrite !outcome_bind_ok. eexists. split; [reflexivity|]. apply record_ok; [done..| |].
    + intros k Hk. rewrite inputs_one. by rewrite decide_False.
    + rewrite inputs_one, decide_True by done. by rewrite append_app.
  - rewrite !outcome_bind_ok, Ef. eexists. split; [reflexivity|]. destruct (deleteConnection_tasks f s) as [-> ->]. by eapply (connection_deleted_ok l s i conn).
  - eexists. by split.
  - rewrite (Hv conn f c eq_refl Hi Hc), outcome_bind_ok, bool_decide_false by done. change (errif false) with (Ok tt).
    rewrite !outcome_bind_ok. eexists. split; [reflexivity|].
    set (s1 := record _ _). assert (server_ok l s1) as Hs1.
    { apply record_ok; [done..| |].
      - intros k Hk. rewrite outputs_one. by rewrite decide_False.
      - rewrite outputs_one, decide_True by done. cbn [default from_option id]. rewrite take_ge by done. by rewrite !app_nil_r. }
    by apply (drop_task_ok l s1 i).
  - eexists. by split.
Qed.

Lemma epoll_step_ok l a s : server_ok l s -> valid a s -> exists s', step a s = Ok s' /\ server_ok l s'.
Proof.
  intros Hs Hv. destruct a as [ready| |i accepted|i r wrote]; [by apply loop_round_ok| | |by apply round_ok]; cbn [step].
  - destruct (tasks s) as [|t ts] eqn:Et; [by exists s|]. eexists. split; [reflexivity|]. destruct (_ <? _)%nat; [|done].
    apply tasks_ok; [done| |].
    + assert (ts ++ running s ++ [t] ≡ₚ (tasks s ++ running s)) as -> by (rewrite Et; solve_Permutation). apply Hs.
    + intros conn f H. apply (so_tasks _ _ Hs). rewrite Et. revert H. rewrite !elem_of_app, list_elem_of_singleton, elem_of_cons. tauto.
  - destruct (running s !! i) as [[|conn f]|] eqn:Hi; [|by exists s|by exists s]. destruct accepted as [f|]; [|done].
    destruct (accept_ok l f s Hs Hv) as (s1 & -> & Hs1 & Et & Er). rewrite outcome_bind_ok. eexists. split; [reflexivity|].
    by apply drop_task_ok.
Qed.

Lemma epoll_run_ok l acts s : server_ok l s -> valid_run acts s -> exists s', run acts s = Ok s' /\ server_ok l s'.
Proof.
  revert s. induction acts as [|a acts IH]; intros s Hs Hv; cbn [run valid_run] in *; [by exists s|]. destruct Hv as [Ha Hv].
  destruct (epoll_step_ok l a s Hs Ha) as (s1 & E & Hs1). rewrite E in Hv. rewrite E, outcome_bind_ok. by apply IH.
Qed.

Lemma server_new_spec l : Server_new l =
  Ok (Server (Channel l [EPOLLIN; EPOLLET] [] true AcceptConnection) ∅ 0 ∅ (<[l := AcceptChannel]> ∅) {[l]} [] [] []).
Proof. reflexivity. Qed.

Lemma server_new_ok l s : Server_new l = Ok s -> server_ok l s.
Proof.
  rewrite server_new_spec. intros [= <-]. split; cbn [acceptChannel heap next connections epfd open_fds tasks running history app]; try done.
  - intros f conn. rewrite lookup_empty. split; [done|]. intros (c & Hc & _). by rewrite lookup_empty in Hc.
  - intros f. rewrite elem_of_singleton, lookup_insert_is_Some, lookup_empty. split; [by left|]. intros [->|[_ [? ?]]]; done.
  - intros conn f H. by apply not_elem_of_nil in H.
  - constructor.
  - intros conn. by exists [].
Qed.


(** ** Sample runs *)

Definition server_script : list action :=
  [Poll [(3, [EPOLLIN])]; Begin; Accept 0 (Some 7); Poll [(7, [EPOLLIN])]; Begin;
   Round 0 (ReadBytes [104; 105]) None; Round 0 (ReadError EINTR) None; Round 0 (ReadBytes [33; 0; 33]) None; Round 0 (ReadError EAGAIN) (Some 3%nat);
   Poll [(7, [EPOLLIN])]; Begin; Round 0 ReadEof None].

Definition sample_server : outcome server := Server_new 3.
Definition started : server := match sample_server with Ok s => s | Err _ => Server (Channel_new 0 AcceptConnection) ∅ 0 ∅ ∅ ∅ [] [] [] end.

Example server_sample :
  match run server_script started with
  | Ok s => history s = [In 0 [104; 105]; In 0 [33; 0; 33]; Out 0 [104; 105; 33]] /\ connections s = ∅ /\ heap s = ∅ /\
      epfd s = {[3 := AcceptChannel]} /\ open_fds s = {[3]}
  | Err _ => False
  end.
Proof. vm_compute. done. Qed.

Lemma valid_cons a s s' l : step a s = Ok s' -> valid a s -> valid_run l s' -> valid_run (a :: l) s.
Proof. cbn [valid_run]. by intros ->. Qed.

(** Proves that a step of a concrete run is valid. *)
Ltac prove_valid :=
  match goal with
  | |- valid (Poll [_]) _ =>
      split; [by apply NoDup_singleton|]; intros ? ->%list_elem_of_singleton; split; [by eexists|];
      let E := fresh in intros ? E; vm_compute in E |- *; (discriminate E || inversion 1)
  | |- valid (Round _ _ _) _ => intros ? ? ? E Hi Hc; try discriminate E; injection Hi as <- <-; injection Hc as <-; reflexivity
  | |- valid (Accept _ _) _ => by vm_compute
  | |- valid Begin _ => exact I
  end.


(** Two events of a connection are queued when the worker that serves the first reads the end of file.
    The worker that serves the second uses a deleted Connection, once the descriptor is
    another client's; until then its reads fail, and it does not stop. *)
Definition stale_script : list action :=
  [Poll [(3, [EPOLLIN])]; Begin; Accept 0 (Some 7); Poll [(7, [EPOLLIN])]; Poll [(7, [EPOLLIN])]; Begin; Begin; Round 0 ReadEof None].

Lemma stale_task_undefined :
  run (stale_script ++ [Poll [(3, [EPOLLIN])]; Begin; Accept 1 (Some 7); Round 0 (ReadBytes [33]) None]) started = Err UndefinedBehaviour.
Proof. vm_compute. reflexivity. Qed.

Lemma stale_task_spins n : run (stale_script ++ repeat (Round 0 (ReadError EOTHER) None) n) started = run stale_script started.
Proof.
  assert (match run stale_script started with Ok s => step (Round 0 (ReadError EOTHER) None) s = Ok s | Err _ => False end) as Hs by (vm_compute; reflexivity).
  destruct (run stale_script started) as [s|] eqn:E; [|destruct Hs].
  assert (forall l1 l2 s1 s2, run l1 s1 = Ok s2 -> run (l1 ++ l2) s1 = run l2 s2) as Happ.
  { induction l1 as [|a l1 IH]; intros l2 s1 s2 H; cbn [run app] in *; [by injection H as ->|].
    apply outcome_bind_inv in H as (s3 & -> & H). rewrite outcome_bind_ok. by apply IH. }
  rewrite (Happ _ _ _ _ E). clear E. induction n as [|n IH]; [done|]. cbn [repeat run]. by rewrite Hs, outcome_bind_ok.
Qed.

(** accept that finds no client, or no free descriptor, ends the server. *)
Lemma failed_accept_exits : run [Poll [(3, [EPOLLIN])]; Begin; Accept 0 None] started = Err AssertionFailure.
Proof. vm_compute. reflexivity. Qed.
