(* ===== verification/Convert.v ===== *)
(** * Numbers as text, the time of compilation, lists of files

    Models the remaining functions of DarkEden_Example/src/Shared/Util.cpp and Common.h
    that have logic of their own: the conversions between integers and text, the absolute
    values by bit operations, reverse_array, GetProgramCompileTime1, GetFileSize and
    GetDirectoryFiles.  Text is the list of its bytes, as in StrUtil.v. *)

From Stdlib Require Import Ascii String.
From stdpp Require Import base tactics option list numbers.
From Stdlib Require Import ZArith Lia Bool.
From S2P Require Import Prelude StrUtil TimeUtil.

#[local] Open Scope Z_scope.

(** ** Integers *)

(** The time constants in milliseconds. *)
Definition MSTIME_500MS : Z := 500.
Definition MSTIME_SECOND : Z := 1000.
Definition MSTIME_5SECONDS : Z := MSTIME_SECOND * 5.
Definition MSTIME_6SECONDS : Z := MSTIME_SECOND * 6.
Definition MSTIME_10SECONDS : Z := MSTIME_SECOND * 10.
Definition MSTIME_15SECONDS : Z := MSTIME_SECOND * 15.
Definition MSTIME_30SECONDS : Z := MSTIME_SECOND * 30.
Definition MSTIME_MINUTE : Z := MSTIME_SECOND * 60.
Definition MSTIME_5MINUTES : Z := MSTIME_MINUTE * 5.
Definition MSTIME_10MINUTES : Z := MSTIME_MINUTE * 10.
Definition MSTIME_HOUR : Z := MSTIME_MINUTE * 60.
Definition MSTIME_2HOUR : Z := MSTIME_HOUR * 2.
Definition MSTIME_DAY : Z := MSTIME_HOUR * 24.

(** The subtraction of int32abs is one of ints, that of int32abs2uint32 one of uint32. *)
Definition int32abs (value : Z) : outcome Z := int_of (Z.lxor value (Z.shiftr value 31) - Z.shiftr value 31).
Definition int32abs2uint32 (value : Z) : Z := u32 (u32 (Z.lxor value (Z.shiftr value 31)) - u32 (Z.shiftr value 31)).

(** [now]: the milliseconds of gettimeofday, in 32 bits. *)
Definition now (tv_sec tv_usec : Z) : Z := u32 (tv_sec * 1000 + tv_usec / 1000).

(** [reverse_array]: [temp] is a copy; [allocated]: whether malloc succeeds. *)
Fixpoint reverse_loop (x n : nat) (temp pointer : bytes) (count : Z) : outcome bytes :=
  match n with
  | O => Ok pointer
  | S n' =>
      let* b := array_at temp (count - Z.of_nat x - 1) in
      let* pointer := array_set pointer (Z.of_nat x) b in
      reverse_loop (S x) n' temp pointer count
  end.

Definition reverse_array (allocated : bool) (pointer : bytes) (count : Z) : outcome bytes :=
  let* temp := mread pointer 0 count in
  let* _ := guard_defined (allocated || (count =? 0)) in
  reverse_loop 0 (Z.to_nat count) temp pointer count.

(** ** Integers as text *)

(** snprintf into a buffer of [size] bytes. *)
Definition printed (size : nat) (s : bytes) : bytes := take (size - 1) s.

Definition int32tostr (val : Z) : bytes := printed 32 (fmt_d 0 val).
Definition uint32tostr (val : Z) : bytes := printed 32 (udec val).
Definition int64tostr (val : Z) : bytes := printed 64 (fmt_d 0 val).
Definition uint64tostr (val : Z) : bytes := printed 64 (udec val).

(** The text that vsnprintf makes of the arguments; one of them throws it. *)
Definition FormatString (text : bytes) : bytes := until_nul (printed 8192 text).
Definition RaiseException (text : bytes) : outcome unit := let _ := until_nul (printed 4096 text) in Err Thrown.

(** On texts of decimal digits with an optional sign. *)
Definition unsigned_part (val : bytes) : bytes :=
  match val with c :: ds => if (c =? 45) || (c =? 43) then ds else val | [] => [] end.
Definition isNum_signed (val : bytes) : bool := isNum (unsigned_part val).

(** atoi and sscanf leave a value out of range undefined. *)
Definition atoi (val : bytes) : outcome Z :=
  let* vs := sscanf in_int [ScanInt] val in Ok (hd 0 vs).
Definition strtoint32 (val : bytes) : outcome Z := if isNum_signed val then atoi val else Ok 0.

Definition in_uint64 (z : Z) : bool := (- 2 ^ 64 <? z) && (z <? 2 ^ 64).
Definition strtouint64 (val : bytes) : outcome Z :=
  if isNum_signed val then let* vs := sscanf in_uint64 [ScanInt] val in Ok (u64 (hd 0 vs)) else Ok 0.

(** ** The calendar: the functions that call others *)

Section Calendar.
Context (localtime : Z -> tm).

Definition GetNowDate365_at (t : Z) : Z := u16 (tm_yday (localtime (t - 5 * 60 * 60)) + 1).

(** strftime of ["%Y-%m-%d %H:%M:%S"]. *)
Definition TimeConvertString (t : Z) : bytes :=
  let m := localtime t in
  fmt_d 4 (tm_year m + 1900) ++ [45] ++ fmt_d 2 (tm_mon m + 1) ++ [45] ++ fmt_d 2 (tm_mday m) ++
  [32] ++ fmt_d 2 (tm_hour m) ++ [58] ++ fmt_d 2 (tm_min m) ++ [58] ++ fmt_d 2 (tm_sec m).
End Calendar.

(** What sscanf reads of "h:m:s-h:m:s"; the seconds are not returned. *)
Definition GetTimByStr (atimestr : bytes) : outcome (list Z) :=
  let* vs := sscanf in_uint [ScanInt; ScanLit 58; ScanInt; ScanLit 58; ScanInt; ScanLit 45; ScanInt; ScanLit 58; ScanInt; ScanLit 58; ScanInt]
    (until_nul atimestr) in
  Ok (map u32 vs).

(** ** The time of compilation *)

Record SYSTEMTIME := SystemTime
  { wYear : Z; wMonth : Z; wDayOfWeek : Z; wDay : Z; wHour : Z; wMinute : Z; wSecond : Z; wMilliseconds : Z }.

(** A character of the zeroed array of 20. *)
Definition char_at (s : bytes) (i : nat) : Z := nth i s 0.

Definition month_of (szDate : bytes) : Z :=
  let c := char_at szDate in
  if c 0%nat =? 65 then (if c 1%nat =? 112 then 4 else 8)
  else if c 0%nat =? 68 then 12
  else if c 0%nat =? 70 then 2
  else if c 0%nat =? 74 then (if c 1%nat =? 97 then 1 else if c 2%nat =? 110 then 6 else 7)
  else if c 0%nat =? 77 then (if c 2%nat =? 114 then 3 else 5)
  else if c 0%nat =? 78 then 11
  else if c 0%nat =? 79 then 10
  else if c 0%nat =? 83 then 9
  else 0.

Definition GetProgramCompileTime1 (date time : bytes) : SYSTEMTIME :=
  let d := char_at date in
  let t := char_at time in
  let wDay := u16 (d 5%nat - 48) in
  let wDay := if negb (d 4%nat =? 32) then u16 (wDay + (d 4%nat - 48) * 10) else wDay in
  SystemTime (u16 (strtoul (drop 7 date))) (month_of date) 0 wDay
    (u16 ((t 0%nat - 48) * 10 + (t 1%nat - 48))) (u16 ((t 3%nat - 48) * 10 + (t 4%nat - 48))) (u16 ((t 6%nat - 48) * 10 + (t 7%nat - 48))) 0.

Definition CompileTime (date time : bytes) : bytes :=
  let st := GetProgramCompileTime1 date time in
  udec (wYear st) ++ [47] ++ udec (wMonth st) ++ [47] ++ udec (wDay st) ++ [32] ++
  udec (wHour st) ++ [58] ++ udec (wMinute st) ++ [58] ++ udec (wSecond st) ++ lit " ms:" ++ udec (wMilliseconds st) ++ [32].

(** ** Files *)

(** [GetFileSize]: what it returns and where it leaves the position, with a 32-bit long. *)
Definition GetFileSize (size position : Z) : Z * Z :=
  let curpos := i32 position in
  let length := i32 size in
  (length, if 0 <=? curpos then curpos else size).

(** What _findfirst and _findnext list: files, directories, and the two that every
    directory lists. *)
Inductive entry := EFile (name : bytes) | EDir (name : bytes) (listing : list entry) | ESelf | EParent.

Definition slash_default : bytes := [47].

(** The recursion passes [slash] no further: below the first level it is the default. *)
Fixpoint visit (path slash : bytes) (files : list bytes) (e : entry) : list bytes :=
  match e with
  | EFile name => files ++ [(path ++ slash) ++ name]
  | EDir name listing => fold_left (visit ((path ++ slash) ++ name) slash_default) listing files
  | ESelf | EParent => files
  end.

Definition GetDirectoryFiles (path : bytes) (listing : list entry) (files : list bytes) (slash : bytes) : list bytes :=
  fold_left (visit path slash) listing files.

(** ** Theorems: integers *)

Lemma shiftr_sign v : - 2 ^ 31 <= v < 2 ^ 31 -> Z.shiftr v 31 = if v <? 0 then -1 else 0.
Proof.
  intros H. rewrite Z.shiftr_div_pow2 by lia. destruct (Z.ltb_spec v 0).
  - symmetry. apply (Z.div_unique_pos v _ (-1) (v + 2 ^ 31)); lia.
  - apply Z.div_small. lia.
Qed.

Lemma lxor_sign v : - 2 ^ 31 <= v < 2 ^ 31 -> Z.lxor v (Z.shiftr v 31) = if v <? 0 then - v - 1 else v.
Proof.
  intros H. rewrite shiftr_sign by done. destruct (v <? 0); [|apply Z.lxor_0_r].
  rewrite Z.lxor_m1_r. unfold Z.lnot. lia.
Qed.

(** int32abs is the absolute value, except of the least int, where it overflows. *)
Lemma int32abs_spec v : - 2 ^ 31 <= v < 2 ^ 31 -> int32abs v = if v =? - 2 ^ 31 then Err UndefinedBehaviour else Ok (Z.abs v).
Proof.
  intros H. unfold int32abs. rewrite lxor_sign, shiftr_sign by done. destruct (Z.eqb_spec v (- 2 ^ 31)) as [->|Hn]; [reflexivity|].
  destruct (Z.ltb_spec v 0); rewrite int_of_ok by lia; f_equal; lia.
Qed.

Lemma int32abs2uint32_spec v : - 2 ^ 31 <= v < 2 ^ 31 -> int32abs2uint32 v = Z.abs v.
Proof.
  intros H. unfold int32abs2uint32. rewrite lxor_sign, shiftr_sign by done. destruct (Z.ltb_spec v 0).
  - rewrite (u32_small (- v - 1)) by lia. change (u32 (-1)) with 4294967295. unfold wrap.
    symmetry. apply (Z.mod_unique_pos _ _ (-1)); lia.
  - rewrite (u32_small v) by lia. change (u32 0) with 0. rewrite Z.sub_0_r, u32_small; lia.
Qed.

Lemma reverse_loop_spec temp count n x done_ rest :
  zlen temp = count -> count = Z.of_nat (x + n) -> length done_ = x -> length rest = n ->
  reverse_loop x n temp (done_ ++ rest) count = Ok (done_ ++ take n (drop x (rev temp))).
Proof.
  intros Ht. revert x done_ rest. induction n as [|n IH]; intros x dn rest Hc Hx Hn; cbn [reverse_loop].
  - destruct rest; [|done]. by rewrite !app_nil_r.
  - destruct rest as [|r rest]; [done|]. injection Hn as Hn.
    destruct (lookup_lt_is_Some_2 temp (length temp - S x)) as [b Hb]; [lia|].
    rewrite (array_at_lookup temp _ b) by (try lia; rewrite <- Hb; f_equal; lia). rewrite outcome_bind_ok.
    rewrite array_set_insert by (rewrite length_app; simpl; lia). rewrite outcome_bind_ok, Nat2Z.id, <- Hx.
    rewrite insert_app_r_alt, Nat.sub_diag by lia. cbn [insert list_insert]. rewrite (cons_middle b dn), app_assoc.
    rewrite (IH (S (length dn)) (dn ++ [b]) rest); [|lia|rewrite length_app; simpl; lia|done].
    assert (rev temp !! length dn = Some b) as Hr.
    { rewrite rev_alt. change (rev_append temp []) with (reverse temp). rewrite reverse_lookup by lia. by rewrite Hx. }
    rewrite (drop_S _ _ _ Hr). cbn [take]. by rewrite <- app_assoc.
Qed.

Lemma reverse_array_spec pointer : reverse_array true pointer (zlen pointer) = Ok (rev pointer).
Proof.
  unfold reverse_array. rewrite mread_ok, outcome_bind_ok by lia. cbn [orb]. rewrite guard_defined_true, outcome_bind_ok by done.
  unfold slice. rewrite Nat2Z.id, drop_0, take_ge by lia.
  pose proof (reverse_loop_spec pointer (zlen pointer) (length pointer) 0 [] pointer) as H. cbn [app] in H. rewrite H by done. rewrite drop_0, take_ge; [done|]. by rewrite length_rev.
Qed.

(** ** Theorems: text *)

Lemma length_udec n : 0 <= n < 2 ^ 64 -> (length (udec n) <= 20)%nat.
Proof. intros H. pose proof (dec_loop_length 20 20 n [] ltac:(lia) ltac:(lia)). simpl (length []) in *. unfold udec. lia. Qed.

Lemma zpad_0 s : zpad 0 s = s.
Proof. done. Qed.

(** The text of an integer is read back. *)
Lemma strtoint32_int32tostr v : - 2 ^ 31 <= v < 2 ^ 31 -> strtoint32 (int32tostr v) = Ok v.
Proof.
  intros Hv. unfold int32tostr, printed, fmt_d. pose proof (length_udec (Z.abs v) ltac:(lia)) as Hl.
  pose proof (udec_numeral (Z.abs v) ltac:(lia)) as Hn. pose proof (numeral_value _ _ Hn) as Hval. destruct Hn as (Hne & Hd & _).
  unfold strtoint32, atoi.
  destruct (Z.ltb_spec v 0).
  - rewrite zpad_0. replace (- v) with (Z.abs v) by lia. rewrite take_ge by (simpl; lia). unfold isNum_signed. cbn [unsigned_part Z.eqb Pos.eqb orb].
    assert (isNum (udec (Z.abs v)) = true) as ->.
    { unfold isNum. rewrite Hval. destruct (udec (Z.abs v)); [done|]. apply Z.ltb_lt. apply (Z.lt_trans _ (2 ^ 32)); [lia | by vm_compute]. }
    cbn [sscanf]. unfold scan_int. cbn [skip_spaces is_space]. change (is_space 45) with false. cbn [Z.eqb Pos.eqb].
    destruct (digits_prefix_app (udec (Z.abs v)) [] Hd I) as [E1 E2]. rewrite app_nil_r in E1, E2. unfold scan_digits. rewrite E1, E2. clear E1 E2.
    destruct (udec (Z.abs v)); [done|]. rewrite Hval, guard_defined_true by (unfold in_int; lia). cbn. f_equal. lia.
  - rewrite zpad_0. assert (Z.abs v = v) as Ev by lia. rewrite Ev in *. rewrite take_ge by lia. unfold isNum_signed, unsigned_part.
    destruct (udec v) as [|c ds] eqn:E; [done|]. pose proof (Forall_inv Hd) as Hc. unfold is_digit in Hc.
    assert ((c =? 45) || (c =? 43) = false) as -> by lia.
    assert (isNum (c :: ds) = true) as ->.
    { unfold isNum. rewrite Hval. apply Z.ltb_lt. apply (Z.lt_trans _ (2 ^ 32)); [lia | by vm_compute]. }
    rewrite <- (app_nil_r (c :: ds)), <- E. rewrite (sscanf_int in_int [] (udec v) v []); [done | apply udec_numeral; lia | done | unfold in_int; lia].
Qed.

Lemma strtouint64_uint64tostr v : 0 <= v < 2 ^ 64 -> strtouint64 (uint64tostr v) = Ok v.
Proof.
  intros Hv. unfold uint64tostr, printed. pose proof (length_udec v Hv) as Hl. pose proof (udec_numeral v Hv) as Hn.
  pose proof (numeral_value _ _ Hn) as Hval. rewrite take_ge by lia. unfold strtouint64, isNum_signed, unsigned_part.
  destruct (udec v) as [|c ds] eqn:E; [by destruct Hn|]. pose proof (Forall_inv (proj1 (proj2 Hn))) as Hc. unfold is_digit in Hc. cbv beta in Hc.
  assert ((c =? 45) || (c =? 43) = false) as -> by lia.
  assert (isNum (c :: ds) = true) as ->.
  { unfold isNum. rewrite Hval. apply Z.ltb_lt. apply (Z.lt_trans _ (2 ^ 65)); [lia | by vm_compute]. }
  rewrite <- (app_nil_r (c :: ds)). rewrite (sscanf_int in_uint64 [] (c :: ds) v []); [|done | done | unfold in_uint64; lia].
  cbn. f_equal. by apply (wrap_small 64).
Qed.

(** ** Theorems: the time of compilation *)

Definition month_names : list string :=
  ["Jan"; "Feb"; "Mar"; "Apr"; "May"; "Jun"; "Jul"; "Aug"; "Sep"; "Oct"; "Nov"; "Dec"]%string.

(** What __DATE__ and __TIME__ are. *)
Definition DATE (mon day year : Z) : bytes :=
  lit (nth (Z.to_nat mon) month_names ""%string) ++ [32] ++ spad 2 (udec day) ++ [32] ++ udec year.
Definition TIME (hour minute second : Z) : bytes := fmt_d 2 hour ++ [58] ++ fmt_d 2 minute ++ [58] ++ fmt_d 2 second.

Lemma udec_two n : 0 <= n < 100 -> udec n = if n <? 10 then [48 + n] else [48 + n / 10; 48 + n mod 10].
Proof.
  intros H. unfold udec. cbn [dec_loop]. destruct (Z.ltb_spec n 10); [by rewrite Z.mod_small by lia|].
  assert (n / 10 < 10) by (apply Z.div_lt_upper_bound; lia). assert (0 <= n / 10) by (apply Z.div_pos; lia).
  rewrite (proj2 (Z.ltb_lt (n / 10) 10)) by lia. by rewrite (Z.mod_small (n / 10)) by lia.
Qed.

Lemma fmt_d_two n : 0 <= n < 100 -> fmt_d 2 n = [48 + n / 10; 48 + n mod 10].
Proof.
  intros H. unfold fmt_d. rewrite (proj2 (Z.ltb_ge n 0)) by lia. rewrite udec_two by done. destruct (Z.ltb_spec n 10); [|done].
  rewrite Z.div_small, Z.mod_small by lia. done.
Qed.

Lemma two_digits n : 0 <= n < 100 -> u16 ((48 + n / 10 - 48) * 10 + (48 + n mod 10 - 48)) = n.
Proof. intros H. pose proof (Z.div_mod n 10). rewrite wrap_small; lia. Qed.

Lemma spad_day d : 1 <= d <= 31 -> exists a b, spad 2 (udec d) = [a; b] /\
  (if negb (a =? 32) then u16 (u16 (b - 48) + (a - 48) * 10) else u16 (b - 48)) = d.
Proof.
  intros H. unfold spad. rewrite udec_two by lia. destruct (Z.ltb_spec d 10); cbn [length Nat.sub repeat app].
  - exists 32, (48 + d). split; [done|]. cbn [Z.eqb Pos.eqb negb]. rewrite wrap_small; lia.
  - exists (48 + d / 10), (48 + d mod 10). split; [done|]. pose proof (Z.div_mod d 10). pose proof (Z.mod_pos_bound d 10).
    rewrite (proj2 (Z.eqb_neq (48 + d / 10) 32)) by lia. cbn [negb]. rewrite (wrap_small 16 (48 + d mod 10 - 48)) by lia. rewrite wrap_small; lia.
Qed.

(** The date and time that the compiler gives are read back. *)
Theorem GetProgramCompileTime1_spec mon day year hour minute second :
  0 <= mon < 12 -> 1 <= day <= 31 -> 0 <= year < 65536 -> 0 <= hour < 24 -> 0 <= minute < 60 -> 0 <= second < 61 ->
  GetProgramCompileTime1 (DATE mon day year) (TIME hour minute second) = SystemTime year (mon + 1) 0 day hour minute second 0.
Proof.
  intros Hm Hd Hy Hh Hi Hs. unfold TIME. rewrite !fmt_d_two by lia. destruct (spad_day day Hd) as (a & b & Eab & Ed).
  assert (exists m1 m2 m3, lit (nth (Z.to_nat mon) month_names ""%string) = [m1; m2; m3] /\
    forall rest, month_of (m1 :: m2 :: m3 :: rest) = mon + 1) as (m1 & m2 & m3 & Em & Emo).
  { assert (exists k, (k < 12)%nat /\ mon = Z.of_nat k) as (k & Hk & ->) by (exists (Z.to_nat mon); lia). rewrite Nat2Z.id.
    do 12 (destruct k as [|k]; [by do 3 eexists|]). lia. }
  unfold DATE. rewrite Em, Eab. cbn [app]. unfold GetProgramCompileTime1, char_at. cbn [nth app drop]. rewrite Emo, Ed, !two_digits by lia.
  rewrite (strtoul_numeral _ year) by (apply udec_numeral || (change ulong_max with 4294967295); lia). by rewrite wrap_small by lia.
Qed.

(** ** Theorems: files *)

(** GetFileSize returns the size of a file below 2 GiB, and leaves its position. *)
Lemma GetFileSize_spec size position : 0 <= position <= size -> size < 2 ^ 31 -> GetFileSize size position = (size, position).
Proof. intros Hp Hs. unfold GetFileSize. rewrite !i32_small by lia. by rewrite (proj2 (Z.leb_le 0 position)) by lia. Qed.

(** The names on the way to a file. *)
Inductive file_at : list entry -> list bytes -> Prop :=
| file_here listing name : EFile name ∈ listing -> file_at listing [name]
| file_below listing name sub names : EDir name sub ∈ listing -> file_at sub names -> file_at listing (name :: names).

Fixpoint joined (names : list bytes) : bytes :=
  match names with [] => [] | [name] => name | name :: names' => name ++ slash_default ++ joined names' end.

Fixpoint entry_size (e : entry) : nat := match e with EDir _ listing => S (list_sum (map entry_size listing)) | _ => 1 end.

Lemma entry_size_in e listing : e ∈ listing -> (entry_size e <= list_sum (map entry_size listing))%nat.
Proof. induction 1; simpl; lia. Qed.

Lemma file_at_nonempty listing names : file_at listing names -> names <> [].
Proof. by destruct 1. Qed.

Lemma file_at_nil names : ~ file_at [] names.
Proof. inversion 1 as [? ? Hin|? ? ? ? Hin]; by apply not_elem_of_nil in Hin. Qed.

Lemma file_at_cons e listing names : file_at (e :: listing) names <->
  match e with EFile name => names = [name] | EDir name sub => exists names', names = name :: names' /\ file_at sub names' | _ => False end \/
  file_at listing names.
Proof.
  split.
  - inversion 1 as [? ? Hin|? ? sub names' Hin Hsub]; subst; apply elem_of_cons in Hin as [<-|Hin]; eauto using file_at.
  - intros [H|H].
    + destruct e; try done; [subst; constructor; left | destruct H as (names' & -> & H); eapply file_below; [left|done]].
    + inversion H; subst; econstructor; try done; by right.
Qed.

(** It adds the path of every file below the directory, and nothing else. *)
Theorem GetDirectoryFiles_spec path listing files slash p :
  p ∈ GetDirectoryFiles path listing files slash <-> p ∈ files \/ exists names, file_at listing names /\ p = path ++ slash ++ joined names.
Proof.
  unfold GetDirectoryFiles. remember (list_sum (map entry_size listing)) as n eqn:En. revert path listing files slash En.
  induction (lt_wf n) as [n _ IH]. intros path listing. induction listing as [|e listing IHl]; intros files slash En; cbn [fold_left].
  - split; [by left|]. intros [H|(names & H & _)]; [done|]. by apply file_at_nil in H.
  - assert (forall files', p ∈ fold_left (visit path slash) listing files' <->
      p ∈ files' \/ exists names, file_at listing names /\ p = path ++ slash ++ joined names) as ->.
    { intros files'. assert (list_sum (map entry_size listing) = n \/ (list_sum (map entry_size listing) < n)%nat) as [E|E] by (simpl in En; lia).
      - by apply IHl.
      - by apply (IH _ E). }
    setoid_rewrite file_at_cons. destruct e as [name|name sub| |]; cbn [visit]; [| |naive_solver|naive_solver].
    + rewrite elem_of_app, list_elem_of_singleton, <- app_assoc. split.
      * intros [[H| ->]|(names & H & ->)]; [by left | right; exists [name]; auto | right; eauto].
      * intros [H|(names & [->|H] & ->)]; [by left; left | by left; right | right; eauto].
    + assert (list_sum (map entry_size sub) < n)%nat as Hlt by (simpl in En; lia).
      rewrite (IH _ Hlt _ sub files slash_default eq_refl).
      assert (forall names', file_at sub names' -> ((path ++ slash) ++ name) ++ slash_default ++ joined names' = path ++ slash ++ joined (name :: names')) as Hj.
      { intros names' H. apply file_at_nonempty in H. destruct names'; [done|]. cbn [joined]. by rewrite <- !app_assoc. }
      split.
      * intros [[H|(names & H & ->)]|(names & H & ->)]; [by left | right; exists (name :: names); rewrite Hj by done; eauto | right; eauto].
      * intros [H|(names & [(names' & -> & H)|H] & ->)]; [by left; left | left; right; exists names'; rewrite Hj by done; auto | right; eauto].
Qed.
