(* ===== verification/Parallel.v ===== *)
(** * Parallel algorithms

    Two algorithms of conc-in-action: the quicksorts of 4-sync/using_sync_op_example.h,
    on lists and on vectors, sequential and with [std::async] (Module QuickSort), and
    [parallel_accumulate] of 2-managing-threads/parallel_accumulate.h (Module
    Accumulate).  [std::partition] puts the elements it is asked for first, in an order
    that is not specified: it is a parameter with that law.  The threads of
    [parallel_accumulate] write to different elements; the order in which they do is an
    argument. *)

From Stdlib Require Import ZArith Lia Bool.
From stdpp Require Import base tactics option list sorting numbers.
From S2P Require Import Prelude.

#[local] Open Scope Z_scope.

(** ** using_sync_op_example.h *)

Module QuickSort.

Section Sort.
Context {T : Type} (lt : T -> T -> bool) (partition : (T -> bool) -> list T -> list T * nat).

(** [std::async( f, arg ).get()]: [f] has its own copy of [arg] and shares nothing, so
    it does not matter in which thread and when it runs. *)
Definition async {A B} (f : A -> outcome B) (arg : A) : outcome B := f arg.

(** On lists: what is below the pivot is spliced out up to the divide point. *)
Fixpoint sequential_quick_sort (fuel : nat) (input : list T) : outcome (list T) :=
  match fuel with
  | O => Err OutOfFuel
  | S fuel' =>
      match input with
      | [] => Ok input
      | pivot :: input =>
          let '(input, divide_point) := partition (fun t => lt t pivot) input in
          let lower_part := take divide_point input in
          let input := drop divide_point input in
          let* new_lower := sequential_quick_sort fuel' lower_part in
          let* new_higher := sequential_quick_sort fuel' input in
          Ok (new_lower ++ [pivot] ++ new_higher)
      end
  end.

Fixpoint parallel_quick_sort (fuel : nat) (input : list T) : outcome (list T) :=
  match fuel with
  | O => Err OutOfFuel
  | S fuel' =>
      match input with
      | [] => Ok input
      | pivot :: input =>
          let '(input, divide_point) := partition (fun t => lt t pivot) input in
          let lower_part := take divide_point input in
          let input := drop divide_point input in
          let new_lower := async (parallel_quick_sort fuel') lower_part in
          let* new_higher := parallel_quick_sort fuel' input in
          let* new_lower := new_lower in
          Ok (new_lower ++ [pivot] ++ new_higher)
      end
  end.

(** On vectors: the divide point is not used; what is below the pivot is moved out one
    by one. *)
Fixpoint erase_lower (pivot : T) (input : list T) : list T * list T :=
  match input with
  | [] => ([], [])
  | x :: input' =>
      let '(lower_part, rest) := erase_lower pivot input' in
      if lt x pivot then (x :: lower_part, rest) else (lower_part, x :: rest)
  end.

Fixpoint vector_quick_sort (fuel : nat) (input : list T) : outcome (list T) :=
  match fuel with
  | O => Err OutOfFuel
  | S fuel' =>
      match input with
      | [] => Ok input
      | pivot :: input =>
          let '(input, _) := partition (fun t => lt t pivot) input in
          let '(lower_part, input) := erase_lower pivot input in
          let* new_lower := vector_quick_sort fuel' lower_part in
          let* new_higher := vector_quick_sort fuel' input in
          Ok (new_lower ++ [pivot] ++ new_higher)
      end
  end.

Fixpoint vparallel_quick_sort (fuel : nat) (input : list T) : outcome (list T) :=
  match fuel with
  | O => Err OutOfFuel
  | S fuel' =>
      match input with
      | [] => Ok input
      | pivot :: input =>
          let '(input, _) := partition (fun t => lt t pivot) input in
          let '(lower_part, input) := erase_lower pivot input in
          let new_lower := async (vparallel_quick_sort fuel') lower_part in
          let* new_higher := vparallel_quick_sort fuel' input in
          let* res := new_lower in
          Ok (res ++ [pivot] ++ new_higher)
      end
  end.

(** What the standard says of [std::partition]. *)
Definition partition_law : Prop := forall p l, let '(l', n) := partition p l in
  l' ≡ₚ l /\ Forall (fun x => p x = true) (take n l') /\ Forall (fun x => p x = false) (drop n l').

(** No element is less than one before it. *)
Definition in_order (x y : T) : Prop := lt y x = false.

Definition sorts (sort : nat -> list T -> outcome (list T)) : Prop := forall fuel input, (length input < fuel)%nat ->
  exists result, sort fuel input = Ok result /\ result ≡ₚ input /\ StronglySorted in_order result.

Hypothesis lt_irreflexive : forall x, lt x x = false.
Hypothesis lt_transitive : forall x y z, lt x y = true -> lt y z = true -> lt x z = true.

Lemma sorted_join low pivot high : StronglySorted in_order low -> StronglySorted in_order high ->
  Forall (fun x => lt x pivot = true) low -> Forall (fun x => lt x pivot = false) high ->
  StronglySorted in_order (low ++ [pivot] ++ high).
Proof.
  intros Hl Hh Fl Fh. assert (StronglySorted in_order ([pivot] ++ high)) as Hp by (by constructor).
  induction Hl as [|x low Hl IH Hx]; [exact Hp|]. apply list.Forall_cons in Fl as [Fx Fl]. cbn [app].
  constructor; [by apply IH|]. apply Forall_app_2; [exact Hx|]. unfold in_order. constructor.
  - destruct (lt pivot x) eqn:E; [|done]. rewrite <- (lt_irreflexive x). symmetry. by eapply lt_transitive.
  - eapply list.Forall_impl; [exact Fh|]. cbn beta. intros y Hy. destruct (lt y x) eqn:E; [|done].
    rewrite <- Hy. symmetry. by eapply lt_transitive.
Qed.

(** A way to split the rest into what is below the pivot and what is not. *)
Definition splits (split : T -> list T -> list T * list T) : Prop := forall pivot l, let '(low, high) := split pivot l in
  low ++ high ≡ₚ l /\ Forall (fun x => lt x pivot = true) low /\ Forall (fun x => lt x pivot = false) high.

(** A sort that splits so and sorts the parts. *)
Lemma sorts_intro split sort : splits split ->
  (forall fuel, sort (S fuel) [] = Ok []) ->
  (forall fuel pivot l low high rl rh, split pivot l = (low, high) -> sort fuel low = Ok rl -> sort fuel high = Ok rh ->
     sort (S fuel) (pivot :: l) = Ok (rl ++ [pivot] ++ rh)) ->
  sorts sort.
Proof.
  intros Hsplit Hnil Hcons fuel. induction fuel as [|fuel IH]; intros input Hf; [lia|].
  destruct input as [|pivot l]; [exists []; split; [apply Hnil | split; [done | constructor]]|].
  pose proof (Hsplit pivot l) as H. destruct (split pivot l) as [low high] eqn:E. destruct H as (Hp & Hl & Hh).
  pose proof (Permutation_length Hp) as Hlen. rewrite length_app in Hlen. cbn [length] in Hf.
  destruct (IH low ltac:(lia)) as (rl & El & Pl & Sl). destruct (IH high ltac:(lia)) as (rh & Eh & Ph & Sh).
  exists (rl ++ [pivot] ++ rh). split; [by eapply Hcons|]. split.
  - rewrite Pl, Ph. cbn [app]. by rewrite <- Permutation_middle, Hp.
  - apply sorted_join; [done | done | by rewrite Pl | by rewrite Ph].
Qed.

Lemma erase_lower_splits : splits erase_lower.
Proof.
  intros pivot l. induction l as [|x l IH]; [by repeat constructor|]. cbn [erase_lower].
  destruct (erase_lower pivot l) as [low high]. destruct IH as (Hp & Hl & Hh). destruct (lt x pivot) eqn:E.
  - split; [cbn [app]; by rewrite Hp|]. by split; [constructor|].
  - split; [by rewrite <- Permutation_middle, Hp|]. by split; [|constructor].
Qed.

Hypothesis partition_ok : partition_law.

Definition divide (pivot : T) (l : list T) : list T * list T :=
  let '(l', n) := partition (fun t => lt t pivot) l in (take n l', drop n l').

Lemma divide_splits : splits divide.
Proof.
  intros pivot l. unfold divide. pose proof (partition_ok (fun t => lt t pivot) l) as H.
  destruct (partition _ l) as [l' n]. destruct H as (Hp & Hl & Hh). by rewrite take_drop.
Qed.

Definition erase_partitioned (pivot : T) (l : list T) : list T * list T :=
  erase_lower pivot (fst (partition (fun t => lt t pivot) l)).

Lemma erase_partitioned_splits : splits erase_partitioned.
Proof.
  intros pivot l. unfold erase_partitioned. pose proof (partition_ok (fun t => lt t pivot) l) as H.
  destruct (partition _ l) as [l' n]. cbn [fst]. destruct H as (Hp & _ & _).
  pose proof (erase_lower_splits pivot l') as H. destruct (erase_lower pivot l') as [low high].
  destruct H as (H1 & H2 & H3). by rewrite <- Hp.
Qed.

Lemma all_sort : sorts sequential_quick_sort /\ sorts parallel_quick_sort /\ sorts vector_quick_sort /\ sorts vparallel_quick_sort.
Proof.
  split_and!.
  - apply (sorts_intro divide); [apply divide_splits | done|]. intros fuel pivot l low high rl rh E El Eh. revert E.
    cbn [sequential_quick_sort]. unfold divide. destruct (partition _ l) as [l' n]. intros [= -> ->]. by rewrite El, outcome_bind_ok, Eh.
  - apply (sorts_intro divide); [apply divide_splits | done|]. intros fuel pivot l low high rl rh E El Eh. revert E.
    cbn [parallel_quick_sort]. unfold divide, async. destruct (partition _ l) as [l' n]. intros [= -> ->]. by rewrite Eh, outcome_bind_ok, El.
  - apply (sorts_intro erase_partitioned); [apply erase_partitioned_splits | done|]. intros fuel pivot l low high rl rh E El Eh. revert E.
    cbn [vector_quick_sort]. unfold erase_partitioned. destruct (partition _ l) as [l' n]. cbn [fst]. intros ->. by rewrite El, outcome_bind_ok, Eh.
  - apply (sorts_intro erase_partitioned); [apply erase_partitioned_splits | done|]. intros fuel pivot l low high rl rh E El Eh. revert E.
    cbn [vparallel_quick_sort]. unfold erase_partitioned, async. destruct (partition _ l) as [l' n]. cbn [fst]. intros ->. by rewrite Eh, outcome_bind_ok, El.
Qed.
End Sort.

(** One permutation of a list is in order. *)
Lemma sorted_unique {T} (lt : T -> T -> bool) l1 l2 : (forall x y, lt x y = false -> lt y x = false -> x = y) ->
  StronglySorted (in_order lt) l1 -> StronglySorted (in_order lt) l2 -> l1 ≡ₚ l2 -> l1 = l2.
Proof.
  intros Htotal H1 H2 Hp. assert (AntiSymm eq (in_order lt)) by (intros x y Hx Hy; by apply Htotal).
  by apply (StronglySorted_unique (in_order lt)).
Qed.

(** A partition that keeps the order. *)
Definition stable_partition {T} (p : T -> bool) (l : list T) : list T * nat :=
  (List.filter p l ++ List.filter (fun x => negb (p x)) l, length (List.filter p l)).

Lemma stable_partition_law {T} : partition_law (@stable_partition T).
Proof.
  intros p l. unfold stable_partition. rewrite take_app_length, drop_app_length.
  induction l as [|x l (Hp & H1 & H2)]; [by repeat constructor|]. cbn [List.filter].
  destruct (p x) eqn:E; cbn [negb app]; (split; [|split]); try done; try by constructor.
  by rewrite <- Permutation_middle, Hp.
Qed.

(** C28. The four quicksorts of the example end and return the same: the elements of
    their input in order, however the standard library partitions. *)
Theorem quick_sorts_agree {T} (lt : T -> T -> bool) partition fuel input :
  (forall x, lt x x = false) -> (forall x y z, lt x y = true -> lt y z = true -> lt x z = true) ->
  (forall x y, lt x y = false -> lt y x = false -> x = y) -> partition_law partition -> (length input < fuel)%nat ->
  exists result, result ≡ₚ input /\ StronglySorted (in_order lt) result /\
    sequential_quick_sort lt partition fuel input = Ok result /\ parallel_quick_sort lt partition fuel input = Ok result /\
    vector_quick_sort lt partition fuel input = Ok result /\ vparallel_quick_sort lt partition fuel input = Ok result.
Proof.
  intros Hirr Htrans Htotal Hpart Hf. destruct (all_sort lt partition Hirr Htrans Hpart) as (H1 & H2 & H3 & H4).
  destruct (H1 fuel input Hf) as (r1 & E1 & P1 & S1). destruct (H2 fuel input Hf) as (r2 & E2 & P2 & S2).
  destruct (H3 fuel input Hf) as (r3 & E3 & P3 & S3). destruct (H4 fuel input Hf) as (r4 & E4 & P4 & S4).
  exists r1. rewrite E1, E2, E3, E4. rewrite (sorted_unique lt r2 r1), (sorted_unique lt r3 r1), (sorted_unique lt r4 r1);
    try done; by etrans.
Qed.

(** The list of the example, and that with 5 twice. *)
Lemma quick_sorts_agree_witness : exists result, result ≡ₚ [5; 7; 3; 4; 1; 9; 2; 8; 10; 6; 5] /\
  StronglySorted (in_order Z.ltb) result /\
  sequential_quick_sort Z.ltb stable_partition 12 [5; 7; 3; 4; 1; 9; 2; 8; 10; 6; 5] = Ok result /\
  parallel_quick_sort Z.ltb stable_partition 12 [5; 7; 3; 4; 1; 9; 2; 8; 10; 6; 5] = Ok result /\
  vector_quick_sort Z.ltb stable_partition 12 [5; 7; 3; 4; 1; 9; 2; 8; 10; 6; 5] = Ok result /\
  vparallel_quick_sort Z.ltb stable_partition 12 [5; 7; 3; 4; 1; 9; 2; 8; 10; 6; 5] = Ok result.
Proof.
  apply (quick_sorts_agree Z.ltb stable_partition 12 [5; 7; 3; 4; 1; 9; 2; 8; 10; 6; 5]).
  - intros x. apply Z.ltb_irrefl.
  - intros x y z. rewrite !Z.ltb_lt. lia.
  - intros x y. rewrite !Z.ltb_ge. lia.
  - apply stable_partition_law.
  - cbn. lia.
Defined.

Lemma quick_sorts_compute :
  sequential_quick_sort Z.ltb stable_partition 12 [5; 7; 3; 4; 1; 9; 2; 8; 10; 6; 5] = Ok [1; 2; 3; 4; 5; 5; 6; 7; 8; 9; 10].
Proof. reflexivity. Qed.
End QuickSort.

(** ** parallel_accumulate.h *)

Module Accumulate.

Definition min_per_thread : Z := 25.

(** [hardware] is [std::thread::hardware_concurrency()]. *)
Definition num_threads (length hardware : Z) : Z :=
  let max_threads := u64 (u64 (length + min_per_thread) - 1) / min_per_thread in
  Z.min (if negb (hardware =? 0) then hardware else 2) max_threads.

Section Accumulate.
Context {T : Type} (add : T -> T -> T) (value : T).

(** [accumulate_block]: from the element [result] on. *)
Definition accumulate_block (block : list T) (result : T) : T := fold_left add block result.

(** The blocks of the threads, and what is left for the caller; advancing past the end is
    undefined. *)
Fixpoint blocks (todo : nat) (block_size : Z) (l : list T) : outcome (list (list T)) :=
  match todo with
  | O => Ok [l]
  | S todo' =>
      guard_defined (block_size <=? zlen l) ;;*
      let* rest := blocks todo' block_size (drop (Z.to_nat block_size) l) in
      Ok (take (Z.to_nat block_size) l :: rest)
  end.

(** Each thread writes its own element of [results]; they write in the order [order]. *)
Definition finish (bs : list (list T)) (order : list nat) (results : list T) : list T :=
  fold_left (fun rs i =>
    match bs !! i, rs !! i with Some b, Some r => <[i := accumulate_block b r]> rs | _, _ => rs end) order results.

(** [std::vector<T> results( num_threads )] has elements [value]. *)
Definition parallel_accumulate (hardware : Z) (order : list nat) (l : list T) (init : T) : outcome T :=
  let length := zlen l in
  if length =? 0 then Ok init
  else
    let n := num_threads length hardware in
    guard_defined (negb (n =? 0)) ;;*
    let block_size := length / n in
    guard_defined (n - 1 <? 2 ^ 31) ;;*
    let* bs := blocks (Z.to_nat (n - 1)) block_size l in
    let results := finish bs order (replicate (Z.to_nat n) value) in
    Ok (fold_left add results init).

Hypothesis add_assoc : forall x y z, add x (add y z) = add (add x y) z.
Hypothesis add_value_l : forall x, add value x = x.
Hypothesis add_value_r : forall x, add x value = x.

Lemma fold_from x l : fold_left add l x = add x (fold_left add l value).
Proof.
  revert x. induction l as [|y l IH]; intros x; cbn [fold_left]; [by rewrite add_value_r|].
  by rewrite IH, (IH (add value y)), add_value_l, add_assoc.
Qed.

Lemma fold_blocks bs init : fold_left add (map (fun b => accumulate_block b value) bs) init = fold_left add (concat bs) init.
Proof.
  revert init. induction bs as [|b bs IH]; intros init; [done|]. cbn [map concat fold_left].
  rewrite IH, fold_left_app. unfold accumulate_block. by rewrite (fold_from init b).
Qed.

Lemma blocks_ok todo size l : 0 <= size -> Z.of_nat todo * size <= zlen l ->
  exists bs, blocks todo size l = Ok bs /\ length bs = S todo /\ concat bs = l.
Proof.
  intros Hs. revert l. induction todo as [|todo IH]; intros l Hl; cbn [blocks].
  { exists [l]. cbn [concat]. by rewrite app_nil_r. }
  rewrite guard_defined_true by (apply Z.leb_le; nia). rewrite outcome_bind_ok.
  destruct (IH (drop (Z.to_nat size) l)) as (bs & -> & Hlen & Hc); [rewrite length_drop; nia|].
  rewrite outcome_bind_ok. eexists. split; [reflexivity|]. cbn [length concat]. rewrite Hlen, Hc. split; [done | apply take_drop].
Qed.

(** An element is written by its thread only. *)
Lemma finish_lookup bs order results i : NoDup order -> length results = length bs ->
  finish bs order results !! i =
    (if decide (i ∈ order) then b ← bs !! i; r ← results !! i; Some (accumulate_block b r) else results !! i).
Proof.
  intros Hnd. revert results. induction Hnd as [|j order Hj _ IH]; intros results Hlen; [done|].
  change (finish bs (j :: order) results) with (finish bs order
    (match bs !! j, results !! j with Some b, Some r => <[j := accumulate_block b r]> results | _, _ => results end)).
  assert (i ∈ j :: order <-> i = j \/ i ∈ order) as Hin by apply elem_of_cons.
  destruct (bs !! j) as [b|] eqn:Eb.
  - destruct (lookup_lt_is_Some_2 results j) as [r Er]; [rewrite Hlen; by eapply lookup_lt_Some|]. rewrite Er.
    rewrite IH by (by rewrite length_insert). destruct (decide (i = j)) as [->|Hne].
    + rewrite decide_False, decide_True by (done || by left). rewrite list_lookup_insert_eq by (by eapply lookup_lt_Some).
      by rewrite Eb, Er.
    + rewrite list_lookup_insert_ne by done. destruct (decide (i ∈ order)); [rewrite decide_True | rewrite decide_False]; tauto.
  - rewrite IH by done. destruct (decide (i = j)) as [->|Hne].
    + rewrite decide_False, decide_True by (done || by left). rewrite Eb. cbn. apply lookup_ge_None_2. rewrite Hlen. by apply lookup_ge_None_1.
    + destruct (decide (i ∈ order)); [rewrite decide_True | rewrite decide_False]; tauto.
Qed.

Lemma finish_all bs order : order ≡ₚ seq 0 (length bs) ->
  finish bs order (replicate (length bs) value) = map (fun b => accumulate_block b value) bs.
Proof.
  intros Hp. apply list_eq. intros i.
  assert (NoDup order) as Hnd by (rewrite Hp; apply NoDup_seq).
  rewrite finish_lookup, list_lookup_fmap by (try done; by rewrite length_replicate).
  destruct (bs !! i) as [b|] eqn:E.
  - apply lookup_lt_Some in E as Hi. rewrite decide_True by (rewrite Hp; apply elem_of_seq; lia).
    cbn. by rewrite lookup_replicate_2.
  - apply lookup_ge_None in E as Hi. cbn. destruct (decide _); [done|]. apply lookup_ge_None_2. by rewrite length_replicate.
Qed.
End Accumulate.

Lemma num_threads_range length hardware : 0 < length < 2 ^ 63 -> 0 <= hardware ->
  0 < num_threads length hardware /\ num_threads length hardware <= length /\ num_threads length hardware <= Z.max 2 hardware.
Proof.
  intros Hl Hh. unfold num_threads, min_per_thread. rewrite (wrap_small 64 (length + 25)), (wrap_small 64 (length + 25 - 1)) by lia.
  assert (0 < (length + 25 - 1) / 25 <= length) by (Z.to_euclidean_division_equations; lia).
  destruct (hardware =? 0) eqn:E; cbn [negb]; to_prop; lia.
Qed.

(** However many threads the hardware has and in whatever order they finish,
    [parallel_accumulate] returns what accumulating the range in one go returns, for an
    addition that is associative and of which a value-initialised element is the
    unit. *)
Theorem accumulate_any_order {T} (add : T -> T -> T) value hardware order l init :
  (forall x y z, add x (add y z) = add (add x y) z) -> (forall x, add value x = x) -> (forall x, add x value = x) ->
  zlen l < 2 ^ 63 -> 0 <= hardware < 2 ^ 31 -> order ≡ₚ seq 0 (Z.to_nat (num_threads (zlen l) hardware)) ->
  parallel_accumulate add value hardware order l init = Ok (fold_left add l init).
Proof.
  intros Ha Hl Hr Hlen Hh Hp. unfold parallel_accumulate. destruct (zlen l =? 0) eqn:E0; to_prop.
  { by destruct l; [|cbn [length] in E0; lia]. }
  destruct (num_threads_range (zlen l) hardware ltac:(lia) ltac:(lia)) as (H1 & H2 & H3).
  cbv zeta. set (n := num_threads (zlen l) hardware) in *.
  rewrite (guard_defined_true (negb (n =? 0))) by (apply negb_true_iff, Z.eqb_neq; lia). rewrite outcome_bind_ok.
  rewrite guard_defined_true by (apply Z.ltb_lt; lia). rewrite outcome_bind_ok.
  destruct (blocks_ok (Z.to_nat (n - 1)) (zlen l / n) l) as (bs & -> & Hbs & Hc);
    [Z.to_euclidean_division_equations; nia | Z.to_euclidean_division_equations; nia|].
  assert (Z.to_nat n = length bs) as En by lia. rewrite outcome_bind_ok, En. rewrite En in Hp.
  rewrite (finish_all add value bs order Hp), (fold_blocks add value Ha Hl Hr), Hc. done.
Qed.

(** A hundred numbers on three threads, the last of which finishes first. *)
Lemma accumulate_any_order_witness :
  parallel_accumulate Z.add 0 3 [2; 0; 1]%nat (seqZ 0 100) 7 = Ok (fold_left Z.add (seqZ 0 100) 7) /\
  fold_left Z.add (seqZ 0 100) 7 = 4957.
Proof.
  split; [|vm_compute; reflexivity]. apply (accumulate_any_order Z.add 0 3 [2; 0; 1]%nat (seqZ 0 100) 7).
  - intros. lia.
  - intros. lia.
  - intros. lia.
  - vm_compute. reflexivity.
  - lia.
  - change (Z.to_nat (num_threads (zlen (seqZ 0 100)) 3)) with 3%nat. cbn [seq].
    apply (Permutation_app_comm [2%nat] [0%nat; 1%nat]).
Defined.
End Accumulate.
