(* ===== verification/Generators.v ===== *)
(** * Generators as coroutines

    coroutine-sets/cpp-coroutine: a C++20 coroutine that is suspended is the point it is
    suspended at with its variables; its body takes it to the next [co_yield] or to its
    end.  Module Pipeline is generator_example.cpp, generators that read generators and
    are summed up by main; Module Fibonacci is fib_gen.cpp, a generator with its protocol
    of [operator bool] and [operator()] and an exception that ends it.  Resuming a
    coroutine that is done is undefined.  Printing is left out, but for the numbers that
    the main program of fib_gen.cpp prints. *)

From Stdlib Require Import ZArith Lia Bool.
From stdpp Require Import base tactics option list numbers.
From S2P Require Import Prelude.

#[local] Open Scope Z_scope.

(** ** generator_example.cpp *)

Module Pipeline.

(** A coroutine of type [S] that yields values of type [V]: where it goes when it is
    resumed. *)
Inductive suspension (S V : Type) := Yields (v : V) (s : S) | Returns.
Arguments Yields {S V} v s.
Arguments Returns {S V}.

Class Coroutine (S V : Type) := body : S -> outcome (suspension S V).

(** The handle [p] with its promise; [None]: the coroutine is done. *)
Record generator (S V : Type) := Gen { frame : option S; current_value : V }.
Arguments Gen {S V} frame current_value.
Arguments frame {S V} g.
Arguments current_value {S V} g.

Section Generator.
Context {S V : Type} `{Coroutine S V}.

Definition resume (g : generator S V) : outcome (generator S V) :=
  match frame g with
  | None => Err UndefinedBehaviour
  | Some s =>
      let* x := body s in
      match x with
      | Yields v s => Ok (Gen (Some s) v)
      | Returns => Ok (Gen None (current_value g))
      end
  end.

Definition done (g : generator S V) : bool := match frame g with None => true | Some _ => false end.

(** An iterator holds the handle and what [done] was when it last moved. *)
Record iterator := Iterator { Coro : generator S V; Done : bool }.

Definition begin (g : generator S V) : outcome iterator :=
  let* g := resume g in Ok (Iterator g (done g)).

Definition next (it : iterator) : outcome iterator :=
  let* g := resume (Coro it) in Ok (Iterator g (done g)).

(** [it == g.end()] compares the members [_Done]. *)
Definition at_end (it : iterator) : bool := Done it.

Definition deref (it : iterator) : V := current_value (Coro it).
End Generator.
Arguments iterator S V : clear implicits.

(** [seq<int>]: at its start, or at the yield with its [i]. *)
Inductive seq := SeqStart | SeqAt (i : Z).

#[export] Instance seq_body : Coroutine seq Z := fun s =>
  match s with
  | SeqStart => Ok (Yields 0 (SeqAt 0))
  | SeqAt i => let* i := int_of (i + 1) in Ok (Yields i (SeqAt i))
  end.

(** A coroutine with a loop [for (auto && v : g)]: at its start, or at the yield in the
    loop with its iterator. *)
Inductive over (S : Type) := AtStart (g : generator S Z) | InLoop (it : iterator S Z).
Arguments AtStart {S} g.
Arguments InLoop {S} it.

Section Over.
Context {S : Type} `{Coroutine S Z}.

(** Where the loop goes next: to its body with a value, or out of it. *)
Definition advance (o : over S) : outcome (option (iterator S Z)) :=
  let* it := match o with AtStart g => begin g | InLoop it => next it end in
  Ok (if at_end it then None else Some it).

(** The body of the loop: what is yielded for a value, or [break]. *)
Definition range_for (f : Z -> outcome (option Z)) (o : over S) : outcome (suspension (over S) Z) :=
  let* it := advance o in
  match it with
  | None => Ok Returns
  | Some it =>
      let* y := f (deref it) in
      Ok (match y with Some y => Yields y (InLoop it) | None => Returns end)
  end.
End Over.

Record take_until S := TakeUntil { t_loop : over S; t_limit : Z }.
Record multiply S := Multiply { m_loop : over S; m_factor : Z }.
Record add S := Add { a_loop : over S; a_adder : Z }.
Arguments TakeUntil {S} t_loop t_limit.
Arguments Multiply {S} m_loop m_factor.
Arguments Add {S} a_loop a_adder.

Definition with_loop {S C} (make : over S -> C) (x : suspension (over S) Z) : suspension C Z :=
  match x with Yields v o => Yields v (make o) | Returns => Returns end.

#[export] Instance take_until_body {S} `{Coroutine S Z} : Coroutine (take_until S) Z := fun '(TakeUntil o limit) =>
  let* x := range_for (fun v => Ok (if v <? limit then Some v else None)) o in
  Ok (with_loop (fun o => TakeUntil o limit) x).

#[export] Instance multiply_body {S} `{Coroutine S Z} : Coroutine (multiply S) Z := fun '(Multiply o factor) =>
  let* x := range_for (fun v => let* y := int_mul v factor in Ok (Some y)) o in
  Ok (with_loop (fun o => Multiply o factor) x).

#[export] Instance add_body {S} `{Coroutine S Z} : Coroutine (add S) Z := fun '(Add o adder) =>
  let* x := range_for (fun v => let* y := int_of (v + adder) in Ok (Some y)) o in
  Ok (with_loop (fun o => Add o adder) x).

(** A new coroutine is suspended at its start; its promise has no value yet, 0 stands
    for it. *)
Definition new {S} (s : S) : generator S Z := Gen (Some s) 0.

(** [std::accumulate( first, g.end(), init )]. *)
Fixpoint accumulate {S} `{Coroutine S Z} (fuel : nat) (first : iterator S Z) (init : Z) : outcome Z :=
  match fuel with
  | O => Err OutOfFuel
  | S fuel' =>
      if at_end first then Ok init
      else
        let* init := int_of (init + deref first) in
        let* first := next first in
        accumulate fuel' first init
  end.

(** [main], with the numbers as arguments. *)
Definition main (fuel : nat) (limit factor adder : Z) : outcome Z :=
  let s := new SeqStart in
  let t := new (TakeUntil (AtStart s) limit) in
  let m := new (Multiply (AtStart t) factor) in
  let a := new (Add (AtStart m) adder) in
  let* first := begin a in
  accumulate fuel first 0.

(** ** What a generator yields

    [yields s l]: resumed again and again, [s] yields the values of [l] and returns. *)
Inductive yields {S} `{Coroutine S Z} : S -> list Z -> Prop :=
| yields_nil s : body s = Ok Returns -> yields s []
| yields_cons s v s' l : body s = Ok (Yields v s') -> yields s' l -> yields s (v :: l).

(** A generator yields a list from here on. *)
Definition gives {S} `{Coroutine S Z} (g : generator S Z) (l : list Z) : Prop := exists s, frame g = Some s /\ yields s l.

Section Laws.
Context {S : Type} `{Coroutine S Z}.

Lemma resume_gives (g : generator S Z) l : gives g l ->
  exists g', resume g = Ok g' /\
    match l with [] => frame g' = None | v :: l' => current_value g' = v /\ gives g' l' end.
Proof.
  intros (s & Es & Hy). unfold resume. rewrite Es. destruct Hy as [s E | s v s' l E Hy]; rewrite E, outcome_bind_ok.
  - by eexists.
  - eexists. split; [reflexivity|]. split; [done|]. by exists s'.
Qed.

(** What the loop reads next. *)
Definition loop_gives (o : over S) (l : list Z) : Prop :=
  match o with AtStart g => gives g l | InLoop it => gives (Coro it) l end.

Lemma advance_gives o l : loop_gives o l ->
  match l with
  | [] => advance o = Ok None
  | v :: l' => exists it, advance o = Ok (Some it) /\ deref it = v /\ loop_gives (InLoop it) l'
  end.
Proof.
  intros Hl. assert (exists g, (match o with AtStart g => begin g | InLoop it => next it end) =
      (let* g := resume g in Ok (Iterator g (done g))) /\ gives g l) as (g & Eo & Hg) by (destruct o; by eexists).
  unfold advance. rewrite Eo. destruct (resume_gives g l Hg) as (g' & -> & Hl'). rewrite !outcome_bind_ok.
  destruct l as [|v l']; unfold at_end, done; cbn [Done].
  - by rewrite Hl'.
  - destruct Hl' as (Ev & Hl'). destruct Hl' as (s & Es & Hy). rewrite Es. eexists. split; [reflexivity|].
    split; [done|]. by exists s.
Qed.

(** A loop whose body yields one value for each. *)
Lemma range_for_map (f : Z -> Z) (step : Z -> outcome (option Z)) {C} `{Coroutine C Z} (make : over S -> C) o l :
  (forall o, body (make o) = (let* x := range_for step o in Ok (with_loop make x))) ->
  Forall (fun v => step v = Ok (Some (f v))) l -> loop_gives o l -> yields (make o) (map f l).
Proof.
  intros Hbody Hl. revert o. induction Hl as [|v l Hv _ IH]; intros o Ho; pose proof (advance_gives _ _ Ho) as Ha; cbn [map].
  - apply yields_nil. rewrite Hbody. unfold range_for. by rewrite Ha.
  - destruct Ha as (it & Ea & Ev & Hit). apply (yields_cons _ _ (make (InLoop it))); [|by apply IH].
    rewrite Hbody. unfold range_for. by rewrite Ea, outcome_bind_ok, Ev, Hv.
Qed.

(** Summing up what is left, when no partial sum leaves [int]. *)
Lemma accumulate_gives fuel (it : iterator S Z) v l init : Done it = false -> deref it = v -> gives (Coro it) l ->
  (length l + 1 < fuel)%nat ->
  (forall l1, l1 `prefix_of` v :: l -> - 2 ^ 31 <= init + foldr Z.add 0 l1 < 2 ^ 31) ->
  accumulate fuel it init = Ok (init + foldr Z.add 0 (v :: l)).
Proof.
  revert it v init fuel. induction l as [|w l IH]; intros it v init fuel Hd Hv Hg Hf Hb;
    (destruct fuel as [|fuel]; [lia|]); cbn [accumulate]; unfold at_end; rewrite Hd, Hv;
    pose proof (Hb [v] ltac:(apply prefix_cons, prefix_nil)) as Hv1; cbn [foldr] in Hv1;
    rewrite int_of_ok, outcome_bind_ok by lia;
    destruct (resume_gives _ _ Hg) as (g' & E & Hg'); unfold next; rewrite E, !outcome_bind_ok.
  - destruct fuel as [|fuel]; [cbn [length] in Hf; lia|]. cbn [accumulate]. unfold at_end, done. cbn [Done]. rewrite Hg'.
    cbn [foldr]. f_equal. lia.
  - destruct Hg' as (Ew & Hgl). rewrite (IH _ w); [cbn [foldr]; f_equal; lia | | done | done | cbn [length] in Hf; lia | ].
    + unfold done. cbn [Done]. by destruct Hgl as (s & -> & _).
    + intros l1 Hl1. pose proof (Hb (v :: l1) ltac:(by apply prefix_cons)) as H1. cbn [foldr] in H1. lia.
Qed.
End Laws.

(** The next value of [seq] that a loop over it reads. *)
Definition seq_next (o : over seq) (i : Z) : Prop :=
  match o with
  | AtStart g => frame g = Some SeqStart /\ i = 0
  | InLoop it => frame (Coro it) = Some (SeqAt (i - 1))
  end.

Lemma advance_seq o i : seq_next o i -> 0 <= i < 2 ^ 31 ->
  exists it, advance o = Ok (Some it) /\ deref it = i /\ seq_next (InLoop it) (i + 1).
Proof.
  intros Ho Hi. unfold advance. destruct o as [g | it]; cbn [seq_next] in Ho.
  - destruct Ho as (Eg & ->). unfold begin, resume. rewrite Eg. by eexists.
  - unfold next, resume. rewrite Ho. cbn [body seq_body]. rewrite int_of_ok, !outcome_bind_ok by lia.
    cbn. eexists. split; [reflexivity|]. unfold deref. cbn. split; [lia|]. do 2 f_equal. lia.
Qed.

(** [take_until] cuts the numbers at its limit. *)
Lemma take_until_seq (limit : Z) (k : nat) o : Z.of_nat k <= limit < 2 ^ 31 -> seq_next o (limit - Z.of_nat k) ->
  yields (TakeUntil o limit) (seqZ (limit - Z.of_nat k) (Z.of_nat k)).
Proof.
  revert o. induction k as [|k IH]; intros o Hk Ho; destruct (advance_seq _ _ Ho) as (it & Ea & Ev & Hn); try lia.
  - apply yields_nil. cbn [body take_until_body]. unfold range_for. rewrite Ea, outcome_bind_ok, Ev, outcome_bind_ok.
    by rewrite (proj2 (Z.ltb_ge _ _)) by lia.
  - rewrite seqZ_cons by lia. apply (yields_cons _ _ (TakeUntil (InLoop it) limit)).
    + cbn [body take_until_body]. unfold range_for. rewrite Ea, outcome_bind_ok, Ev, outcome_bind_ok.
      by rewrite (proj2 (Z.ltb_lt _ _)) by lia.
    + replace (Z.succ (limit - Z.of_nat (S k))) with (limit - Z.of_nat k) by lia.
      replace (Z.pred (Z.of_nat (S k))) with (Z.of_nat k) by lia. apply IH; [lia|].
      replace (limit - Z.of_nat k) with (limit - Z.of_nat (S k) + 1) by lia. done.
Qed.

(** The numbers of the pipeline. *)
Definition numbers (limit factor adder : Z) : list Z := map (fun v => v + adder) (map (fun v => v * factor) (seqZ 0 limit)).

Lemma numbers_bounded limit factor adder : 0 <= limit ->
  Forall (fun v => Z.abs v <= limit * Z.abs factor + Z.abs adder) (numbers limit factor adder).
Proof.
  intros Hl. unfold numbers. rewrite map_map. apply Forall_fmap, Forall_seqZ. intros i Hi. cbn.
  pose proof (Z.abs_triangle (i * factor) adder). pose proof (Z.abs_mul i factor). nia.
Qed.

Lemma foldr_add_acc (l : list Z) (z : Z) : foldr Z.add z l = foldr Z.add 0 l + z.
Proof. induction l as [|x l IH]; cbn [foldr]; lia. Qed.

Lemma numbers_sum (k : nat) factor adder :
  2 * foldr Z.add 0 (numbers (Z.of_nat k) factor adder) = factor * (Z.of_nat k * (Z.of_nat k - 1)) + 2 * (adder * Z.of_nat k).
Proof.
  unfold numbers. induction k as [|k IH]; [rewrite seqZ_nil by lia; cbn; lia|].
  rewrite seqZ_S, !map_app, foldr_app, foldr_add_acc. cbn [map foldr].
  rewrite Z.mul_add_distr_l, IH. replace (Z.of_nat (S k)) with (Z.of_nat k + 1) by lia. ring.
Qed.

Lemma sum_bounded B (l : list Z) : Forall (fun v => Z.abs v <= B) l -> Z.abs (foldr Z.add 0 l) <= B * Z.of_nat (length l).
Proof. induction 1 as [|v l Hv _ IH]; cbn [foldr length]; [lia|]. rewrite Nat2Z.inj_succ. lia. Qed.

(** The generator that [main] sums up. *)
Definition pipeline (limit factor adder : Z) : add (multiply (take_until seq)) :=
  Add (AtStart (new (Multiply (AtStart (new (TakeUntil (AtStart (new SeqStart)) limit))) factor))) adder.

Lemma pipeline_yields limit factor adder : 0 <= limit < 2 ^ 31 ->
  limit * Z.abs factor + Z.abs adder < 2 ^ 31 -> yields (pipeline limit factor adder) (numbers limit factor adder).
Proof.
  intros Hl Hb.
  assert (Hi : forall i, 0 <= i < limit -> Z.abs (i * factor) <= limit * Z.abs factor) by (intros; rewrite Z.abs_mul; nia).
  apply (range_for_map (fun v => v + adder) _ (fun o => Add o adder) _ _ (fun _ => eq_refl)).
  { apply Forall_map, Forall_seqZ. intros i H. specialize (Hi i H). by rewrite int_of_ok by lia. }
  eexists. split; [reflexivity|].
  apply (range_for_map (fun v => v * factor) _ (fun o => Multiply o factor) _ _ (fun _ => eq_refl)).
  { apply Forall_seqZ. intros i H. specialize (Hi i H). by rewrite int_mul_ok by lia. }
  eexists. split; [reflexivity|].
  pose proof (take_until_seq limit (Z.to_nat limit) (AtStart (new SeqStart))) as H.
  rewrite Z2Nat.id, Z.sub_diag in H by lia. apply H; [lia | done].
Qed.

(** The main program of generator_example.cpp returns what it means to: the generators
    are read one number at a time through one another, and for every limit from 0 on it
    ends with the sum of [i * factor + adder] for the [i] below the limit, whenever that
    stays within an [int]. *)
Theorem main_sums (fuel : nat) (limit factor adder : Z) : 0 <= limit < Z.of_nat fuel ->
  (limit * Z.abs factor + Z.abs adder) * (limit + 1) < 2 ^ 31 -> limit < 2 ^ 31 ->
  main fuel limit factor adder = Ok (factor * (limit * (limit - 1) / 2) + adder * limit).
Proof.
  intros Hf Hb Hl. unfold main. fold (pipeline limit factor adder).
  pose proof (numbers_bounded limit factor adder ltac:(lia)) as Hn.
  assert (Hlen : length (numbers limit factor adder) = Z.to_nat limit) by (unfold numbers; by rewrite !length_map, length_seqZ).
  assert (Hs : foldr Z.add 0 (numbers limit factor adder) = factor * (limit * (limit - 1) / 2) + adder * limit).
  { pose proof (numbers_sum (Z.to_nat limit) factor adder) as H. rewrite Z2Nat.id in H by lia.
    assert (E : limit * (limit - 1) = 2 * (limit * (limit - 1) / 2)); [|rewrite E in H; lia].
    apply Z.div_exact; [lia|]. rewrite Zmod_even, Z.even_mul, Z.even_sub. by destruct (Z.even limit). }
  destruct (resume_gives (new (pipeline limit factor adder)) (numbers limit factor adder)) as (g & E & Hg).
  { eexists. split; [reflexivity|]. apply pipeline_yields; nia. }
  unfold begin. rewrite E, !outcome_bind_ok. destruct fuel as [|fuel]; [lia|].
  rewrite <- Hs. destruct (numbers limit factor adder) as [|v l] eqn:El.
  { cbn [accumulate]. unfold at_end, done. cbn [Done]. by rewrite Hg. }
  destruct Hg as (Ev & Hg). rewrite (accumulate_gives _ _ v l); [done | | done | done | cbn [length] in Hlen; lia |].
  - unfold done. cbn [Done]. by destruct Hg as (s & -> & _).
  - intros l1 (l2 & E12). rewrite E12, Forall_app in Hn. pose proof (sum_bounded _ _ (proj1 Hn)) as H1.
    assert (Z.of_nat (length l1) <= limit) by (rewrite E12, length_app in Hlen; lia). nia.
Qed.

Lemma main_sums_witness : main 11 10 2 110 = Ok 1190.
Proof. rewrite main_sums; [reflexivity | lia | lia | lia]. Defined.
End Pipeline.

(** ** fib_gen.cpp *)

Module Fibonacci.

(** The body of [fibonacci_seq] at its start, at its first two yields and at the one in
    its loop, with the variables that live there. *)
Inductive point :=
  | Start (n : Z)
  | Yielded0 (n : Z)
  | Yielded1 (n : Z)
  | YieldedNext (n a b i next : Z).

(** Where it goes when it is resumed. *)
Inductive suspension := Yields (value : Z) (p : point) | Returns | Throws.

(** The loop from its condition on: [i] is an [int], compared as a [uint32_t]. *)
Definition loop (n a b i : Z) : suspension :=
  if u32 i <? n then
    let next := u64 (a + b) in
    if next <? b then Throws else Yields next (YieldedNext n a b i next)
  else Returns.

Definition fibonacci_seq (p : point) : outcome suspension :=
  match p with
  | Start n => Ok (if 0 =? n then Returns else Yields 0 (Yielded0 n))
  | Yielded0 n => Ok (if n =? 1 then Returns else Yields 1 (Yielded1 n))
  | Yielded1 n => Ok (if 2 =? n then Returns else loop n 0 1 2)
  | YieldedNext n a b i next => let* i := int_of (i + 1) in Ok (loop n b next i)
  end.

(** A [Generator]: its coroutine ([None]: done), the promise's [value_] and whether it
    has an [exception_], and [full_]. *)
Record Generator := Gen { h_ : option point; value_ : Z; exception_ : bool; full_ : bool }.

(** [h_()]. *)
Definition resume (g : Generator) : outcome Generator :=
  match h_ g with
  | None => Err UndefinedBehaviour
  | Some p =>
      let* x := fibonacci_seq p in
      Ok match x with
         | Yields v p => Gen (Some p) v (exception_ g) (full_ g)
         | Returns => Gen None (value_ g) (exception_ g) (full_ g)
         | Throws => Gen None (value_ g) true (full_ g)
         end
  end.

(** What a member function does: it returns or it throws the exception of the promise. *)
Inductive result (A : Type) := Value (a : A) (g : Generator) | Rethrown (g : Generator).
Arguments Value {A} a g.
Arguments Rethrown {A} g.

Definition fill (g : Generator) : outcome (result unit) :=
  if full_ g then Ok (Value tt g)
  else
    let* g := resume g in
    Ok (if exception_ g then Rethrown g else Value tt (Gen (h_ g) (value_ g) (exception_ g) true)).

Definition operator_bool (g : Generator) : outcome (result bool) :=
  let* r := fill g in
  Ok match r with
     | Value _ g => Value (match h_ g with Some _ => true | None => false end) g
     | Rethrown g => Rethrown g
     end.

Definition operator_call (g : Generator) : outcome (result Z) :=
  let* r := fill g in
  Ok match r with
     | Value _ g => Value (value_ g) (Gen (h_ g) (value_ g) (exception_ g) false)
     | Rethrown g => Rethrown g
     end.

(** What main prints. *)
Inductive line := Fib (i v : Z) | HandleDestroy | Exception.

(** The loop of [main] and what follows it: the generator is destroyed before a handler
    runs. *)
Fixpoint print_all (fuel : nat) (gen : Generator) (i : Z) : outcome (list line) :=
  match fuel with
  | O => Err OutOfFuel
  | S fuel' =>
      let* b := operator_bool gen in
      match b with
      | Rethrown _ => Ok [HandleDestroy; Exception]
      | Value false _ => Ok [HandleDestroy]
      | Value true gen =>
          let* v := operator_call gen in
          match v with
          | Rethrown _ => Ok [HandleDestroy; Exception]
          | Value v gen =>
              let* i' := int_of (i + 1) in
              let* out := print_all fuel' gen i' in
              Ok (Fib i v :: out)
          end
      end
  end.

(** [main], with the argument of [fibonacci_seq]; the promise's value is not set yet, 0
    stands for it. *)
Definition main (fuel : nat) (n : Z) : outcome (list line) := print_all fuel (Gen (Some (Start n)) 0 false false) 0.

(** ** The Fibonacci numbers *)

Fixpoint fib_from (a b : Z) (k : nat) : Z := match k with O => a | S k => fib_from b (a + b) k end.
Definition fib : nat -> Z := fib_from 0 1.

Example main_4 : main 9 4 = Ok [Fib 0 0; Fib 1 1; Fib 2 1; Fib 3 2; HandleDestroy].
Proof. vm_compute. reflexivity. Qed.

Lemma fib_from_step k a b : fib_from a b (S (S k)) = fib_from a b (S k) + fib_from a b k.
Proof. revert a b. induction k as [|k IH]; intros a b; [cbn; lia|]. change (fib_from b (a + b) (S (S k)) = fib_from b (a + b) (S k) + fib_from b (a + b) k). apply IH. Qed.

Lemma fib_step k : fib (S (S k)) = fib (S k) + fib k.
Proof. apply fib_from_step. Qed.

Lemma fib_mono k : 0 <= fib k <= fib (S k).
Proof.
  induction k as [|k IH]; [vm_compute; split; discriminate|]. rewrite fib_step. split; [lia|].
  destruct k; [vm_compute; discriminate|]. rewrite (fib_step k) in *. pose proof IH. lia.
Qed.

(** They fit 64 bits up to the 94th, the next one does not. *)
Lemma fib_fits k : (k <= 93)%nat -> fib k < 2 ^ 64.
Proof.
  intros Hk. apply (Z.le_lt_trans _ (fib 93)); [|by vm_compute].
  replace 93%nat with ((93 - k) + k)%nat by lia. induction (93 - k)%nat as [|d IH]; [done|].
  rewrite IH. apply fib_mono.
Qed.

(** ** The sequence *)

(** Where the coroutine is after its first [k] numbers. *)
Definition point_at (n : Z) (k : nat) : point :=
  match k with
  | O => Start n
  | S O => Yielded0 n
  | S (S O) => Yielded1 n
  | S (S (S k')) => YieldedNext n (fib k') (fib (S k')) (Z.of_nat (S (S k'))) (fib (S (S k')))
  end.

Lemma loop_at n k : 0 <= n < 2 ^ 32 -> (2 <= k <= 94)%nat ->
  loop n (fib (k - 2)) (fib (k - 1)) (Z.of_nat k) =
    if Z.of_nat k <? n then if (k <? 94)%nat then Yields (fib k) (point_at n (S k)) else Throws else Returns.
Proof.
  intros Hn Hk. unfold loop. rewrite u32_small by lia. destruct k as [|[|k]]; [lia | lia |]. cbn [Nat.sub].
  rewrite Nat.sub_0_r, (Z.add_comm (fib k)), <- fib_step. destruct (_ <? n); [|done].
  destruct (Nat.ltb_spec (S (S k)) 94).
  - pose proof (fib_mono (S k)). pose proof (fib_fits (S (S k)) ltac:(lia)).
    unfold wrap. rewrite Z.mod_small by lia. by rewrite (proj2 (Z.ltb_ge _ _)) by lia.
  - replace k with 92%nat by lia. by vm_compute.
Qed.

Lemma fibonacci_seq_at n k : 0 <= n < 2 ^ 32 -> (k <= 94)%nat -> Z.of_nat k <= n ->
  fibonacci_seq (point_at n k) =
    Ok (if Z.of_nat k <? n then if (k <? 94)%nat then Yields (fib k) (point_at n (S k)) else Throws else Returns).
Proof.
  intros Hn Hk Hkn. destruct k as [|[|[|k]]].
  - cbn [point_at fibonacci_seq]. change (Z.of_nat 0) with 0. destruct (Z.eqb_spec 0 n), (Z.ltb_spec 0 n); try lia; done.
  - cbn [point_at fibonacci_seq]. change (Z.of_nat 1) with 1. destruct (Z.eqb_spec n 1), (Z.ltb_spec 1 n); try lia; done.
  - rewrite <- (loop_at n 2) by lia. cbn [point_at fibonacci_seq]. by destruct (Z.eqb_spec 2 n) as [<-|].
  - rewrite <- (loop_at n (S (S (S k)))) by lia. cbn [point_at fibonacci_seq].
    rewrite int_of_ok, outcome_bind_ok by lia. do 2 f_equal; lia.
Qed.

(** The generator in main, before and after it is asked for its next number. *)
Definition asked (n : Z) (k : nat) (v : Z) : Generator := Gen (Some (point_at n k)) v false false.

Lemma operator_bool_at n k v : 0 <= n < 2 ^ 32 -> (k <= 94)%nat -> Z.of_nat k <= n ->
  operator_bool (asked n k v) = Ok (
    if Z.of_nat k <? n then
      if (k <? 94)%nat then Value true (Gen (Some (point_at n (S k))) (fib k) false true) else Rethrown (Gen None v true false)
    else Value false (Gen None v false true)).
Proof.
  intros Hn Hk Hkn. unfold operator_bool, fill, resume, asked. cbn [full_ h_].
  rewrite fibonacci_seq_at, !outcome_bind_ok by done. by destruct (_ <? n), (k <? 94)%nat.
Qed.

Lemma operator_call_full p v e : operator_call (Gen p v e true) = Ok (Value v (Gen p v e false)).
Proof. done. Qed.

(** The program fib_gen.cpp prints, for every [uint32_t n], the first [n] Fibonacci
    numbers, each under its index, and no number that has wrapped around.  For
    an [n] above 94 it prints the 94 that fit a [uint64_t]; the exception thrown in the
    coroutine for the next one is kept by the promise, rethrown by the generator's
    [operator bool] and caught in main, when the generator has been destroyed. *)
Theorem main_prints (fuel : nat) (n : Z) : 0 <= n < 2 ^ 32 -> (94 < fuel)%nat ->
  main fuel n = Ok (map (fun k => Fib (Z.of_nat k) (fib k)) (seq 0 (Z.to_nat (Z.min n 94))) ++
                    HandleDestroy :: (if 94 <? n then [Exception] else [])).
Proof.
  intros Hn Hf. change (main fuel n) with (print_all fuel (asked n 0 0) 0). generalize 0 at 1 as v.
  enough (H : forall d k v fuel, (d < fuel)%nat -> d = (Z.to_nat (Z.min n 94) - k)%nat -> Z.of_nat k <= Z.min n 94 ->
    print_all fuel (asked n k v) (Z.of_nat k) =
      Ok (map (fun k => Fib (Z.of_nat k) (fib k)) (seq k d) ++ HandleDestroy :: (if 94 <? n then [Exception] else [])))
    by (intros v; apply (H _ 0%nat v); lia).
  clear fuel Hf. intros d. induction d as [|d IH]; intros k v [|fuel] Hf Hd Hk; try lia;
    cbn [print_all]; rewrite operator_bool_at, outcome_bind_ok by lia.
  - destruct (Z.ltb_spec (Z.of_nat k) n), (Nat.ltb_spec k 94), (Z.ltb_spec 94 n); try lia; done.
  - rewrite (proj2 (Z.ltb_lt _ _)), (proj2 (Nat.ltb_lt _ _)), operator_call_full, outcome_bind_ok by lia.
    rewrite int_of_ok, outcome_bind_ok by lia. replace (Z.of_nat k + 1) with (Z.of_nat (S k)) by lia.
    fold (asked n (S k) (fib k)). by rewrite (IH (S k)) by lia.
Qed.

Lemma main_prints_witness :
  main 95 100 = Ok (map (fun k => Fib (Z.of_nat k) (fib k)) (seq 0 94) ++ [HandleDestroy; Exception]).
Proof. rewrite main_prints; [reflexivity | lia | lia]. Defined.
End Fibonacci.
