(* ===== verification/Tasks.v ===== *)
(** * Tasks as coroutines

    coroutine-sets/cpp-coroutine: tasks that await one another.  Module Nested is
    understand_symmetric_transfer/task.h with its main program, where
    [awaiter::await_suspend] resumes the awaited task by a call, so that the calls pile up
    on the stack.  Module Lowered is understand_compiler_transform/task.h, the coroutine
    [g] as a compiler translates it; the [f] that it awaits is declared only, and is a
    parameter. *)

From Stdlib Require Import ZArith Lia Bool.
From stdpp Require Import base tactics option list numbers gmap.
From S2P Require Import Prelude.

#[local] Open Scope Z_scope.

(** ** understand_symmetric_transfer *)

Module Nested.

(** The address of a coroutine's frame; an address is not used again, so that a use of a
    destroyed frame shows. *)
Abbreviation handle := nat.

(** Where a coroutine is suspended, with the variables that live there: at its start, at
    the [co_await] of its loop with the task it awaits, in [sync_wait_task::start], or at
    its end. *)
Inductive point :=
  | CompletesStart
  | LoopStart (count : Z)
  | LoopAwaits (count i : Z) (tmp : handle)
  | StartAwaits
  | Final.

Record frame := Frame { suspended : point; continuation : option handle }.

(** A call that has not returned: [coro_.resume()] in [awaiter::await_suspend], [start] in
    [sync_wait] and [resume()] in [drain], with the tasks [t2] and [t] of [sync_wait]. *)
Inductive activation := AwaitSuspend | Start (t2 t : handle) | DrainResume (t2 t : handle).

(** What runs next: a coroutine, called or jumped to by symmetric transfer; a return; the
    loops of [sync_wait] and [drain]. *)
Inductive control := Resume (h : option handle) | Return | Waiting (t2 t : handle) | Draining (t2 t : handle) | Done.

Inductive line := Completes | Loop (count : Z) | LoopReturning (count : Z).

(** [head_] is the executor's list of continuations; [deepest] is the most calls that
    there have been on the stack. *)
Record machine := Machine {
  heap : gmap handle frame;
  fresh : handle;
  head_ : list (option handle);
  stack : list activation;
  deepest : nat;
  output : list line;
  next : control
}.

Definition goto (m : machine) (c : control) : machine :=
  Machine (heap m) (fresh m) (head_ m) (stack m) (deepest m) (output m) c.

Definition print (m : machine) (l : line) : machine :=
  Machine (heap m) (fresh m) (head_ m) (stack m) (deepest m) (output m ++ [l]) (next m).

Definition set_heap (m : machine) (h : gmap handle frame) : machine :=
  Machine h (fresh m) (head_ m) (stack m) (deepest m) (output m) (next m).

(** A call: what is on the stack now, and where it goes. *)
Definition call (m : machine) (a : activation) (c : control) : machine :=
  Machine (heap m) (fresh m) (head_ m) (a :: stack m) (Nat.max (deepest m) (S (length (stack m)))) (output m) c.

(** A coroutine is called: its frame, suspended at its start. *)
Definition create (m : machine) (p : point) : handle * machine :=
  (fresh m, Machine (<[fresh m := Frame p None]> (heap m)) (S (fresh m)) (head_ m) (stack m) (deepest m) (output m) (next m)).

(** The coroutine [h] is suspended at [p]. *)
Definition suspend (m : machine) (h : handle) (p : point) : machine :=
  set_heap m (alter (fun f => Frame p (continuation f)) h (heap m)).

(** [promise().continuation = c]. *)
Definition set_continuation (m : machine) (h c : handle) : outcome machine :=
  match heap m !! h with
  | Some f => Ok (set_heap m (<[h := Frame (suspended f) (Some c)]> (heap m)))
  | None => Err UndefinedBehaviour
  end.

(** [~task]: [coro_.destroy()], with what lives at the suspension point. *)
Definition destroy (m : machine) (h : handle) : outcome machine :=
  match heap m !! h with
  | None => Err UndefinedBehaviour
  | Some (Frame (LoopAwaits _ _ tmp) _) =>
      match heap m !! tmp with
      | None => Err UndefinedBehaviour
      | Some _ => Ok (set_heap m (delete h (delete tmp (heap m))))
      end
  | Some _ => Ok (set_heap m (delete h (heap m)))
  end.

(** [awaiter::await_suspend( continuation )], for the awaiter of the task [t]. *)
Definition await_suspend (m : machine) (t c : handle) : outcome machine :=
  let* m := set_continuation m t c in
  Ok (call m AwaitSuspend (Resume (Some t))).

(** [co_return]: [final_suspend] suspends and transfers to the continuation. *)
Definition final_suspend (m : machine) (h : handle) (c : option handle) : machine := goto (suspend m h Final) (Resume c).

(** The loop of [loop_synchronously] from its condition on. *)
Definition loop (m : machine) (h : handle) (c : option handle) (count i : Z) : outcome machine :=
  if negb (i =? count) then
    let '(t, m) := create m CompletesStart in
    await_suspend (suspend m h (LoopAwaits count i t)) t h
  else Ok (final_suspend (print m (LoopReturning count)) h c).

(** The coroutine [h] goes on from its suspension point. *)
Definition body (m : machine) (h : handle) (f : frame) : outcome machine :=
  match suspended f with
  | CompletesStart => Ok (final_suspend (print m Completes) h (continuation f))
  | LoopStart count => loop (print m (Loop count)) h (continuation f) count 0
  | LoopAwaits count i tmp =>
      let* m := destroy m tmp in
      let* i := int_of (i + 1) in
      loop m h (continuation f) count i
  | StartAwaits => Ok (goto (suspend m h Final) Return)
  | Final => Err UndefinedBehaviour
  end.

(** [t2.done()]. *)
Definition done (m : machine) (h : handle) : outcome bool :=
  match heap m !! h with
  | Some (Frame Final _) => Ok true
  | Some _ => Ok false
  | None => Err UndefinedBehaviour
  end.

Definition step (m : machine) : outcome machine :=
  match next m with
  | Resume None => Err UndefinedBehaviour
  | Resume (Some h) => match heap m !! h with Some f => body m h f | None => Err UndefinedBehaviour end
  | Return =>
      match stack m with
      | [] => Err UndefinedBehaviour
      | a :: s =>
          Ok (Machine (heap m) (fresh m) (head_ m) s (deepest m) (output m)
                match a with AwaitSuspend => Return | Start t2 t => Waiting t2 t | DrainResume t2 t => Draining t2 t end)
      end
  | Waiting t2 t =>
      let* d := done m t2 in
      if negb d then Ok (goto m (Draining t2 t))
      else
        let* m := destroy m t2 in
        let* m := destroy m t in
        Ok (goto m Done)
  | Draining t2 t =>
      match head_ m with
      | [] => Ok (goto m (Waiting t2 t))
      | c :: rest => Ok (call (Machine (heap m) (fresh m) rest (stack m) (deepest m) (output m) (next m)) (DrainResume t2 t) (Resume c))
      end
  | Done => Ok m
  end.

Fixpoint run (fuel : nat) (m : machine) : outcome machine :=
  match next m with
  | Done => Ok m
  | _ => match fuel with O => Err OutOfFuel | S fuel' => let* m := step m in run fuel' m end
  end.

(** [ex.sync_wait( loop_synchronously( count ) )]: the task is created, then [start] with
    its [co_await], then the loop; the tasks are destroyed behind it. *)
Definition sync_wait (fuel : nat) (m : machine) (count : Z) : outcome machine :=
  let '(t, m) := create m (LoopStart count) in
  let '(t2, m) := create m StartAwaits in
  let* m := await_suspend (call m (Start t2 t) Return) t t2 in
  run fuel m.

(** The calls of [main], one for each of [counts]. *)
Fixpoint sync_waits (fuel : nat) (m : machine) (counts : list Z) : outcome machine :=
  match counts with
  | [] => Ok m
  | count :: counts => let* m := sync_wait fuel m count in sync_waits fuel m counts
  end.

Definition main (fuel : nat) (counts : list Z) : outcome machine :=
  sync_waits fuel (Machine ∅ 0%nat [] [] 0%nat [] Done) counts.

Example main_2 : exists h, main 30 [2; 0] =
  Ok (Machine ∅ h [] [] 4%nat [Loop 2; Completes; Completes; LoopReturning 2; Loop 0; LoopReturning 0] Done).
Proof. eexists. vm_compute. reflexivity. Qed.

(** ** The loop

    What the steps of a task do to the frames, whatever else is in the heap. *)

(** A step of a run that is not over. *)
Lemma run_step fuel m m1 : next m <> Done -> step m = Ok m1 -> run (S fuel) m = run fuel m1.
Proof. intros Hn E. cbn [run]. rewrite E. by destruct (next m). Qed.

Lemma suspend_insert h f G p fr hd s d o n :
  suspend (Machine (<[h := f]> G) fr hd s d o n) h p = Machine (<[h := Frame p (continuation f)]> G) fr hd s d o n.
Proof. unfold suspend, set_heap. cbn. by rewrite alter_insert_eq. Qed.

(** An address from [n] on is free. *)
Definition free_from (n : handle) (G : gmap handle frame) : Prop := forall h, (n <= h)%nat -> G !! h = None.

(** One task more is awaited in the loop: the task runs and jumps back into the loop. *)
Lemma loop_iterates a b p count i G fr hd s d o n fuel :
  free_from fr G -> (a < fr)%nat -> i <> count -> - 2 ^ 31 <= i < 2 ^ 31 - 1 ->
  (let* m := loop (Machine (<[a := Frame p b]> G) fr hd s d o n) a b count i in run (S (S fuel)) m) =
  (let* m := loop (Machine (<[a := Frame (LoopAwaits count i fr) b]> G) (S fr) hd (AwaitSuspend :: s)
       (Nat.max d (S (length s))) (o ++ [Completes]) (Resume (Some a))) a b count (i + 1) in run fuel m).
Proof.
  intros Hfree Ha Hi Hint. unfold loop at 1. rewrite (proj2 (Z.eqb_neq i count)) by done. cbn [negb].
  unfold create, await_suspend, set_continuation. cbn [heap fresh head_ stack deepest output next].
  rewrite insert_insert_ne by lia. rewrite suspend_insert. cbn [heap continuation].
  rewrite lookup_insert_ne, lookup_insert_eq, !outcome_bind_ok by lia.
  cbn [suspended]. unfold set_heap, call. cbn [heap fresh head_ stack deepest output next].
  rewrite (insert_insert_ne _ fr a), insert_insert_eq by lia.
  set (F := Frame (LoopAwaits count i fr) b).
  rewrite (run_step _ _ (Machine (<[a := F]> (<[fr := Frame Final (Some a)]> G)) (S fr) hd (AwaitSuspend :: s)
    (Nat.max d (S (length s))) (o ++ [Completes]) (Resume (Some a)))); [|done|].
  2:{ unfold step. cbn [next heap]. rewrite lookup_insert_ne, lookup_insert_eq by lia. unfold body, final_suspend, print, goto.
      cbn [suspended heap fresh head_ stack deepest output next continuation].
      by rewrite insert_insert_ne, suspend_insert, insert_insert_ne by lia. }
  cbn [run next]. unfold step. cbn [next heap]. rewrite lookup_insert_eq. cbn [body suspended F]. unfold body, destroy.
  cbn [suspended F heap]. rewrite lookup_insert_ne, lookup_insert_eq, outcome_bind_ok by lia. rewrite int_of_ok, outcome_bind_ok by lia.
  unfold set_heap. cbn [heap fresh head_ stack deepest output next continuation].
  by rewrite delete_insert_ne, delete_insert_id by (lia || by apply Hfree).
Qed.

(** The task awaited [k] times in turn: each time one call more stays on the stack. *)
Lemma loop_runs k a b p count i G fr hd s d o n fuel :
  free_from fr G -> (a < fr)%nat -> i + Z.of_nat k = count -> - 2 ^ 31 <= i -> count < 2 ^ 31 ->
  (let* m := loop (Machine (<[a := Frame p b]> G) fr hd s d o n) a b count i in run (2 * k + fuel) m) =
  run fuel (Machine (<[a := Frame Final b]> G) (fr + k) hd (replicate k AwaitSuspend ++ s)
    (match k with O => d | _ => Nat.max d (k + length s) end) (o ++ replicate k Completes ++ [LoopReturning count]) (Resume b)).
Proof.
  revert p i fr s d o n. induction k as [|k IH]; intros p i fr s d o n Hfree Ha Hk Hi Hc.
  - unfold loop. rewrite (proj2 (Z.eqb_eq i count)) by lia. cbn [negb outcome_bind]. rewrite outcome_bind_ok.
    unfold final_suspend, print, goto. cbn [heap fresh head_ stack deepest output next]. rewrite suspend_insert. cbn. by rewrite Nat.add_0_r.
  - replace (2 * S k + fuel)%nat with (S (S (2 * k + fuel))) by lia. rewrite loop_iterates by (done || lia).
    rewrite IH; [| intros h Hh; apply Hfree; lia | lia | lia | lia | done].
    f_equal. rewrite Nat.add_succ_comm, replicate_S_end, <- (app_assoc _ [_] s), (replicate_S k Completes), <- app_assoc.
    f_equal. destruct k; cbn [length]; lia.
Qed.

(** The calls of [await_suspend] return, one after the other. *)
Lemma run_returns k G fr hd s d o fuel :
  run (k + fuel) (Machine G fr hd (replicate k AwaitSuspend ++ s) d o Return) = run fuel (Machine G fr hd s d o Return).
Proof. by induction k. Qed.

(** The task of [sync_wait] goes on and ends; everything returns and the frames are
    destroyed. *)
Lemma wait_ends k a b ca G fr hd s d o rest : G !! a = None -> G !! b = None -> a <> b ->
  run (S (S k + S (S rest))) (Machine (<[a := Frame Final ca]> (<[b := Frame StartAwaits None]> G)) fr hd
      (replicate k AwaitSuspend ++ AwaitSuspend :: Start b a :: s) d o (Resume (Some b))) =
  Ok (Machine G fr hd s d o Done).
Proof.
  intros Ha Hb Hab.
  rewrite (run_step _ _ (Machine (<[a := Frame Final ca]> (<[b := Frame Final None]> G)) fr hd
    (replicate (S k) AwaitSuspend ++ Start b a :: s) d o Return)); [|done|].
  2:{ unfold step. cbn [next heap]. rewrite lookup_insert_ne, lookup_insert_eq by done. unfold body, goto. cbn [suspended].
      rewrite insert_insert_ne, suspend_insert by done. cbn [heap fresh head_ stack deepest output next continuation].
      by rewrite insert_insert_ne, replicate_S_end, <- app_assoc by done. }
  rewrite run_returns.
  rewrite (run_step _ _ (Machine (<[a := Frame Final ca]> (<[b := Frame Final None]> G)) fr hd s d o (Waiting b a))) by done.
  rewrite (run_step _ _ (Machine G fr hd s d o Done)); [by destruct rest | done|].
  unfold step. cbn [next heap]. unfold done. cbn [heap]. rewrite lookup_insert_ne, lookup_insert_eq, outcome_bind_ok by done.
  cbn [negb]. unfold destroy, set_heap. cbn [heap fresh head_ stack deepest output next].
  rewrite lookup_insert_ne, lookup_insert_eq, outcome_bind_ok by done. cbn [heap fresh head_ stack deepest output next].
  by rewrite delete_insert_ne, delete_insert_id, lookup_insert_eq, outcome_bind_ok, delete_insert_id by done.
Qed.

(** [sync_wait] on any heap and stack. *)
Lemma sync_wait_runs k G fr hd s d o n fuel : free_from fr G -> Z.of_nat k < 2 ^ 31 -> (3 * k + 5 <= fuel)%nat ->
  sync_wait fuel (Machine G fr hd s d o n) (Z.of_nat k) =
    Ok (Machine G (S (S fr) + k) hd s (Nat.max d (k + 2 + length s))
          (o ++ Loop (Z.of_nat k) :: replicate k Completes ++ [LoopReturning (Z.of_nat k)]) Done).
Proof.
  intros Hfree Hk Hf. set (count := Z.of_nat k). unfold sync_wait, create, await_suspend, set_continuation, call, set_heap.
  cbn [heap fresh head_ stack deepest output next]. rewrite lookup_insert_ne, lookup_insert_eq, !outcome_bind_ok by lia.
  cbn [heap fresh head_ stack deepest output next suspended].
  rewrite (insert_insert_ne _ (S fr) fr), insert_insert_eq by lia.
  set (W := Frame StartAwaits None). set (b := S fr).
  replace fuel with (S (2 * k + S (S k + S (S (fuel - (3 * k + 5))))))%nat by lia. generalize (fuel - (3 * k + 5))%nat as rest. intros rest.
  cbn [run next]. unfold step at 1. cbn [next heap]. rewrite lookup_insert_eq. unfold body, print.
  cbn [suspended continuation heap fresh head_ stack deepest output next].
  rewrite (loop_runs k fr (Some b) (LoopStart count) count 0 (<[b := W]> G)); [| | lia | lia | lia | lia].
  2:{ intros h Hh. rewrite lookup_insert_ne by lia. apply Hfree. lia. }
  cbn [app]. rewrite wait_ends; [| by apply Hfree | apply Hfree; lia | lia].
  do 2 f_equal; [destruct k; cbn [length]; lia | by rewrite <- app_assoc].
Qed.


End Nested.

(** ** understand_compiler_transform *)

Module Lowered.

Abbreviation handle := nat.

(** What a [coroutine_handle<>] points to; a null one is [None]. *)
Inductive target := Noop | At (h : handle).

(** A function pointer of a coroutine state.  [Other]: one of the functions of a coroutine
    that this file does not define. *)
Inductive function := Indeterminate | Null | g_resume_ | g_destroy_ | Other.

Inductive variant := Monostate | Value (v : Z) | Exception.

Record promise_type := Promise { continuation_ : option target; result_ : variant }.

(** The union of temporaries in [__g_state]; [Scope1]: a task, and the awaiter that has
    its [coro_]. *)
Inductive temporaries := Tmp1 | Scope1 (tmp2 tmp3 : option handle) | Tmp4.

Record g_state := GState { suspend_point : Z; x : Z; tmp : temporaries }.

(** [__coroutine_state_with_promise]; [locals] is [None] for a coroutine other than [g]. *)
Record coroutine_state := State {
  resume_fn : function;
  destroy_fn : function;
  promise : promise_type;
  locals : option g_state
}.

Abbreviation heap := (gmap handle coroutine_state).

Section Lowered.
(** [f( x )], which is declared and not defined: it throws, or returns a task for a frame
    of its own; and the functions of its frame. *)
Context (f : Z -> heap -> outcome (option handle * heap))
  (other_resume : handle -> heap -> outcome (option target * heap)) (other_destroy : handle -> heap -> outcome heap).

Definition get_promise (m : heap) (h : handle) : outcome promise_type :=
  match m !! h with Some s => Ok (promise s) | None => Err UndefinedBehaviour end.

Definition set_promise (m : heap) (h : handle) (p : promise_type) : heap :=
  alter (fun s => State (resume_fn s) (destroy_fn s) p (locals s)) h m.

Definition set_locals (m : heap) (h : handle) (g : g_state) : heap :=
  alter (fun s => State (resume_fn s) (destroy_fn s) (promise s) (Some g)) h m.

(** The constructor of [__g_state] initialises the promise, [x] and the suspend point,
    and neither function pointer. *)
Definition new_g_state (x : Z) : coroutine_state :=
  State Indeterminate Indeterminate (Promise None Monostate) (Some (GState 0 x Tmp1)).

(** [g( x )]: [initial_suspend] is never ready, so the frame is left as it is. *)
Definition g (x : Z) (m : heap) : handle * heap :=
  let h := fresh (dom m) in (h, <[h := new_g_state x]> m).

(** [awaiter::await_suspend( h )] for the awaiter of [coro]. *)
Definition await_suspend (coro h : handle) (m : heap) : outcome (option target * heap) :=
  let* p := get_promise m coro in
  Ok (Some (At coro), set_promise m coro (Promise (Some (At h)) (result_ p))).

(** [awaiter::await_resume()]: rethrows, returns the value, or throws
    [bad_variant_access]. *)
Definition await_resume (coro : handle) (m : heap) : outcome Z :=
  let* p := get_promise m coro in
  match result_ p with Value v => Ok v | Exception => Err Thrown | Monostate => Err Thrown end.

(** From the label [final_suspend] on. *)
Definition final_suspend (h : handle) (s : g_state) (m : heap) : outcome (option target * heap) :=
  let m := alter (fun c => State Null (destroy_fn c) (promise c) (Some (GState 2 (x s) Tmp4))) h m in
  let* p := get_promise m h in
  Ok (continuation_ p, m).

Definition catch_all (h : handle) (s : g_state) (m : heap) : outcome (option target * heap) :=
  let* p := get_promise m h in
  final_suspend h s (set_promise m h (Promise (continuation_ p) Exception)).

(** The function that a frame's [__destroy] points to. *)
Definition g_destroy (destroy : handle -> heap -> outcome heap) (h : handle) (m : heap) : outcome heap :=
  match m !! h with
  | Some (State _ _ _ (Some s)) =>
      let* m :=
        (if suspend_point s =? 1 then
           match tmp s with
           | Scope1 (Some t) (Some _) => destroy t m
           | Scope1 None (Some _) => Ok m
           | _ => Err UndefinedBehaviour
           end
         else Ok m) in
      Ok (delete h m)
  | _ => Err UndefinedBehaviour
  end.

(** [coroutine_handle::destroy()]; frames own each other to a depth of at most [fuel]. *)
Fixpoint destroy (fuel : nat) (h : handle) (m : heap) : outcome heap :=
  match fuel with
  | O => Err OutOfFuel
  | S fuel' =>
      match m !! h with
      | None => Err UndefinedBehaviour
      | Some s =>
          match destroy_fn s with
          | g_destroy_ => g_destroy (destroy fuel') h m
          | Other => other_destroy h m
          | _ => Err UndefinedBehaviour
          end
      end
  end.

(** [~task()]. *)
Definition destroy_task (fuel : nat) (t : option handle) (m : heap) : outcome heap :=
  match t with Some h => destroy fuel h m | None => Ok m end.

(** [__g_resume]. *)
Definition g_resume (fuel : nat) (h : handle) (m : heap) : outcome (option target * heap) :=
  match m !! h with
  | Some (State _ _ _ (Some s)) =>
      if suspend_point s =? 0 then
        match f (x s) m with
        | Err Thrown => catch_all h s m
        | Err e => Err e
        | Ok (None, m) => Err UndefinedBehaviour
        | Ok (Some t, m) => await_suspend t h (set_locals m h (GState 1 (x s) (Scope1 (Some t) (Some t))))
        end
      else if suspend_point s =? 1 then
        match tmp s with
        | Scope1 t (Some coro) =>
            let fx := await_resume coro m in
            let* m := destroy_task fuel t m in
            match fx with
            | Ok fx =>
                let* v := int_mul fx fx in
                let* p := get_promise m h in
                final_suspend h s (set_promise m h (Promise (continuation_ p) (Value v)))
            | Err Thrown => catch_all h s m
            | Err e => Err e
            end
        | _ => Err UndefinedBehaviour
        end
      else final_suspend h s m
  | _ => Err UndefinedBehaviour
  end.

(** The loop of [coroutine_handle<>::resume()]: each function returns the state that is
    resumed next. *)
Fixpoint resume (fuel : nat) (s : option target) (m : heap) : outcome heap :=
  match fuel with
  | O => Err OutOfFuel
  | S fuel' =>
      let* (s, m) :=
        match s with
        | None => Err UndefinedBehaviour
        | Some Noop => Ok (Some Noop, m)
        | Some (At h) =>
            match m !! h with
            | None => Err UndefinedBehaviour
            | Some c =>
                match resume_fn c with
                | g_resume_ => g_resume fuel' h m
                | Other => other_resume h m
                | _ => Err UndefinedBehaviour
                end
            end
        end in
      match s with Some Noop => Ok m | _ => resume fuel' s m end
  end.

(** [done()]: compares a pointer, which must have a value. *)
Definition done (h : handle) (m : heap) : outcome bool :=
  match m !! h with
  | Some c => match resume_fn c with Indeterminate => Err UndefinedBehaviour | Null => Ok true | _ => Ok false end
  | None => Err UndefinedBehaviour
  end.

(** ** The coroutine [g] *)

(** The task that [g] returns cannot be used: neither pointer of its frame is ever set, so
    resuming it, asking whether it is done and destroying it, which [~task] does, are
    undefined. *)
Lemma g_unusable (x : Z) (m : heap) fuel : let '(h, m') := g x m in
  m !! h = None /\ resume (S fuel) (Some (At h)) m' = Err UndefinedBehaviour /\ done h m' = Err UndefinedBehaviour /\
  destroy_task (S fuel) (Some h) m' = Err UndefinedBehaviour.
Proof.
  unfold g. set (h := fresh (dom m)). split; [apply not_elem_of_dom, is_fresh|].
  unfold done, destroy_task. cbn [resume destroy]. by rewrite lookup_insert_eq.
Qed.

(** [__g_resume] itself does what the coroutine means, [int fx = co_await f( x ); co_return
    fx * fx;].  First it calls [f], makes itself the continuation of the task and passes
    control to it. *)
Lemma g_resume_awaits fuel h m c x t m1 ct : m !! h = Some c -> locals c = Some (GState 0 x Tmp1) ->
  f x m = Ok (Some t, m1) -> m1 !! h = Some c -> m1 !! t = Some ct -> h <> t ->
  g_resume fuel h m = Ok (Some (At t),
    <[t := State (resume_fn ct) (destroy_fn ct) (Promise (Some (At h)) (result_ (promise ct))) (locals ct)]>
    (<[h := State (resume_fn c) (destroy_fn c) (promise c) (Some (GState 1 x (Scope1 (Some t) (Some t))))]> m1)).
Proof.
  intros Hc Hl Hf Hc1 Ht Hne. unfold g_resume. rewrite Hc. destruct c as [rc dc pc lc]. cbn [locals] in Hl. subst lc.
  cbn [suspend_point Lowered.x]. change (0 =? 0) with true. cbv iota. rewrite Hf. unfold await_suspend, set_locals, get_promise.
  rewrite (alter_alt_Some _ _ _ _ Hc1), lookup_insert_ne, Ht, outcome_bind_ok by done. unfold set_promise.
  rewrite (alter_alt_Some _ _ _ ct) by (by rewrite lookup_insert_ne). done.
Qed.

(** When the task is done, [__g_resume] takes its result, destroys it, stores the square or
    the exception, and passes control to the continuation of [g]. *)
Lemma g_resume_finishes fuel h m c x t ct : m !! h = Some c -> locals c = Some (GState 1 x (Scope1 (Some t) (Some t))) ->
  m !! t = Some ct -> destroy_fn ct = Other -> other_destroy t m = Ok (delete t m) -> h <> t ->
  (forall v, result_ (promise ct) = Value v -> - 2 ^ 31 <= v * v < 2 ^ 31) ->
  g_resume (S fuel) h m = Ok (continuation_ (promise c),
    <[h := State Null (destroy_fn c) (Promise (continuation_ (promise c))
             (match result_ (promise ct) with Value v => Value (v * v) | _ => Exception end)) (Some (GState 2 x Tmp4))]>
    (delete t m)).
Proof.
  intros Hc Hl Ht Hd Hod Hne Hv. unfold g_resume. rewrite Hc. destruct c as [rc dc pc lc]. cbn [locals] in Hl. subst lc.
  cbn [suspend_point Lowered.x tmp]. change (1 =? 0) with false. change (1 =? 1) with true. cbv iota.
  unfold await_resume, get_promise, destroy_task. cbn [destroy]. rewrite Ht, Hd, Hod, !outcome_bind_ok.
  assert (Hc' : delete t m !! h = Some (State rc dc pc (Some (GState 1 x (Scope1 (Some t) (Some t)))))) by (by rewrite lookup_delete_ne).
  destruct (result_ (promise ct)) as [|v|] eqn:Er; unfold catch_all, final_suspend, get_promise, set_promise;
    [| rewrite int_mul_ok, outcome_bind_ok by (by apply Hv) |];
    rewrite Hc', outcome_bind_ok, (alter_alt_Some _ _ _ _ Hc'), alter_insert_eq, lookup_insert_eq, outcome_bind_ok; done.
Qed.

(** Destroying a frame of [g] destroys the task it awaits, if it is suspended there. *)
Lemma g_destroy_task fuel h m c g : m !! h = Some c -> locals c = Some g -> destroy_fn c = g_destroy_ ->
  destroy (S fuel) h m =
    (let* m := (if suspend_point g =? 1 then
        match tmp g with Scope1 t (Some _) => destroy_task fuel t m | _ => Err UndefinedBehaviour end else Ok m) in
     Ok (delete h m)).
Proof.
  intros Hc Hl Hd. cbn [destroy]. rewrite Hc, Hd. unfold g_destroy. rewrite Hc. destruct c as [rc dc pc lc]. cbn [locals] in Hl. subst lc.
  by destruct (suspend_point g =? 1); [destruct (tmp g) as [|[t|] [a|]|]|].
Qed.
End Lowered.

(** With a task that returns 7 at once: [g] returns 49 to what resumed it. *)
Definition f7 (x : Z) (m : heap) : outcome (option handle * heap) :=
  let t := fresh (dom m) in Ok (Some t, <[t := State Other Other (Promise None Monostate) None]> m).

Definition resume7 (h : handle) (m : heap) : outcome (option target * heap) :=
  let* p := get_promise m h in Ok (continuation_ p, set_promise m h (Promise (continuation_ p) (Value 7))).

Example g_squares :
  let c := State g_resume_ g_destroy_ (Promise (Some Noop) Monostate) (Some (GState 0 3 Tmp1)) in
  resume f7 resume7 (fun h m => Ok (delete h m)) 9 (Some (At 0%nat)) {[ 0%nat := c ]} =
    Ok {[ 0%nat := State Null g_destroy_ (Promise (Some Noop) (Value 49)) (Some (GState 2 3 Tmp4)) ]}.
Proof. vm_compute. reflexivity. Qed.
End Lowered.
