(* ===== verification/Event.v ===== *)
(** * An event that coroutines await

    coroutine-sets/cpp-coroutine/understand_co_await/understand_co_await.cpp: the class
    [async_manual_reset_event], whose one atomic word is either set or the head of the list
    of the awaiters, which live in the frames of the suspended coroutines.  Threads run
    coroutines and call [set] and [reset]; a step is one atomic operation or one access to
    an awaiter. *)

From Stdlib Require Import ZArith Lia Bool.
From stdpp Require Import base tactics option list numbers.
From S2P Require Import Prelude.

(** The value of [m_state]: the event itself, or the head of the list. *)
Inductive word := SetState | Head (waiters : option nat).

#[global] Instance word_eq_dec : EqDecision word.
Proof. solve_decision. Defined.

(** Where a coroutine is: not in [co_await event], in [await_suspend] before its load or
    before its next exchange, with [oldValue], or suspended. *)
Inductive pc := Running | Load | Try (oldValue : word) | Suspended.

(** A coroutine, and the [m_next] of its awaiter. *)
Record coroutine := Coroutine { at_ : pc; m_next : option nat }.

(** A call of [set] that has taken a list: at the condition of its loop, or after it has
    read [next] and before it resumes the coroutine.  [Walk None]: it returns. *)
Inductive set_call := Walk (waiters : option nat) | ResumeAwaiting (waiters : nat) (next : option nat).

Record state := State { m_state : word; coroutines : list coroutine; sets : list set_call; fault : bool }.

Definition start (n : nat) (initiallySet : bool) : state :=
  State (if initiallySet then SetState else Head None) (replicate n (Coroutine Running None)) [] false.

Definition is_set (s : state) : bool := bool_decide (m_state s = SetState).

Definition goto (c : nat) (co : coroutine) (s : state) : state :=
  State (m_state s) (<[c := co]> (coroutines s)) (sets s) (fault s).

(** [co_await event] starts with [await_ready]. *)
Definition await_ready (c : nat) (co : coroutine) (s : state) : state :=
  if is_set s then s else goto c (Coroutine Load (m_next co)) s.

(** [await_suspend]: a round of its loop.  The awaiter is on no list yet, so that writing
    its [m_next] and the exchange are one step.  [weak]: the exchange fails for no
    reason. *)
Definition await_suspend (c : nat) (co : coroutine) (oldValue : word) (weak : bool) (s : state) : state :=
  match oldValue with
  | SetState => goto c (Coroutine Running (m_next co)) s
  | Head head =>
      if bool_decide (m_state s = oldValue) && negb weak then
        State (Head (Some c)) (<[c := Coroutine Suspended head]> (coroutines s)) (sets s) (fault s)
      else goto c (Coroutine (Try (m_state s)) head) s
  end.

(** [set]: the exchange. *)
Definition set (s : state) : state :=
  match m_state s with
  | SetState => s
  | Head waiters => State SetState (coroutines s) (sets s ++ [Walk waiters]) (fault s)
  end.

Definition reset (s : state) : state :=
  if is_set s then State (Head None) (coroutines s) (sets s) (fault s) else s.

(** The loop of call [i] of [set].  Resuming a coroutine that is not suspended, or using
    an awaiter of one, is a fault. *)
Definition walk (i : nat) (call : set_call) (s : state) : option state :=
  match call with
  | Walk None => None
  | Walk (Some w) =>
      match coroutines s !! w with
      | Some (Coroutine Suspended next) => Some (State (m_state s) (coroutines s) (<[i := ResumeAwaiting w next]> (sets s)) (fault s))
      | _ => Some (State (m_state s) (coroutines s) (sets s) true)
      end
  | ResumeAwaiting w next =>
      match coroutines s !! w with
      | Some (Coroutine Suspended n) =>
          Some (State (m_state s) (<[w := Coroutine Running n]> (coroutines s)) (<[i := Walk next]> (sets s)) (fault s))
      | _ => Some (State (m_state s) (coroutines s) (sets s) true)
      end
  end.

(** What happens next: coroutine [c] goes on, perhaps with an exchange that fails for no
    reason, a call of [set] or [reset] does its atomic operation, a call of [set] goes on. *)
Inductive choice := Go (c : nat) (weak : bool) | Set_ | Reset | WalkOn (i : nat).

Definition step (ch : choice) (s : state) : option state :=
  match ch with
  | Go c weak =>
      co ← coroutines s !! c;
      match at_ co with
      | Running => Some (await_ready c co s)
      | Load => Some (goto c (Coroutine (Try (m_state s)) (m_next co)) s)
      | Try oldValue => Some (await_suspend c co oldValue weak s)
      | Suspended => None
      end
  | Set_ => Some (set s)
  | Reset => Some (reset s)
  | WalkOn i => call ← sets s !! i; walk i call s
  end.

Definition event_step (s t : state) : Prop := exists ch, step ch s = Some t.

(** ** Where the awaiters are *)

Definition suspended (cs : list coroutine) (w : nat) : Prop := exists n, cs !! w = Some (Coroutine Suspended n).

(** The list from [p] on. *)
Fixpoint chain (cs : list coroutine) (p : option nat) (l : list nat) : Prop :=
  match l with
  | [] => p = None
  | w :: l => p = Some w /\ exists n, cs !! w = Some (Coroutine Suspended n) /\ chain cs n l
  end.

Definition head_chain (cs : list coroutine) (m : word) (l : list nat) : Prop :=
  match m with SetState => l = [] | Head p => chain cs p l end.

Definition call_chain (cs : list coroutine) (call : set_call) (l : list nat) : Prop :=
  match call with
  | Walk p => chain cs p l
  | ResumeAwaiting w next => exists l', l = w :: l' /\ cs !! w = Some (Coroutine Suspended next) /\ chain cs next l'
  end.

(** Each suspended coroutine is in one list, that of the event or that of a call. *)
Record lists_ok (s : state) (l : list nat) (ls : list (list nat)) : Prop := {
  ok_fault : fault s = false;
  ok_head : head_chain (coroutines s) (m_state s) l;
  ok_calls : Forall2 (call_chain (coroutines s)) (sets s) ls;
  ok_once : NoDup (l ++ concat ls);
  ok_all : forall w, suspended (coroutines s) w <-> w ∈ l ++ concat ls
}.

Lemma chain_frame cs p l c co : c ∉ l -> chain cs p l -> chain (<[c := co]> cs) p l.
Proof.
  revert p. induction l as [|w l IH]; intros p; [done|]. rewrite not_elem_of_cons. intros [Hw Hl] (-> & n & E & Hc).
  split; [done|]. exists n. rewrite list_lookup_insert_ne by done. auto.
Qed.

Lemma head_frame cs m l c co : c ∉ l -> head_chain cs m l -> head_chain (<[c := co]> cs) m l.
Proof. destruct m; [done | apply chain_frame]. Qed.

Lemma call_frame cs call l c co : c ∉ l -> call_chain cs call l -> call_chain (<[c := co]> cs) call l.
Proof.
  destruct call as [p | w next]; [apply chain_frame|]. intros Hc (l' & -> & E & Hl). apply not_elem_of_cons in Hc as [Hw Hc].
  exists l'. rewrite list_lookup_insert_ne by done. split_and!; [done | done | by apply chain_frame].
Qed.

Lemma calls_frame cs calls ls c co : c ∉ concat ls -> Forall2 (call_chain cs) calls ls -> Forall2 (call_chain (<[c := co]> cs)) calls ls.
Proof.
  intros Hc H. revert Hc. induction H as [|call l calls ls Hl _ IH]; [by constructor|]. cbn [concat].
  rewrite not_elem_of_app. intros [H1 H2]. constructor; [by apply call_frame | auto].
Qed.

(** A coroutine that is not suspended goes to where it is not suspended either. *)
Lemma goto_ok c co co' s l ls : coroutines s !! c = Some co -> at_ co <> Suspended -> at_ co' <> Suspended ->
  lists_ok s l ls -> lists_ok (goto c co' s) l ls.
Proof.
  intros E Hco Hco' [Hf Hh Hc Hn Ha].
  assert (Hout : c ∉ l ++ concat ls).
  { rewrite <- Ha. intros (n & E'). rewrite E in E'. injection E' as ->. by apply Hco. }
  pose proof Hout as Hout'. rewrite not_elem_of_app in Hout'. destruct Hout' as [H1 H2].
  constructor; cbn [goto fault coroutines m_state sets]; [done | by apply head_frame | by apply calls_frame | done|].
  intros w. rewrite <- Ha. unfold suspended. destruct (decide (w = c)) as [->|Hne]; [|by rewrite list_lookup_insert_ne].
  rewrite list_lookup_insert_eq by (by eapply lookup_lt_Some). rewrite E.
  split; intros (n & [= ->]); [by destruct Hco' | by destruct Hco].
Qed.

(** The exchange that succeeds. *)
Lemma awaiter_pushed_ok c co head s l ls : coroutines s !! c = Some co -> at_ co <> Suspended -> m_state s = Head head ->
  lists_ok s l ls ->
  lists_ok (State (Head (Some c)) (<[c := Coroutine Suspended head]> (coroutines s)) (sets s) (fault s)) (c :: l) ls.
Proof.
  intros E Hco Em [Hf Hh Hc Hn Ha]. rewrite Em in Hh. cbn [head_chain] in Hh.
  assert (Hout : c ∉ l ++ concat ls).
  { rewrite <- Ha. intros (n & E'). rewrite E in E'. injection E' as ->. by apply Hco. }
  pose proof Hout as Hout'. rewrite not_elem_of_app in Hout'. destruct Hout' as [H1 H2].
  pose proof (lookup_lt_Some _ _ _ E) as Hlt.
  constructor; cbn [fault coroutines m_state sets]; [done | | by apply calls_frame | by constructor|].
  - cbn [head_chain chain]. split; [done|]. exists head. rewrite list_lookup_insert_eq by done. split; [done | by apply chain_frame].
  - intros w. cbn [app]. rewrite elem_of_cons, <- Ha. unfold suspended. destruct (decide (w = c)) as [->|Hne].
    + rewrite list_lookup_insert_eq by done. split; [by left | by eexists].
    + rewrite list_lookup_insert_ne by done. tauto.
Qed.

Lemma set_ok s l ls : lists_ok s l ls -> exists ls', lists_ok (set s) [] ls'.
Proof.
  intros [Hf Hh Hc Hn Ha]. unfold set. destruct (m_state s) as [|p] eqn:Em.
  { exists ls. cbn [head_chain] in Hh. subst l. constructor; try done. by rewrite Em. }
  exists (ls ++ [l]). assert (Hp : l ++ concat ls ≡ₚ concat (ls ++ [l])).
  { rewrite concat_app. cbn [concat]. by rewrite app_nil_r, Permutation_app_comm. }
  constructor; cbn [fault coroutines m_state sets]; [done | done | | by rewrite <- Hp | intros w; by rewrite <- Hp].
  apply Forall2_app; [done|]. by constructor.
Qed.

(** A call of [set] goes on. *)
Lemma walk_ok i call s t l ls : sets s !! i = Some call -> walk i call s = Some t -> lists_ok s l ls ->
  exists lc, ls !! i = Some lc /\ lc <> [] /\
    match call with
    | Walk _ => lists_ok t l ls
    | ResumeAwaiting w _ => exists lc', lc = w :: lc' /\ lists_ok t l (<[i := lc']> ls)
    end.
Proof.
  intros Ei Ew [Hf Hh Hc Hn Ha]. destruct (Forall2_lookup_l _ _ _ _ _ Hc Ei) as (lc & El & Hl).
  exists lc. split; [done|]. destruct call as [[w|] | w next]; cbn [walk] in Ew; [| done |].
  - destruct lc as [|w' lc]; [done|]. destruct Hl as ([= <-] & n & E & Hl). rewrite E in Ew. injection Ew as <-.
    split; [done|]. constructor; cbn [fault coroutines m_state sets]; try done.
    rewrite <- (list_insert_id ls i (w :: lc)) by done. apply Forall2_insert; [done|]. by exists lc.
  - destruct Hl as (lc' & -> & E & Hl). rewrite E in Ew. injection Ew as <-. split; [done|]. exists lc'. split; [done|].
    assert (Hp : l ++ concat ls ≡ₚ w :: l ++ concat (<[i := lc']> ls)).
    { rewrite <- (take_drop_middle ls i (w :: lc')) at 1 by done. rewrite insert_take_drop by (by eapply lookup_lt_Some).
      rewrite !concat_app. cbn [concat]. rewrite Permutation_middle. solve_Permutation. }
    pose proof Hn as Hn'. rewrite Hp in Hn'. apply list.NoDup_cons in Hn' as [Hw Hn']. pose proof Hw as Hw'.
    rewrite not_elem_of_app in Hw'. destruct Hw' as [Hw1 Hw2]. pose proof (lookup_lt_Some _ _ _ E) as Hlt.
    constructor; cbn [fault coroutines m_state sets]; [done | by apply head_frame | | done |].
    + apply (calls_frame _ _ _ w _ Hw2). by apply Forall2_insert.
    + intros v. specialize (Ha v). rewrite Hp, elem_of_cons in Ha. unfold suspended in *. destruct (decide (v = w)) as [->|Hne].
      * rewrite list_lookup_insert_eq by done. split; [by intros (n & [= ])|]. intros Hv. by destruct Hw.
      * rewrite list_lookup_insert_ne by done. rewrite Ha. tauto.
Qed.

Lemma event_step_ok ch s t l ls : step ch s = Some t -> lists_ok s l ls -> exists l' ls', lists_ok t l' ls'.
Proof.
  intros E Hok. destruct ch as [c weak | | | i]; cbn [step] in E.
  - apply bind_Some in E as (co & Ec & E). destruct (at_ co) as [| | old |] eqn:Ea; try done; injection E as <-.
    + unfold await_ready. destruct (is_set s); [by exists l, ls|]. exists l, ls. apply (goto_ok c co); try done. by rewrite Ea.
    + exists l, ls. apply (goto_ok c co); try done. by rewrite Ea.
    + unfold await_suspend. destruct old as [|head]; [exists l, ls; apply (goto_ok c co); try done; by rewrite Ea|].
      destruct (bool_decide_reflect (m_state s = Head head)) as [Em|]; cbn [andb]; [destruct weak; cbn [negb]|].
      1, 3: exists l, ls; apply (goto_ok c co); try done; by rewrite Ea.
      exists (c :: l), ls. apply (awaiter_pushed_ok c co); try done. by rewrite Ea.
  - injection E as <-. destruct (set_ok s l ls Hok) as (ls' & H). by exists [], ls'.
  - injection E as <-. unfold reset, is_set. destruct (bool_decide_reflect (m_state s = SetState)) as [Em|]; [|by exists l, ls].
    exists l, ls. destruct Hok as [Hf Hh Hc Hn Ha]. rewrite Em in Hh. cbn [head_chain] in Hh. subst l. by constructor.
  - apply bind_Some in E as (call & Ei & Ew). destruct (walk_ok i call s t l ls Ei Ew Hok) as (lc & _ & _ & H).
    destruct call; [by exists l, ls|]. destruct H as (lc' & _ & H). by exists l, (<[i := lc']> ls).
Qed.

Lemma event_start_ok n initiallySet : lists_ok (start n initiallySet) [] [].
Proof.
  constructor; cbn [start fault coroutines m_state sets app concat]; [done | by destruct initiallySet | constructor | constructor|].
  intros w. split; [|by intros ?%elem_of_nil]. intros (k & E). apply lookup_replicate in E as [[= ] _].
Qed.

Lemma event_reachable_ok n initiallySet s : reaches event_step (start n initiallySet) s -> exists l ls, lists_ok s l ls.
Proof.
  intros H. apply (reaches_invariant event_step (fun s => exists l ls, lists_ok s l ls) _ s) in H; [done | | by exists [], []; apply event_start_ok].
  intros t u (l & ls & Hok) (ch & E). by eapply event_step_ok.
Qed.

(** C22. The awaiters of [async_manual_reset_event], in every interleaving of coroutines
    that await it, again and again, with calls of [set] and [reset]: no call of [set]
    uses the awaiter of a coroutine that has been resumed already or resumes one that is
    not suspended; each suspended coroutine is in one list exactly, that of the event or
    the one that a call of [set] has taken; and once the event is set and its calls have
    returned, no coroutine is suspended: no wake-up is lost. *)
Theorem no_wake_up_lost n initiallySet s : reaches event_step (start n initiallySet) s ->
  fault s = false /\
  (exists l ls, head_chain (coroutines s) (m_state s) l /\ Forall2 (call_chain (coroutines s)) (sets s) ls /\
     NoDup (l ++ concat ls) /\ forall w, suspended (coroutines s) w <-> w ∈ l ++ concat ls) /\
  (m_state s = SetState -> Forall (eq (Walk None)) (sets s) -> forall w, ~ suspended (coroutines s) w).
Proof.
  intros (l & ls & [Hf Hh Hc Hn Ha])%event_reachable_ok. split; [done|]. split; [by exists l, ls|].
  intros Em Hs w Hw. apply Ha in Hw. rewrite Em in Hh. cbn [head_chain] in Hh. subst l. cbn [app] in Hw.
  assert (concat ls = []) as Ec; [|rewrite Ec in Hw; by apply elem_of_nil in Hw].
  clear Ha Hn Hw. induction Hc as [|call l calls ls Hl _ IH]; [done|]. apply list.Forall_cons in Hs as [<- Hs].
  cbn [concat]. rewrite IH by done. destruct l; [done|]. by destruct Hl.
Qed.

(** ** A call of [set] wakes every awaiter *)

Definition set_step (s t : state) : Prop := exists i, step (WalkOn i) s = Some t.

(** A coroutine after it has been resumed, if it was suspended. *)
Definition wake (co : coroutine) : coroutine :=
  match at_ co with Suspended => Coroutine Running (m_next co) | _ => co end.

Lemma concat_nonempty {A} (ls : list (list A)) : concat ls <> [] -> exists i lc, ls !! i = Some lc /\ lc <> [].
Proof.
  induction ls as [|[|x lc] ls IH]; cbn [concat]; [done | | intros _; by exists 0%nat, (x :: lc)].
  intros (i & lc & E)%IH. by exists (S i), lc.
Qed.

(** A call with a coroutine left resumes it, in two steps or in one. *)
Lemma walk_resumes i w lc s ls : ls !! i = Some (w :: lc) -> lists_ok s [] ls ->
  exists t n, reaches set_step s t /\ m_state t = m_state s /\ coroutines s !! w = Some (Coroutine Suspended n) /\
    coroutines t = <[w := Coroutine Running n]> (coroutines s) /\ lists_ok t [] (<[i := lc]> ls).
Proof.
  intros El Hok. destruct (Forall2_lookup_r _ _ _ _ _ (ok_calls _ _ _ Hok) El) as (call & Ei & Hl).
  assert (Hres : forall s next, sets s !! i = Some (ResumeAwaiting w next) -> coroutines s !! w = Some (Coroutine Suspended next) ->
    lists_ok s [] ls -> exists t, set_step s t /\ m_state t = m_state s /\
      coroutines t = <[w := Coroutine Running next]> (coroutines s) /\ lists_ok t [] (<[i := lc]> ls)).
  { clear s Hok call Ei Hl. intros s next Ei E Hok. pose proof (walk_ok i (ResumeAwaiting w next) s) as Hw. cbn [walk] in Hw. rewrite E in Hw.
    destruct (Hw _ [] ls Ei eq_refl Hok) as (lc2 & El2 & _ & lc' & -> & Hok').
    rewrite El in El2. injection El2 as <-. eexists. split_and!; [exists i; cbn [step]; rewrite Ei; cbn; by rewrite E | done | done | done]. }
  destruct call as [p | w' next].
  - destruct Hl as (-> & n & E & Hl). pose proof (walk_ok i (Walk (Some w)) s) as Hw. cbn [walk] in Hw. rewrite E in Hw.
    destruct (Hw _ [] ls Ei eq_refl Hok) as (lc2 & _ & _ & Hok'). pose proof (lookup_lt_Some _ _ _ Ei) as Hlt.
    destruct (Hres (State (m_state s) (coroutines s) (<[i := ResumeAwaiting w n]> (sets s)) (fault s)) n) as (t & Ht & Em & Ec & Hok'');
      [by apply list_lookup_insert_eq | done | done|].
    exists t, n. split_and!; [| done | done | done | done]. eapply reaches_step; [|exact Ht].
    apply reaches_one. exists i. cbn [step]. rewrite Ei. cbn. by rewrite E.
  - destruct Hl as (l' & [= <- <-] & E & Hl). destruct (Hres s next Ei E Hok) as (t & Ht & Em & Ec & Hok').
    exists t, next. split_and!; try done. by apply reaches_one.
Qed.

Lemma calls_end k s ls : length (concat ls) = k -> lists_ok s [] ls ->
  exists t, reaches set_step s t /\ m_state t = m_state s /\ coroutines t = map wake (coroutines s).
Proof.
  revert s ls. induction k as [|k IH]; intros s ls Hk Hok.
  - exists s. split; [constructor|]. split; [done|]. apply list_eq. intros w. rewrite list_lookup_fmap.
    destruct (coroutines s !! w) as [[p nx]|] eqn:E; [|done]. cbn. unfold wake. destruct p; cbn [at_]; try done.
    assert (w ∈ [] ++ concat ls) as Hw by (apply (ok_all _ _ _ Hok); by exists nx).
    apply nil_length_inv in Hk. rewrite Hk in Hw. by apply elem_of_nil in Hw.
  - destruct (concat_nonempty ls) as (i & lc & Ei & Hlc); [by intros E; rewrite E in Hk|].
    destruct lc as [|w lc]; [done|]. destruct (walk_resumes i w lc s ls Ei Hok) as (t & n & Ht & Em & E & Ec & Hok').
    destruct (IH t (<[i := lc]> ls)) as (u & Hu & Eu & Ecu); [|done|].
    + rewrite <- (take_drop_middle ls i (w :: lc)) in Hk by done. rewrite insert_take_drop by (by eapply lookup_lt_Some).
      rewrite !concat_app, !length_app in *. cbn [concat app length] in *. rewrite !length_app in *. lia.
    + exists u. split; [by eapply reaches_trans|]. split; [by rewrite Eu|]. rewrite Ecu, Ec.
      apply list_eq. intros v. rewrite !list_lookup_fmap. destruct (decide (v = w)) as [->|Hne]; [|by rewrite list_lookup_insert_ne].
      rewrite list_lookup_insert_eq by (by eapply lookup_lt_Some). by rewrite E.
Qed.


(** Two coroutines await the event, the second with an exchange that has failed once. *)
Definition two_wait : list choice := [Go 0 false; Go 1 false; Go 1 false; Go 0 false; Go 0 false; Go 1 false; Go 1 false].

Fixpoint steps (chs : list choice) (s : state) : option state :=
  match chs with [] => Some s | ch :: chs => t ← step ch s; steps chs t end.

Lemma steps_reaches chs s t u : reaches event_step s t -> steps chs t = Some u -> reaches event_step s u.
Proof.
  revert t. induction chs as [|ch chs IH]; intros t Ht; cbn [steps]; [by intros [= <-]|].
  intros (v & E & H)%bind_Some. apply (IH v); [|done]. eapply reaches_step; [exact Ht | by exists ch].
Qed.

Definition both_suspended : state :=
  State (Head (Some 1%nat)) [Coroutine Suspended None; Coroutine Suspended (Some 0%nat)] [] false.

Example two_wait_suspended : steps two_wait (start 2 false) = Some both_suspended.
Proof. reflexivity. Qed.

Lemma no_wake_up_lost_witness : fault both_suspended = false /\
  (exists l ls, head_chain (coroutines both_suspended) (m_state both_suspended) l /\
     Forall2 (call_chain (coroutines both_suspended)) (sets both_suspended) ls /\
     NoDup (l ++ concat ls) /\ forall w, suspended (coroutines both_suspended) w <-> w ∈ l ++ concat ls) /\
  (m_state both_suspended = SetState -> Forall (eq (Walk None)) (sets both_suspended) -> forall w, ~ suspended (coroutines both_suspended) w).
Proof.
  apply (no_wake_up_lost 2 false both_suspended). apply (steps_reaches two_wait _ (start 2 false)); [constructor | reflexivity].
Defined.

