(* ===== verification/Coroutine.v ===== *)
(** * Stackful coroutines

    coroutine-sets/c-coroutine: coroutine.h, coroutine.c and main.c.  All coroutines of a
    schedule run on its one stack; a coroutine that yields has the bytes it uses there
    copied to a block of its own, and copied back when it is resumed.

    A coroutine's code is a parameter.  Between two calls of the library it computes on
    its registers, its part of the stack and what else there is in the program (the world):
    not on another coroutine's part of the stack, which it could reach through a pointer
    only.  What a call returns is its next input. *)

From Stdlib Require Import ZArith Lia Bool.
From stdpp Require Import base tactics option list numbers.
From S2P Require Import Prelude.

#[local] Open Scope Z_scope.

Definition STACK_SIZE : Z := 1024 * 1024.
Definition DEFAULT_COROUTINE : Z := 16.

Definition COROUTINE_DEAD : Z := 0.
Definition COROUTINE_READY : Z := 1.
Definition COROUTINE_RUNNING : Z := 2.
Definition COROUTINE_SUSPEND : Z := 3.

(** ** The table of coroutines

    The members [nco], [cap] and [co] of struct schedule; a null pointer is [None]. *)

Record table (A : Type) := Table { nco : Z; cap : Z; co : list (option A) }.
Arguments Table {A}. Arguments nco {A}. Arguments cap {A}. Arguments co {A}.

(** The search of [coroutine_new] for a null pointer, [todo] rounds of it left. *)
Fixpoint place_loop {A} (todo : nat) (i : Z) (x : A) (t : table A) : outcome (Z * table A) :=
  match todo with
  | O => Err AssertionFailure
  | S todo =>
      let* n := int_of (i + nco t) in
      let id := n mod cap t in
      let* c := array_at (co t) id in
      match c with
      | None => let* co := array_set (co t) id (Some x) in Ok (id, Table (nco t + 1) (cap t) co)
      | Some _ => place_loop todo (i + 1) x t
      end
  end.

(** [coroutine_new] once it has its coroutine. *)
Definition place {A} (x : A) (t : table A) : outcome (Z * table A) :=
  if cap t <=? nco t then
    let id := cap t in
    let* cap2 := int_mul 2 (cap t) in
    let* co := array_set (co t ++ replicate (Z.to_nat (cap t)) None) id (Some x) in
    Ok (id, Table (nco t + 1) cap2 co)
  else place_loop (Z.to_nat (cap t)) 0 x t.

Definition erase {A} (id : Z) (t : table A) : outcome (table A) :=
  let* co := array_set (co t) id None in Ok (Table (nco t - 1) (cap t) co).

Definition change {A} (id : Z) (x : A) (t : table A) : outcome (table A) :=
  let* co := array_set (co t) id (Some x) in Ok (Table (nco t) (cap t) co).

(** What [S->co[id]] points to, where the code follows the pointer. *)
Definition deref {A} (id : Z) (t : table A) : outcome A :=
  let* c := array_at (co t) id in
  match c with Some c => Ok c | None => Err UndefinedBehaviour end.

(** The pointer to the schedule goes to [mainfunc] as two ints. *)
Definition split_ptr (ptr : Z) : Z * Z := (u32 ptr, u32 (Z.shiftr ptr 32)).
Definition join_ptr (low32 hi32 : Z) : Z := Z.lor low32 (u64 (Z.shiftl hi32 32)).

(** What a coroutine asks of the library, and what it gets back. *)
Inductive request (func ud : Type) :=
| Yield | Return | New (f : func) (u : ud) | Resume (id : Z) | Status (id : Z) | Running.
Arguments Yield {func ud}. Arguments Return {func ud}. Arguments New {func ud}. Arguments Resume {func ud}.
Arguments Status {func ud}. Arguments Running {func ud}.

Inductive answer := Go | Result (v : Z).

(** The registers, and the part of the stack that is in use: its bytes from the lowest address up. *)
Record frame (R : Type) := Frame { regs : R; bytes : list Z }.
Arguments Frame {R}. Arguments regs {R}. Arguments bytes {R}.

Section Library.
Context {W R func ud : Type}.
Context (entry : R) (body : func -> ud -> answer -> W -> frame R -> request func ud * W * frame R).

(** [ctx] is what [swapcontext] saved: the registers, of which the stack pointer as the
    number of bytes in use.  [stack] is a block of [cap] bytes, none when it is null. *)
Record coroutine := Coroutine {
  func_ : func; ud_ : ud; ctx : option (R * Z);
  scap : Z; size : Z; status : Z; stack : list Z
}.

Record schedule := Schedule { sstack : list Z; running : Z; tab : table coroutine }.

Definition _co_new (f : func) (u : ud) : coroutine := Coroutine f u None 0 0 COROUTINE_READY [].

(** [mem i] is the byte that malloc leaves at offset [i] of the stack. *)
Definition coroutine_open (mem : nat -> Z) : schedule :=
  Schedule (mem <$> seq 0 (Z.to_nat STACK_SIZE)) (-1)
    (Table 0 DEFAULT_COROUTINE (replicate (Z.to_nat DEFAULT_COROUTINE) None)).

Definition coroutine_new (s : schedule) (f : func) (u : ud) : outcome (Z * schedule) :=
  let* (id, t) := place (_co_new f u) (tab s) in Ok (id, Schedule (sstack s) (running s) t).

Definition with_status (st : Z) (c : coroutine) : coroutine :=
  Coroutine (func_ c) (ud_ c) (ctx c) (scap c) (size c) st (stack c).

Definition set_running (id : Z) (s : schedule) : schedule := Schedule (sstack s) id (tab s).
Definition set_stack (st : list Z) (s : schedule) : schedule := Schedule st (running s) (tab s).
Definition set_tab (t : table coroutine) (s : schedule) : schedule := Schedule (sstack s) (running s) t.

(** The end of [mainfunc], when the coroutine's function has returned. *)
Definition mainfunc_end (s : schedule) : outcome schedule :=
  let id := running s in
  let* _ := deref id (tab s) in
  let* t := erase id (tab s) in Ok (Schedule (sstack s) (-1) t).

(** [d] is [top - &dummy].  A new block has 0 for what is not initialised. *)
Definition _save_stack (c : coroutine) (st : list Z) (d : Z) : outcome coroutine :=
  cxx_assert (d <=? STACK_SIZE) ;;*
  let '(cap, block) := if scap c <? d then (d, replicate (Z.to_nat d) 0) else (scap c, stack c) in
  let* bs := mread st (STACK_SIZE - d) d in
  let* block := mwrite block 0 bs in
  Ok (Coroutine (func_ c) (ud_ c) (ctx c) cap d (status c) block).

(** [swapcontext] saves [r].  The variable [C] lies above [dummy], so that the assertion
    on its address holds where the one of [_save_stack] does. *)
Definition coroutine_yield (s : schedule) (r : R) (d : Z) : outcome schedule :=
  let id := running s in
  cxx_assert (0 <=? id) ;;*
  let* c := deref id (tab s) in
  let* c := _save_stack c (sstack s) d in
  let* t := change id (Coroutine (func_ c) (ud_ c) (Some (r, d)) (scap c) (size c) COROUTINE_SUSPEND (stack c)) (tab s) in
  Ok (Schedule (sstack s) (-1) t).

Definition coroutine_status (s : schedule) (id : Z) : outcome Z :=
  cxx_assert ((0 <=? id) && (id <? cap (tab s))) ;;*
  let* c := array_at (co (tab s)) id in
  match c with None => Ok COROUTINE_DEAD | Some c => Ok (status c) end.

Definition coroutine_running (s : schedule) : Z := running s.

(** [switch r d] goes on with the coroutine that is running, its registers [r] and [d] bytes of
    the stack in use, until it yields or ends. *)
Definition coroutine_resume (switch : R -> Z -> schedule -> W -> outcome (schedule * W))
    (s : schedule) (id : Z) (w : W) : outcome (schedule * W) :=
  cxx_assert (running s =? -1) ;;*
  cxx_assert ((0 <=? id) && (id <? cap (tab s))) ;;*
  let* c := array_at (co (tab s)) id in
  match c with
  | None => Ok (s, w)
  | Some c =>
      if status c =? COROUTINE_READY then
        let* t := change id (with_status COROUTINE_RUNNING c) (tab s) in
        switch entry 0 (Schedule (sstack s) id t) w
      else if status c =? COROUTINE_SUSPEND then
        let* bs := mread (stack c) 0 (size c) in
        let* st := mwrite (sstack s) (STACK_SIZE - size c) bs in
        let* t := change id (with_status COROUTINE_RUNNING c) (tab s) in
        match ctx c with
        | Some (r, d) => switch r d (Schedule st id t) w
        | None => Err UndefinedBehaviour
        end
      else Err AssertionFailure
  end.

(** The running coroutine, from one call of the library to the next; [fuel] bounds the calls. *)
Fixpoint run (fuel : nat) (a : answer) (r : R) (d : Z) (s : schedule) (w : W) : outcome (schedule * W) :=
  match fuel with
  | O => Err OutOfFuel
  | S fuel =>
      let* c := deref (running s) (tab s) in
      let* bs := mread (sstack s) (STACK_SIZE - d) d in
      let '(q, w, f) := body (func_ c) (ud_ c) a w (Frame r bs) in
      let r := regs f in let d := zlen (bytes f) in
      let* st := mwrite (sstack s) (STACK_SIZE - d) (bytes f) in
      let s := set_stack st s in
      match q with
      | Yield => let* s := coroutine_yield s r d in Ok (s, w)
      | Return => let* s := mainfunc_end s in Ok (s, w)
      | New f u => let* (id, s) := coroutine_new s f u in run fuel (Result id) r d s w
      | Resume id => let* (s, w) := coroutine_resume (run fuel Go) s id w in run fuel Go r d s w
      | Status id => let* v := coroutine_status s id in run fuel (Result v) r d s w
      | Running => run fuel (Result (coroutine_running s)) r d s w
      end
  end.

(** The coroutines that are deleted, each with its block. *)
Definition coroutine_close (s : schedule) : list coroutine := omap id (co (tab s)).

(** The calls of the main program. *)
Inductive main_call := CNew (f : func) (u : ud) | CResume (id : Z) | CStatus (id : Z).

Definition main_step (fuel : nat) (c : main_call) (s : schedule) (w : W) : outcome (Z * schedule * W) :=
  match c with
  | CNew f u => let* (id, s) := coroutine_new s f u in Ok (id, s, w)
  | CResume id => let* (s, w) := coroutine_resume (run fuel Go) s id w in Ok (0, s, w)
  | CStatus id => let* v := coroutine_status s id in Ok (v, s, w)
  end.

Fixpoint main_run (fuel : nat) (l : list main_call) (s : schedule) (w : W) : outcome (list Z * schedule * W) :=
  match l with
  | [] => Ok ([], s, w)
  | c :: l =>
      let* (v, s, w) := main_step fuel c s w in
      let* (vs, s, w) := main_run fuel l s w in Ok (v :: vs, s, w)
  end.

(** ** The specification: every coroutine has a stack of its own *)

Inductive state := Ready | Active | Suspended (f : frame R).
Record private := Private { p_func : func; p_ud : ud; p_state : state }.
Record system := System { p_running : Z; p_tab : table private }.

Definition spec_status (c : option private) : Z :=
  match c with
  | None => COROUTINE_DEAD
  | Some c => match p_state c with Ready => COROUTINE_READY | Active => COROUTINE_RUNNING | Suspended _ => COROUTINE_SUSPEND end
  end.

Definition spec_get_status (s : system) (id : Z) : outcome Z :=
  cxx_assert ((0 <=? id) && (id <? cap (p_tab s))) ;;*
  let* c := array_at (co (p_tab s)) id in Ok (spec_status c).

Definition spec_new (s : system) (f : func) (u : ud) : outcome (Z * system) :=
  let* (id, t) := place (Private f u Ready) (p_tab s) in Ok (id, System (p_running s) t).

(** A coroutine that is resumed goes on with the frame that it had. *)
Definition spec_resume (switch : frame R -> system -> W -> outcome (system * W)) (s : system) (id : Z) (w : W)
    : outcome (system * W) :=
  cxx_assert (p_running s =? -1) ;;*
  cxx_assert ((0 <=? id) && (id <? cap (p_tab s))) ;;*
  let* c := array_at (co (p_tab s)) id in
  match c with
  | None => Ok (s, w)
  | Some c =>
      let go f := let* t := change id (Private (p_func c) (p_ud c) Active) (p_tab s) in switch f (System id t) w in
      match p_state c with
      | Ready => go (Frame entry [])
      | Suspended f => go f
      | Active => Err AssertionFailure
      end
  end.

Definition spec_stop (s : system) (f : frame R) : outcome system :=
  let id := p_running s in
  cxx_assert (0 <=? id) ;;*
  let* c := deref id (p_tab s) in
  let* t := change id (Private (p_func c) (p_ud c) (Suspended f)) (p_tab s) in Ok (System (-1) t).

Definition spec_end (s : system) : outcome system :=
  let id := p_running s in
  let* _ := deref id (p_tab s) in
  let* t := erase id (p_tab s) in Ok (System (-1) t).

Fixpoint spec_run (fuel : nat) (a : answer) (f : frame R) (s : system) (w : W) : outcome (system * W) :=
  match fuel with
  | O => Err OutOfFuel
  | S fuel =>
      let* c := deref (p_running s) (p_tab s) in
      let '(q, w, f) := body (p_func c) (p_ud c) a w f in
      guard_defined (zlen (bytes f) <=? STACK_SIZE) ;;*
      match q with
      | Yield => let* s := spec_stop s f in Ok (s, w)
      | Return => let* s := spec_end s in Ok (s, w)
      | New g u => let* (id, s) := spec_new s g u in spec_run fuel (Result id) f s w
      | Resume id => let* (s, w) := spec_resume (spec_run fuel Go) s id w in spec_run fuel Go f s w
      | Status id => let* v := spec_get_status s id in spec_run fuel (Result v) f s w
      | Running => spec_run fuel (Result (p_running s)) f s w
      end
  end.

Definition spec_step (fuel : nat) (c : main_call) (s : system) (w : W) : outcome (Z * system * W) :=
  match c with
  | CNew f u => let* (id, s) := spec_new s f u in Ok (id, s, w)
  | CResume id => let* (s, w) := spec_resume (spec_run fuel Go) s id w in Ok (0, s, w)
  | CStatus id => let* v := spec_get_status s id in Ok (v, s, w)
  end.

Fixpoint spec_main (fuel : nat) (l : list main_call) (s : system) (w : W) : outcome (list Z * system * W) :=
  match l with
  | [] => Ok ([], s, w)
  | c :: l =>
      let* (v, s, w) := spec_step fuel c s w in
      let* (vs, s, w) := spec_main fuel l s w in Ok (v :: vs, s, w)
  end.

Definition spec_open : system := System (-1) (Table 0 DEFAULT_COROUTINE (replicate (Z.to_nat DEFAULT_COROUTINE) None)).

(** The private view of a coroutine: its frame is the used part of its block. *)
Definition view (c : coroutine) : private :=
  Private (func_ c) (ud_ c)
    (if status c =? COROUTINE_READY then Ready
     else if status c =? COROUTINE_SUSPEND then
       match ctx c with Some (r, d) => Suspended (Frame r (slice (stack c) 0 d)) | None => Active end
     else Active).

Definition map_table {A B} (g : A -> B) (t : table A) : table B := Table (nco t) (cap t) (option_map g <$> co t).
Definition view_all (s : schedule) : system := System (running s) (map_table view (tab s)).

(** *** What holds between any two calls *)

Definition co_ok (c : coroutine) : Prop :=
  zlen (stack c) = scap c /\
  (status c = COROUTINE_READY \/ status c = COROUTINE_RUNNING \/
   status c = COROUTINE_SUSPEND /\ exists r, ctx c = Some (r, size c) /\ 0 <= size c <= scap c /\ size c <= STACK_SIZE).

Definition slot_ok (c : option coroutine) : Prop := match c with Some c => co_ok c | None => True end.

Definition sch_ok (s : schedule) : Prop := zlen (sstack s) = STACK_SIZE /\ Forall slot_ok (co (tab s)).

(** ** Two computations side by side *)

Definition related {A B} (P : A -> B -> Prop) (x : outcome A) (y : outcome B) : Prop :=
  match x, y with
  | Ok a, Ok b => P a b
  | Err f, Err g => f = g
  | _, _ => False
  end.

Lemma related_bind {A B A' B'} (P : A -> B -> Prop) (Q : A' -> B' -> Prop) x y k l :
  related P x y -> (forall a b, P a b -> related Q (k a) (l b)) -> related Q (mbind k x) (mbind l y).
Proof. destruct x as [a|f], y as [b|g]; cbn; [auto | done..|]. by intros -> _. Qed.

Lemma related_same {A A' B'} (Q : A' -> B' -> Prop) (x : outcome A) k l :
  (forall a, x = Ok a -> related Q (k a) (l a)) -> related Q (mbind k x) (mbind l x).
Proof. destruct x; cbn; auto. Qed.

(** The second computation is the image of the first. *)
Lemma related_image {A B} (g : A -> B) (x : outcome A) (y : outcome B) :
  y = (let* a := x in Ok (g a)) -> related (fun a b => x = Ok a /\ b = g a) x y.
Proof. intros ->. by destruct x. Qed.

Lemma mread_fmap {A B} (g : A -> B) l o n : mread (g <$> l) o n = (let* bs := mread l o n in Ok (g <$> bs)).
Proof.
  unfold mread, in_block. rewrite length_fmap. destruct (_ && _); [|done]. cbn. f_equal. unfold slice.
  by rewrite fmap_take, fmap_drop.
Qed.

Lemma array_at_fmap {A B} (g : A -> B) l i : array_at (g <$> l) i = (let* a := array_at l i in Ok (g a)).
Proof. unfold array_at. rewrite mread_fmap. by destruct (mread l i 1) as [[|? [|]]|]. Qed.

Lemma array_set_fmap {A B} (g : A -> B) l i a : array_set (g <$> l) i (g a) = (let* l := array_set l i a in Ok (g <$> l)).
Proof.
  unfold array_set, mwrite, in_block. rewrite length_fmap. cbn [length]. destruct (_ && _); [|done]. cbn. f_equal. unfold splice.
  by rewrite !fmap_app, fmap_take, fmap_drop.
Qed.

Lemma place_loop_map {A B} (g : A -> B) todo i x t :
  place_loop todo i (g x) (map_table g t) = (let* (id, t) := place_loop todo i x t in Ok (id, map_table g t)).
Proof.
  revert i. induction todo as [|todo IH]; intros i; [done|]. cbn [place_loop map_table nco cap co].
  destruct (int_of (i + nco t)) as [n|]; [|done]. cbn. rewrite array_at_fmap.
  destruct (array_at (co t) (n mod cap t)) as [[c|]|]; [|cbn|done].
  - apply IH.
  - change (Some (g x)) with (option_map g (Some x)). rewrite array_set_fmap.
    by destruct (array_set (co t) (n mod cap t) (Some x)).
Qed.

Lemma place_map {A B} (g : A -> B) x t :
  place (g x) (map_table g t) = (let* (id, t) := place x t in Ok (id, map_table g t)).
Proof.
  unfold place. cbn [map_table nco cap co]. destruct (cap t <=? nco t); [|apply place_loop_map].
  destruct (int_mul 2 (cap t)) as [c|]; [|done]. cbn.
  replace (replicate (Z.to_nat (cap t)) None) with (option_map g <$> replicate (Z.to_nat (cap t)) None) by by rewrite fmap_replicate.
  rewrite <- fmap_app. change (Some (g x)) with (option_map g (Some x)). rewrite array_set_fmap.
  by destruct (array_set (co t ++ replicate (Z.to_nat (cap t)) None) (cap t) (Some x)).
Qed.

Lemma erase_map {A B} (g : A -> B) id t : erase id (map_table g t) = (let* t := erase id t in Ok (map_table g t)).
Proof.
  unfold erase. cbn [map_table co]. change None with (option_map g None) at 1. rewrite array_set_fmap.
  by destruct (array_set (co t) id None).
Qed.

Lemma change_map {A B} (g : A -> B) id x t :
  change id (g x) (map_table g t) = (let* t := change id x t in Ok (map_table g t)).
Proof.
  unfold change. cbn [map_table co]. change (Some (g x)) with (option_map g (Some x)). rewrite array_set_fmap.
  by destruct (array_set (co t) id (Some x)).
Qed.

Lemma deref_map {A B} (g : A -> B) id t : deref id (map_table g t) = (let* c := deref id t in Ok (g c)).
Proof. unfold deref. cbn [map_table co]. rewrite array_at_fmap. by destruct (array_at (co t) id) as [[c|]|]. Qed.

(** ** The invariant *)

Lemma array_at_forall {A} (P : A -> Prop) l i a : array_at l i = Ok a -> Forall P l -> P a.
Proof.
  unfold array_at, mread, slice. destruct (in_block l i 1); [|done].
  destruct (take (Z.to_nat 1) (drop (Z.to_nat i) l)) as [|x [|]] eqn:E; [done| |done]. intros [= <-] Hl.
  apply (Forall_drop _ (Z.to_nat i)), (Forall_take _ (Z.to_nat 1)) in Hl. rewrite E in Hl. by inversion Hl.
Qed.

Lemma array_set_forall {A} (P : A -> Prop) l i a l' : array_set l i a = Ok l' -> P a -> Forall P l -> Forall P l'.
Proof.
  unfold array_set, mwrite, splice. destruct (in_block _ _ _); [|done]. intros [= <-] Ha Hl.
  apply Forall_app. split; [by apply Forall_take|]. constructor; [done | by apply Forall_drop].
Qed.

Lemma place_loop_forall {A} (P : option A -> Prop) todo i x t id t' : place_loop todo i x t = Ok (id, t') ->
  P (Some x) -> Forall P (co t) -> Forall P (co t').
Proof.
  intros Hpl Hx Ht. revert i Hpl. induction todo as [|todo IH]; intros i; [done|]. cbn.
  destruct (int_of _); [|done]. cbn. destruct (array_at _ _) as [[c|]|]; [apply IH| |done]. cbn.
  destruct (array_set _ _ _) as [l|] eqn:E; [|done]. intros [= <- <-]. by eapply array_set_forall.
Qed.

Lemma place_forall {A} (P : option A -> Prop) x t id t' : place x t = Ok (id, t') ->
  P (Some x) -> P None -> Forall P (co t) -> Forall P (co t').
Proof.
  unfold place. destruct (cap t <=? nco t); [|intros; by eapply place_loop_forall].
  destruct (int_mul 2 (cap t)); [|done]. cbn.
  destruct (array_set _ _ _) as [l|] eqn:E; [|done]. intros [= <- <-] Hx Hn Ht.
  eapply array_set_forall; [done..|]. apply Forall_app. split; [done|]. by apply Forall_replicate.
Qed.

Definition same (s : schedule) (a : system) : Prop := a = view_all s /\ sch_ok s.
Definition same_pair (x : schedule * W) (y : system * W) : Prop := same x.1 y.1 /\ x.2 = y.2.

Lemma deref_related s id : sch_ok s ->
  related (fun c p => p = view c /\ co_ok c) (deref id (tab s)) (deref id (p_tab (view_all s))).
Proof.
  intros [_ Ht]. cbn [view_all p_tab]. rewrite deref_map. unfold deref.
  destruct (array_at (co (tab s)) id) as [[c|]|] eqn:E; [|done..]. cbn.
  split; [done|]. by apply (array_at_forall slot_ok) in E.
Qed.

Lemma change_related s id c running' st : sch_ok s -> co_ok c -> zlen st = STACK_SIZE ->
  related (fun t t' => same (Schedule st running' t) (System running' t')) (change id c (tab s))
    (change id (view c) (p_tab (view_all s))).
Proof.
  intros [_ Ht] Hc Hst. cbn [view_all p_tab]. rewrite change_map. unfold change.
  destruct (array_set (co (tab s)) id (Some c)) as [l|] eqn:E; [|done]. cbn. split; [done|]. split; [done|].
  by apply (array_set_forall slot_ok) in E.
Qed.

Lemma new_related s f u : sch_ok s ->
  related (fun x y => x.1 = y.1 /\ same x.2 y.2 /\ sstack x.2 = sstack s) (coroutine_new s f u) (spec_new (view_all s) f u).
Proof.
  intros [Hl Ht]. unfold coroutine_new, spec_new. change (Private f u Ready) with (view (_co_new f u)).
  cbn [view_all p_tab]. rewrite place_map. destruct (place (_co_new f u) (tab s)) as [[id t]|] eqn:E; [|done]. cbn.
  split; [done|]. split; [|done]. split; [done|]. split; [done|].
  apply (place_forall slot_ok) in E; [done | cbn; split; [done | by left] | done..].
Qed.

Lemma status_related s id : sch_ok s -> coroutine_status s id = spec_get_status (view_all s) id.
Proof.
  intros [_ Ht]. unfold coroutine_status, spec_get_status. cbn [view_all p_tab map_table cap co].
  destruct (cxx_assert _); [|done]. cbn. rewrite array_at_fmap.
  destruct (array_at (co (tab s)) id) as [[c|]|] eqn:E; [|done..]. cbn. f_equal.
  apply (array_at_forall slot_ok) in E; [|done]. destruct E as (_ & [Hs|[Hs|(Hs & r & Hr & _)]]); rewrite Hs; cbn; [done..|]. by rewrite Hr.
Qed.

(** ** Saving and restoring a stack *)

Lemma save_stack_spec c st d : co_ok c -> zlen st = STACK_SIZE -> 0 <= d <= STACK_SIZE ->
  exists block, _save_stack c st d = Ok (Coroutine (func_ c) (ud_ c) (ctx c) (Z.max (scap c) d) d (status c) block) /\
    zlen block = Z.max (scap c) d /\ slice block 0 d = slice st (STACK_SIZE - d) d.
Proof.
  intros [Hlen _] Hst Hd. unfold _save_stack. rewrite cxx_assert_true by (apply Z.leb_le; lia). cbn [mbind outcome_bind].
  set (p := if scap c <? d then _ else _).
  assert (exists b0, p = (Z.max (scap c) d, b0) /\ zlen b0 = Z.max (scap c) d) as (b0 & -> & Hb).
  { subst p. destruct (scap c <? d) eqn:E; to_prop.
    - exists (replicate (Z.to_nat d) 0). rewrite length_replicate. split; [f_equal|]; lia.
    - exists (stack c). split; [f_equal|]; lia. }
  rewrite mread_ok by lia. cbn [mbind outcome_bind].
  set (bs := slice st (STACK_SIZE - d) d).
  assert (zlen bs = d) as Hbs by (apply length_slice; lia).
  rewrite mwrite_ok by lia. cbn [mbind outcome_bind]. eexists. split; [done|].
  split; [rewrite length_splice by lia; done|]. rewrite <- Hbs at 1. apply slice_splice_same; lia.
Qed.

Lemma yield_related s r d f : sch_ok s -> 0 <= d <= STACK_SIZE ->
  f = Frame r (slice (sstack s) (STACK_SIZE - d) d) ->
  related same (coroutine_yield s r d) (spec_stop (view_all s) f).
Proof.
  intros Hs Hd ->. unfold coroutine_yield, spec_stop. cbn [view_all p_running].
  apply related_same. intros _ _. eapply related_bind; [by apply deref_related|]. intros c p [-> Hc].
  destruct (save_stack_spec c (sstack s) d Hc (proj1 Hs) Hd) as (block & -> & Hb & Hsl). cbn [mbind outcome_bind].
  cbn [func_ ud_ ctx scap size stack]. set (c' := Coroutine _ _ (Some (r, d)) _ d COROUTINE_SUSPEND block).
  assert (Private (p_func (view c)) (p_ud (view c)) (Suspended (Frame r (slice (sstack s) (STACK_SIZE - d) d))) = view c') as ->.
  { unfold view, c'. cbn. by rewrite Hsl. }
  eapply related_bind; [apply change_related; [done | | apply Hs]|].
  - split; [done|]. right. right. split; [done|]. exists r. cbn. split_and!; [done | lia..].
  - intros t t' Ht. exact Ht.
Qed.

Lemma end_related s : sch_ok s -> related same (mainfunc_end s) (spec_end (view_all s)).
Proof.
  intros Hs. unfold mainfunc_end, spec_end. cbn [view_all p_running].
  eapply related_bind; [by apply deref_related|]. intros _ _ _. cbn [view_all p_tab]. rewrite erase_map.
  destruct (erase (running s) (tab s)) as [t|] eqn:E; [|done]. cbn. split; [done|]. destruct Hs as [Hst Ht]. split; [done|].
  unfold erase in E. destruct (array_set _ _ _) as [l|] eqn:El; [|done]. injection E as <-. by apply (array_set_forall slot_ok) in El.
Qed.

Lemma resume_related sw sw' s id w : sch_ok s ->
  (forall r d s w, sch_ok s -> 0 <= d <= STACK_SIZE ->
    related same_pair (sw r d s w) (sw' (Frame r (slice (sstack s) (STACK_SIZE - d) d)) (view_all s) w)) ->
  related same_pair (coroutine_resume sw s id w) (spec_resume sw' (view_all s) id w).
Proof.
  intros Hs Hsw. pose proof Hs as [Hst Ht]. unfold coroutine_resume, spec_resume. cbn [view_all p_running p_tab].
  apply related_same. intros _ _. cbn [map_table cap co]. apply related_same. intros _ _. rewrite array_at_fmap.
  destruct (array_at (co (tab s)) id) as [[c|]|] eqn:E; [|by cbn; split|done]. cbn [option_map mbind outcome_bind].
  apply (array_at_forall slot_ok) in E; [|done]. cbn in E. pose proof E as [Hlen Hstat].
  assert (Private (p_func (view c)) (p_ud (view c)) Active = view (with_status COROUTINE_RUNNING c)) as Hact by done.
  assert (co_ok (with_status COROUTINE_RUNNING c)) as Hrun by (split; [done | by right; left]).
  destruct Hstat as [Es|[Es|(Es & r & Ectx & Hsz & Hmax)]]; rewrite Es; unfold view at 1; rewrite Es; cbn [p_state Z.eqb Pos.eqb
    COROUTINE_READY COROUTINE_RUNNING COROUTINE_SUSPEND].
  - rewrite Hact. eapply related_bind; [by apply (change_related s id _ id (sstack s))|]. intros t t' [-> Hok].
    pose proof (Hsw entry 0 _ w Hok) as Hr. rewrite slice_nil in Hr. apply Hr. unfold STACK_SIZE. lia.
  - done.
  - rewrite Ectx, mread_ok by lia. cbn [mbind outcome_bind].
    set (bs := slice (stack c) 0 (size c)). assert (zlen bs = size c) as Hbs by (apply length_slice; lia).
    rewrite mwrite_ok by lia. cbn [mbind outcome_bind]. set (st := splice (sstack s) (STACK_SIZE - size c) bs).
    assert (zlen st = STACK_SIZE) as Hst' by (subst st; rewrite length_splice by lia; done).
    rewrite Hact. eapply related_bind; [by apply (change_related s id _ id st)|]. intros t t' [-> Hok].
    pose proof (Hsw r (size c) _ w Hok ltac:(lia)) as Hr. cbn [sstack] in Hr.
    replace (slice st (STACK_SIZE - size c) (size c)) with bs in Hr; [exact Hr|].
    symmetry. rewrite <- Hbs at 2. apply slice_splice_same; lia.
Qed.

(** ** Private stacks *)

Lemma deref_inside {A} id (t : table A) c : deref id t = Ok c -> 0 <= id.
Proof.
  unfold deref, array_at, mread, in_block. destruct (0 <=? id) eqn:E; [to_prop; done|]. done.
Qed.

(** A coroutine cannot resume another: the first assertion of [coroutine_resume] fails. *)
Lemma nested_resume sw s id w : 0 <= running s -> coroutine_resume sw s id w = Err AssertionFailure.
Proof. intros Hr. unfold coroutine_resume. replace (running s =? -1) with false by lia. done. Qed.

Lemma nested_spec_resume sw s id w : 0 <= p_running s -> spec_resume sw s id w = Err AssertionFailure.
Proof. intros Hr. unfold spec_resume. replace (p_running s =? -1) with false by lia. done. Qed.

Lemma run_related fuel a r d s w : sch_ok s -> 0 <= d <= STACK_SIZE ->
  related same_pair (run fuel a r d s w) (spec_run fuel a (Frame r (slice (sstack s) (STACK_SIZE - d) d)) (view_all s) w).
Proof.
  revert a r d s w. induction fuel as [|fuel IH]; intros a r d s w Hs Hd; [done|]. cbn [run spec_run].
  change (p_running (view_all s)) with (running s).
  destruct (deref (running s) (tab s)) as [c0|] eqn:Ed; [|cbn [view_all p_tab]; by rewrite deref_map, Ed].
  apply deref_inside in Ed as Hrun. rewrite <- Ed. clear Ed c0.
  eapply related_bind; [by apply deref_related|]. intros c p [-> Hc]. cbn [view p_func p_ud].
  pose proof Hs as [Hst Ht]. rewrite mread_ok by lia. cbn [mbind outcome_bind].
  destruct (body (func_ c) (ud_ c) a w _) as [[q w1] f]. cbn [mbind outcome_bind].
  destruct (zlen (bytes f) <=? STACK_SIZE) eqn:Ef; to_prop; cbn [guard_defined].
  2: { unfold mwrite, in_block. replace (0 <=? STACK_SIZE - zlen (bytes f)) with false by lia. done. }
  rewrite mwrite_ok by lia. cbn [mbind outcome_bind]. set (d1 := zlen (bytes f)) in *.
  set (s1 := set_stack _ s).
  assert (sch_ok s1) as Hs1 by (split; [cbn; rewrite length_splice by lia; done | done]).
  assert (f = Frame (regs f) (slice (sstack s1) (STACK_SIZE - d1) d1)) as Hf.
  { destruct f as [rf bf]. cbn. f_equal. symmetry. apply slice_splice_same; cbn in *; lia. }
  assert (0 <= d1 <= STACK_SIZE) as Hd1 by lia.
  change (view_all s) with (view_all s1). change (running s) with (running s1) in Hrun |- *.
  clearbody d1 s1.
  destruct q as [| |g u|id|id|].
  - eapply related_bind; [by apply (yield_related s1 (regs f) d1 f)|]. intros s2 a2 H2. by split.
  - eapply related_bind; [by apply end_related|]. intros s2 a2 H2. by split.
  - eapply related_bind; [by apply new_related|]. intros [id s2] [id' a2] (Eid & [Ea Hok] & Est). cbn in Eid, Ea, Hok, Est. subst id' a2.
    pose proof (IH (Result id) (regs f) d1 s2 w1 Hok Hd1) as Hr. by rewrite Est, <- Hf in Hr.
  - by rewrite nested_resume, nested_spec_resume.
  - rewrite status_related by done. apply related_same. intros v _.
    pose proof (IH (Result v) (regs f) d1 s1 w1 Hs1 Hd1) as Hr. by rewrite <- Hf in Hr.
  - pose proof (IH (Result (running s1)) (regs f) d1 s1 w1 Hs1 Hd1) as Hr. rewrite <- Hf in Hr. exact Hr.
Qed.
Lemma open_ok mem : sch_ok (coroutine_open mem).
Proof.
  split; [cbn [coroutine_open sstack]; rewrite length_fmap, length_seq; unfold STACK_SIZE; lia|].
  cbn [coroutine_open tab co]. by apply Forall_replicate.
Qed.

Definition same_result (x : Z * schedule * W) (y : Z * system * W) : Prop := x.1.1 = y.1.1 /\ same x.1.2 y.1.2 /\ x.2 = y.2.
Definition same_results (x : list Z * schedule * W) (y : list Z * system * W) : Prop :=
  x.1.1 = y.1.1 /\ same x.1.2 y.1.2 /\ x.2 = y.2.

Lemma main_step_related fuel c s w : sch_ok s ->
  related same_result (main_step fuel c s w) (spec_step fuel c (view_all s) w).
Proof.
  intros Hs. destruct c as [f u|id|id]; cbn [main_step spec_step].
  - eapply related_bind; [by apply new_related|]. intros [id s2] [id' a2] (E & H2 & _). cbn in E, H2. subst id'. by split_and!.
  - eapply related_bind; [apply resume_related; [done | intros; by apply run_related]|].
    intros [s2 w2] [a2 w2'] [H2 E]. cbn in E, H2. subst w2'. by split_and!.
  - rewrite status_related by done. apply related_same. intros v _. by split_and!.
Qed.

Lemma main_run_related fuel l s w : sch_ok s ->
  related same_results (main_run fuel l s w) (spec_main fuel l (view_all s) w).
Proof.
  revert s w. induction l as [|c l IH]; intros s w Hs; [by split_and!|]. cbn [main_run spec_main].
  eapply related_bind; [by apply main_step_related|]. intros [[v s2] w2] [[v' a2] w2'] (E1 & [Ea Hs2] & E2). cbn [fst snd] in E1, Ea, E2, Hs2. subst v' a2 w2'.
  eapply related_bind; [by apply IH|]. intros [[vs s3] w3] [[vs' a3] w3'] (E3 & H3 & E4). cbn in *. subst vs' w3'. by split_and!.
Qed.

End Library.

(** ** The table *)

Section Tables.
Context {A : Type}.
Implicit Types (l : list (option A)) (t : table A).

Definition live l : Z := zlen (omap id l).

(** [nco] counts the coroutines in the table. *)
Record tab_ok t : Prop := {
  tab_len : zlen (co t) = cap t;
  tab_cap : 0 < cap t;
  tab_nco : nco t = live (co t)
}.

Lemma live_app l1 l2 : live (l1 ++ l2) = live l1 + live l2.
Proof. unfold live. rewrite omap_app, length_app. lia. Qed.

Lemma live_le l : 0 <= live l <= zlen l.
Proof. unfold live. induction l as [|[x|] l IH]; cbn in *; lia. Qed.

Lemma live_none n : live (replicate n None) = 0.
Proof. induction n; cbn in *; [done|]. by unfold live in *. Qed.

Lemma live_insert l i o o' : l !! i = Some o ->
  live (<[i:=o']> l) = live l - live [o] + live [o'].
Proof.
  intros Hi. rewrite <- (take_drop_middle l i o Hi) at 2. rewrite insert_take_drop by by eapply lookup_lt_Some.
  rewrite !live_app. change (o' :: drop (S i) l) with ([o'] ++ drop (S i) l). change (o :: drop (S i) l) with ([o] ++ drop (S i) l).
  rewrite !live_app. lia.
Qed.

Lemma free_exists l : live l < zlen l -> exists i, l !! i = Some None.
Proof.
  induction l as [|[x|] l IH]; cbn; [unfold live; cbn; lia | | by exists 0%nat].
  intros Hl. destruct IH as [i Hi]; [unfold live in *; cbn in *; lia | by exists (S i)].
Qed.

Lemma place_loop_finds x t todo i j : tab_ok t -> cap t < 2 ^ 30 -> 0 <= i -> i + Z.of_nat todo = cap t ->
  i <= j < cap t -> co t !! Z.to_nat ((j + nco t) mod cap t) = Some None ->
  exists id, place_loop todo i x t = Ok (id, Table (nco t + 1) (cap t) (<[Z.to_nat id:=Some x]> (co t))) /\
    0 <= id < cap t /\ co t !! Z.to_nat id = Some None.
Proof.
  intros [Hlen Hcap Hn] Hbig Hi0 Htodo Hj Hfree. pose proof (live_le (co t)) as Hlive.
  revert i Hi0 Htodo Hj. induction todo as [|todo IH]; intros i Hi0 Htodo Hj; [lia|]. cbn [place_loop].
  rewrite int_of_ok by lia. cbn [mbind outcome_bind]. set (id := (i + nco t) mod cap t).
  assert (0 <= id < cap t) as Hid by (apply Z.mod_pos_bound; lia).
  destruct (lookup_lt_is_Some_2 (co t) (Z.to_nat id)) as [o Ho]; [lia|].
  rewrite (array_at_lookup _ _ _ (proj1 Hid) Ho). cbn [mbind outcome_bind]. destruct o as [c|].
  - apply IH; try lia. destruct (decide (i = j)) as [<-|]; [fold id in Hfree; congruence | lia].
  - rewrite array_set_insert by lia. by exists id.
Qed.

(** A coroutine is put where there was none, and nothing else changes. *)
Lemma place_spec x t : tab_ok t -> cap t < 2 ^ 30 ->
  exists id t', place x t = Ok (id, t') /\ tab_ok t' /\ 0 <= id < cap t' /\ cap t <= cap t' /\
    co t' !! Z.to_nat id = Some (Some x) /\ (id < cap t -> co t !! Z.to_nat id = Some None) /\
    forall i, i <> Z.to_nat id -> (i < length (co t))%nat -> co t' !! i = co t !! i.
Proof.
  intros Hok Hbig. pose proof Hok as [Hlen Hcap Hn]. unfold place. destruct (cap t <=? nco t) eqn:E; to_prop.
  - pose proof (live_le (co t)). unfold int_mul. rewrite int_of_ok by lia. cbn [mbind outcome_bind].
    set (l := co t ++ replicate (Z.to_nat (cap t)) None).
    assert (zlen l = 2 * cap t) as Hl by (subst l; rewrite length_app, length_replicate; lia).
    rewrite array_set_insert by lia. cbn [mbind outcome_bind]. eexists _, _. split; [done|]. cbn [co cap nco].
    assert (l !! Z.to_nat (cap t) = Some None) as Hnone.
    { subst l. rewrite lookup_app_r by lia. apply lookup_replicate_2. lia. }
    split_and!; try lia.
    + split; cbn [co cap nco]; [by rewrite length_insert | lia|].
      rewrite (live_insert _ _ _ _ Hnone). subst l. rewrite live_app, live_none. change (live [None]) with 0. change (live [Some x]) with 1. lia.
    + apply list_lookup_insert_eq. lia.
    + intros i Hi Hlt. rewrite list_lookup_insert_ne by done. subst l. by apply lookup_app_l.
  - destruct (free_exists (co t)) as [k Hk]; [lia|]. pose proof (lookup_lt_Some _ _ _ Hk) as Hklt.
    pose proof (live_le (co t)) as Hlive.
    set (j := (Z.of_nat k - nco t) mod cap t). assert (0 <= j < cap t) as Hj by (apply Z.mod_pos_bound; lia).
    assert ((j + nco t) mod cap t = Z.of_nat k) as Hjk.
    { subst j. rewrite Z.add_mod_idemp_l by lia. replace (Z.of_nat k - nco t + nco t) with (Z.of_nat k) by lia.
      apply Z.mod_small. lia. }
    destruct (place_loop_finds x t (Z.to_nat (cap t)) 0 j Hok Hbig) as (id & -> & Hid & Hfree); [lia..| |].
    { by rewrite Hjk, Nat2Z.id. }
    eexists _, _. split; [done|]. cbn [co cap nco]. split_and!; try lia; try done.
    + split; cbn [co cap nco]; [by rewrite length_insert | lia|]. rewrite (live_insert _ _ _ _ Hfree).
      change (live [None]) with 0. change (live [Some x]) with 1. lia.
    + apply list_lookup_insert_eq. lia.
    + intros i Hi _. by rewrite list_lookup_insert_ne.
Qed.

(** What a call does to the table: only the coroutine [id] is changed or taken out. *)
Definition keeps (id : Z) (t t' : table A) : Prop :=
  tab_ok t -> tab_ok t' /\ cap t <= cap t' /\
    forall i c, i <> Z.to_nat id -> co t !! i = Some (Some c) -> co t' !! i = Some (Some c).

Lemma keeps_refl id t : keeps id t t.
Proof. intros Hok. split_and!; [done | lia | done]. Qed.

Lemma keeps_trans id t1 t2 t3 : keeps id t1 t2 -> keeps id t2 t3 -> keeps id t1 t3.
Proof.
  intros H1 H2 Hok. destruct (H1 Hok) as (Hok2 & Hc & H3). destruct (H2 Hok2) as (Hok3 & Hc' & H4).
  split_and!; [done | lia | auto].
Qed.

Lemma array_at_inv {B} (l : list B) i a : array_at l i = Ok a -> 0 <= i < zlen l /\ l !! Z.to_nat i = Some a.
Proof.
  intros E. assert (0 <= i < zlen l) as Hi.
  { revert E. unfold array_at, mread, in_block. destruct (_ && _) eqn:Eb; [intros _; to_prop; lia | done]. }
  split; [done|]. destruct (lookup_lt_is_Some_2 l (Z.to_nat i)) as [b Hb]; [lia|].
  rewrite (array_at_lookup _ _ _ (proj1 Hi) Hb) in E. by injection E as ->.
Qed.

Lemma array_set_inv {B} (l l' : list B) i a : array_set l i a = Ok l' -> 0 <= i < zlen l /\ l' = <[Z.to_nat i:=a]> l.
Proof.
  intros E. assert (0 <= i < zlen l) as Hi.
  { revert E. unfold array_set, mwrite, in_block. cbn [length]. destruct (_ && _) eqn:Eb; [intros _; to_prop; lia | done]. }
  split; [done|]. rewrite array_set_insert in E by done. by injection E as <-.
Qed.

Lemma deref_inv id t c : deref id t = Ok c -> 0 <= id < zlen (co t) /\ co t !! Z.to_nat id = Some (Some c).
Proof.
  unfold deref. destruct (array_at (co t) id) as [[c'|]|] eqn:E; [|done..]. apply array_at_inv in E. cbn. by intros [= <-].
Qed.

Lemma insert_keeps id t o o' n : co t !! Z.to_nat id = Some o -> n = nco t - live [o] + live [o'] ->
  keeps id t (Table n (cap t) (<[Z.to_nat id:=o']> (co t))).
Proof.
  intros Ho -> [Hlen Hcap Hn]. split; [split; cbn [co cap nco]; [by rewrite length_insert | lia|]|].
  - rewrite (live_insert _ _ _ _ Ho). lia.
  - cbn [co cap]. split; [lia|]. intros i c Hi Hc. by rewrite list_lookup_insert_ne.
Qed.

Lemma change_keeps id x t t' c : co t !! Z.to_nat id = Some (Some c) -> change id x t = Ok t' -> keeps id t t'.
Proof.
  intros Hc. unfold change. destruct (array_set _ _ _) as [l|] eqn:E; [|done]. cbn. intros [= <-].
  apply array_set_inv in E as [_ ->]. eapply insert_keeps; [exact Hc|]. change (live [Some c]) with 1. change (live [Some x]) with 1. lia.
Qed.

Lemma erase_keeps id t t' c : deref id t = Ok c -> erase id t = Ok t' -> keeps id t t'.
Proof.
  intros [_ Hc]%deref_inv. unfold erase. destruct (array_set _ _ _) as [l|] eqn:E; [|done]. cbn. intros [= <-].
  apply array_set_inv in E as [_ ->]. eapply insert_keeps; [exact Hc|]. change (live [Some c]) with 1. change (live [None]) with 0. lia.
Qed.

Lemma free_keeps id id' x t n : co t !! Z.to_nat id = Some None -> n = nco t + 1 ->
  keeps id' t (Table n (cap t) (<[Z.to_nat id:=Some x]> (co t))).
Proof.
  intros Ho -> Hok. destruct (insert_keeps id t None (Some x) (nco t + 1) Ho) as (H1 & H2 & H3); [|done|].
  - change (live [None]) with 0. change (live [Some x]) with 1. lia.
  - split_and!; [done..|]. intros i c Hi Hc. apply H3; [|done]. intros ->. congruence.
Qed.

Lemma place_keeps id' x t id t' : place x t = Ok (id, t') -> keeps id' t t'.
Proof.
  unfold place. destruct (cap t <=? nco t) eqn:E; to_prop.
  - destruct (int_mul 2 (cap t)) as [c|] eqn:Ec; [|done]. cbn. apply int_of_inv in Ec as [-> _].
    set (t1 := Table (nco t) (2 * cap t) (co t ++ replicate (Z.to_nat (cap t)) None)).
    destruct (array_set _ _ _) as [l|] eqn:El; [|done]. cbn. intros [= <- <-].
    apply array_set_inv in El as [Hl ->].
    assert (0 < cap t -> zlen (co t) = cap t -> co t1 !! Z.to_nat (cap t) = Some None) as Hnone.
    { intros Hcap Hlen. subst t1. cbn. rewrite lookup_app_r by lia. apply lookup_replicate_2. lia. }
    intros Hok. pose proof Hok as [Hlen Hcap Hn]. assert (keeps id' t t1) as H1.
    { intros _. subst t1. split_and!; cbn; [|lia|].
      - split; cbn; [rewrite length_app, length_replicate; lia | lia | rewrite live_app, live_none; lia].
      - intros i c _ Hc. by apply lookup_app_l_Some. }
    exact (keeps_trans id' t t1 _ H1 (free_keeps (cap t) id' x t1 _ (Hnone Hcap Hlen) eq_refl) Hok).
  - generalize (Z.to_nat (cap t)), 0. intros todo. induction todo as [|todo IH]; intros i; [done|]. cbn.
    destruct (int_of _) as [n|]; [|done]. cbn. destruct (array_at _ _) as [[c|]|] eqn:Ea; [apply IH| |done]. cbn.
    destruct (array_set _ _ _) as [l|] eqn:El; [|done]. cbn. intros [= <- <-].
    apply array_at_inv in Ea as [_ Ha]. apply array_set_inv in El as [_ ->]. by apply free_keeps.
Qed.
End Tables.

(** ** What a call leaves as it was *)

Section Runs.
Context {W R func ud : Type}.
Context (entry : R) (body : func -> ud -> answer -> W -> frame R -> request func ud * W * frame R).
Implicit Types s : @schedule R func ud.

Lemma new_keeps id' s f u id s' : coroutine_new s f u = Ok (id, s') ->
  keeps id' (tab s) (tab s') /\ running s' = running s.
Proof.
  unfold coroutine_new. destruct (place _ _) as [[n t]|] eqn:E; [|done]. cbn. intros [= <- <-]. cbn.
  split; [by eapply place_keeps | done].
Qed.

Lemma yield_keeps s r d s' : coroutine_yield s r d = Ok s' -> keeps (running s) (tab s) (tab s') /\ running s' = -1.
Proof.
  unfold coroutine_yield. destruct (cxx_assert _); [|done]. cbn. destruct (deref _ _) as [c|] eqn:Ed; [|done]. cbn.
  apply deref_inv in Ed as [_ Ed].
  destruct (_save_stack c (sstack s) d) as [c'|]; [|done]. cbn. destruct (change _ _ _) as [t|] eqn:Ec; [|done]. cbn.
  intros [= <-]. cbn. split; [|done]. by eapply change_keeps.
Qed.

Lemma end_keeps s s' : mainfunc_end s = Ok s' -> keeps (running s) (tab s) (tab s') /\ running s' = -1.
Proof.
  unfold mainfunc_end. destruct (deref _ _) as [c|] eqn:Ed; [|done]. cbn. destruct (erase _ _) as [t|] eqn:Ec; [|done]. cbn.
  intros [= <-]. cbn. split; [|done]. by eapply erase_keeps.
Qed.

Lemma run_keeps fuel a r d s w s' w' : run entry body fuel a r d s w = Ok (s', w') ->
  keeps (running s) (tab s) (tab s') /\ running s' = -1.
Proof.
  revert a r d s w. induction fuel as [|fuel IH]; intros a r d s w; [done|]. cbn [run].
  destruct (deref (running s) (tab s)) as [c|] eqn:Ed; [|done]. apply deref_inside in Ed as Hrun. cbn [mbind outcome_bind].
  destruct (mread _ _ _) as [bs|]; [|done]. cbn [mbind outcome_bind]. destruct (body _ _ _ _ _) as [[q w1] f].
  destruct (mwrite _ _ _) as [st|]; [|done]. cbn [mbind outcome_bind].
  destruct q as [| |g u|id|id|].
  - destruct (coroutine_yield _ _ _) as [s1|] eqn:E; [|done]. cbn. intros [= <- <-]. by apply yield_keeps in E.
  - destruct (mainfunc_end _) as [s1|] eqn:E; [|done]. cbn. intros [= <- <-]. by apply end_keeps in E.
  - destruct (coroutine_new _ _ _) as [[id s1]|] eqn:E; [|done]. cbn. apply (new_keeps (running s)) in E as [Hk Er]. cbn in Er.
    intros [Hk2 Hend]%IH. rewrite Er in Hk2. split; [|done]. by eapply keeps_trans.
  - by rewrite nested_resume.
  - destruct (coroutine_status _ _) as [v|]; [|done]. cbn. intros Hx%IH. exact Hx.
  - intros Hx%IH. exact Hx.
Qed.

Lemma resume_keeps fuel s id w s' w' : running s = -1 ->
  coroutine_resume entry (run entry body fuel Go) s id w = Ok (s', w') -> keeps id (tab s) (tab s') /\ running s' = -1.
Proof.
  intros Hidle. unfold coroutine_resume. destruct (cxx_assert (running s =? -1)); [|discriminate].
  cbn [mbind outcome_bind]. destruct (cxx_assert (_ && _)); [|discriminate].
  cbn [mbind outcome_bind]. destruct (array_at _ _) as [[c|]|] eqn:Ea; [| |discriminate]; cbn [mbind outcome_bind].
  2: { intros [= <- <-]. split; [apply keeps_refl | done]. }
  apply array_at_inv in Ea as [_ Ea].
  assert (forall st r d t, change id (with_status COROUTINE_RUNNING c) (tab s) = Ok t ->
    run entry body fuel Go r d (Schedule st id t) w = Ok (s', w') -> keeps id (tab s) (tab s') /\ running s' = -1) as Hgo.
  { intros st r d t Ec [Hk Hr]%run_keeps. split; [|done]. eapply keeps_trans; [by eapply change_keeps | exact Hk]. }
  destruct (status c =? COROUTINE_READY); [|destruct (status c =? COROUTINE_SUSPEND); [|done]].
  - destruct (change _ _ _) as [t|] eqn:Ec; [|done]. cbn [mbind outcome_bind]. by apply Hgo.
  - destruct (mread _ _ _) as [bs|]; [|done]. cbn [mbind outcome_bind].
    destruct (mwrite _ _ _) as [st|]; [|done]. cbn [mbind outcome_bind].
    destruct (change _ _ _) as [t|] eqn:Ec; [|done]. cbn [mbind outcome_bind]. destruct (ctx c) as [[r d]|]; [by apply Hgo | done].
Qed.

Definition idle_ok s : Prop := running s = -1 /\ tab_ok (tab s).

Lemma open_idle mem : idle_ok (coroutine_open mem).
Proof.
  split; [done|]. split; cbn [coroutine_open tab co cap nco]; [by rewrite length_replicate | done | by rewrite live_none].
Qed.

Lemma main_step_idle fuel c s w v s' w' : idle_ok s -> main_step entry body fuel c s w = Ok (v, s', w') -> idle_ok s'.
Proof.
  intros [Hr Ht]. destruct c as [f u|id|id]; cbn [main_step].
  - destruct (coroutine_new _ _ _) as [[id s1]|] eqn:E; [|done]. cbn. intros [= _ <- _].
    apply (new_keeps 0) in E as [Hk E]. split; [by rewrite E | by apply Hk].
  - destruct (coroutine_resume _ _ _ _ _) as [[s1 w1]|] eqn:E; [|done]. cbn. intros [= _ <- _].
    apply resume_keeps in E as [Hk E]; [|done]. split; [done | by apply Hk].
  - destruct (coroutine_status _ _); [|done]. cbn. intros [= _ <- _]. done.
Qed.

Lemma main_run_idle fuel l s w vs s' w' : idle_ok s -> main_run entry body fuel l s w = Ok (vs, s', w') -> idle_ok s'.
Proof.
  revert s w vs. induction l as [|c l IH]; intros s w vs Hs; cbn [main_run]; [by intros [= _ <- _]|].
  destruct (main_step _ _ _ _ _ _) as [[[v s1] w1]|] eqn:E; [|done]. cbn [mbind outcome_bind].
  apply main_step_idle in E; [|done].
  destruct (main_run _ _ _ _ _ _) as [[[vs1 s2] w2]|] eqn:E2; [|done]. cbn [mbind outcome_bind]. intros [= <- <- <-].
  by apply IH in E2.
Qed.

Lemma status_slot s id o : 0 <= id < cap (tab s) -> co (tab s) !! Z.to_nat id = Some o ->
  coroutine_status s id = Ok (match o with Some c => status c | None => COROUTINE_DEAD end).
Proof.
  intros Hid Ho. unfold coroutine_status. rewrite cxx_assert_true by lia. cbn [mbind outcome_bind].
  rewrite (array_at_lookup _ _ _ (proj1 Hid) Ho). cbn. by destruct o.
Qed.
End Runs.

(** C13. Private stacks: whatever the coroutines and the main program do, the library, which
    runs every coroutine on one stack and copies what they use of it in and out, gives
    the results that it would give if each coroutine had a stack of its own. *)
Theorem coroutines_have_private_stacks {W R func ud : Type} (entry : R)
    (body : func -> ud -> answer -> W -> frame R -> request func ud * W * frame R)
    (mem : nat -> Z) (fuel : nat) (calls : list (@main_call func ud)) (w : W) :
  match spec_main entry body fuel calls spec_open w with
  | Ok (vs, a, w') => exists s, main_run entry body fuel calls (coroutine_open mem) w = Ok (vs, s, w') /\ view_all s = a
  | Err f => main_run entry body fuel calls (coroutine_open mem) w = Err f
  end.
Proof.
  pose proof (main_run_related entry body fuel calls (coroutine_open mem) w (open_ok mem)) as Hr.
  change (view_all (coroutine_open mem)) with (@spec_open R func ud) in Hr.
  destruct (main_run _ _ _ _ _ _) as [[[vs s] w1]|f], (spec_main _ _ _ _ _ _) as [[[vs' a] w1']|f']; try done; [|by cbn in Hr; subst].
  destruct Hr as (E1 & [E2 _] & E3). cbn in E1, E2, E3. subst. by exists s.
Qed.

(** A coroutine is always given a free id: after any calls [coroutine_new] succeeds (while
    the table has fewer than 2^30 places), the id is of no live coroutine, the new
    coroutine is ready, and the others are as before. *)
Theorem new_coroutine_free_id {W R func ud : Type} (entry : R)
    (body : func -> ud -> answer -> W -> frame R -> request func ud * W * frame R)
    (mem : nat -> Z) (fuel : nat) (calls : list (@main_call func ud)) (w w' : W) (vs : list Z) (s : schedule) (f : func) (u : ud) :
  main_run entry body fuel calls (coroutine_open mem) w = Ok (vs, s, w') -> cap (tab s) < 2 ^ 30 ->
  exists id s', coroutine_new s f u = Ok (id, s') /\ 0 <= id < cap (tab s') /\
    (id < cap (tab s) -> coroutine_status s id = Ok COROUTINE_DEAD) /\
    coroutine_status s' id = Ok COROUTINE_READY /\
    forall j, 0 <= j < cap (tab s) -> j <> id -> coroutine_status s' j = coroutine_status s j.
Proof.
  intros Hrun Hcap. apply main_run_idle in Hrun as [_ Ht]; [|apply open_idle].
  destruct (place_spec (_co_new f u : @coroutine R func ud) (tab s) Ht Hcap)
    as (id & t & E & Ht' & Hid & Hle & Hnew & Hfree & Hold).
  exists id, (Schedule (sstack s) (running s) t). unfold coroutine_new. rewrite E. cbn [mbind outcome_bind].
  split; [done|]. cbn [tab]. split; [done|]. split; [|split].
  - intros Hlt. by rewrite (status_slot s id None ltac:(lia) (Hfree Hlt)).
  - exact (status_slot (Schedule (sstack s) (running s) t) id (Some (_co_new f u)) Hid Hnew).
  - intros j Hj Hn. pose proof (tab_len _ Ht) as Hlen.
    destruct (lookup_lt_is_Some_2 (co (tab s)) (Z.to_nat j)) as [o Ho]; [lia|].
    rewrite (status_slot s j o Hj Ho). apply (status_slot (Schedule (sstack s) (running s) t)); [cbn; lia|].
    cbn. rewrite Hold; [done | lia..].
Qed.

(** A resume leaves every other coroutine exactly as it was. *)
Lemma resume_leaves_others {W R func ud : Type} (entry : R)
    (body : func -> ud -> answer -> W -> frame R -> request func ud * W * frame R)
    (mem : nat -> Z) (fuel : nat) (calls : list (@main_call func ud)) (w w1 w2 : W) (vs : list Z) (s s' : schedule) (id : Z) :
  main_run entry body fuel calls (coroutine_open mem) w = Ok (vs, s, w1) ->
  coroutine_resume entry (run entry body fuel Go) s id w1 = Ok (s', w2) ->
  forall i c, i <> Z.to_nat id -> co (tab s) !! i = Some (Some c) -> co (tab s') !! i = Some (Some c).
Proof.
  intros [Hidle Ht]%main_run_idle Hres; [|apply open_idle]. apply resume_keeps in Hres as [Hk _]; [|done]. by apply Hk.
Qed.

(** ** main.c *)

(** [foo]: its registers are the place it is at, its frame holds [start] and [i]; the world is
    what is printed, the number of a coroutine and its value. *)
Definition foo (_ : unit) (n : Z) (a : answer) (w : list (Z * Z)) (f : frame nat)
    : request unit Z * list (Z * Z) * frame nat :=
  let loop start i := if i <? 5 then (Running, w, Frame 1%nat [start; i]) else (Return, w, Frame 3%nat [start; i]) in
  match regs f, bytes f, a with
  | 0%nat, _, _ => loop n 0
  | 1%nat, [start; i], Result v => (Yield, w ++ [(v, start + i)], Frame 2%nat [start; i])
  | 2%nat, [start; i], _ => loop start (i + 1)
  | _, _, _ => (Return, w, f)
  end.

(** The calls of [test], with the rounds of its loop laid out: the loop ends when a status is 0. *)
Definition round : list (@main_call unit Z) := [CStatus 0; CStatus 1; CResume 0; CResume 1].
Definition test : list (@main_call unit Z) :=
  [CNew tt 0; CNew tt 100] ++ concat (replicate 6 round) ++ [CStatus 0].

Lemma main_run_evaluates calls vs a w' mem : spec_main 0%nat foo 10 calls spec_open [] = Ok (vs, a, w') ->
  exists s, main_run 0%nat foo 10 calls (coroutine_open mem) [] = Ok (vs, s, w') /\ view_all s = a.
Proof.
  intros E. pose proof (main_run_related 0%nat foo 10 calls (coroutine_open mem) [] (open_ok mem)) as Hr.
  change (view_all (coroutine_open mem)) with (@spec_open nat unit Z) in Hr. rewrite E in Hr.
  destruct (main_run _ _ _ _ _ _) as [[[vs1 s] w1]|]; [|done]. destruct Hr as (E1 & [E2 _] & E3). cbn in E1, E2, E3.
  exists s. by subst.
Qed.

(** The two coroutines count in turns; both statuses are 3 until the sixth round ends them. *)
Example test_prints mem : exists s vs,
  main_run 0%nat foo 10 test (coroutine_open mem) [] =
    Ok (vs, s, [(0, 0); (1, 100); (0, 1); (1, 101); (0, 2); (1, 102); (0, 3); (1, 103); (0, 4); (1, 104)]) /\
  vs = [0; 1; 1; 1; 0; 0] ++ concat (replicate 5 [3; 3; 0; 0]) ++ [0] /\ nco (tab s) = 0.
Proof.
  destruct (main_run_evaluates test _ _ _ mem ltac:(vm_compute; reflexivity)) as (s & E & Ev).
  exists s. eexists. split; [exact E|]. split; [reflexivity|].
  change (nco (tab s)) with (nco (p_tab (view_all s))). by rewrite Ev.
Qed.

Lemma new_coroutine_free_id_witness : exists s w', main_run 0%nat foo 10 (take 7 test) (coroutine_open (fun _ => 0)) [] =
    Ok ([0; 1; 1; 1; 0; 0; 3], s, w') /\
  exists id s', coroutine_new s tt 7 = Ok (id, s') /\ coroutine_status s' id = Ok COROUTINE_READY.
Proof.
  destruct (main_run_evaluates (take 7 test) _ _ _ (fun _ => 0) ltac:(vm_compute; reflexivity)) as (s & E & Ev).
  exists s. eexists. split; [exact E|].
  destruct (new_coroutine_free_id 0%nat foo (fun _ => 0) 10 _ _ _ _ _ tt 7 E) as (id & s' & En & _ & _ & Er & _).
  - change (cap (tab s)) with (cap (p_tab (view_all s))). rewrite Ev. reflexivity.
  - exists id, s'. exact (conj En Er).
Defined.

(** The pointer that [mainfunc] puts together is the one that [coroutine_resume] took apart. *)
Lemma join_split_ptr ptr : 0 <= ptr < 2 ^ 64 -> join_ptr (split_ptr ptr).1 (split_ptr ptr).2 = ptr.
Proof.
  intros Hp. unfold join_ptr, split_ptr. cbn [fst snd].
  assert (0 <= ptr / 2 ^ 32 < 2 ^ 32) as Hd by (split; [apply Z.div_pos; lia | apply Z.div_lt_upper_bound; lia]).
  rewrite Z.shiftr_div_pow2, (wrap_small 32 (ptr / 2 ^ 32)), Z.shiftl_mul_pow2 by lia.
  rewrite (wrap_small 64) by lia. unfold wrap.
  pose proof (Z.mod_pos_bound ptr (2 ^ 32) ltac:(lia)). rewrite lor_add by lia.
  pose proof (Z.div_mod ptr (2 ^ 32)). lia.
Qed.
